(* ===== verification/_CoqProject ===== *)
-Q . S2P
Prelude.v
Utf8.v
Str.v
Bounds.v
JsonGrammar.v
Frames.v
Serde.v
WireQuery.v
WireValue.v
WireValueFacts.v
Wire.v
WireFacts.v
WireJson.v
WireJsonFacts.v
WireSample.v
Private.v
Auth.v
History.v
HistoryFacts.v
Service.v
ServiceFacts.v
SqlQuery.v
SqlQueryFacts.v
SchemaTok.v
Errors.v
LensValue.v
SshArgs.v
LogSource.v
LogFacts.v
Output.v
Keyword.v
KeywordFacts.v
Profile.v
Policy.v
Session.v
SessionFacts.v
Tools.v
RemoteWire.v
RemoteService.v
RemoteFacts.v
RemoteExchange.v
Watchdog.v
Text.v
Disk.v
DiskFacts.v
Manifest.v
Retention.v
ManifestFacts.v
SnapshotFacts.v
RetentionFacts.v
ReplayFacts.v
InitData.v
AgentsMd.v
Toml.v
McpConfig.v
WritersFacts.v
EnvFile.v
Flow.v
InitFlow.v
Commit.v
CommitFacts.v
Driver.v
Drivers.v
Database.v
DatabaseFacts.v
Serve.v
ServeFacts.v
Dto.v
Frontend.v
FrontendFacts.v
Trust.v
Check.v
CheckFacts.v
Config.v
QueryCli.v
ServerStart.v
SshExec.v
Cli.v
Demo.v
Chokepoint.v
