(* ===== verification/Prelude.v ===== *)
(** * gaze-lens: a verification development

    ** The program

    gaze-lens lets an AI agent look at production data without seeing personal
    data.  Its parts are these.

    - The _lens_ (src/src) runs beside the agent.  A session belongs to a
      profile; a profile names a source (a database, a log file, a log over
      ssh, or a remote lens server) and a policy.  A tool call is compiled to a
      read-only query or to a log window, its output goes through the Gaze
      pipeline that the policy builds, under output caps, and only the redacted
      result is shown, with sanitized errors.
    - The _lens server_ (src/crates/gaze-lens-server) answers one operation per
      TLS connection for a remote lens, in the protocol [gaze-lens-source/2]
      (src/crates/gaze-lens-protocol): Prepare, Prepared, Call, then a Success
      or a Failure.  What a credential may do is decided by an authority file;
      identities that were ever enrolled are kept in a durable ledger.
    - The _remote log_ (src/src/source/remote) is a client and a service for
      the tail of one log over TLS, with grants of its own, and a watchdog that
      ends the process when a result outlives its deadline.
    - The _manifest_ (src/src/session, src/src/manifest) records every call of a
      session in SQLite and its snapshot in a file; a session can be replayed
      from it, and old snapshots are purged.
    - _init_ (src/src/cli/init) asks the operator, or reads a remote environment
      file, and writes the profile, the policy, the configuration of the agents'
      clients and the instructions for agents.

    ** The files, and what each models

    Shared: this file (fallible computations, bytes, lists, automation),
    [Utf8] and [Str] (the parts of [core::str] the sources use).

    Protocol (src/crates/gaze-lens-protocol/src):
    - [Bounds]: lib.rs and bounds.rs.  The cursor [at] of the scanner is the
      unread suffix.  Facts in [JsonGrammar] (scanner and number check against
      a grammar of JSON) and [Frames] (the frame accumulator).
    - [Serde]: the interface to serde_json, a class, with the readers of closed
      and of tagged objects (the macros of lib.rs, value.rs and wire.rs).
    - [WireQuery]: query.rs.  [WireValue], [WireValueFacts]: value.rs.
    - [Wire], [WireFacts]: wire.rs.  The [Sequence] object is the state
      [Wire.State], each method a function from a state and a message to a
      result and the next state.
    - [WireJson], [WireJsonFacts]: the derived readers and writers of the
      structs, enums and tagged values of the crate, each a function to a text
      and one from it, as the instance [derived] of [WireSerde].
      [WireSample]: a small JSON that keeps the laws these facts ask of
      serde_json ([SerdeLaws]), on which the messages of a connection are run.

    Server (src/crates/gaze-lens-server/src):
    - [Private]: private.rs.  [Auth]: auth.rs.  [History], [HistoryFacts]:
      the ledger of history.rs.
    - [Service], [ServiceFacts]: service.rs.  A connection is a computation in
      a state monad over its [World] of reads, authority readings, clock
      readings and writes, which its deadline may drop at any await, and which
      keeps the list of what was done, in order ([w_trace]); the admission permits shared by all connections are
      the step relation [sys_step].  [Service] calls [Auth] to pin and to
      revalidate, [Wire] to decode and correlate, [Frames]' buffer to read.

    Lens (src/src):
    - [SqlQuery], [SqlQueryFacts]: source/db/query_dto.rs, source/db/query.rs.
      [SchemaTok]: source/db/schema.rs.
    - [Errors]: errors.rs.  [LensValue]: value.rs.
    - [SshArgs]: the validation and argument vectors of source/ssh_tunnel.rs.
      [LogSource], [LogFacts]: source/log/{mod,ssh_log,local_log}.rs; the
      modules [Ssh] and [Local] are the two sources.
    - [Output]: CleanOutput and push_truncation of session/mod.rs.
      [Keyword], [KeywordFacts]: mcp/tools/log_grep.rs.
    - [Profile]: profile.rs, with AutoPurge of session/maintenance.rs and
      RemoteConfig of source/remote/mod.rs.  [Policy]: policy.rs.
    - [Session], [SessionFacts]: the registries, the core call and the
      redaction of session/mod.rs; the two methods that only forward to the
      session's schema tokenizer are those of [SchemaTok].
    - [Tools]: construction, dispatch, restored tokens, discovery metadata and
      error mapping of session/mod.rs, and mcp/tools/mod.rs.

    Remote log (src/src/source/remote):
    - [RemoteWire]: wire.rs.  [RemoteService]: service.rs and mod.rs.
      [RemoteFacts]: what a tail shows.  [RemoteExchange]: client and service
      composed over one exchange of frames.
    - [Watchdog]: watchdog.rs, the critical sections of the supervisor and its
      worker thread as steps of a [World].

    Manifest (src/src/session, src/src/manifest, src/src/cli):
    - [Disk], [DiskFacts]: cli/init/atomic.rs over a file system, with the logic
      of its crash safety ([spec]).  [Text]: searching and counting in texts.
    - [Manifest]: session/manifest.rs, manifest/gaze_mcp_adapter.rs and the
      snapshot file of session/mod.rs.  [Retention]: session/maintenance.rs,
      session/restore.rs, cli/retention.rs and cli/replay.rs.
    - [ManifestFacts], [SnapshotFacts], [RetentionFacts], [ReplayFacts]: the
      database and errors through Gaze's erased type, the snapshot file, the
      sweep, and recording followed by replay.

    init (src/src/cli/init):
    - [InitData]: the arguments (mod.rs), plan.rs, the model's directory
      (model_fetch.rs).  [InitFlow]: prompter.rs, flow.rs.
      [EnvFile]: discovery.rs and ssh_exec.rs.
    - [AgentsMd]: agents_md.rs.  [Toml]: profile_writer.rs, policy_writer.rs.
      [McpConfig]: mcp_writer.rs.  [WritersFacts]: what these change.
    - [Commit], [CommitFacts]: rendering, keyring, batch.rs and the command
      (mod.rs), on top of [Disk].

    Databases and serving (src/src/source, src/src/cli/serve.rs):
    - [Flow]: steps that fail and change a state, the monad of [init]'s
      questions and of the statements on a database.
    - [Driver]: connections, sqlx's interface, the routines all drivers share
      and their encoder of bytes.  [Drivers]:
      source/db/{mysql,postgres,sqlite}.rs, a module each.
    - [Database], [DatabaseFacts]: source/db/runtime.rs, the process of
      source/ssh_tunnel.rs, and the database source of source/mod.rs.
    - [Serve], [ServeFacts]: cli/serve.rs, from profiles to a session whose
      sources connect on their first call, and its discovery listing.

    Front end (src/src/frontend, src/src/mcp):
    - [Dto]: the JSON of tool arguments and results, the derived serde code of
      source/db/query_dto.rs and of session/mod.rs, the tools of mcp/tools and
      the hook of mcp/auth.rs.
    - [Frontend], [FrontendFacts]: frontend/mod.rs and frontend/mcp.rs.  A call
      goes [Frontend.dispatch], [Tools], [Session], the source, and back; the
      answer is admitted by [Watchdog] before it is sent.
    - [Chokepoint]: the whole way of a call, with the manifest and the snapshot,
      through an envelope that does what the documents say of Gaze's.

    Commands (src/src/cli, src/src/main.rs):
    - [Config]: the reading of profile files in profile.rs.
    - [Trust], [Check], [CheckFacts]: check_trust.rs and check.rs.
    - [QueryCli]: query.rs.  [Demo]: demo.rs.
    - [SshExec]: the processes of init/ssh_exec.rs and the terminal of
      init/prompter.rs.
    - [Cli]: mod.rs, main.rs, and the smoke check of init, which is
      the command of [Check] on the files that [Commit] wrote.

    Start of the server (src/crates/gaze-lens-server/src):
    - [ServerStart]: config.rs, main.rs, the file operations
      of history.rs and the start of service.rs, on the file system of [Disk],
      whose calls fail or halt.

    ** How the code is written down

    A fallible function returns [result E A]; [x ← e; k] is [let x = e?; k].
    Shared state behind a mutex is threaded: the code locks once per call, so
    a call is one step.  Machine integers are [N] or [Z] with the saturation,
    the wrap-around or the overflow check of the code written out.  Bytes are
    lists of [ascii]; a [String] is its UTF-8 bytes where the code looks at
    bytes and the list of its code points where it looks at characters
    ([Keyword]).  What a method does to [&mut self] on its error
    path is part of its result.

    Code that is not part of the repository is an argument: serde_json and
    derived readers ([SerdeJson], [SerdeText], [AuthLibs], [LogSerde], [DiscoverySerde]), the
    f64 parser and printer and base64 ([ValueLibs]), SHA-256, regular
    expressions ([RegexLib]), Unicode's tables ([Unicode]), Gaze
    ([GazeSession], [GazeBuilder], [GazeRestore], the
    argument [redact]), the readers and the clock of the remote log
    ([RemoteJson], [GrantsLibs], [RemoteEnv]), the texts and times of the
    manifest ([ManifestText], [Ulids], [Times]), TOML and JSON documents
    ([TomlEdit], [JsonFile], [PolicyToml], [ProfileToml]), the errors of the
    keyring ([KeyringLib]), the operator ([Prompter]), ssh ([SshExec]), sqlx and
    a database ([Sqlx], [Server]) and the serde code around it ([DbSerde],
    [InventorySerde]), the readers of the commands ([ConfigToml], [TomlValue],
    [CliJson], [FloatText], [ReportSerde]), the readers of the server's start
    ([LedgerSerde], [ServerToml], [Rustls]) and the owners of files ([Inodes]),
    dialoguer ([Terminal]), Gaze's import of a snapshot ([DemoGaze]).  The
    interface between the command line and its commands is [Commands].
    Answers of the
    operating system, of processes and of peers are values the model is given:
    [FileView], [Local.File], [Run], [World].  What writes files runs over a
    list of fates, one for each system call: it goes through, it fails, or the
    process halts there ([IO] of [Disk]); a theorem quantifies over all of them,
    and a call beyond the end of the list goes through.  A theorem that relies on a law
    of such an argument says so in its statement, and its witness instantiates
    it.

    ** The theorems

    - Parsing untrusted bytes.  The number check decides the JSON grammar; what
      the scanner admits is one tree within every cap, each string under the
      ceiling of its place; the scanner always
      answers; frames do not depend on chunking; the query check, integer
      values and dates are decided exactly; decimals are exact and their
      comparison is sound.
    - The connection grammar.  A success is correlated with the exchange before
      it; the checker closes for good; every message that can be encoded is decoded
      as itself, through the derived code; a message is a closed object; pages
      cover; log
      results are bounded.  A remote exchange refines the tail the service makes:
      the client gets the lines the grant allows, or an error.
    - Authorization.  Prepare is the policy; a result is released only after
      the authority and the clock were read twice after its Call was, the last
      thing done before it is sent; a peer learns nothing before it is
      authenticated by them; permits are counted exactly under
      every interleaving; the listener ends for the right reasons.
    - Durable state.  The ledger stays valid, is append-only, activates what
      was asked, and is quiet on restart; trusted files are private.  Over any
      starts, failures, halts and edits of other files the ledger file is a
      valid ledger that forgets nothing, and what a running server serves is
      what the file says.
    - Manifest.  The record of a session is append-only; a timeout
      without context keeps its meaning through an erased error, one with a
      context, as log sources give, does not; a recorded session replays as
      what was recorded, in the order the calls started; the sweep purges what expired and nothing else.
    - Deadlines.  A result is released in time, or the process ends.
    - init.  Nothing is purged, and no password stored, that the operator did
      not agree to or type in the same run, by the log of a prompter that
      records what it is asked; environment files read
      back; each writer changes its own entry and keeps the rest; a plan is
      written in order, and the report of a partial batch is true.
    - Queries.  Compiled SQL reads back as its query under the lexer of the
      dialect, and its binds are the values of the query; schema tokens are
      injective and stable.
    - Databases.  Whatever tools are called, a database gets catalog lookups and
      compiled queries only, each compiled for the table the lookup just before
      it told, and the session they run in is read-only as long as the pool
      keeps its connection; a tunnel does not outlive a failure.
    - Serving.  A session is closed before its first call: each profile under
      its own checked policy, no source connected.
    - Front end.  An answer shows what the source of the call's profile gave as
      that profile's pipeline redacts it, and its record and snapshot are there
      before it is given.  A search in the keyword index shows lines that the
      session released to the same profile, a moment ago.  An answer is the JSON of the fields of its tool; of an error
      only the public part leaves; every tool is asked for by its name with its
      arguments, and a query reaches its source as it was sent;
      no answer leaves after the deadline.
    - Commands.  A profile that [check] accepts is one that [serve] accepts, and
      the smoke check of init vouches for the file it wrote; the trust report
      asks nothing outside; the query command runs under the profile of that name
      in the configuration as it is; a host's fingerprint
      is that of the key the host showed.
    - Logs.  A tail is [tail -n], without its empty lines and under both caps; a grep shows the first matches of its window;
      the window cache is neither stale nor foreign; the ssh command is plain
      words; the keyword index answers as a scan would and a search shows its
      first matches; a line is found by its words.
    - Confidentiality.  A call stays in the profile it names; redaction replaces
      every text by the pipeline's answer; rows come out redacted and capped; a
      remote log pipeline never preserves; merging profiles never escalates,
      and each field comes from the file that owns it;
      sanitized errors and scrubbed URLs do not carry what they hide.

    ** Fuel

    Recursion that is not structural has fuel: the scanner and its string loop
    (linear in the input; the scanner's answer is never the fuel mark, by the
    theorem on its termination), the backwards scan of a local file (one more
    than its number of chunks: [LogFacts.scan_back_answers]), and the search
    for tokens in a word (the length of the word:
    [KeywordFacts.gaze_tokens_fuel]).

    ** What is not modelled

    Memory exhaustion, except where the code handles it (the frame buffer's
    reservation); panics of libraries.  TLS, sockets, the keyring, SQLite, TOML, and the start and
    supervision of processes: they are libraries or I/O.  JSON-RPC and the
    schemas of the tools' arguments.  The derived serde code of the
    files and of the remote log's messages.  Gaze's envelope around a tool call, but for the law
    that [Chokepoint] states of it.  sqlx and the
    database servers.  The parsing of command lines; the animation of the query
    command; signal handlers; what is printed after a purge; warnings about the
    mode of a directory; the download of a model.  Test doubles (MockSsh, the
    fake model provisioner and verifier, in-memory sources).

    ** Plan

    Next: the commands as instances of [Commands] over one world. *)

From stdpp Require Export base tactics list strings gmap.
From Stdlib Require Export ZArith NArith Lia Bool Ascii.

#[global] Open Scope N_scope.
#[global] Set Default Goal Selector "!".

(** ** Fallible computations

    Rust's [Result<A, E>] with the [?] operator: [result E A] with stdpp's
    monadic notation, [x ← e; k] for [let x = e?; k]. *)
Inductive result (E A : Type) : Type :=
| Ok (a : A)
| Err (e : E).
Arguments Ok {E A} a.
Arguments Err {E A} e.

#[export] Instance result_ret {E} : MRet (result E) := fun A a => Ok a.
#[export] Instance result_bind {E} : MBind (result E) := fun A B f m =>
  match m with Ok a => f a | Err e => Err e end.
#[export] Instance result_fmap {E} : FMap (result E) := fun A B f m =>
  match m with Ok a => Ok (f a) | Err e => Err e end.

(** [Option::ok_or] *)
Definition ok_or {E A} (o : option A) (e : E) : result E A :=
  match o with Some a => Ok a | None => Err e end.

(** [Result::is_ok] *)
Definition is_ok {E A} (r : result E A) : bool :=
  match r with Ok _ => true | Err _ => false end.

(** [Result::map_err] *)
Definition map_err {E F A} (r : result E A) (f : E → F) : result F A :=
  match r with Ok a => Ok a | Err e => Err (f e) end.

Lemma bind_ok {E A B} (m : result E A) (f : A → result E B) b :
  (m ≫= f) = Ok b ↔ ∃ a, m = Ok a ∧ f a = Ok b.
Proof. destruct m; naive_solver. Qed.

(** a check in sequence *)
Lemma check_then {E B} (m : result E unit) (f : unit → result E B) b :
  (m ≫= f) = Ok b ↔ m = Ok tt ∧ f tt = Ok b.
Proof. destruct m as [[]|]; naive_solver. Qed.

Lemma bind_err {E A B} (m : result E A) (f : A → result E B) e :
  (m ≫= f) = Err e ↔ m = Err e ∨ ∃ a, m = Ok a ∧ f a = Err e.
Proof. destruct m; naive_solver. Qed.

Lemma ok_or_ok {E A} (o : option A) (e : E) a : ok_or o e = Ok a ↔ o = Some a.
Proof. destruct o; naive_solver. Qed.

Lemma ok_or_err {E A} (o : option A) (e e' : E) :
  ok_or o e = Err e' ↔ o = None ∧ e = e'.
Proof. destruct o; naive_solver. Qed.

Lemma map_err_ok {E F A} (r : result E A) (f : E → F) a :
  map_err r f = Ok a ↔ r = Ok a.
Proof. destruct r; naive_solver. Qed.

Lemma is_ok_true {E A} (r : result E A) : is_ok r = true ↔ ∃ a, r = Ok a.
Proof. destruct r; naive_solver. Qed.

#[global] Instance result_eq_dec `{EqDecision E, EqDecision A} : EqDecision (result E A).
Proof. solve_decision. Defined.

(** [for x in xs { f(x)?; }] *)
Fixpoint for_each {E A} (f : A → result E unit) (xs : list A) : result E unit :=
  match xs with
  | [] => Ok tt
  | x :: xs => _ ← f x; for_each f xs
  end.

Lemma for_each_ok {E A} (f : A → result E unit) xs :
  for_each f xs = Ok tt ↔ Forall (fun x => f x = Ok tt) xs.
Proof.
  induction xs as [|x xs IH]; cbn [for_each]; [by split|].
  rewrite Forall_cons, <- IH, bind_ok. split; [intros [[] ?]|]; naive_solver.
Qed.

Lemma for_each_err {E A} (f : A → result E unit) xs e :
  for_each f xs = Err e → ∃ x, x ∈ xs ∧ f x = Err e.
Proof.
  induction xs as [|x xs IH]; cbn [for_each]; [done|].
  rewrite bind_err. intros [?|(a & _ & (y & ? & ?)%IH)]; [exists x|exists y]; set_solver.
Qed.

(** ** Machine integers *)
Definition U32_MAX : N := 4294967295.
Definition U64_MAX : N := 18446744073709551615.
Definition USIZE_MAX : N := U64_MAX.
Definition I64_MAX : Z := 9223372036854775807%Z.
Definition I64_MIN : Z := (-9223372036854775808)%Z.

(** [usize::checked_add] *)
Definition checked_add (a b : N) : option N :=
  if a + b <=? USIZE_MAX then Some (a + b) else None.

(** [i64::saturating_sub] and [i64::saturating_mul] *)
Definition sat_i64 (z : Z) : Z := Z.max I64_MIN (Z.min I64_MAX z).

Lemma checked_add_some a b c :
  checked_add a b = Some c ↔ c = a + b ∧ a + b <= USIZE_MAX.
Proof. unfold checked_add. destruct (N.leb_spec (a + b) USIZE_MAX); naive_solver lia. Qed.

(** ** Bytes and strings

    A byte is an [ascii], a [&[u8]] is a [list ascii], and a [&str] is the
    [string] of its UTF-8 bytes, so that [str::len] is the number of bytes and
    the order of [str] is the lexicographic order of bytes. *)
Abbreviation bytes := (list ascii).

Definition code (b : ascii) : N := N_of_ascii b.
Definition len {A} (l : list A) : N := N.of_nat (length l).
Definition slen (s : string) : N := N.of_nat (String.length s).
(** [is_empty] *)
Definition is_nil {A} (l : list A) : bool := match l with [] => true | _ => false end.
Definition str_bytes (s : string) : bytes := String.list_ascii_of_string s.
Definition str_of (l : bytes) : string := String.string_of_list_ascii l.

Definition beq (a b : ascii) : bool := Ascii.eqb a b.
Definition in_range (lo hi b : N) : bool := (lo <=? b) && (b <=? hi).

(** [u8::is_ascii_digit], [is_ascii_alphabetic], [is_ascii_alphanumeric],
    [is_ascii_hexdigit] on a byte value *)
Definition is_ascii_digit (b : N) : bool := in_range 48 57 b.
Definition is_ascii_lower (b : N) : bool := in_range 97 122 b.
Definition is_ascii_upper (b : N) : bool := in_range 65 90 b.
Definition is_ascii_alphabetic (b : N) : bool := is_ascii_lower b || is_ascii_upper b.
Definition is_ascii_alphanumeric (b : N) : bool := is_ascii_alphabetic b || is_ascii_digit b.
Definition is_ascii_hexdigit (b : N) : bool :=
  is_ascii_digit b || in_range 97 102 b || in_range 65 70 b.
(** the class [0-9a-f] the sources write out *)
Definition is_lower_hex (b : N) : bool := is_ascii_digit b || in_range 97 102 b.

(** [b.is_ascii_digit()] on a byte of a text *)
Definition digit (b : ascii) : bool := is_ascii_digit (code b).

(** [str::to_ascii_lowercase] and [to_ascii_uppercase] *)
Definition byte_lower (b : ascii) : ascii :=
  if is_ascii_upper (code b) then ascii_of_N (code b + 32) else b.
Definition byte_upper (b : ascii) : ascii :=
  if is_ascii_lower (code b) then ascii_of_N (code b - 32) else b.
Definition to_ascii_lowercase (s : string) : string := str_of (byte_lower <$> str_bytes s).
Definition to_ascii_uppercase (s : string) : string := str_of (byte_upper <$> str_bytes s).
Definition eq_ignore_ascii_case (a b : string) : bool := String.eqb (to_ascii_lowercase a) (to_ascii_lowercase b).

(** byte-string comparison, as [<] on [str] *)
Definition str_lt (a b : string) : bool :=
  match String.compare a b with Lt => true | _ => false end.

(** [xs.windows(2).all(|w| w[0] < w[1])] *)
Fixpoint windows_lt {A} (lt : A → A → bool) (xs : list A) : bool :=
  match xs with
  | x :: (y :: _) as xs' => lt x y && windows_lt lt xs'
  | _ => true
  end.

(** sample texts for concrete runs: an apostrophe stands for a double quote *)
Definition quoted (s : string) : string :=
  str_of ((fun b => if beq b "'" then ascii_of_N 34 else b) <$> str_bytes s).

Lemma str_of_bytes s : str_of (str_bytes s) = s.
Proof. apply String.string_of_list_ascii_of_string. Qed.

Lemma bytes_of_str l : str_bytes (str_of l) = l.
Proof. apply String.list_ascii_of_string_of_list_ascii. Qed.

Lemma str_bytes_length s : length (str_bytes s) = String.length s.
Proof. induction s as [|a s IH]; simpl; [done|]. by f_equal. Qed.

Lemma len_str_bytes s : len (str_bytes s) = slen s.
Proof. unfold len, slen. by rewrite str_bytes_length. Qed.

#[global] Instance str_of_inj : Inj (=) (=) str_of.
Proof. intros a b H. by rewrite <- (bytes_of_str a), <- (bytes_of_str b), H. Qed.

#[global] Instance str_bytes_inj : Inj (=) (=) str_bytes.
Proof. intros a b H. by rewrite <- (str_of_bytes a), <- (str_of_bytes b), H. Qed.

Lemma beq_true a b : beq a b = true ↔ a = b.
Proof. apply Ascii.eqb_eq. Qed.

Lemma beq_false a b : beq a b = false ↔ a ≠ b.
Proof. apply Ascii.eqb_neq. Qed.

#[global] Instance code_inj : Inj (=) (=) code.
Proof.
  intros a b H. rewrite <- (ascii_N_embedding a), <- (ascii_N_embedding b).
  unfold code in H. by rewrite H.
Qed.

Lemma code_lt b : code b < 256.
Proof. apply N_ascii_bounded. Qed.

Lemma len_app {A} (l k : list A) : len (l ++ k) = len l + len k.
Proof. unfold len. rewrite length_app. lia. Qed.

Lemma len_cons {A} (x : A) l : len (x :: l) = len l + 1.
Proof. unfold len. simpl length. lia. Qed.

Lemma len_nil {A} : len (@nil A) = 0.
Proof. done. Qed.

Lemma in_range_spec lo hi b : in_range lo hi b = true ↔ lo <= b <= hi.
Proof. unfold in_range. rewrite andb_true_iff, !N.leb_le. done. Qed.

Lemma forallb_Forall {A} (p : A → bool) l : forallb p l = true ↔ Forall (fun x => p x = true) l.
Proof.
  induction l as [|x l IH]; cbn [forallb]; [by split; [constructor|]|].
  by rewrite andb_true_iff, Forall_cons, IH.
Qed.

Lemma existsb_Exists {A} (p : A → bool) l : existsb p l = true ↔ Exists (fun x => p x = true) l.
Proof.
  induction l as [|x l IH]; cbn [existsb]; [by rewrite Exists_nil|].
  by rewrite orb_true_iff, Exists_cons, IH.
Qed.

#[global] Arguments beq : simpl never.
#[global] Arguments code : simpl never.
#[global] Arguments in_range : simpl never.

(** ** Automation *)
Create Rewrite HintDb lens_len.
Create Rewrite HintDb lens_ok.
Create Rewrite HintDb lens_bool.
#[export] Hint Rewrite @len_app @len_cons @len_nil : lens_len.
#[export] Hint Rewrite @bind_ok @ok_or_ok @map_err_ok : lens_ok.
#[export] Hint Rewrite andb_true_iff orb_true_iff negb_true_iff N.leb_le N.ltb_lt
  N.eqb_eq Nat.leb_le Nat.ltb_lt Nat.eqb_eq in_range_spec beq_true Z.leb_le Z.ltb_lt
  Z.eqb_eq String.eqb_eq : lens_bool.

Ltac len_lia := autorewrite with lens_len in *; unfold len in *; lia.
(** linear arithmetic with division and remainder by constants *)
Ltac div_lia := zify; Z.to_euclidean_division_equations; lia.
Ltac to_prop := autorewrite with lens_bool in *.

(** decompose a hypothesis [.. = Ok _] along its binds *)
Ltac inv_ok :=
  repeat match goal with
  | H : (_ ≫= _) = Ok _ |- _ => apply bind_ok in H as (? & ? & ?)
  | H : ok_or _ _ = Ok _ |- _ => apply ok_or_ok in H
  | H : map_err _ _ = Ok _ |- _ => apply map_err_ok in H
  | H : Err _ = Ok _ |- _ => discriminate H
  | H : Ok _ = Err _ |- _ => discriminate H
  | H : Ok _ = Ok _ |- _ => injection H as H
  | H : mret _ = Ok _ |- _ => injection H as H
  | x : unit |- _ => destruct x
  end.

(** open the first bind of [H : (x ← m; k) = Ok _] as [p], with [Hx : m = Ok p] *)
Tactic Notation "open_bind" hyp(H) "as" simple_intropattern(p) simple_intropattern(Hx) :=
  apply bind_ok in H as (p & Hx & H).

(** split on every [match]/[if] of a hypothesis, closing what is contradictory *)
Ltac case_ok H :=
  repeat (match type of H with
  | context [match ?x with _ => _ end] => destruct x eqn:?; try discriminate H
  end); simplify_eq/=.
