(* ===== verification/Utf8.v ===== *)
(** * UTF-8, as [std::str::from_utf8] and [str::is_char_boundary] decide it

    Rust's [&str] is a byte slice known to be UTF-8.  This file gives the
    decoder the sources rely on when they call [from_utf8] (the frame scanner,
    the local log reader), the encoder of [char], and the boundary test that
    [cap_string] in src/src/session/mod.rs walks back along. *)

From S2P Require Import Prelude.

Definition cont (b : ascii) : bool := in_range 128 191 (code b).
Definition low6 (b : ascii) : N := code b - 128.

(** [char::from_u32]: scalar values are not surrogates and fit in 21 bits. *)
Definition is_scalar (cp : N) : bool :=
  (cp <=? 55295) || in_range 57344 1114111 cp.

(** [char::len_utf8] *)
Definition len_utf8 (cp : N) : N :=
  if cp <? 128 then 1 else if cp <? 2048 then 2 else if cp <? 65536 then 3 else 4.

(** One scalar value from the front of a byte string: the well-formed byte
    sequences of the Unicode standard (no overlong form, no surrogate). *)
Definition next_char (l : bytes) : option (N * bytes) :=
  match l with
  | [] => None
  | a :: l1 =>
    let x := code a in
    if x <? 128 then Some (x, l1)
    else match l1 with
    | b :: l2 =>
      if in_range 194 223 x && cont b
      then Some ((x - 192) * 64 + low6 b, l2)
      else match l2 with
      | c :: l3 =>
        if in_range 224 239 x && cont b && cont c &&
           implb (x =? 224) (160 <=? code b) && implb (x =? 237) (code b <=? 159)
        then Some ((x - 224) * 4096 + low6 b * 64 + low6 c, l3)
        else match l3 with
        | d :: l4 =>
          if in_range 240 244 x && cont b && cont c && cont d &&
             implb (x =? 240) (144 <=? code b) && implb (x =? 244) (code b <=? 143)
          then Some ((x - 240) * 262144 + low6 b * 4096 + low6 c * 64 + low6 d, l4)
          else None
        | [] => None
        end
      | [] => None
      end
    | [] => None
    end
  end.

(** [std::str::from_utf8], as the list of decoded [char]s. The fuel is the
    length of the input: every step consumes at least one byte. *)
Fixpoint decode_fuel (fuel : nat) (l : bytes) : option (list N) :=
  match l with
  | [] => Some []
  | _ => match fuel with
    | O => None
    | S fuel => match next_char l with
      | None => None
      | Some (c, l') => match decode_fuel fuel l' with
        | None => None
        | Some cs => Some (c :: cs)
        end
      end
    end
  end.
Definition from_utf8 (l : bytes) : option (list N) := decode_fuel (length l) l.
Definition utf8_valid (l : bytes) : bool := match from_utf8 l with Some _ => true | None => false end.

(** [char::encode_utf8] *)
Definition byte_of (n : N) : ascii := ascii_of_N n.
Definition encode_char (cp : N) : bytes :=
  if cp <? 128 then [byte_of cp]
  else if cp <? 2048 then [byte_of (192 + cp / 64); byte_of (128 + cp mod 64)]
  else if cp <? 65536 then
    [byte_of (224 + cp / 4096); byte_of (128 + cp / 64 mod 64); byte_of (128 + cp mod 64)]
  else
    [byte_of (240 + cp / 262144); byte_of (128 + cp / 4096 mod 64);
     byte_of (128 + cp / 64 mod 64); byte_of (128 + cp mod 64)].
Definition to_utf8 (cs : list N) : bytes := cs ≫= encode_char.

(** [str::is_char_boundary]: index [n] starts a character or ends the string. *)
Definition is_char_boundary (l : bytes) (n : nat) : bool :=
  match l !! n with
  | None => Nat.eqb n (length l)
  | Some b => negb (cont b)
  end.

(** ** The decoder and the encoder are inverse *)

Lemma code_byte_of n : n < 256 → code (byte_of n) = n.
Proof. intros H. unfold code, byte_of. by apply N_ascii_embedding. Qed.

Lemma next_char_shrinks l c l' : next_char l = Some (c, l') → (length l' < length l)%nat.
Proof.
  unfold next_char. intros H.
  repeat (case_match; simplify_eq/=); lia.
Qed.

Lemma decode_fuel_enough n l : (length l <= n)%nat → decode_fuel n l = from_utf8 l.
Proof.
  unfold from_utf8. revert n. induction l as [l IH] using (induction_ltof1 _ (@length _)).
  intros [|n] Hn; destruct l as [|a l]; try done; [simpl in Hn; lia|].
  cbn [decode_fuel length].
  destruct (next_char (a :: l)) as [[c l']|] eqn:E; [|done].
  apply next_char_shrinks in E. cbn [length] in *.
  rewrite IH by (unfold ltof; simpl; lia). symmetry.
  rewrite IH by (unfold ltof; simpl; lia). done.
Qed.

Lemma from_utf8_step l :
  from_utf8 l = match l with
  | [] => Some []
  | _ => match next_char l with
    | None => None
    | Some (c, l') => cons c <$> from_utf8 l'
    end
  end.
Proof.
  destruct l as [|a l]; [done|]. unfold from_utf8 at 1. cbn [length decode_fuel].
  destruct (next_char (a :: l)) as [[c l']|] eqn:E; [|done].
  apply next_char_shrinks in E. cbn [length] in E.
  rewrite decode_fuel_enough by lia. by destruct (from_utf8 l').
Qed.

Ltac utf8_arith :=
  repeat match goal with
  | H : context [_ / _] |- _ => revert H
  | H : context [_ mod _] |- _ => revert H
  end; zify; Z.to_euclidean_division_equations; lia.

Lemma is_scalar_spec cp : is_scalar cp = true ↔ cp <= 55295 ∨ 57344 <= cp <= 1114111.
Proof. unfold is_scalar. to_prop. done. Qed.

(** decoding one encoded scalar value gives it back, whatever follows *)
Lemma next_char_encode cp rest :
  is_scalar cp = true → next_char (encode_char cp ++ rest) = Some (cp, rest).
Proof.
  intros H%is_scalar_spec. unfold encode_char.
  destruct (N.ltb_spec cp 128); [|destruct (N.ltb_spec cp 2048); [|destruct (N.ltb_spec cp 65536)]];
  cbn [app next_char]; unfold cont, low6; rewrite !code_byte_of by utf8_arith.
  - destruct (N.ltb_spec cp 128); [done|lia].
  - destruct (N.ltb_spec (192 + cp / 64) 128); [utf8_arith|].
    rewrite !(proj2 (in_range_spec _ _ _)) by utf8_arith. cbn [andb].
    repeat f_equal. utf8_arith.
  - destruct (N.ltb_spec (224 + cp / 4096) 128); [utf8_arith|].
    replace (in_range 194 223 (224 + cp / 4096)) with false
      by (symmetry; apply not_true_iff_false; rewrite in_range_spec; utf8_arith).
    rewrite !(proj2 (in_range_spec _ _ _)) by utf8_arith. cbn [andb].
    replace (implb (224 + cp / 4096 =? 224) (160 <=? 128 + cp / 64 mod 64)) with true
      by (symmetry; apply implb_true_iff; rewrite N.eqb_eq, N.leb_le; utf8_arith).
    replace (implb (224 + cp / 4096 =? 237) (128 + cp / 64 mod 64 <=? 159)) with true
      by (symmetry; apply implb_true_iff; rewrite N.eqb_eq, N.leb_le; utf8_arith).
    cbn [andb]. repeat f_equal. utf8_arith.
  - destruct (N.ltb_spec (240 + cp / 262144) 128); [utf8_arith|].
    replace (in_range 194 223 (240 + cp / 262144)) with false
      by (symmetry; apply not_true_iff_false; rewrite in_range_spec; utf8_arith).
    replace (in_range 224 239 (240 + cp / 262144)) with false
      by (symmetry; apply not_true_iff_false; rewrite in_range_spec; utf8_arith).
    rewrite !(proj2 (in_range_spec _ _ _)) by utf8_arith. cbn [andb].
    replace (implb (240 + cp / 262144 =? 240) (144 <=? 128 + cp / 4096 mod 64)) with true
      by (symmetry; apply implb_true_iff; rewrite N.eqb_eq, N.leb_le; utf8_arith).
    replace (implb (240 + cp / 262144 =? 244) (128 + cp / 4096 mod 64 <=? 143)) with true
      by (symmetry; apply implb_true_iff; rewrite N.eqb_eq, N.leb_le; utf8_arith).
    cbn [andb]. repeat f_equal. utf8_arith.
Qed.

Lemma encode_char_nonempty cp : encode_char cp ≠ [].
Proof. unfold encode_char. by repeat case_match. Qed.

Lemma from_utf8_encode cs : Forall (fun c => is_scalar c = true) cs → from_utf8 (to_utf8 cs) = Some cs.
Proof.
  induction 1 as [|c cs Hc _ IH]; [done|].
  change (to_utf8 (c :: cs)) with (encode_char c ++ to_utf8 cs).
  rewrite from_utf8_step, next_char_encode by done.
  destruct (encode_char c ++ to_utf8 cs) as [|a l] eqn:E.
  - apply app_eq_nil in E as [E _]. by apply encode_char_nonempty in E.
  - by rewrite IH.
Qed.

(** ** [String::from_utf8_lossy]

    Each maximal ill-formed prefix becomes one U+FFFD: a lead byte and the
    continuation bytes that could still have followed it, else one byte. *)
Definition REPLACEMENT : bytes := encode_char 65533.
Definition cont_at (l : bytes) (i : nat) : bool := match l !! i with Some b => cont b | None => false end.
Definition second_ok (x : N) (l : bytes) : bool :=
  match l !! 1%nat with
  | Some b => cont b && implb (x =? 224) (160 <=? code b) && implb (x =? 237) (code b <=? 159) &&
              implb (x =? 240) (144 <=? code b) && implb (x =? 244) (code b <=? 143)
  | None => false
  end.
Definition bad_len (l : bytes) : nat :=
  match l with
  | a :: _ =>
    let x := code a in
    if in_range 224 239 x && second_ok x l then 2%nat
    else if in_range 240 244 x && second_ok x l then (if cont_at l 2 then 3%nat else 2%nat)
    else 1%nat
  | [] => 1%nat
  end.
Fixpoint lossy_fuel (fuel : nat) (l : bytes) : bytes :=
  match fuel with
  | O => []
  | S fuel => match l with
    | [] => []
    | _ => match next_char l with
      | Some (c, l') => encode_char c ++ lossy_fuel fuel l'
      | None => REPLACEMENT ++ lossy_fuel fuel (drop (bad_len l) l)
      end
    end
  end.
Definition from_utf8_lossy (l : bytes) : bytes := lossy_fuel (length l) l.

(** [Utf8Error]: [valid_up_to], and [error_len], none when the input ends inside
    a sequence that is well-formed so far *)
Definition incomplete (l : bytes) : bool :=
  match l with a :: _ => in_range 194 244 (code a) && (length l =? bad_len l)%nat | [] => false end.
Fixpoint utf8_error_fuel (fuel : nat) (i : N) (l : bytes) : option (N * option N) :=
  match fuel with
  | O => None
  | S fuel => match l with
    | [] => None
    | _ => match next_char l with
      | Some (_, l') => utf8_error_fuel fuel (i + N.of_nat (length l - length l')) l'
      | None => Some (i, if incomplete l then None else Some (N.of_nat (bad_len l)))
      end
    end
  end.
Definition utf8_error (l : bytes) : option (N * option N) := utf8_error_fuel (length l) 0 l.

(** the character read is the one whose encoding was there *)
Lemma byte_of_code b n : n = code b → byte_of n = b.
Proof. intros ->. unfold byte_of, code. apply ascii_N_embedding. Qed.

Lemma next_char_split l c l' : next_char l = Some (c, l') → l = encode_char c ++ l'.
Proof.
  destruct l as [|a l1]; [done|]. cbn [next_char]. pose proof (code_lt a) as Ha.
  destruct (N.ltb_spec (code a) 128) as [|H1].
  { intros [= <- <-]. unfold encode_char. destruct (N.ltb_spec (code a) 128); [|lia].
    by rewrite (byte_of_code a). }
  destruct l1 as [|b l2]; [done|].
  destruct (in_range 194 223 (code a) && cont b) eqn:E2.
  { intros [= <- <-]. unfold cont, low6 in *. to_prop. destruct E2 as [E2 E3].
    unfold encode_char. destruct (N.ltb_spec ((code a - 192) * 64 + (code b - 128)) 128); [lia|].
    destruct (N.ltb_spec ((code a - 192) * 64 + (code b - 128)) 2048); [|lia].
    cbn [app]. rewrite (byte_of_code a), (byte_of_code b); [done|utf8_arith|utf8_arith]. }
  destruct l2 as [|d l3]; [done|].
  destruct (in_range 224 239 (code a) && _ && _ && _ && _) eqn:E3.
  { intros [= <- <-]. unfold cont, low6 in *. rewrite !andb_true_iff, !implb_true_iff in E3. to_prop.
    destruct E3 as ((((E3 & E4) & E5) & E6) & E7).
    set (cp := (code a - 224) * 4096 + (code b - 128) * 64 + (code d - 128)).
    assert (Hcp : cp = (code a - 224) * 4096 + (code b - 128) * 64 + (code d - 128)) by done.
    assert (2048 <= cp) by (destruct (decide (code a = 224)) as [Hx|]; [specialize (E6 Hx)|]; lia).
    unfold encode_char. destruct (N.ltb_spec cp 128); [lia|]. destruct (N.ltb_spec cp 2048); [lia|].
    destruct (N.ltb_spec cp 65536); [|lia]. clearbody cp. subst cp. cbn [app].
    rewrite (byte_of_code a), (byte_of_code b), (byte_of_code d); [done|utf8_arith..]. }
  destruct l3 as [|e l4]; [done|].
  destruct (in_range 240 244 (code a) && _ && _ && _ && _ && _) eqn:E4; [|done].
  intros [= <- <-]. unfold cont, low6 in *. rewrite !andb_true_iff, !implb_true_iff in E4. to_prop.
  destruct E4 as (((((F1 & F2) & F3) & F4) & F5) & F6).
  set (cp := (code a - 240) * 262144 + (code b - 128) * 4096 + (code d - 128) * 64 + (code e - 128)).
  assert (Hcp : cp = (code a - 240) * 262144 + (code b - 128) * 4096 + (code d - 128) * 64 + (code e - 128)) by done.
  assert (65536 <= cp) by (destruct (decide (code a = 240)) as [Hx|]; [specialize (F5 Hx)|]; lia).
  unfold encode_char. destruct (N.ltb_spec cp 128); [lia|]. destruct (N.ltb_spec cp 2048); [lia|].
  destruct (N.ltb_spec cp 65536); [lia|]. clearbody cp. subst cp. cbn [app].
  rewrite (byte_of_code a), (byte_of_code b), (byte_of_code d), (byte_of_code e); [done|utf8_arith..].
Qed.

Lemma from_utf8_split l cs : from_utf8 l = Some cs → l = to_utf8 cs.
Proof.
  revert l. induction cs as [|c cs IH]; intros l; rewrite from_utf8_step; destruct l as [|a l]; try done.
  - destruct (next_char (a :: l)) as [[c l']|]; [|done]. by destruct (from_utf8 l').
  - destruct (next_char (a :: l)) as [[c' l']|] eqn:E; [|done].
    destruct (from_utf8 l') eqn:E'; [|done]. intros [= <- <-].
    apply next_char_split in E as ->. by rewrite (IH l' E') at 1.
Qed.

(** valid text is left as it is *)
Lemma lossy_valid l : utf8_valid l = true → from_utf8_lossy l = l.
Proof.
  unfold utf8_valid, from_utf8_lossy. destruct (from_utf8 l) as [cs|] eqn:E; [intros _|done].
  assert (Hn : (length l <= length l)%nat) by lia. revert Hn E.
  generalize (length l) at 2 3 as n. intros n. revert l cs.
  induction n as [|n IH]; intros l cs Hn E; destruct l as [|a l]; cbn [length] in Hn; try done; [lia|].
  cbn [lossy_fuel]. rewrite from_utf8_step in E.
  destruct (next_char (a :: l)) as [[c l']|] eqn:Ec; [|done].
  destruct (from_utf8 l') as [cs'|] eqn:E'; [|done].
  rewrite (IH l' cs'); [|apply next_char_shrinks in Ec; cbn [length] in Ec; lia|done].
  by apply next_char_split in Ec.
Qed.

(** the error is there exactly when the text is not valid *)
Lemma utf8_error_valid l : utf8_error l = None ↔ utf8_valid l = true.
Proof.
  unfold utf8_error, utf8_valid. assert (Hn : (length l <= length l)%nat) by lia. revert Hn.
  generalize (length l) at 2 3 as n. generalize 0 as i. intros i n. revert i l.
  induction n as [|n IH]; intros i l Hn; destruct l as [|a l]; cbn [length] in Hn; try done; [lia|].
  cbn [utf8_error_fuel]. rewrite from_utf8_step.
  destruct (next_char (a :: l)) as [[c l']|] eqn:Ec; [|done].
  rewrite IH by (apply next_char_shrinks in Ec; cbn [length] in Ec; lia).
  by destruct (from_utf8 l').
Qed.
