(* ===== verification/Str.v ===== *)
(** * The methods of [str] the sources use

    Splitting, stripping and trimming of byte strings by a byte predicate, and
    the decimal parsing and printing of the integer types, with the lemmas
    that relate parsing to printing. *)

From stdpp Require Import pretty.
From S2P Require Import Prelude.

Definition strip_prefix (c : ascii) (s : bytes) : option bytes :=
  match s with b :: s' => if beq b c then Some s' else None | [] => None end.

Definition strip_suffix (c : ascii) (s : bytes) : option bytes :=
  reverse <$> strip_prefix c (reverse s).

(** [split_once] on the first byte that satisfies [p] *)
Fixpoint split_once (p : ascii → bool) (s : bytes) : option (bytes * bytes) :=
  match s with
  | [] => None
  | b :: s => if p b then Some ([], s) else prod_map (cons b) id <$> split_once p s
  end.

Fixpoint trim_start_matches (p : ascii → bool) (s : bytes) : bytes :=
  match s with b :: s' => if p b then trim_start_matches p s' else s | [] => [] end.
Definition trim_end_matches (p : ascii → bool) (s : bytes) : bytes :=
  reverse (trim_start_matches p (reverse s)).

(** [s.bytes().enumerate().all(..)] *)
Fixpoint all_indexed (p : N → ascii → bool) (i : N) (s : bytes) : bool :=
  match s with [] => true | b :: s => p i b && all_indexed p (i + 1) s end.

(** ** Integers *)
Fixpoint digits_value (acc : N) (s : bytes) : N :=
  match s with [] => acc | b :: s => digits_value (acc * 10 + (code b - 48)) s end.

Definition parse_digits (s : bytes) : option N :=
  if negb (len s =? 0) && forallb digit s then Some (digits_value 0 s) else None.

(** [parse::<uN>] with maximum [max]: a plus sign is allowed *)
Definition parse_unsigned (max : N) (s : bytes) : option N :=
  n ← parse_digits (default s (strip_prefix "+" s));
  if n <=? max then Some n else None.

(** [parse::<i64>] *)
Definition parse_i64 (s : bytes) : option Z :=
  match strip_prefix "-" s with
  | Some s' => n ← parse_digits s';
    if n <=? 9223372036854775808 then Some (- Z.of_N n)%Z else None
  | None => n ← parse_digits (default s (strip_prefix "+" s));
    if n <=? 9223372036854775807 then Some (Z.of_N n) else None
  end.

(** [to_string] *)
Definition print_u64 (n : N) : bytes := str_bytes (pretty n).
Definition print_i64 (z : Z) : bytes :=
  match z with
  | Z.neg p => ("-"%char : ascii) :: print_u64 (N.pos p)
  | _ => print_u64 (Z.to_N z)
  end.

(** ** Lemmas *)
Lemma strip_prefix_some c s r : strip_prefix c s = Some r ↔ s = c :: r.
Proof.
  destruct s as [|b s]; cbn; [done|]. destruct (beq b c) eqn:E.
  - apply beq_true in E as ->. naive_solver.
  - apply beq_false in E. naive_solver.
Qed.

Lemma strip_suffix_some c s r : strip_suffix c s = Some r ↔ s = r ++ [c].
Proof.
  unfold strip_suffix. rewrite fmap_Some. setoid_rewrite strip_prefix_some. split.
  - intros (x & E & ->). rewrite <- (reverse_involutive s), E. apply reverse_cons.
  - intros ->. exists (reverse r). by rewrite reverse_app, reverse_involutive.
Qed.

Lemma split_once_some p s a b :
  split_once p s = Some (a, b) ↔
  ∃ c, s = a ++ c :: b ∧ p c = true ∧ Forall (fun x => p x = false) a.
Proof.
  revert a. induction s as [|x s IH]; intros a; cbn [split_once].
  - split; [done|]. intros (c & E & _). by destruct a.
  - destruct (p x) eqn:Hx.
    + split.
      * intros [= <- <-]. exists x. auto.
      * intros (c & E & Hc & Ha). destruct a as [|y a]; [by injection E as <- <-|].
        injection E as <- ->. inversion Ha; congruence.
    + rewrite fmap_Some. split.
      * intros ([a' b'] & E & [= -> ->]). apply IH in E as (c & -> & Hc & Ha).
        exists c. split_and!; [done|done|by constructor].
      * intros (c & E & Hc & Ha). destruct a as [|y a]; [injection E as <- <-; congruence|].
        injection E as <- ->. inversion Ha as [|? ? ? Ha']; subst.
        exists (a, b). split; [|done]. apply IH. eauto.
Qed.

Lemma split_once_none p s : split_once p s = None ↔ Forall (fun x => p x = false) s.
Proof.
  induction s as [|x s IH]; cbn [split_once]; [by split; [constructor|]|].
  destruct (p x) eqn:Hx.
  - split; [done|]. inversion 1; congruence.
  - rewrite fmap_None, IH, Forall_cons. naive_solver.
Qed.

Lemma all_indexed_lookup p i s :
  all_indexed p i s = true ↔ ∀ n b, s !! n = Some b → p (i + N.of_nat n) b = true.
Proof.
  revert i. induction s as [|x s IH]; intros i; cbn [all_indexed].
  - split; [intros _ n b; by rewrite lookup_nil|done].
  - rewrite andb_true_iff, IH. split.
    + intros [Hx Hs] [|n] b; cbn [lookup list_lookup]; intros E; [injection E as <-; by rewrite N.add_0_r|].
      apply Hs in E. replace (i + N.of_nat (S n)) with (i + 1 + N.of_nat n) by lia. done.
    + intros H. split; [specialize (H 0%nat x eq_refl); by rewrite N.add_0_r in H|].
      intros n b E. specialize (H (S n) b E). by replace (i + 1 + N.of_nat n) with (i + N.of_nat (S n)) by lia.
Qed.

Lemma digits_value_app acc s t : digits_value acc (s ++ t) = digits_value (digits_value acc s) t.
Proof. revert acc. induction s as [|b s IH]; intros acc; [done|]. apply IH. Qed.

Lemma digits_value_shift acc s :
  digits_value acc s = acc * 10 ^ len s + digits_value 0 s.
Proof.
  revert acc. induction s as [|b s IH]; intros acc; cbn [digits_value].
  - rewrite len_nil. cbn. lia.
  - rewrite IH, (IH (0 * 10 + _)), len_cons, N.pow_add_r. lia.
Qed.

(** *** Printing then parsing *)
Lemma pretty_char_digit x : x < 10 → code (pretty_N_char x) = 48 + x.
Proof.
  intros H. assert (x = 0 ∨ x = 1 ∨ x = 2 ∨ x = 3 ∨ x = 4 ∨ x = 5 ∨ x = 6 ∨ x = 7 ∨ x = 8 ∨ x = 9) as Hx by lia.
  by repeat destruct Hx as [->|Hx]; [..|subst].
Qed.

Lemma pretty_go_value x s :
  digits_value 0 (str_bytes (pretty_N_go x s)) = digits_value x (str_bytes s).
Proof.
  revert s. induction (N.lt_wf_0 x) as [x _ IH]; intros s.
  destruct (decide (x = 0)) as [->|Hx]; [by rewrite pretty_N_go_0|].
  rewrite pretty_N_go_step by lia. rewrite IH by (apply N.div_lt; lia).
  change (str_bytes (String (pretty_N_char (x mod 10)) s)) with (pretty_N_char (x mod 10) :: str_bytes s).
  cbn [digits_value]. rewrite pretty_char_digit by (apply N.mod_lt; lia).
  f_equal. clear. div_lia.
Qed.

Lemma pretty_go_digits x s :
  forallb digit (str_bytes (pretty_N_go x s)) = forallb digit (str_bytes s).
Proof.
  revert s. induction (N.lt_wf_0 x) as [x _ IH]; intros s.
  destruct (decide (x = 0)) as [->|Hx]; [by rewrite pretty_N_go_0|].
  rewrite pretty_N_go_step by lia. rewrite IH by (apply N.div_lt; lia).
  change (str_bytes (String (pretty_N_char (x mod 10)) s)) with (pretty_N_char (x mod 10) :: str_bytes s).
  cbn [forallb]. unfold digit at 1, is_ascii_digit.
  assert (x mod 10 < 10) by (apply N.mod_lt; lia).
  rewrite pretty_char_digit by done.
  by rewrite (proj2 (in_range_spec 48 57 (48 + x mod 10))) by (split; [apply N.le_add_r|lia]).
Qed.

Lemma parse_digits_print n : parse_digits (print_u64 n) = Some n.
Proof.
  unfold print_u64, pretty, pretty_N. destruct (decide (n = 0)) as [->|Hn]; [done|].
  unfold parse_digits. rewrite pretty_go_digits, pretty_go_value. cbn [forallb str_bytes String.list_ascii_of_string].
  destruct (len _ =? 0) eqn:E; [|done]. apply N.eqb_eq in E.
  assert (H := pretty_go_value n ""). destruct (str_bytes (pretty_N_go n "")); [|by rewrite len_cons in E; lia].
  cbn in H. congruence.
Qed.

Lemma print_u64_head n c : strip_prefix c (print_u64 n) ≠ None → digit c = true.
Proof.
  intros H. destruct (strip_prefix c (print_u64 n)) as [r|] eqn:E; [|done].
  apply strip_prefix_some in E. pose proof (parse_digits_print n) as Hp. unfold parse_digits in Hp.
  rewrite E in Hp. destruct (negb _ && _) eqn:Ed in Hp; [|done].
  apply andb_true_iff in Ed as [_ Ed]. cbn [forallb] in Ed. by apply andb_true_iff in Ed as [? _].
Qed.

Lemma print_u64_no_sign n c : digit c = false → strip_prefix c (print_u64 n) = None.
Proof.
  intros Hc. destruct (strip_prefix c (print_u64 n)) eqn:E; [|done].
  assert (digit c = true); [|congruence]. apply (print_u64_head n). by rewrite E.
Qed.

Lemma parse_print_u64 max n : n <= max → parse_unsigned max (print_u64 n) = Some n.
Proof.
  intros H. unfold parse_unsigned. rewrite print_u64_no_sign by done. cbn [default].
  rewrite parse_digits_print. cbn. by apply N.leb_le in H as ->.
Qed.

Lemma parse_unsigned_le max s n : parse_unsigned max s = Some n → n <= max.
Proof.
  unfold parse_unsigned. destruct (parse_digits _) as [m|]; [|done]. cbn.
  destruct (N.leb_spec m max); naive_solver.
Qed.

Lemma parse_print_i64 z : (I64_MIN <= z <= I64_MAX)%Z → parse_i64 (print_i64 z) = Some z.
Proof.
  unfold I64_MIN, I64_MAX, parse_i64. intros H. destruct z as [|p|p].
  - done.
  - cbn [print_i64]. rewrite !print_u64_no_sign by done. cbn [default].
    rewrite parse_digits_print. cbn -[N.leb]. destruct (N.leb_spec (N.pos p) 9223372036854775807); [done|lia].
  - cbn [print_i64 strip_prefix]. rewrite (proj2 (beq_true _ _)) by done.
    rewrite parse_digits_print. cbn -[N.leb]. destruct (N.leb_spec (N.pos p) 9223372036854775808); [done|lia].
Qed.

Lemma parse_i64_range s z : parse_i64 s = Some z → (I64_MIN <= z <= I64_MAX)%Z.
Proof.
  unfold parse_i64, I64_MIN, I64_MAX. destruct (strip_prefix "-" s).
  - destruct (parse_digits _) as [n|]; [|done]. cbn -[N.leb].
    destruct (N.leb_spec n 9223372036854775808); [|done]. intros [= <-]. lia.
  - destruct (parse_digits _) as [n|]; [|done]. cbn -[N.leb].
    destruct (N.leb_spec n 9223372036854775807); [|done]. intros [= <-]. lia.
Qed.

(** *** Trimming *)
Lemma trim_start_split p s :
  ∃ t, s = t ++ trim_start_matches p s ∧ Forall (fun b => p b = true) t.
Proof.
  induction s as [|b s (t & E & Ht)]; cbn [trim_start_matches]; [by exists []|].
  destruct (p b) eqn:Hb; [|by exists []].
  exists (b :: t). split; [by rewrite E at 1|by constructor].
Qed.

Lemma trim_end_split p s :
  ∃ t, s = trim_end_matches p s ++ t ∧ Forall (fun b => p b = true) t.
Proof.
  unfold trim_end_matches. destruct (trim_start_split p (reverse s)) as (t & E & Ht).
  exists (reverse t). split; [|by apply Forall_reverse].
  rewrite <- reverse_app, <- E. by rewrite reverse_involutive.
Qed.

Lemma digits_value_zeros acc t :
  Forall (fun b => beq b "0" = true) t → digits_value acc t = acc * 10 ^ len t.
Proof.
  intros H. revert acc. induction H as [|b t Hb _ IH]; intros acc; cbn [digits_value].
  - rewrite len_nil. cbn. lia.
  - apply beq_true in Hb as ->. rewrite IH, len_cons, N.pow_add_r. change (code "0" - 48) with 0. lia.
Qed.
