(* ===== verification/Bounds.v ===== *)
(** * Admission bounds of the [gaze-lens-source/2] protocol

    Models crates/gaze-lens-protocol/src/lib.rs (the fixed error type) and
    src/bounds.rs: the caps, the identifier checks, the counting serializer,
    the pre-allocation JSON scanner, the number grammar and the frame
    accumulator.  The scanner keeps the unread suffix [bytes[at..]] where the
    code keeps the index [at]; a slice [bytes[start..at]] is the part of the
    suffix at [start] that the suffix at [at] no longer has. *)

From S2P Require Import Prelude Utf8.

(** ** The error type (lib.rs) *)
Inductive Error :=
| InvalidRequest | Unauthorized | UnsupportedVersion | UnsupportedOperation
| Unavailable | CapExceeded | Timeout | BindingChanged | InternalFailure.
#[global] Instance Error_eq_dec : EqDecision Error.
Proof. solve_decision. Defined.

Definition error_display (e : Error) : string :=
  match e with
  | InvalidRequest => "invalid_request"
  | Unauthorized => "unauthorized"
  | UnsupportedVersion => "unsupported_version"
  | UnsupportedOperation => "unsupported_operation"
  | Unavailable => "unavailable"
  | CapExceeded => "cap_exceeded"
  | Timeout => "timeout"
  | BindingChanged => "binding_changed"
  | InternalFailure => "internal_failure"
  end.

Abbreviation Result := (result Error).

(** ** The caps *)
Definition FRAME_BYTES : N := 1048576.
Definition PREPARE_BYTES : N := 4096.
Definition REQUEST_BYTES : N := 65536.
Definition RESULT_BYTES : N := 131072.
Definition SCALAR_BYTES : N := 8192.
Definition IDENTIFIER_BYTES : N := 256.
Definition MAX_DEPTH : N := 32.
Definition MAX_NODES : N := 16384.
Definition MAX_ROWS : N := 1000.
Definition DEFAULT_ROWS : N := 100.
Definition MAX_COLUMNS : N := 128.
Definition MAX_PREDICATES : N := 64.
Definition MAX_ORDER : N := 16.
Definition MAX_BINDS : N := 1024.
Definition MAX_ENTRIES : N := 1000.
Definition KEYWORD_WINDOW_LINES : N := 1000.
Definition SCAN_BYTES : N := 1048576.
Definition SCAN_LINES : N := 16384.
Definition REGEX_BYTES : N := 4096.
Definition INVENTORY_RECORDS : N := 100000.
Definition MAX_PACKAGES : N := 500.
Definition MAX_PHP : N := 32.
Definition IO_SECONDS : N := 10.
Definition CALL_SECONDS : N := 30.
Definition DEFAULT_ACTIVE_CALLS : N := 4.
Definition MAX_PRINCIPAL_CALLS : N := 2.

Definition require (ok : bool) : Result unit :=
  if ok then Ok tt else Err InvalidRequest.
Definition cap (size max : N) : Result unit :=
  if size <=? max then Ok tt else Err CapExceeded.
Definition identifier (text : string) : Result unit :=
  _ ← require (negb (slen text =? 0));
  cap (slen text) IDENTIFIER_BYTES.
Definition id_byte (b : ascii) : bool :=
  is_ascii_alphanumeric (code b) || beq b "_" || beq b "-".
Definition configured_id (text : string) : Result unit :=
  require (negb (slen text =? 0) && (slen text <=? 64) && forallb id_byte (str_bytes text)).
Definition text (t : string) : Result unit := cap (slen t) SCALAR_BYTES.

(** [serialized_size]: serde_json hands the serialized value to the counting
    writer in chunks; [writes] is that sequence of chunks. *)
Definition counter_write (max count : N) (chunk : bytes) : option N :=
  match checked_add count (len chunk) with
  | Some n => if n <=? max then Some n else None
  | None => None
  end.
Fixpoint counter_run (max count : N) (writes : list bytes) : option N :=
  match writes with
  | [] => Some count
  | w :: ws => match counter_write max count w with
    | Some n => counter_run max n ws
    | None => None
    end
  end.
Definition serialized_size (writes : list bytes) (max : N) : Result N :=
  ok_or (counter_run max 0 writes) CapExceeded.

(** ** The JSON number grammar, [number] *)
(** [while s.get(i).is_some_and(u8::is_ascii_digit) { i += 1 }] *)
Fixpoint skip_digits (s : bytes) : bytes :=
  match s with
  | b :: s' => if digit b then skip_digits s' else s
  | [] => []
  end.
Definition number_int (s : bytes) : option bytes :=
  match s with
  | b :: s' => if beq b "0" then Some s'
               else if in_range 49 57 (code b) then Some (skip_digits s') else None
  | [] => None
  end.
(** one or more digits: [let start = i; while ..; if i == start { return false }] *)
Definition digits1 (s : bytes) : option bytes :=
  let s' := skip_digits s in
  if (length s' =? length s)%nat then None else Some s'.
Definition number_frac (s : bytes) : option bytes :=
  match s with
  | b :: s' => if beq b "." then digits1 s' else Some s
  | [] => Some s
  end.
Definition number_exp (s : bytes) : option bytes :=
  match s with
  | b :: s' =>
    if beq b "e" || beq b "E"
    then digits1 (match s' with
                  | c :: s'' => if beq c "+" || beq c "-" then s'' else s'
                  | [] => s' end)
    else Some s
  | [] => Some s
  end.
Definition number (s : bytes) : bool :=
  let s0 := match s with b :: s' => if beq b "-" then s' else s | [] => s end in
  match number_int s0 with
  | None => false
  | Some s1 => match number_frac s1 with
    | None => false
    | Some s2 => match number_exp s2 with
      | None => false
      | Some s3 => match s3 with [] => true | _ => false end
      end
    end
  end.

(** ** The scanner *)
Definition QUOTE : ascii := ascii_of_N 34.
Definition BACKSLASH : ascii := ascii_of_N 92.
Definition TAB : ascii := ascii_of_N 9.
Definition LF : ascii := ascii_of_N 10.
Definition CR : ascii := ascii_of_N 13.
#[global] Arguments QUOTE : simpl never.
#[global] Arguments BACKSLASH : simpl never.

Definition is_space (b : ascii) : bool := beq b " " || beq b TAB || beq b CR || beq b LF.
Fixpoint space (rest : bytes) : bytes :=
  match rest with
  | b :: rest' => if is_space b then space rest' else rest
  | [] => []
  end.

Definition hex_value (b : ascii) : option N :=
  let c := code b in
  if in_range 48 57 c then Some (c - 48)
  else if in_range 97 102 c then Some (c - 97 + 10)
  else if in_range 65 70 c then Some (c - 65 + 10)
  else None.
Fixpoint hex_digits (n : nat) (value : N) (rest : bytes) : Result (N * bytes) :=
  match n with
  | O => Ok (value, rest)
  | S n => match rest with
    | [] => Err InvalidRequest
    | b :: rest => match hex_value b with
      | Some v => hex_digits n (value * 16 + v) rest
      | None => Err InvalidRequest
      end
    end
  end.
Definition hex_quad (rest : bytes) : Result (N * bytes) := hex_digits 4 0 rest.

#[global] Arguments hex_quad : simpl never.

Definition simple_escape (e : ascii) : bool :=
  beq e QUOTE || beq e BACKSLASH || beq e "/" || beq e "b" || beq e "f" ||
  beq e "n" || beq e "r" || beq e "t".

(** [bytes.get(at..at + 2) == Some(b"\\u")] and the step over it *)
Definition take_backslash_u (rest : bytes) : Result bytes :=
  match rest with
  | a :: b :: rest => if beq a BACKSLASH && beq b "u" then Ok rest else Err InvalidRequest
  | _ => Err InvalidRequest
  end.

(** the code point of a [\u] escape, after its [u] *)
Definition unicode_escape (rest : bytes) : Result (N * bytes) :=
  '(cp, rest) ← hex_quad rest;
  if in_range 55296 56319 cp then
    rest ← take_backslash_u rest;
    '(low, rest) ← hex_quad rest;
    _ ← require (in_range 56320 57343 low);
    Ok (65536 + N.shiftl (cp - 55296) 10 + low - 56320, rest)
  else Ok (cp, rest).

(** after a backslash: decoded length and the decoded byte when it is ASCII *)
Definition escape (rest : bytes) : Result (N * N * bytes) :=
  match rest with
  | [] => Err InvalidRequest
  | e :: rest =>
    if simple_escape e then Ok (1, 0, rest)
    else if beq e "u" then
      '(cp, rest) ← unicode_escape rest;
      if is_scalar cp
      then Ok (len_utf8 cp, (if cp <? 128 then cp else 0), rest)
      else Err InvalidRequest
    else Err InvalidRequest
  end.

(** [Scanner::string] after its opening quote.  [InternalFailure] is returned
    for exhausted fuel and by nothing else. *)
Fixpoint string_loop (fuel : nat) (max : N) (opaque : bool) (decoded : N) (rest : bytes)
  : Result (N * bytes) :=
  match fuel with
  | O => Err InternalFailure
  | S fuel => match rest with
    | [] => Err InvalidRequest
    | b :: rest =>
      if beq b QUOTE then Ok (decoded, rest)
      else if code b <=? 31 then Err InvalidRequest
      else
        '(len, ascii, rest) ← (if beq b BACKSLASH then escape rest else Ok (1, code b, rest));
        let decoded := decoded + len in
        _ ← cap decoded max;
        _ ← (if opaque then require (is_lower_hex ascii) else Ok tt);
        string_loop fuel max opaque decoded rest
    end
  end.

(** [&bytes[start..at]] *)
Definition slice (from to_ : bytes) : bytes := take (length from - length to_) from.

(** [Scanner::string]: the token with its quotes, and the unread rest *)
Definition scan_string (max : N) (opaque : bool) (rest : bytes) : Result (bytes * bytes) :=
  match rest with
  | q :: rest1 =>
    _ ← require (beq q QUOTE);
    '(decoded, rest2) ← string_loop (S (length rest1)) max opaque 0 rest1;
    _ ← require (negb opaque || (decoded =? 32));
    Ok (slice rest rest2, rest2)
  | [] => Err InvalidRequest
  end.

Definition is_delim (b : ascii) : bool := is_space b || beq b "," || beq b "]" || beq b "}".
Fixpoint skip_token (rest : bytes) : bytes :=
  match rest with
  | b :: rest' => if is_delim b then rest else skip_token rest'
  | [] => []
  end.
Definition bytes_eqb (a b : bytes) : bool := bool_decide (a = b).
Definition literal (token : bytes) : bool :=
  bytes_eqb token (str_bytes "null") || bytes_eqb token (str_bytes "true") ||
  bytes_eqb token (str_bytes "false") || number token.

(** [key[1..key.len() - 1]] *)
Definition unquote (key : bytes) : bytes := take (length key - 2) (drop 1 key).
Definition next_is (b : ascii) (rest : bytes) : bool :=
  match rest with a :: _ => beq a b | [] => false end.

Section Scanner.
(** [frame] and [scalar_max] of the scanner; [unescape] is
    [serde_json::from_str::<String>] on a quoted key that has a backslash. *)
Context (frame : bool) (scan_scalar_max : N) (unescape : bytes → option bytes).

(** unread bytes and the node count *)
Definition scan_state : Type := bytes * N.

(** [Scanner::node] *)
Definition node (nodes : N) : Result N :=
  _ ← cap (nodes + 1) MAX_NODES; Ok (nodes + 1).

(** a key, its colon, and the duplicate check; the field name is decoded *)
Definition scan_key (keys : list bytes) (rest : bytes) : Result (bytes * bytes) :=
  '(key, rest) ← scan_string SCALAR_BYTES false (space rest);
  _ ← require (utf8_valid key);
  field ← (if existsb (beq BACKSLASH) key
           then ok_or (unescape key) InvalidRequest else Ok (unquote key));
  _ ← require (negb (existsb (bytes_eqb field) keys));
  let rest := space rest in
  _ ← require (next_is ":" rest);
  Ok (field, drop 1 rest).

Definition named (field : bytes) (name : string) : bool := bytes_eqb field (str_bytes name).

(** the ceilings on the raw [args] and [result] of a frame *)
Definition frame_cap (depth : N) (field : bytes) (size : N) : Result unit :=
  if frame && (depth =? 1) then
    if named field "args" then cap size REQUEST_BYTES
    else if named field "result" then cap size RESULT_BYTES
    else Ok tt
  else Ok tt.

Fixpoint value (fuel : nat) (depth : N) (binding : bool) (scalar_max : N)
    (st : scan_state) : Result scan_state :=
  match fuel with
  | O => Err InternalFailure
  | S fuel =>
    let '(rest, nodes) := st in
    _ ← cap depth MAX_DEPTH;
    nodes ← node nodes;
    let rest := space rest in
    match rest with
    | [] => Err InvalidRequest
    | b :: rest1 =>
      if beq b QUOTE then
        '(_, rest2) ← scan_string scalar_max binding rest; Ok (rest2, nodes)
      else if beq b "{" || beq b "[" then
        let object := beq b "{" in
        let end_ := if object then "}"%char else "]"%char in
        let rest2 := space rest1 in
        if next_is end_ rest2 then Ok (drop 1 rest2, nodes)
        else members fuel depth binding object end_ [] (rest2, nodes)
      else
        let rest2 := skip_token rest in
        let token := slice rest rest2 in
        _ ← require (literal token);
        _ ← cap (len token) SCALAR_BYTES;
        Ok (rest2, nodes)
    end
  end
with members (fuel : nat) (depth : N) (binding object : bool) (end_ : ascii)
    (keys : list bytes) (st : scan_state) : Result scan_state :=
  match fuel with
  | O => Err InternalFailure
  | S fuel =>
    let '(rest, nodes) := st in
    '(field, rest, nodes) ←
      (if object then
         nodes ← node nodes;
         '(field, rest) ← scan_key keys rest;
         Ok (field, rest, nodes)
       else Ok ([], rest, nodes));
    let rest := space rest in
    let start := rest in
    let binding_field := binding && object in
    _ ← (if binding_field then require (next_is QUOTE rest) else Ok tt);
    let child_binding := frame && (depth =? 1) && named field "binding" in
    _ ← (if child_binding then require (next_is "{" rest) else Ok tt);
    let scalar_max :=
      if binding_field then 32
      else if frame && named field "base64" then SCALAR_BYTES * 2
      else scan_scalar_max in
    '(rest, nodes) ← value fuel (depth + 1) (binding_field || child_binding) scalar_max (rest, nodes);
    _ ← frame_cap depth field (len (slice start rest));
    let keys := if object then field :: keys else keys in
    match space rest with
    | c :: rest =>
      if beq c "," then members fuel depth binding object end_ keys (rest, nodes)
      else if beq c end_ then Ok (rest, nodes)
      else Err InvalidRequest
    | [] => Err InvalidRequest
    end
  end.

(** [scan_json] *)
Definition scan_json (max : N) (input : bytes) : Result unit :=
  _ ← cap (len input) max;
  _ ← require (utf8_valid input);
  '(rest, _) ← value (2 * length input + 1) 1 false scan_scalar_max (input, 0);
  require (match space rest with [] => true | _ => false end).
End Scanner.

(** the three entry points *)
Definition json (unescape : bytes → option bytes) (input : bytes) (max : N) : Result unit :=
  scan_json false (SCALAR_BYTES * 2) unescape max input.
Definition frame_json (unescape : bytes → option bytes) (input : bytes) (max : N) : Result unit :=
  scan_json true SCALAR_BYTES unescape max input.
Definition source_json (unescape : bytes → option bytes) (input : bytes) : Result unit :=
  scan_json false SCALAR_BYTES unescape RESULT_BYTES input.

(** ** The frame accumulator *)
Record FrameBuffer := mkFrameBuffer {
  fb_bytes : bytes;
  fb_max : N;
  fb_finished : bool;
  fb_failed : bool;
}.

Definition fb_new (max : N) : Result FrameBuffer :=
  _ ← require ((0 <? max) && (max <=? FRAME_BYTES));
  Ok (mkFrameBuffer [] max false false).

Fixpoint position (b : ascii) (l : bytes) : option N :=
  match l with
  | [] => None
  | a :: l => if beq a b then Some 0 else N.succ <$> position b l
  end.

(** [push] as a state transformer: the outcome and the buffer left behind.
    [reserve] is whether [try_reserve_exact] finds the memory. *)
Definition fb_push (reserve : bool) (chunk : bytes) (fb : FrameBuffer)
  : Result bool * FrameBuffer :=
  if fb_finished fb || fb_failed fb
  then (Err InvalidRequest, mkFrameBuffer (fb_bytes fb) (fb_max fb) (fb_finished fb) true)
  else
    let failed fin := mkFrameBuffer (fb_bytes fb) (fb_max fb) fin true in
    match checked_add (len (fb_bytes fb)) (len chunk) with
    | None => (Err CapExceeded, failed false)
    | Some size =>
      if negb (size <=? fb_max fb) then (Err CapExceeded, failed false)
      else
        let at_lf := position LF chunk in
        if match at_lf with Some i => negb (i + 1 =? len chunk) | None => false end
        then (Err InvalidRequest, failed false)
        else
          let finished := match at_lf with Some _ => true | None => false end in
          if negb reserve then (Err CapExceeded, failed finished)
          else (Ok finished,
                mkFrameBuffer (fb_bytes fb ++ chunk) (fb_max fb) finished false)
    end.

Definition fb_finish (fb : FrameBuffer) : Result bytes :=
  _ ← require (fb_finished fb && negb (fb_failed fb));
  Ok (fb_bytes fb).

(** pushing the chunks of a connection in order, stopping at the first error *)
Fixpoint fb_push_all (chunks : list bytes) (fb : FrameBuffer) : Result bool * FrameBuffer :=
  match chunks with
  | [] => (Ok (fb_finished fb), fb)
  | c :: cs => match fb_push true c fb with
    | (Ok _, fb) => fb_push_all cs fb
    | (Err e, fb) => (Err e, fb)
    end
  end.
