(* ===== verification/JsonGrammar.v ===== *)
(** * What the admission scanner accepts

    A grammar of JSON texts, written without reference to the scanner, and the
    theorems that tie crates/gaze-lens-protocol/src/bounds.rs to it: [number]
    decides the number grammar, an accepted input is the text of a tree within
    every bound, and the scanner always answers (its fuel is never exhausted). *)

From S2P Require Import Prelude Utf8 Bounds.

(** ** Numbers *)
Definition Digits (s : bytes) : Prop := Forall (fun b => digit b = true) s.

Inductive IntPart : bytes → Prop :=
| int_zero : IntPart ["0"%char]
| int_pos b s : in_range 49 57 (code b) = true → Digits s → IntPart (b :: s).
Inductive FracPart : bytes → Prop :=
| frac_none : FracPart []
| frac_some s : s ≠ [] → Digits s → FracPart ("."%char :: s).
Inductive Sign : bytes → Prop :=
| sign_none : Sign []
| sign_plus : Sign ["+"%char]
| sign_minus : Sign ["-"%char].
Inductive ExpPart : bytes → Prop :=
| exp_none : ExpPart []
| exp_some e sg s :
    e = "e"%char ∨ e = "E"%char → Sign sg → s ≠ [] → Digits s → ExpPart (e :: sg ++ s).
(** RFC 8259, section 6: [ minus ] int [ frac ] [ exp ] *)
Inductive JsonNumber : bytes → Prop :=
| json_number m i f e :
    m = [] ∨ m = ["-"%char] → IntPart i → FracPart f → ExpPart e →
    JsonNumber (m ++ i ++ f ++ e).

(** ** Texts *)
Definition Spaces (w : bytes) : Prop := Forall (fun b => is_space b = true) w.

(** the body of a string with the UTF-8 length it decodes to; every character
    of an [opaque] one decodes to a lower-case hexadecimal digit *)
Inductive StrBody (opaque : bool) : N → bytes → Prop :=
| sb_nil : StrBody opaque 0 []
| sb_plain b n l :
    b ≠ QUOTE → b ≠ BACKSLASH → 31 < code b → (opaque = true → is_lower_hex (code b) = true) →
    StrBody opaque n l → StrBody opaque (1 + n) (b :: l)
| sb_simple e n l :
    simple_escape e = true → opaque = false → StrBody opaque n l → StrBody opaque (1 + n) (BACKSLASH :: e :: l)
| sb_unicode u cp n l :
    (∀ rest, unicode_escape (u ++ rest) = Ok (cp, rest)) → is_scalar cp = true →
    (opaque = true → is_lower_hex cp = true) → StrBody opaque n l →
    StrBody opaque (len_utf8 cp + n) (BACKSLASH :: "u"%char :: u ++ l).
(** an opaque string is 32 digits *)
Definition StrToken (opaque : bool) (n : N) (t : bytes) : Prop :=
  ∃ body, t = QUOTE :: body ++ [QUOTE] ∧ StrBody opaque n body ∧ (opaque = true → n = 32).

(** syntax trees: literals and numbers, strings with their decoded length, and
    arrays ([object = false], empty field names) or objects *)
Inductive tree :=
| TLit
| TStr (decoded : N)
| TSeq (object : bool) (items : list (bytes * tree)).

Section Grammar.
(** whether the text is a frame of the protocol; the ceiling of its strings
    that no field changes; the decoding of an escaped key *)
Context (frame : bool) (smax : N) (unescape : bytes → option bytes).

(** the decoded name of a quoted key *)
Definition KeyName (key k : bytes) : Prop :=
  if existsb (beq BACKSLASH) key then unescape key = Some k else k = unquote key.

Inductive Prefix : bool → bytes → bytes → Prop :=
| prefix_element : Prefix false [] []
| prefix_member w key n k w' :
    Spaces w → StrToken false n key → n <= SCALAR_BYTES → KeyName key k → Spaces w' →
    Prefix true k (w ++ key ++ w' ++ [":"%char]).

Definition opening (object : bool) : ascii := if object then "{"%char else "["%char.
Definition closing (object : bool) : ascii := if object then "}"%char else "]"%char.

(** the field of a frame that holds the binding: a field of the outermost object *)
Definition binds (d : N) (k : bytes) : bool := frame && (d =? 1)%N && bool_decide (k = str_bytes "binding").
(** the ceiling of the strings below the field [k]; [b]: it is a field of the binding *)
Definition ceiling (b : bool) (k : bytes) : N :=
  if b then 32 else if frame && bool_decide (k = str_bytes "base64") then SCALAR_BYTES * 2 else smax.
(** what the value [t] of the field [k] must be, at the depth [d] of what holds it *)
Record Fits (d : N) (b : bool) (k : bytes) (x : tree) (t : bytes) : Prop := {
  fit_field : b = true → ∃ n, x = TStr n;
  fit_binding : binds d k = true → ∃ items, x = TSeq true items;
  fit_args : frame = true → d = 1 → k = str_bytes "args" → len t <= REQUEST_BYTES;
  fit_result : frame = true → d = 1 → k = str_bytes "result" → len t <= RESULT_BYTES }.

(** a value at depth [d], [b] if it belongs to the binding of a frame, with
    strings of at most [m] bytes *)
Inductive Text : N → bool → N → tree → bytes → Prop :=
| text_literal d b m t :
    t = str_bytes "null" ∨ t = str_bytes "true" ∨ t = str_bytes "false" ∨ JsonNumber t →
    len t <= SCALAR_BYTES → Text d b m TLit t
| text_string d b m n t : StrToken b n t → n <= m → Text d b m (TStr n) t
| text_empty d b m object w :
    Spaces w → Text d b m (TSeq object []) (opening object :: w ++ [closing object])
| text_seq d b m object items w body :
    Spaces w → Items d b object items body →
    Text d b m (TSeq object items) (opening object :: w ++ body)
with Items : N → bool → bool → list (bytes * tree) → bytes → Prop :=
| items_last d b object k x p w t w' :
    Prefix object k p → Spaces w → Text (d + 1) (b && object || binds d k) (ceiling (b && object) k) x t →
    Fits d (b && object) k x t → Spaces w' →
    Items d b object [(k, x)] (p ++ w ++ t ++ w' ++ [closing object])
| items_cons d b object k x p w t w' items body :
    Prefix object k p → Spaces w → Text (d + 1) (b && object || binds d k) (ceiling (b && object) k) x t →
    Fits d (b && object) k x t → Spaces w' → Items d b object items body →
    Items d b object ((k, x) :: items) (p ++ w ++ t ++ w' ++ ","%char :: body).
End Grammar.

(** ** Measures and well-formedness of a tree *)
Fixpoint depth (t : tree) : N :=
  match t with
  | TSeq _ items => 1 + foldr (fun m d => N.max (depth (snd m)) d) 0 items
  | _ => 1
  end.
(** a node per value and per key, as [Scanner::node] counts them *)
Fixpoint nodes (t : tree) : N :=
  match t with
  | TSeq object items =>
    1 + foldr (fun m n => (if object then 1 else 0) + nodes (snd m) + n) 0 items
  | _ => 1
  end.
(** no duplicate decoded key in any object *)
Fixpoint DistinctKeys (t : tree) : Prop :=
  match t with
  | TLit | TStr _ => True
  | TSeq object items =>
    (object = true → NoDup (fst <$> items)) ∧
    foldr (fun m P => DistinctKeys (snd m) ∧ P) True items
  end.

(** ** The number grammar is decided *)
Lemma skip_digits_split s :
  ∃ ds, s = ds ++ skip_digits s ∧ Digits ds ∧
        match skip_digits s with b :: _ => digit b = false | [] => True end.
Proof.
  induction s as [|b s (ds & E & D & H)]; cbn [skip_digits].
  - exists []. repeat split. constructor.
  - destruct (digit b) eqn:Hb.
    + exists (b :: ds). split; [by rewrite E at 1|]. split; [by constructor|done].
    + exists []. split; [done|]. split; [constructor|done].
Qed.

Definition no_digit (r : bytes) : Prop := match r with b :: _ => digit b = false | [] => True end.

Lemma skip_digits_app ds r : Digits ds → no_digit r → skip_digits (ds ++ r) = r.
Proof.
  induction 1 as [|b ds Hb _ IH]; cbn [app skip_digits].
  - destruct r as [|b r]; [done|]. cbn. by intros ->.
  - by rewrite Hb.
Qed.

Lemma digits1_some s r :
  digits1 s = Some r → ∃ ds, s = ds ++ r ∧ ds ≠ [] ∧ Digits ds ∧ no_digit r.
Proof.
  unfold digits1. destruct (skip_digits_split s) as (ds & E & D & H).
  destruct (_ =? _)%nat eqn:El; [done|]. intros [= <-]. exists ds. repeat split; try done.
  intros ->. simpl in E. rewrite <- E in El. by rewrite Nat.eqb_refl in El.
Qed.

Lemma digits1_app ds r : ds ≠ [] → Digits ds → no_digit r → digits1 (ds ++ r) = Some r.
Proof.
  intros Hne Hd Hr. unfold digits1. rewrite skip_digits_app by done.
  rewrite length_app. destruct ds as [|d ds]; [done|].
  destruct (_ =? _)%nat eqn:E; [|done]. to_prop. simpl in E. lia.
Qed.

Lemma frac_no_digit f e : FracPart f → ExpPart e → no_digit (f ++ e).
Proof. by intros [] [|? ? ? [-> | ->]]; cbn. Qed.

Lemma exp_no_digit e : ExpPart e → no_digit e.
Proof. by intros [|? ? ? [-> | ->]]; cbn. Qed.

Lemma digit_code b : in_range 49 57 (code b) = true → digit b = true.
Proof. unfold digit, is_ascii_digit. to_prop. lia. Qed.

Lemma number_int_spec s r :
  number_int s = Some r → ∃ i, s = i ++ r ∧ IntPart i.
Proof.
  destruct s as [|b s]; [done|]. cbn [number_int].
  destruct (beq b "0") eqn:E0.
  { apply beq_true in E0 as ->. intros [= <-]. exists ["0"%char]. split; [done|constructor]. }
  destruct (in_range 49 57 (code b)) eqn:E1; [|done]. intros [= <-].
  destruct (skip_digits_split s) as (ds & E & D & _).
  exists (b :: ds). split; [by rewrite E at 1|by constructor].
Qed.

Lemma number_int_app i r : IntPart i → no_digit r → number_int (i ++ r) = Some r.
Proof.
  intros [|b s Hb Hs] Hr; cbn [app number_int]; [done|].
  destruct (beq b "0") eqn:E0.
  - apply beq_true in E0 as ->. done.
  - rewrite Hb. by rewrite skip_digits_app.
Qed.

Lemma number_frac_spec s r :
  number_frac s = Some r → ∃ f, s = f ++ r ∧ FracPart f.
Proof.
  destruct s as [|b s]; cbn [number_frac]; [intros [= <-]; exists []; by split; [|constructor]|].
  destruct (beq b ".") eqn:E.
  - apply beq_true in E as ->. intros (ds & -> & Hne & Hd & _)%digits1_some.
    exists ("."%char :: ds). split; [done|by constructor].
  - intros [= <-]. exists []. by split; [|constructor].
Qed.

Lemma number_frac_app f e : FracPart f → ExpPart e → number_frac (f ++ e) = Some e.
Proof.
  intros [|s Hne Hd] He; cbn [app number_frac].
  - destruct He as [|? ? ? [-> | ->]]; done.
  - apply digits1_app; [done..|by apply exp_no_digit].
Qed.

Lemma number_exp_spec s : number_exp s = Some [] → ExpPart s.
Proof.
  destruct s as [|e s]; cbn [number_exp]; [constructor|].
  destruct (beq e "e" || beq e "E") eqn:E; [|done].
  assert (e = "e"%char ∨ e = "E"%char) as He by (to_prop; done).
  destruct s as [|c s]; [done|].
  destruct (beq c "+" || beq c "-") eqn:Ec; intros (ds & Es & Hne & Hd & _)%digits1_some;
    rewrite app_nil_r in Es; subst.
  - apply (exp_some e [c]); [done| |done..].
    to_prop. destruct Ec as [-> | ->]; constructor.
  - by apply (exp_some e []); [|constructor|..].
Qed.

Lemma number_exp_app s : ExpPart s → number_exp s = Some [].
Proof.
  intros [|e sg ds He Hsg Hne Hd]; cbn [number_exp]; [done|].
  replace (beq e "e" || beq e "E") with true by (symmetry; to_prop; done).
  destruct ds as [|d ds]; [done|].
  assert (digit d = true) as Hdig by (by inversion Hd).
  assert (beq d "+" || beq d "-" = false) as Hns.
  { apply orb_false_iff. split; apply beq_false; intros ->; done. }
  pose proof (digits1_app (d :: ds) [] Hne Hd I) as Hds. rewrite app_nil_r in Hds.
  destruct Hsg; cbn [app]; [by rewrite Hns|exact Hds..].
Qed.

Lemma number_sound s : number s = true → JsonNumber s.
Proof.
  unfold number. intros H.
  destruct (number_int _) as [s1|] eqn:E1; [|done].
  destruct (number_frac s1) as [s2|] eqn:E2; [|done].
  destruct (number_exp s2) as [[|]|] eqn:E3; [|done..].
  apply number_int_spec in E1 as (i & Ei & Hi).
  apply number_frac_spec in E2 as (f & -> & Hf).
  apply number_exp_spec in E3.
  destruct s as [|b s]; [subst; by destruct Hi|].
  destruct (beq b "-") eqn:Eb.
  - apply beq_true in Eb as ->. subst s.
    apply (json_number ["-"%char] i f s2); auto.
  - rewrite Ei. apply (json_number [] i f s2); auto.
Qed.

Lemma number_complete s : JsonNumber s → number s = true.
Proof.
  intros [m i f e Hm Hi Hf He]. unfold number.
  assert (Hs : match m ++ i ++ f ++ e with
               | b :: s' => if beq b "-" then s' else m ++ i ++ f ++ e
               | [] => m ++ i ++ f ++ e end = i ++ f ++ e).
  { destruct Hm as [-> | ->]; [|done]. destruct Hi as [|d ds Hd]; [done|]. cbn [app].
    destruct (beq d "-") eqn:E; [|done]. apply beq_true in E as ->. done. }
  rewrite Hs, number_int_app by (done || by apply frac_no_digit).
  by rewrite number_frac_app, number_exp_app.
Qed.

(** [bounds::number] decides the number grammar of RFC 8259: it answers
    true exactly on the byte strings that are an optional minus, an integer
    without leading zero, an optional fraction and an optional exponent. *)
Theorem number_decides_grammar s : number s = true ↔ JsonNumber s.
Proof. split; [apply number_sound|apply number_complete]. Qed.

(** ** Soundness of the scanner *)

Lemma require_ok b u : require b = Ok u ↔ b = true.
Proof. destruct b, u; split; done. Qed.

Lemma cap_ok n m u : cap n m = Ok u ↔ n <= m.
Proof. unfold cap. destruct (N.leb_spec n m), u; split; try done; lia. Qed.

#[export] Hint Rewrite require_ok cap_ok : lens_ok.

Lemma space_split rest : ∃ w, rest = w ++ space rest ∧ Spaces w.
Proof.
  induction rest as [|b rest (w & E & Hw)]; cbn [space]; [by exists []; split; [|constructor]|].
  destruct (is_space b) eqn:Hb.
  - exists (b :: w). split; [by rewrite E at 1|by constructor].
  - exists []. split; [done|constructor].
Qed.

Lemma hex_digits_stable n v rest v' rest' :
  hex_digits n v rest = Ok (v', rest') →
  ∃ u, rest = u ++ rest' ∧ ∀ r, hex_digits n v (u ++ r) = Ok (v', r).
Proof.
  revert v rest. induction n as [|n IH]; intros v rest H; cbn [hex_digits] in *.
  - simplify_eq. by exists [].
  - destruct rest as [|b rest]; [done|]. destruct (hex_value b) eqn:E; [|done].
    apply IH in H as (u & -> & Hu). exists (b :: u). split; [done|].
    intros r. cbn. by rewrite E.
Qed.

Lemma hex_quad_stable rest v rest' :
  hex_quad rest = Ok (v, rest') →
  ∃ u, rest = u ++ rest' ∧ ∀ r, hex_quad (u ++ r) = Ok (v, r).
Proof. apply hex_digits_stable. Qed.

Lemma take_backslash_u_ok rest rest' :
  take_backslash_u rest = Ok rest' → rest = BACKSLASH :: "u"%char :: rest'.
Proof.
  destruct rest as [|a [|b rest]]; try done. cbn.
  destruct (beq a BACKSLASH && beq b "u") eqn:E; [|done]. to_prop.
  destruct E as [-> ->]. by intros [= ->].
Qed.

Lemma unicode_escape_stable rest cp rest' :
  unicode_escape rest = Ok (cp, rest') →
  ∃ u, rest = u ++ rest' ∧ ∀ r, unicode_escape (u ++ r) = Ok (cp, r).
Proof.
  unfold unicode_escape. intros H.
  open_bind H as [hi r1] (u & -> & Hu)%hex_quad_stable.
  destruct (in_range 55296 56319 hi) eqn:Ehi.
  - open_bind H as r2 ->%take_backslash_u_ok.
    open_bind H as [low r3] (u' & -> & Hu')%hex_quad_stable.
    open_bind H as [] Hlow. injection H as <- <-.
    exists (u ++ BACKSLASH :: "u"%char :: u'). split; [by rewrite <- app_assoc|].
    intros r. rewrite <- app_assoc, Hu. cbn -[N.shiftl N.add N.sub].
    rewrite Ehi. cbn -[N.shiftl N.add N.sub].
    change (beq BACKSLASH BACKSLASH && beq "u" "u") with true. cbn -[N.shiftl N.add N.sub].
    rewrite Hu'. cbn -[N.shiftl N.add N.sub]. by rewrite Hlow.
  - injection H as <- <-. exists u. split; [done|]. intros r. rewrite Hu. cbn. by rewrite Ehi.
Qed.

(** one step of a string body: a plain byte or an escape *)
Lemma escape_body o rest n a rest' :
  escape rest = Ok (n, a, rest') → (o = true → is_lower_hex a = true) →
  ∃ u, rest = u ++ rest' ∧
       ∀ m l, StrBody o m l → StrBody o (n + m) (BACKSLASH :: u ++ l).
Proof.
  destruct rest as [|e rest]; [done|]. unfold escape.
  destruct (simple_escape e) eqn:Es.
  { intros [= <- <- <-] Ho. exists [e]. split; [done|].
    intros m l Hl. apply sb_simple; [done| |done]. destruct o; [by specialize (Ho eq_refl)|done]. }
  destruct (beq e "u") eqn:Eu; [|done]. apply beq_true in Eu as ->. intros H Ho.
  open_bind H as [cp r] (u & -> & Hu)%unicode_escape_stable.
  destruct (is_scalar cp) eqn:Esc; [|done]. injection H as <- <- <-.
  exists ("u"%char :: u). split; [done|]. intros m l Hl. apply sb_unicode; [done..| |done].
  intros Eo. specialize (Ho Eo). by destruct (cp <? 128).
Qed.

Lemma opaque_ok (o : bool) a u : (if o then require (is_lower_hex a) else Ok tt) = Ok u → o = true → is_lower_hex a = true.
Proof. by destruct o; [intros ?%require_ok|]. Qed.

Lemma string_loop_body fuel max o d rest d' rest' :
  string_loop fuel max o d rest = Ok (d', rest') →
  ∃ body n, rest = body ++ QUOTE :: rest' ∧ StrBody o n body ∧ d' = d + n ∧ (d <= max → d' <= max).
Proof.
  revert d rest. induction fuel as [|fuel IH]; intros d rest H; [done|].
  cbn [string_loop] in H. destruct rest as [|b rest]; [done|].
  destruct (beq b QUOTE) eqn:Eq.
  { apply beq_true in Eq as ->. injection H as <- <-. exists [], 0.
    split_and!; [done|constructor|lia..]. }
  destruct (N.leb_spec (code b) 31) as [|Hctl]; [done|].
  apply beq_false in Eq. open_bind H as [[n a] r] Hstep.
  open_bind H as [] Hcap%cap_ok. open_bind H as u Ho. pose proof (opaque_ok _ _ _ Ho) as Hhex. clear Ho.
  apply IH in H as (body & m & -> & Hb & -> & Hmax).
  destruct (beq b BACKSLASH) eqn:Ebs.
  - apply beq_true in Ebs as ->. apply (escape_body o) in Hstep as (w & -> & Hw); [|done].
    exists (BACKSLASH :: w ++ body), (n + m).
    split; [by simpl; rewrite <- app_assoc|].
    split; [by apply Hw|]. split; lia.
  - apply beq_false in Ebs. injection Hstep as <- <- ->. exists (b :: body), (1 + m).
    split; [done|]. split; [by apply sb_plain|]. split; lia.
Qed.

Lemma slice_app (a b : bytes) : slice (a ++ b) b = a.
Proof. unfold slice. rewrite length_app, Nat.add_sub. apply take_app_length. Qed.

Lemma scan_string_token max o rest key rest' :
  scan_string max o rest = Ok (key, rest') →
  ∃ n, rest = key ++ rest' ∧ StrToken o n key ∧ n <= max.
Proof.
  destruct rest as [|q rest]; [done|]. unfold scan_string. intros H.
  open_bind H as [] ->%require_ok%beq_true.
  open_bind H as [d r] (body & n & -> & Hb & -> & Hn)%string_loop_body.
  open_bind H as [] Ho%require_ok. injection H as <- <-. exists n.
  replace (QUOTE :: body ++ QUOTE :: r) with ((QUOTE :: body ++ [QUOTE]) ++ r)
    by (by simpl; rewrite <- app_assoc).
  rewrite slice_app. split; [done|]. split; [|lia]. exists body. split_and!; [done..|].
  intros ->. apply N.eqb_eq in Ho. lia.
Qed.

Lemma skip_token_split rest : ∃ t, rest = t ++ skip_token rest.
Proof.
  induction rest as [|b rest (t & E)]; cbn [skip_token]; [by exists []|].
  destruct (is_delim b); [by exists []|]. exists (b :: t). by rewrite E at 1.
Qed.

Lemma literal_spec t : literal t = true →
  t = str_bytes "null" ∨ t = str_bytes "true" ∨ t = str_bytes "false" ∨ JsonNumber t.
Proof.
  unfold literal, bytes_eqb. rewrite !orb_true_iff, !bool_decide_eq_true.
  intros [[[?|?]|?]|?%number_sound]; auto.
Qed.

(** ** The whole scanner *)
Section Sound.
Context (frame : bool) (smax : N) (unescape : bytes → option bytes).

Abbreviation value := (Bounds.value frame smax unescape).
Abbreviation members := (Bounds.members frame smax unescape).
Abbreviation Text := (Text frame smax unescape).
Abbreviation Items := (Items frame smax unescape).
Abbreviation Fits := (Fits frame).

Definition items_depth (items : list (bytes * tree)) : N :=
  foldr (fun m d => N.max (depth (snd m)) d) 0 items.
Definition items_nodes (object : bool) (items : list (bytes * tree)) : N :=
  foldr (fun m n => (if object then 1 else 0) + nodes (snd m) + n) 0 items.
Definition items_keys (items : list (bytes * tree)) : Prop :=
  foldr (fun m P => DistinctKeys (snd m) ∧ P) True items.

(** what an accepting [value] has read *)
Definition value_spec (d : N) (b : bool) (m : N) (rest : bytes) (n : N) (rest' : bytes) (n' : N) : Prop :=
  ∃ t w txt, rest = w ++ txt ++ rest' ∧ Spaces w ∧ Text d b m t txt ∧
    n' = n + nodes t ∧ n' <= MAX_NODES ∧ d + depth t <= MAX_DEPTH + 1 ∧ DistinctKeys t.

Definition members_spec (d : N) (b object : bool) (keys : list bytes) (rest : bytes) (n : N)
    (rest' : bytes) (n' : N) : Prop :=
  ∃ items body, rest = body ++ rest' ∧ Items d b object items body ∧
    n' = n + items_nodes object items ∧ n' <= MAX_NODES ∧
    d + 1 + items_depth items <= MAX_DEPTH + 1 ∧ items_keys items ∧
    (object = true → NoDup (fst <$> items) ∧ ∀ k, k ∈ fst <$> items → k ∉ keys).

Lemma scan_key_prefix keys rest field rest' :
  scan_key unescape keys rest = Ok (field, rest') →
  ∃ p, rest = p ++ rest' ∧ Prefix unescape true field p ∧ field ∉ keys.
Proof using Type.
  unfold scan_key. intros H.
  destruct (space_split rest) as (w & Ew & Hw). rewrite Ew. set (sp := space rest) in *.
  open_bind H as [key r1] (n & -> & Hkey & Hn)%scan_string_token.
  open_bind H as [] _. open_bind H as f Hf.
  open_bind H as [] Hdup%require_ok. open_bind H as [] Hcolon%require_ok.
  destruct (space_split r1) as (w' & Ew' & Hw').
  destruct (space r1) as [|c r2] eqn:Er1; [done|]. apply beq_true in Hcolon as ->.
  injection H as <- <-. rewrite Ew'. exists (w ++ key ++ w' ++ [":"%char]).
  split; [simpl; by rewrite <- !app_assoc|]. split.
  - apply (prefix_member _ _ _ n); try done. unfold KeyName.
    destruct (existsb _ _); [by apply ok_or_ok in Hf|congruence].
  - intros Hin. apply negb_true_iff, not_true_iff_false in Hdup. apply Hdup, existsb_exists.
    exists f. split; [by apply list_elem_of_In|]. by apply bool_decide_eq_true.
Qed.

Definition value_sound_at (fuel : nat) : Prop := ∀ d b m rest n rest' n',
  value fuel d b m (rest, n) = Ok (rest', n') → value_spec d b m rest n rest' n'.
Definition members_sound_at (fuel : nat) : Prop := ∀ d b object keys rest n rest' n',
  members fuel d b object (closing object) keys (rest, n) = Ok (rest', n') →
  n <= MAX_NODES → members_spec d b object keys rest n rest' n'.

Lemma closing_of b :
  beq b "{" || beq b "[" = true →
  (if beq b "{" then "}"%char else "]"%char) = closing (beq b "{") ∧ b = opening (beq b "{").
Proof using Type.
  destruct (beq b "{") eqn:E; cbn; [by apply beq_true in E|]. by intros ->%beq_true.
Qed.

Lemma node_ok n n' : node n = Ok n' → n' = n + 1 ∧ n' <= MAX_NODES.
Proof using Type. unfold node. intros H. open_bind H as [] ?%cap_ok. by injection H as <-. Qed.

Lemma value_step fuel : members_sound_at fuel → value_sound_at (S fuel).
Proof using Type.
  intros IH d b sm rest n rest' n' H. cbn [Bounds.value] in H.
  open_bind H as [] Hd%cap_ok. open_bind H as n1 [-> Hn1]%node_ok.
  destruct (space_split rest) as (w & Ew & Hw).
  destruct (space rest) as [|c r1] eqn:Er; [done|].
  destruct (beq c QUOTE).
  { open_bind H as [tok r2] (m & Etok & Htok & Hm)%scan_string_token.
    injection H as <- <-. exists (TStr m), w, tok. cbn [nodes depth DistinctKeys].
    rewrite Ew, Etok. split_and!; [done|done|by constructor|lia..]. }
  destruct (beq c "{" || beq c "[") eqn:Ec.
  - apply closing_of in Ec as [Ecl Eop]. rewrite Ecl in H.
    set (object := beq c "{") in *. destruct (space_split r1) as (w2 & Ew2 & Hw2).
    destruct (next_is (closing object) (space r1)) eqn:Eend.
    + destruct (space r1) as [|e r2]; [done|]. apply beq_true in Eend as ->.
      injection H as <- <-.
      exists (TSeq object []), w, (opening object :: w2 ++ [closing object]).
      cbn [nodes depth DistinctKeys fold_right]. rewrite Ew, Ew2, Eop.
      split_and!; [simpl; by rewrite <- app_assoc|done|by constructor|lia..|by constructor|done].
    + destruct (IH _ _ _ _ _ _ _ _ H Hn1)
        as (items & body & Eb & Hi & -> & Hnm & Hdm & Hwf & Hdup).
      exists (TSeq object items), w, (opening object :: w2 ++ body).
      cbn [nodes depth DistinctKeys]. fold (items_nodes object items) (items_depth items) (items_keys items).
      rewrite Ew, Ew2, Eb, Eop.
      split_and!; [simpl; by rewrite <- app_assoc|done|by constructor|lia..| |done].
      by intros [? _]%Hdup.
  - destruct (skip_token_split (c :: r1)) as (t & Et).
    set (r2 := skip_token (c :: r1)) in *. rewrite Et, slice_app in H.
    open_bind H as [] Hlit%require_ok%literal_spec. open_bind H as [] Hlen%cap_ok.
    injection H as <- <-. exists TLit, w, t. rewrite Ew, Et. cbn [nodes depth DistinctKeys].
    split_and!; [done|done|by constructor|lia..|done].
Qed.

(** the field (if any) in front of an element *)
Lemma field_prefix (object : bool) keys rest n field r1 n1 :
  (if object
   then n ← node n; '(field, rest) ← scan_key unescape keys rest; Ok (field, rest, n)
   else Ok ([], rest, n)) = Ok (field, r1, n1) →
  n <= MAX_NODES →
  ∃ p, rest = p ++ r1 ∧ Prefix unescape object field p ∧
       n1 = (if object then 1 else 0) + n ∧ n1 <= MAX_NODES ∧ (object = true → field ∉ keys).
Proof using Type.
  destruct object; intros H Hn.
  - open_bind H as n' [-> Hn']%node_ok.
    open_bind H as [f r] (p & -> & Hp & Hk)%scan_key_prefix. injection H as <- <- <-.
    exists p. split_and!; [done|done|lia|lia|done].
  - injection H as <- <- <-. exists []. split_and!; [done|constructor|lia..|done].
Qed.

(** what the first byte of a text says of its tree *)
Lemma literal_head t c : t = str_bytes "null" ∨ t = str_bytes "true" ∨ t = str_bytes "false" ∨ JsonNumber t →
  next_is c t = true → c ≠ QUOTE ∧ c ≠ "{"%char.
Proof using Type.
  intros [->|[->|[->|[mi i f e Hm Hi _ _]]]]; cbn; [by intros <-%beq_true..|].
  destruct Hm as [-> | ->]; cbn; [|by intros <-%beq_true].
  destruct Hi as [|d ds Hd _]; cbn; [by intros <-%beq_true|]. intros <-%beq_true.
  split; intros ->; vm_compute in Hd; discriminate.
Qed.
Lemma text_head d b m t w txt rest c :
  Text d b m t txt → Spaces w → next_is c (w ++ txt ++ rest) = true →
  (c = QUOTE → ∃ n, t = TStr n) ∧ (c = "{"%char → ∃ items, t = TSeq true items).
Proof using Type.
  intros Ht [|s w' Hs _]; cycle 1.
  { cbn. intros ->%beq_true. by split; intros ->. }
  destruct Ht as [d b m t H _|d b m n t (body & -> & _) _|d b m o w' _|d b m o items w' body _ _]; cbn [app].
  - intros Hn. assert (Hc : next_is c t = true).
    { destruct t as [|x t]; [|exact Hn]. destruct H as [H|[H|[H|H]]]; [vm_compute in H; discriminate..|].
      inversion H as [mi i f e ? Hi _ _ En]. apply app_nil in En as [_ [-> _]%app_nil]. inversion Hi. }
    by destruct (literal_head t c H Hc).
  - intros <-%beq_true. split; [by exists n|]. intros E. vm_compute in E. discriminate E.
  - intros <-%beq_true. destruct o; (split; [intros E; vm_compute in E; discriminate E|]); [by eexists|done].
  - intros <-%beq_true. destruct o; (split; [intros E; vm_compute in E; discriminate E|]); [by eexists|done].
Qed.

(** the checks around the value of a field *)
Lemma fits d b k m t w txt rest :
  Text (d + 1) (b || binds frame d k) m t txt → Spaces w →
  (if b then require (next_is QUOTE (w ++ txt ++ rest)) else Ok tt) = Ok tt →
  (if binds frame d k then require (next_is "{" (w ++ txt ++ rest)) else Ok tt) = Ok tt →
  frame_cap frame d k (len (w ++ txt)) = Ok tt → Fits d b k t txt.
Proof using Type.
  intros Ht Hw Hq Hb Hc. unfold frame_cap, named, bytes_eqb in Hc. rewrite len_app in Hc. split.
  - intros ->. apply require_ok in Hq. by apply (text_head _ _ _ _ _ _ _ _ Ht Hw Hq).
  - intros E. rewrite E in Hb. apply require_ok in Hb. by apply (text_head _ _ _ _ _ _ _ _ Ht Hw Hb).
  - intros -> -> ->. cbn in Hc. apply cap_ok in Hc. lia.
  - intros -> -> ->. cbn in Hc. apply cap_ok in Hc. lia.
Qed.

Ltac items_lia := unfold items_depth, items_nodes in *; cbn [fold_right snd]; lia.

Lemma members_step fuel :
  value_sound_at fuel → members_sound_at fuel → members_sound_at (S fuel).
Proof using Type.
  intros IHv IHm d b object keys rest n rest' n' H Hn. cbn [Bounds.members] in H.
  open_bind H as [[field r1] n1] Hf.
  apply field_prefix in Hf as (p & -> & Hp & -> & Hn1 & Hk); [|done].
  open_bind H as [] Hq. open_bind H as [] Hb. open_bind H as [r2 n2] Hv.
  apply IHv in Hv as (t & w & txt & Er1 & Hw & Ht & -> & Hn2 & Hd & Hwf).
  open_bind H as [] Hc. rewrite Er1, app_assoc, slice_app in Hc. rewrite Er1 in Hq, Hb.
  pose proof (fits d (b && object) field _ _ _ _ _ Ht Hw Hq Hb Hc) as Hfit.
  destruct (space_split r1) as (w0 & Ew0 & Hw0). destruct (space_split r2) as (w' & Ew' & Hw').
  destruct (space r2) as [|c r3]; [done|]. rewrite Ew0, Er1, Ew'.
  assert (Spaces (w0 ++ w)) as Hww by (by apply Forall_app).
  destruct (beq c ",") eqn:Ecomma.
  - apply beq_true in Ecomma as ->.
    destruct (IHm _ _ _ _ _ _ _ _ H Hn2)
      as (items & body & -> & Hi & -> & Hn3 & Hd3 & Hwf3 & Hdup3).
    exists ((field, t) :: items), (p ++ (w0 ++ w) ++ txt ++ w' ++ ","%char :: body).
    split_and!; [by rewrite <- !app_assoc|by constructor|items_lia..|by split|].
    intros ->. destruct Hdup3 as [Hnd Hnin]; [done|]. specialize (Hk eq_refl).
    cbn [fmap list_fmap fst]. split; [apply NoDup_cons; set_solver|]. set_solver.
  - destruct (beq c (closing object)) eqn:Eclose; [|done]. apply beq_true in Eclose as ->.
    injection H as <- <-.
    exists [(field, t)], (p ++ (w0 ++ w) ++ txt ++ w' ++ [closing object]).
    split_and!; [by rewrite <- !app_assoc|by constructor|items_lia..|by split|].
    intros ->. specialize (Hk eq_refl). split; [by apply NoDup_singleton|]. set_solver.
Qed.

Lemma scanner_sound fuel : value_sound_at fuel ∧ members_sound_at fuel.
Proof using Type.
  induction fuel as [|fuel [IHv IHm]].
  - split; intros ?; intros; discriminate.
  - split; [by apply value_step|by apply members_step].
Qed.
End Sound.

(** C13. An input the admission scanner accepts is, up to surrounding white
    space, the text of one JSON tree: within the byte ceiling, valid UTF-8, at
    most [MAX_DEPTH] deep, at most [MAX_NODES] values and keys, no object with
    a duplicate decoded key, and each string within the ceiling of its place:
    the scanner's own, or in a frame twice the scalar ceiling for [base64]; a
    key the scalar ceiling.  In a frame the field [binding] of the outermost
    object is an object whose fields are 32 lower-case hexadecimal digits each,
    and its fields [args] and [result] are within the request's and the
    result's ceilings. *)
Theorem scan_json_sound frame smax unescape max input :
  scan_json frame smax unescape max input = Ok tt →
  len input <= max ∧ utf8_valid input = true ∧
  ∃ t w txt w', input = w ++ txt ++ w' ∧ Spaces w ∧ Text frame smax unescape 1 false smax t txt ∧ Spaces w' ∧
    depth t <= MAX_DEPTH ∧ nodes t <= MAX_NODES ∧ DistinctKeys t.
Proof.
  unfold scan_json. intros H.
  open_bind H as [] Hlen%cap_ok. open_bind H as [] Hutf%require_ok.
  open_bind H as [rest n] Hv. apply require_ok in H.
  apply (scanner_sound frame smax unescape) in Hv
    as (t & w & txt & -> & Hw & Ht & -> & Hn & Hd & Hwf).
  destruct (space_split rest) as (w' & Ew & Hw').
  destruct (space rest); [|done]. rewrite app_nil_r in Ew. subst w'.
  split_and!; [done..|]. exists t, w, txt, rest.
  assert (MAX_DEPTH = 32) by done. split_and!; [done..|lia|lia|done].
Qed.

(** ** The scanner always answers *)

(** the only refusals: never [InternalFailure], the mark of exhausted fuel *)
Definition answers {A} (r : Result A) : Prop :=
  match r with Ok _ | Err InvalidRequest | Err CapExceeded => True | Err _ => False end.

Lemma answers_bind {A B} (m : Result A) (f : A → Result B) :
  answers m → (∀ a, m = Ok a → answers (f a)) → answers (m ≫= f).
Proof. destruct m as [a|e]; [|done]. intros _ H. by apply H. Qed.
Lemma answers_require b : answers (require b).
Proof. by destruct b. Qed.
Lemma answers_cap n m : answers (cap n m).
Proof. unfold cap. by destruct (n <=? m). Qed.
Lemma answers_ok {A} (a : A) : answers (Ok a).
Proof. done. Qed.
Lemma answers_invalid {A} : answers (@Err Error A InvalidRequest).
Proof. done. Qed.
Lemma answers_ok_or {A} (o : option A) : answers (ok_or o InvalidRequest).
Proof. by destruct o. Qed.

Create HintDb answers discriminated.
#[export] Hint Resolve answers_require answers_cap answers_ok answers_invalid answers_ok_or : answers.
Ltac answer := repeat first
  [ solve [eauto with answers] | apply answers_bind; [|intros ? ?]
  | match goal with |- answers (let '(_, _) := ?p in _) => destruct p end
  | case_match ].

Lemma answers_hex n v rest : answers (hex_digits n v rest).
Proof. revert v rest. induction n; intros v rest; cbn [hex_digits]; answer. Qed.
#[export] Hint Resolve answers_hex : answers.

Lemma answers_escape rest : answers (escape rest).
Proof. unfold escape, unicode_escape, hex_quad, take_backslash_u. answer. Qed.
#[export] Hint Resolve answers_escape : answers.

Lemma answers_string_loop fuel max opaque d rest :
  (length rest < fuel)%nat → answers (string_loop fuel max opaque d rest).
Proof.
  revert d rest. induction fuel as [|fuel IH]; intros d rest Hf; [lia|]. cbn [string_loop].
  destruct rest as [|b rest]; [done|]. cbn [length] in Hf.
  destruct (beq b QUOTE); [done|]. destruct (code b <=? 31); [done|].
  apply answers_bind; [by destruct (beq b BACKSLASH); eauto with answers|]. intros [[n a] r] Hr.
  assert (length r <= length rest)%nat.
  { destruct (beq b BACKSLASH); [|by injection Hr as <- <- <-].
    apply (escape_body false) in Hr as (u & -> & _); [|done]. rewrite length_app. lia. }
  apply answers_bind; [eauto with answers|]. intros _ _.
  apply answers_bind; [destruct opaque; eauto with answers|]. intros _ _.
  apply IH. lia.
Qed.

Lemma answers_scan_string max opaque rest : answers (scan_string max opaque rest).
Proof.
  unfold scan_string. destruct rest as [|q rest]; [done|].
  apply answers_bind; [eauto with answers|]. intros _ _.
  apply answers_bind; [apply answers_string_loop; lia|]. intros [d r] _. answer.
Qed.
#[export] Hint Resolve answers_scan_string : answers.

Section Total.
Context (frame : bool) (smax : N) (unescape : bytes → option bytes).

Lemma answers_scan_key keys rest : answers (scan_key unescape keys rest).
Proof using Type. unfold scan_key. answer. Qed.

Lemma answers_frame_cap d f n : answers (frame_cap frame d f n).
Proof using Type. unfold frame_cap. answer. Qed.
Hint Resolve answers_scan_key answers_frame_cap : answers.

Lemma text_nonempty d b m t txt : Text frame smax unescape d b m t txt → (0 < length txt)%nat.
Proof using Type.
  destruct 1 as [d b m t H _|d b m n t (body & -> & _) _| |]; [|simpl; lia..].
  destruct H as [-> |[-> |[-> |[mi i f e _ Hi _ _]]]]; [simpl; lia..|].
  destruct Hi; rewrite !length_app; simpl; lia.
Qed.

Lemma value_consumes fuel d b sm rest n rest' n' :
  Bounds.value frame smax unescape fuel d b sm (rest, n) = Ok (rest', n') →
  (length rest' < length rest)%nat.
Proof using Type.
  intros H. apply (scanner_sound frame smax unescape) in H
    as (t & w & txt & -> & _ & Ht%text_nonempty & _).
  rewrite !length_app. lia.
Qed.

Lemma answers_node n : answers (node n).
Proof using Type. unfold node. answer. Qed.
Hint Resolve answers_node : answers.

Lemma space_shrinks rest : (length (space rest) <= length rest)%nat.
Proof using Type.
  destruct (space_split rest) as (w & E & _). rewrite E at 2. rewrite length_app. lia.
Qed.

Lemma answers_field (object : bool) keys rest n :
  answers (if object
           then n ← node n; '(field, rest) ← scan_key unescape keys rest; Ok (field, rest, n)
           else Ok ([], rest, n)).
Proof using Type. destruct object; answer. Qed.
Hint Resolve answers_field : answers.

Lemma field_shrinks (object : bool) keys rest n f r n' :
  (if object
   then n ← node n; '(field, rest) ← scan_key unescape keys rest; Ok (field, rest, n)
   else Ok ([], rest, n)) = Ok (f, r, n') →
  (length r <= length rest)%nat.
Proof using Type.
  destruct object; intros H; [|by injection H as <- <- <-].
  open_bind H as n1 _. open_bind H as [f1 r1] (p & -> & _)%scan_key_prefix.
  injection H as <- <- <-. rewrite length_app. lia.
Qed.

Lemma answers_scanner fuel :
  (∀ d b sm rest n, (2 * length rest + 1 <= fuel)%nat →
     answers (Bounds.value frame smax unescape fuel d b sm (rest, n))) ∧
  (∀ d b object e keys rest n, (2 * length rest + 2 <= fuel)%nat →
     answers (Bounds.members frame smax unescape fuel d b object e keys (rest, n))).
Proof using Type.
  induction fuel as [|fuel [IHv IHm]]; [split; intros; lia|]. split.
  - intros d b sm rest n Hf. cbn [Bounds.value].
    pose proof (space_shrinks rest).
    apply answers_bind; [eauto with answers|]. intros _ _.
    apply answers_bind; [eauto with answers|]. intros n1 _.
    destruct (space rest) as [|c r1]; [done|]. cbn [length] in *.
    destruct (beq c QUOTE); [answer|].
    destruct (beq c "{" || beq c "["); [|answer].
    pose proof (space_shrinks r1). destruct (next_is _ _); [done|]. apply IHm. lia.
  - intros d b object e keys rest n Hf. cbn [Bounds.members].
    apply answers_bind; [eauto with answers|]. intros [[f r1] n1] Hr1%field_shrinks.
    apply answers_bind; [answer|]. intros _ _. apply answers_bind; [answer|]. intros _ _.
    pose proof (space_shrinks r1).
    apply answers_bind; [apply IHv; lia|].
    intros [r2 n2] Hr2%value_consumes.
    apply answers_bind; [eauto with answers|]. intros _ _.
    pose proof (space_shrinks r2).
    destruct (space r2) as [|c r3]; [done|]. cbn [length] in *.
    destruct (beq c ","); [apply IHm; lia|]. by destruct (beq c e).
Qed.
End Total.

(** C14. The scanner terminates with an answer on every input: its fuel, linear
    in the input, is never what ends it, so each call is either accepted or
    refused as an invalid request or an exceeded cap. *)
Theorem scan_json_total frame smax unescape max input :
  scan_json frame smax unescape max input = Ok tt ∨
  scan_json frame smax unescape max input = Err InvalidRequest ∨
  scan_json frame smax unescape max input = Err CapExceeded.
Proof.
  assert (answers (scan_json frame smax unescape max input)) as H.
  { unfold scan_json. apply answers_bind; [eauto with answers|]. intros _ _.
    apply answers_bind; [eauto with answers|]. intros _ _.
    apply answers_bind; [|intros [] _; eauto with answers].
    apply (answers_scanner frame smax unescape); lia. }
  destruct (scan_json _ _ _ _ _) as [[]|[]]; try done; auto.
Qed.

(** the grammar is inhabited and the scanner runs *)
(** a binding with one field, and bytes in base64 *)
Definition sample_frame : bytes := str_bytes (quoted
  "{'a': [1.5e3, true], 'binding' : {'p':'00000000000000000000000000000abc'}, 'args':{'base64':'YQ=='}} ").

Lemma scan_json_sound_witness :
  scan_json true SCALAR_BYTES (fun _ => None) 128 sample_frame = Ok tt ∧
  scan_json true SCALAR_BYTES (fun _ => None) 128 (str_bytes (quoted "{'binding':{'p':'abc'}}")) = Err InvalidRequest ∧
  len sample_frame <= 128 ∧ utf8_valid sample_frame = true ∧
  ∃ t w txt w', sample_frame = w ++ txt ++ w' ∧ Spaces w ∧ Text true SCALAR_BYTES (fun _ => None) 1 false SCALAR_BYTES t txt ∧
    Spaces w' ∧ depth t <= MAX_DEPTH ∧ nodes t <= MAX_NODES ∧ DistinctKeys t.
Proof.
  split; [vm_compute; reflexivity|]. split; [vm_compute; reflexivity|].
  apply (scan_json_sound true). vm_compute. reflexivity.
Defined.
