(* ===== verification/Frames.v ===== *)
(** * Frame reassembly

    The correctness of [FrameBuffer] of crates/gaze-lens-protocol/src/bounds.rs:
    however the bytes of a connection are chunked, the buffer yields a frame
    exactly when they are one newline-terminated line within the ceiling, and
    an error is permanent.  The counting serializer is handled here too. *)

From S2P Require Import Prelude Bounds.

(** a frame: its only line feed is its last byte *)
Definition IsFrame (b : bytes) : Prop := ∃ body, b = body ++ [LF] ∧ LF ∉ body.

Lemma position_none b l : position b l = None → b ∉ l.
Proof.
  induction l as [|a l IH]; cbn; [set_solver|].
  destruct (beq a b) eqn:E; [done|]. apply beq_false in E.
  destruct (position b l); [done|]. intros _. specialize (IH eq_refl). set_solver.
Qed.

Lemma position_some b l i :
  position b l = Some i → ∃ l1 l2, l = l1 ++ b :: l2 ∧ b ∉ l1 ∧ len l1 = i.
Proof.
  revert i. induction l as [|a l IH]; intros i; cbn; [done|].
  destruct (beq a b) eqn:E.
  - apply beq_true in E as ->. intros [= <-]. exists [], l. split_and!; [done|set_solver|done].
  - apply beq_false in E. destruct (position b l) as [j|]; [|done]. intros [= <-].
    destruct (IH _ eq_refl) as (l1 & l2 & -> & Hn & <-).
    exists (a :: l1), l2. split_and!; [done|set_solver|]. rewrite len_cons. lia.
Qed.

Lemma not_frame_inner l1 l2 : l2 ≠ [] → ¬ IsFrame (l1 ++ LF :: l2).
Proof.
  intros Hne (body & E & Hb). apply exists_last in Hne as (l2' & x & ->).
  rewrite app_comm_cons, app_assoc in E. apply app_inj_tail in E as [<- _]. set_solver.
Qed.

Lemma push_failed r c fb :
  fb_failed fb = true →
  fb_push r c fb = (Err InvalidRequest, mkFrameBuffer (fb_bytes fb) (fb_max fb) (fb_finished fb) true).
Proof. intros H. unfold fb_push. by rewrite H, orb_true_r. Qed.

Lemma push_err_fails r c fb e fb' : fb_push r c fb = (Err e, fb') → fb_failed fb' = true.
Proof.
  unfold fb_push. destruct (fb_finished fb || fb_failed fb); [by intros [= <- <-]|].
  destruct (checked_add _ _) as [n|]; [|by intros [= <- <-]].
  destruct (negb (n <=? fb_max fb)); [by intros [= <- <-]|].
  destruct (match position LF c with Some _ => _ | None => _ end); [by intros [= <- <-]|].
  destruct (negb r); [by intros [= <- <-]|done].
Qed.

Lemma finish_failed fb : fb_failed fb = true → fb_finish fb = Err InvalidRequest.
Proof. intros H. unfold fb_finish. by rewrite H, andb_false_r. Qed.

Lemma push_all_err_fails cs fb e : fst (fb_push_all cs fb) = Err e → fb_failed (snd (fb_push_all cs fb)) = true.
Proof.
  revert fb. induction cs as [|c cs IH]; intros fb; cbn [fb_push_all]; [done|].
  destruct (fb_push true c fb) as [[ok|e'] fb'] eqn:E; [apply IH|].
  intros _. by apply push_err_fails in E.
Qed.

(** an open buffer: unfinished, unfailed, no line feed yet, within the ceiling *)
Definition Open (fb : FrameBuffer) : Prop :=
  fb_finished fb = false ∧ fb_failed fb = false ∧ LF ∉ fb_bytes fb ∧
  len (fb_bytes fb) <= fb_max fb ∧ fb_max fb <= FRAME_BYTES.

(** one push onto an open buffer *)
Lemma push_open c fb :
  Open fb →
  match fb_push true c fb with
  | (Ok false, fb') => Open fb' ∧ fb_bytes fb' = fb_bytes fb ++ c ∧ fb_max fb' = fb_max fb
  | (Ok true, fb') =>
      fb' = mkFrameBuffer (fb_bytes fb ++ c) (fb_max fb) true false ∧
      IsFrame (fb_bytes fb ++ c) ∧ len (fb_bytes fb ++ c) <= fb_max fb
  | (Err _, fb') => fb_failed fb' = true ∧
      ∀ rest, IsFrame (fb_bytes fb ++ c ++ rest) → fb_max fb < len (fb_bytes fb ++ c ++ rest)
  end.
Proof.
  intros (Hfin & Hfail & Hlf & Hlen & Hmax). unfold fb_push. rewrite Hfin, Hfail. cbn [orb].
  unfold checked_add. destruct (N.leb_spec (len (fb_bytes fb) + len c) USIZE_MAX) as [_|Hov].
  2:{ split; [done|]. intros rest _. rewrite !len_app. unfold FRAME_BYTES, USIZE_MAX, U64_MAX in *. lia. }
  destruct (N.leb_spec (len (fb_bytes fb) + len c) (fb_max fb)) as [Hfit|Hbig]; cbn [negb].
  2:{ split; [done|]. intros rest _. rewrite !len_app. lia. }
  destruct (position LF c) as [i|] eqn:Ep.
  - apply position_some in Ep as (l1 & l2 & -> & Hl1 & <-).
    destruct (N.eqb_spec (len l1 + 1) (len (l1 ++ LF :: l2))) as [Elast|Enot]; cbn [negb].
    + assert (l2 = []) as ->.
      { destruct l2; [done|]. rewrite len_app, !len_cons in Elast. lia. }
      split; [done|]. split; [|rewrite len_app; lia].
      exists (fb_bytes fb ++ l1). split; [by rewrite <- app_assoc|]. set_solver.
    + split; [done|]. intros rest Hf. exfalso.
      destruct l2 as [|x l2]; [rewrite len_app, len_cons, len_nil in Enot; lia|].
      apply (not_frame_inner (fb_bytes fb ++ l1) ((x :: l2) ++ rest)); [done|].
      by rewrite <- !app_assoc in *.
  - apply position_none in Ep. split; [|done]. unfold Open. cbn.
    split_and!; [done|done|set_solver|rewrite len_app; lia|done].
Qed.

Lemma push_all_open cs fb :
  Open fb → Forall (fun c => c ≠ []) cs → ∀ b,
  fb_finish (snd (fb_push_all cs fb)) = Ok b ↔
  b = fb_bytes fb ++ concat cs ∧ len b <= fb_max fb ∧ IsFrame b.
Proof.
  revert fb. induction cs as [|c cs IH]; intros fb Ho Hne b.
  { cbn. destruct Ho as (Hf & Hfail & Hlf & Hlen & _). unfold fb_finish. rewrite Hf. cbn.
    rewrite app_nil_r. split; [done|]. intros (-> & _ & body & E & _).
    exfalso. apply Hlf. rewrite E. set_solver. }
  apply Forall_cons in Hne as [Hc Hne]. cbn [fb_push_all concat].
  pose proof (push_open c fb Ho) as Hp.
  destruct (fb_push true c fb) as [[[]|e] fb'].
  - destruct Hp as (-> & Hframe & Hlen). destruct cs as [|c' cs]; cbn [fb_push_all concat].
    + rewrite app_nil_r. cbn. split; [intros [= <-]; done|by intros (-> & _)].
    + apply Forall_cons in Hne as [Hc' _]. cbn. split; [done|]. intros (-> & _ & Hf). exfalso.
      destruct Hframe as (body & E & _). rewrite app_assoc, E in Hf.
      revert Hf. rewrite <- app_assoc. apply not_frame_inner. by destruct c'.
  - destruct Hp as (Ho' & -> & <-) || destruct Hp as (Ho' & Eb & Em).
    rewrite (IH fb' Ho' Hne), Eb, Em, app_assoc. done.
  - destruct Hp as [Hfail Hbig]. cbn [snd]. rewrite finish_failed by done.
    split; [done|]. intros (-> & Hlen & Hf). apply Hbig in Hf. lia.
Qed.

(** C15. Reassembly does not depend on how the transport chunked the bytes: a
    fresh buffer fed the (non-empty) reads of a connection yields [b] exactly
    when [b] is their concatenation, fits the ceiling, and is one line whose
    only line feed is its last byte. *)
Theorem frame_buffer_reassembles max fb chunks b :
  fb_new max = Ok fb → Forall (fun c => c ≠ []) chunks →
  fb_finish (snd (fb_push_all chunks fb)) = Ok b ↔
  b = concat chunks ∧ len b <= max ∧ IsFrame b.
Proof.
  intros H Hne. unfold fb_new in H. destruct (_ && _) eqn:E; [|done].
  injection H as <-. to_prop. apply (push_all_open chunks (mkFrameBuffer [] max false false)); [|done].
  split_and!; cbn; [done|done|set_solver|rewrite len_nil; lia|tauto].
Qed.

Lemma frame_buffer_reassembles_witness :
  ∃ fb, fb_new 8 = Ok fb ∧
    Forall (fun c => c ≠ []) [str_bytes "{"; str_bytes "}"; [LF]] ∧
    fb_finish (snd (fb_push_all [str_bytes "{"; str_bytes "}"; [LF]] fb)) = Ok (str_bytes "{}" ++ [LF]).
Proof.
  exists (mkFrameBuffer [] 8 false false). split; [reflexivity|].
  split; [repeat constructor; discriminate|].
  apply (frame_buffer_reassembles 8 _ _ (str_bytes "{}" ++ [LF])); [reflexivity| |].
  - repeat constructor; discriminate.
  - split; [reflexivity|]. split; [vm_compute; discriminate|].
    exists (str_bytes "{}"). split; [reflexivity|]. set_solver.
Defined.

(** ** The counting serializer *)
Lemma counter_run_sum max count ws :
  count <= max → max <= USIZE_MAX →
  counter_run max count ws =
    if count + len (concat ws) <=? max then Some (count + len (concat ws)) else None.
Proof.
  intros Hc Hm. revert count Hc. induction ws as [|w ws IH]; intros count Hc; cbn [counter_run concat].
  - rewrite len_nil, N.add_0_r. by destruct (N.leb_spec count max); [|lia].
  - unfold counter_write, checked_add. rewrite len_app.
    destruct (N.leb_spec (count + len w) USIZE_MAX); [destruct (N.leb_spec (count + len w) max)|].
    + rewrite IH, !N.add_assoc by done. done.
    + by destruct (N.leb_spec (count + (len w + len (concat ws))) max); [lia|].
    + by destruct (N.leb_spec (count + (len w + len (concat ws))) max); [lia|].
Qed.

Lemma serialized_size_spec ws max :
  max <= USIZE_MAX →
  serialized_size ws max = if len (concat ws) <=? max then Ok (len (concat ws)) else Err CapExceeded.
Proof.
  intros H. unfold serialized_size. rewrite counter_run_sum, N.add_0_l by lia.
  by destruct (len (concat ws) <=? max).
Qed.
