(* ===== verification/Serde.v ===== *)
(** * The interface to serde_json

    The protocol crates read and write JSON through serde_json, which is not
    part of this repository: what they call of it is the class [SerdeJson], an
    argument of every definition that uses it.  A JSON text is a [string]; a
    [RawValue] is the text it holds.  What the sources define themselves, the
    [rename]d names of their enums and the readers of closed and of tagged
    objects, is defined on top of it. *)

From S2P Require Import Prelude Str Bounds.

Class SerdeJson := {
  (** [from_str::<String>] *)
  from_string : string → option string;
  from_bool : string → option bool;
  from_u8 : string → option N;
  from_usize : string → option N;
  (** [RawValue::from_string]: the text, when it is one JSON value *)
  raw_from_string : string → option string;
  (** [from_str::<Vec<&RawValue>>]: the texts of an array's elements *)
  elements : string → option (list string);
  (** the entries of an object: each decoded key with the text of its value, in
      order; [None] for what is no object *)
  entries : string → option (list (string * string));
}.

(** serde_json as the scanner uses it: a quoted key to its decoded bytes *)
Definition unescape `{SerdeJson} (key : bytes) : option bytes :=
  str_bytes <$> from_string (str_of key).

(** ** Derived readers of structs

    [deny_unknown_fields]: a key that is no field's is refused, and so is one
    given twice.  Each field is its text, if it is there. *)
Definition entry_of {A} (k : string) (l : list (string * A)) : option A := snd <$> List.find (fun p => String.eqb k p.1) l.
Definition closed_object `{SerdeJson} (names : list string) (raw : string) : option (list (option string)) :=
  m ← entries raw;
  if bool_decide (NoDup m.*1) && forallb (fun k => bool_decide (k ∈ names)) m.*1
  then Some ((fun k => entry_of k m) <$> names) else None.
(** [struct Fields] of a tagged object: its [kind], which is a string, and the
    named fields, all required *)
Definition closed_fields `{SerdeJson} (names : list string) (raw : string) : option (list string) :=
  fs ← closed_object ("kind"%string :: names) raw;
  match fs with
  | Some kind :: fs => _ ← from_string kind; mapM id fs
  | _ => None
  end.
(** [struct Tag]: the [kind] of an object, whatever else it holds *)
Definition tag_kind `{SerdeJson} (raw : string) : option string :=
  m ← entries raw;
  match filter (fun e => e.1 = "kind"%string) m with
  | [e] => from_string e.2
  | _ => None
  end.

(** a field of a known position, [None] when there are fewer fields *)
Definition field (fs : list string) (n : nat) : string := default "" (fs !! n).

(** [serde_json::from_str(..).map_err(|_| Error::InvalidRequest)] *)
Definition parsed {A} (o : option A) : Result A := ok_or o InvalidRequest.

(** the writes of [serde_json::to_writer], one chunk after the other *)
Class Serialize (A : Type) := writes : A → list bytes.
Class Deserialize (A : Type) := from_str : string → option A.
Definition to_text `{Serialize A} (v : A) : bytes := concat (writes v).

(** ** Enums with renamed variants *)
Class EnumName (A : Type) := {
  variants : list A;
  variant_name : A → string;
}.

Definition from_name `{EnumName A} (name : string) : option A :=
  head (filter (fun a => variant_name a = name) variants).

(** a unit variant: its name, or an object from its name to [null] *)
Definition from_enum `{SerdeJson, EnumName A} (raw : string) : option A :=
  match from_string raw with
  | Some name => from_name name
  | None =>
    m ← entries raw;
    match m with [(name, unit)] => if String.eqb unit "null" then from_name name else None | _ => None end
  end.

(** the names decide the variant *)
Class EnumLaws A `{EnumName A} := {
  variants_all : ∀ a, a ∈ variants;
  variant_name_inj :: Inj (=) (=) (@variant_name A _);
}.

Lemma from_name_of `{EnumLaws A} (a : A) : from_name (variant_name a) = Some a.
Proof.
  unfold from_name. assert (Ha : a ∈ filter (fun b => variant_name b = variant_name a) variants).
  { apply list_elem_of_filter. split; [done|apply variants_all]. }
  destruct (filter _ variants) as [|b l] eqn:E; [by apply not_elem_of_nil in Ha|].
  assert (Hb : b ∈ filter (fun c => variant_name c = variant_name a) variants) by (rewrite E; left).
  apply list_elem_of_filter in Hb as [Hb _]. apply variant_name_inj in Hb. by subst.
Qed.

Lemma from_name_some `{EnumLaws A} name (a : A) : from_name name = Some a → variant_name a = name.
Proof.
  unfold from_name. intros E.
  assert (Ha : a ∈ filter (fun c => variant_name c = name) variants).
  { destruct (filter _ variants) as [|b l]; [done|]. injection E as ->. left. }
  by apply list_elem_of_filter in Ha as [? _].
Qed.

Ltac enum_laws :=
  split; [intros []; cbn [variants]; set_solver
         | intros [] [] H; cbn in H; first [reflexivity|discriminate H]].

(** ** A small reader for concrete runs

    Strings without escapes, decimal numbers and nothing nested: enough to
    evaluate the models on sample inputs. *)
Definition sample_serde : SerdeJson := {|
  from_string s := match str_bytes s with
    | _ :: r => str_of <$> (strip_suffix QUOTE r) | [] => None end;
  from_bool s := if String.eqb s "true" then Some true else if String.eqb s "false" then Some false else None;
  from_u8 s := parse_unsigned 255 (str_bytes s);
  from_usize s := parse_unsigned USIZE_MAX (str_bytes s);
  raw_from_string s := Some s;
  elements s := Some [];
  entries s := None;
|}.
