(* ===== verification/WireQuery.v ===== *)
(** * Query requests of the wire protocol

    Models crates/gaze-lens-protocol/src/query.rs: scalars and operands with
    their lossless readers, and [Query::validate].  The theorem decides the
    validation: a query is admitted exactly when it satisfies the declarative
    [ValidQuery]. *)

From S2P Require Import Prelude Bounds Serde JsonGrammar.

Inductive Scalar :=
| SString (v : string)
| SNumber (raw : string)
| SBool (v : bool)
| SNull.

Definition starts_with (c : ascii) (s : string) : bool := next_is c (str_bytes s).

Definition scalar_deserialize `{SerdeJson} (raw : string) : option Scalar :=
  if starts_with QUOTE raw then SString <$> from_string raw
  else if String.eqb raw "null" then Some SNull
  else if String.eqb raw "true" || String.eqb raw "false" then Some (SBool (String.eqb raw "true"))
  else if number (str_bytes raw) then Some (SNumber raw)
  else None.

Inductive Operand :=
| OScalar (s : Scalar)
| OList (xs : list Scalar).

Definition operand_deserialize `{SerdeJson} (raw : string) : option Operand :=
  if starts_with "[" raw
  then OList <$> (elements raw ≫= mapM scalar_deserialize)
  else OScalar <$> scalar_deserialize raw.

Inductive Op := OpEq | OpNe | OpGt | OpGte | OpLt | OpLte | OpIn | OpLike | OpIsNull | OpIsNotNull.
#[global] Instance Op_eq_dec : EqDecision Op.
Proof. solve_decision. Defined.
#[export] Instance Op_name : EnumName Op := {|
  variants := [OpEq; OpNe; OpGt; OpGte; OpLt; OpLte; OpIn; OpLike; OpIsNull; OpIsNotNull];
  variant_name o := match o with
    | OpEq => "eq" | OpNe => "ne" | OpGt => "gt" | OpGte => "gte" | OpLt => "lt" | OpLte => "lte"
    | OpIn => "in" | OpLike => "like" | OpIsNull => "is_null" | OpIsNotNull => "is_not_null"
    end%string;
|}.
#[export] Instance Op_laws : EnumLaws Op.
Proof. enum_laws. Qed.

Inductive Combinator := And | Or.
#[export] Instance Combinator_name : EnumName Combinator := {|
  variants := [And; Or];
  variant_name c := match c with And => "and" | Or => "or" end%string;
|}.
Inductive Direction := Asc | Desc.
#[export] Instance Direction_name : EnumName Direction := {|
  variants := [Asc; Desc];
  variant_name d := match d with Asc => "asc" | Desc => "desc" end%string;
|}.

Record Predicate := mkPredicate {
  p_col : string;
  p_op : Op;
  p_val : option Operand;
}.
Record Order := mkOrder { o_col : string; o_dir : Direction }.
Record Query := mkQuery {
  q_table : string;
  q_columns : option (list string);
  q_where : option (list Predicate);
  q_where_combinator : option Combinator;
  q_order_by : option (list Order);
  q_limit : option N;
}.

Definition query_limit (q : Query) : N := default DEFAULT_ROWS (q_limit q).

(** each an identifier, none seen before: the loop over columns and labels *)
Fixpoint distinct_identifiers (seen : gset string) (xs : list string) : Result unit :=
  match xs with
  | [] => Ok tt
  | x :: xs =>
    _ ← identifier x;
    _ ← require (negb (bool_decide (x ∈ seen)));
    distinct_identifiers ({[x]} ∪ seen) xs
  end.

(** the closure [check] *)
Definition check (s : Scalar) : Result unit :=
  match s with
  | SNull => Err InvalidRequest
  | SString s => Bounds.text s
  | SNumber n => _ ← cap (slen n) SCALAR_BYTES; require (number (str_bytes n))
  | SBool _ => Ok tt
  end.

(** one predicate: the number of binds it adds *)
Definition predicate_binds (p : Predicate) : Result N :=
  match p_op p, p_val p with
  | OpIsNull, None | OpIsNotNull, None => Ok 0
  | OpIn, Some (OList xs) =>
    _ ← require (negb (len xs =? 0));
    _ ← for_each check xs;
    Ok (len xs)
  | OpIsNull, _ | OpIsNotNull, _ | OpIn, _ => Err InvalidRequest
  | _, Some (OScalar x) => _ ← check x; Ok 1
  | _, _ => Err InvalidRequest
  end.

Fixpoint predicates_binds (binds : N) (ps : list Predicate) : Result N :=
  match ps with
  | [] => Ok binds
  | p :: ps =>
    _ ← identifier (p_col p);
    n ← predicate_binds p;
    predicates_binds (binds + n) ps
  end.

Definition query_validate (q : Query) : Result unit :=
  _ ← identifier (q_table q);
  _ ← require (0 <? query_limit q);
  _ ← cap (query_limit q) MAX_ROWS;
  _ ← (match q_columns q with
       | Some cols =>
         _ ← require (negb (len cols =? 0));
         _ ← cap (len cols) MAX_COLUMNS;
         distinct_identifiers ∅ cols
       | None => Ok tt
       end);
  binds ← (match q_where q with
           | Some ps => _ ← cap (len ps) MAX_PREDICATES; predicates_binds 0 ps
           | None => Ok 0
           end);
  _ ← cap binds MAX_BINDS;
  match q_order_by q with
  | Some order =>
    _ ← cap (len order) MAX_ORDER;
    for_each (fun o => identifier (o_col o)) order
  | None => Ok tt
  end.

(** ** What a valid query is *)
Definition Ident (s : string) : Prop := 0 < slen s <= IDENTIFIER_BYTES.

Inductive ValidScalar : Scalar → Prop :=
| vs_string s : slen s <= SCALAR_BYTES → ValidScalar (SString s)
| vs_number n : slen n <= SCALAR_BYTES → JsonNumber (str_bytes n) → ValidScalar (SNumber n)
| vs_bool b : ValidScalar (SBool b).

(** a comparison with one operand, a non-empty list for [in], none for the
    null tests; the index is the number of binds *)
Inductive ValidPredicate : Predicate → N → Prop :=
| vp_null c o : Ident c → o = OpIsNull ∨ o = OpIsNotNull → ValidPredicate (mkPredicate c o None) 0
| vp_in c xs : Ident c → xs ≠ [] → Forall ValidScalar xs →
    ValidPredicate (mkPredicate c OpIn (Some (OList xs))) (len xs)
| vp_cmp c o x : Ident c → o ∉ [OpIn; OpIsNull; OpIsNotNull] → ValidScalar x →
    ValidPredicate (mkPredicate c o (Some (OScalar x))) 1.

Definition sum (ns : list N) : N := foldr N.add 0 ns.

Record ValidQuery (q : Query) : Prop := {
  vq_table : Ident (q_table q);
  vq_limit : 0 < query_limit q <= MAX_ROWS;
  vq_columns : ∀ cols, q_columns q = Some cols →
    cols ≠ [] ∧ len cols <= MAX_COLUMNS ∧ NoDup cols ∧ Forall Ident cols;
  vq_where : ∃ binds, Forall2 ValidPredicate (default [] (q_where q)) binds ∧ sum binds <= MAX_BINDS;
  vq_predicates : len (default [] (q_where q)) <= MAX_PREDICATES;
  vq_order : len (default [] (q_order_by q)) <= MAX_ORDER ∧
    Forall (fun o => Ident (o_col o)) (default [] (q_order_by q));
}.

(** ** The validation decides it *)
Lemma identifier_ok s u : identifier s = Ok u ↔ Ident s.
Proof.
  unfold identifier, Ident. rewrite check_then, require_ok, cap_ok, negb_true_iff, N.eqb_neq. lia.
Qed.

Lemma distinct_identifiers_ok xs seen u :
  distinct_identifiers seen xs = Ok u ↔ Forall Ident xs ∧ NoDup xs ∧ ∀ x, x ∈ xs → x ∉ seen.
Proof.
  revert seen. induction xs as [|x xs IH]; intros seen; cbn [distinct_identifiers].
  - destruct u. split; [|done]. intros _. split_and!; [constructor|constructor|set_solver].
  - rewrite !check_then, IH, Forall_cons, NoDup_cons, identifier_ok, require_ok, negb_true_iff,
      bool_decide_eq_false. split.
    + intros (Hi & Hx & Hf & Hd & Hs). split_and!; try done.
      * intros Hin. apply Hs in Hin. set_solver.
      * intros y [->|Hy]%elem_of_cons; [done|]. apply Hs in Hy. set_solver.
    + intros ([Hi Hf] & [Hx Hd] & Hs).
      split_and!; try done; [apply Hs; left|].
      intros y Hy. apply not_elem_of_union. split; [set_solver|]. apply Hs. by right.
Qed.

Lemma check_ok s u : check s = Ok u ↔ ValidScalar s.
Proof.
  destruct s as [v|n|b|]; cbn [check]; unfold Bounds.text.
  - rewrite cap_ok. split; [by constructor|by inversion 1].
  - rewrite check_then, cap_ok, require_ok. split.
    + intros (? & ?%number_sound). by constructor.
    + inversion 1; subst. split; [done|by apply number_complete].
  - destruct u. split; [by constructor|done].
  - split; [done|inversion 1].
Qed.

Lemma len_zero {A} (l : list A) : negb (len l =? 0) = true ↔ l ≠ [].
Proof.
  rewrite negb_true_iff, N.eqb_neq. destruct l as [|a l]; [by rewrite len_nil|].
  rewrite len_cons. split; [done|lia].
Qed.

Lemma for_each_check xs : for_each check xs = Ok tt ↔ Forall ValidScalar xs.
Proof. rewrite for_each_ok. apply Forall_iff. intros s. apply check_ok. Qed.

Lemma predicate_binds_ok p n :
  identifier (p_col p) = Ok tt ∧ predicate_binds p = Ok n ↔ ValidPredicate p n.
Proof.
  rewrite identifier_ok. destruct p as [c o v]; cbn [p_col]. split.
  - intros [Hc H]. unfold predicate_binds in H. cbn [p_op p_val] in H.
    destruct o, v as [[x|xs]|]; try discriminate H.
    all: try (open_bind H as [] Hx%check_ok; injection H as <-; constructor; [done| |done]; set_solver).
    + open_bind H as [] Hn%require_ok%len_zero. open_bind H as [] Hf%for_each_check.
      injection H as <-. by constructor.
    + injection H as <-. constructor; auto.
    + injection H as <-. constructor; auto.
  - inversion 1 as [? ? Hc Ho|? xs Hc Hn Hf|? ? x Hc Ho Hx]; subst; (split; [done|]); unfold predicate_binds; cbn [p_op p_val].
    + by destruct Ho as [-> | ->].
    + apply len_zero in Hn. rewrite Hn. cbn [require mbind result_bind].
      apply for_each_check in Hf. by rewrite Hf.
    + apply (check_ok x tt) in Hx.
      destruct o; try (exfalso; set_solver); by rewrite Hx.
Qed.

Lemma predicates_binds_ok ps b n :
  predicates_binds b ps = Ok n ↔ ∃ ns, Forall2 ValidPredicate ps ns ∧ n = b + sum ns.
Proof.
  revert b. induction ps as [|p ps IH]; intros b; cbn [predicates_binds].
  - split.
    + intros [= <-]. exists []. split; [constructor|]. cbn. lia.
    + intros (ns & H & ->). inversion H; subst. cbn. f_equal. lia.
  - rewrite check_then, bind_ok. setoid_rewrite IH. split.
    + intros (Hi & m & Hp & ns & Hns & ->). exists (m :: ns). split; [|unfold sum; cbn; lia].
      constructor; [|done]. apply predicate_binds_ok. by split.
    + intros (ns & H & ->). inversion H as [|? m ? ms Hp Hps]; subst.
      apply predicate_binds_ok in Hp as [Hi Hp].
      split; [done|]. exists m. split; [done|]. exists ms. split; [done|]. unfold sum. cbn. lia.
Qed.

Lemma limits_ok n max :
  require (0 <? n) = Ok tt ∧ cap n max = Ok tt ↔ 0 < n <= max.
Proof. rewrite require_ok, cap_ok, N.ltb_lt. done. Qed.

Lemma columns_ok (o : option (list string)) :
  match o with
  | Some cols =>
    _ ← require (negb (len cols =? 0)); _ ← cap (len cols) MAX_COLUMNS; distinct_identifiers ∅ cols
  | None => Ok tt
  end = Ok tt ↔
  ∀ cols, o = Some cols → cols ≠ [] ∧ len cols <= MAX_COLUMNS ∧ NoDup cols ∧ Forall Ident cols.
Proof.
  destruct o as [cols|]; [|done]. rewrite !check_then, require_ok, len_zero, cap_ok, distinct_identifiers_ok.
  split.
  - intros (? & ? & ? & ? & _) c [= <-]. done.
  - intros H. destruct (H cols eq_refl) as (? & ? & ? & ?). split_and!; set_solver.
Qed.

Lemma where_ok (o : option (list Predicate)) n :
  match o with
  | Some ps => _ ← cap (len ps) MAX_PREDICATES; predicates_binds 0 ps
  | None => Ok 0
  end = Ok n ↔
  len (default [] o) <= MAX_PREDICATES ∧ ∃ ns, Forall2 ValidPredicate (default [] o) ns ∧ n = sum ns.
Proof.
  destruct o as [ps|]; cbn [default].
  - by rewrite check_then, cap_ok, predicates_binds_ok.
  - split.
    + intros [= <-]. split; [done|]. exists []. split; [constructor|done].
    + intros (_ & ns & H & ->). by inversion H.
Qed.

Lemma order_ok (o : option (list Order)) :
  match o with
  | Some order => _ ← cap (len order) MAX_ORDER; for_each (fun o => identifier (o_col o)) order
  | None => Ok tt
  end = Ok tt ↔
  len (default [] o) <= MAX_ORDER ∧ Forall (fun o => Ident (o_col o)) (default [] o).
Proof.
  destruct o as [order|]; cbn [default]; [|by split; [split; [done|constructor]|]].
  rewrite check_then, cap_ok, for_each_ok.
  enough (∀ os, Forall (fun o => identifier (o_col o) = Ok tt) os ↔ Forall (fun o => Ident (o_col o)) os)
    as -> by done.
  intros os. apply Forall_iff. intros a. apply identifier_ok.
Qed.

(** C16. [Query::validate] decides the contract of a query request: it answers
    [Ok] exactly on queries whose identifiers are non-empty and short, whose
    limit is positive and at most [MAX_ROWS], whose columns are distinct, whose
    predicates carry the operand their operator takes, with [MAX_BINDS] binds
    at most in all. *)
Theorem query_validate_decides q : query_validate q = Ok tt ↔ ValidQuery q.
Proof.
  unfold query_validate. rewrite 4!check_then, identifier_ok, require_ok, cap_ok, N.ltb_lt, columns_ok.
  rewrite bind_ok. split.
  - intros (Ht & Hl & Hm & Hc & n & (Hp & ns & Hns & ->)%where_ok & H).
    rewrite check_then, cap_ok, order_ok in H. destruct H as (Hb & Ho & Hf).
    split; try done. by exists ns.
  - intros [Ht [Hl Hm] Hc (ns & Hns & Hb) Hp [Ho Hf]]. split_and!; try done.
    exists (sum ns). rewrite where_ok, check_then, cap_ok, order_ok. split_and!; eauto.
Qed.
