(* ===== verification/WireValue.v ===== *)
(** * Lossless wire values

    Models crates/gaze-lens-protocol/src/value.rs: [ExactJson] and its
    compaction, the tagged [Value] with its closed reader and [validate], the
    decimal normalizer, the calendar and clock checks, and the comparison of
    decimal spellings.  Binary floating point and base64 are the class
    [ValueLibs]: the [f64] parser and printer of the standard library and the
    base64 crate. *)

From S2P Require Import Prelude Str Bounds Serde.

Class ValueLibs := {
  F64 : Type;
  f64_parse : bytes → option F64;
  f64_is_finite : F64 → bool;
  f64_to_string : F64 → bytes;
  b64_decode : string → option bytes;
  b64_encode : bytes → string;
}.

(** ** ExactJson *)
Record ExactJson := mkExactJson { ej_text : string }.

(** the loop of [compact_json]; a [char] beyond ASCII is none of the compared
    ones, and neither is any of its bytes, so bytes stand for chars *)
Fixpoint compact_loop (quoted escaped : bool) (s : bytes) : bytes :=
  match s with
  | [] => []
  | c :: s =>
    if quoted then
      c :: (if escaped then compact_loop quoted false s
            else if beq c BACKSLASH then compact_loop quoted true s
            else if beq c QUOTE then compact_loop false escaped s
            else compact_loop quoted escaped s)
    else if negb (is_space c) then c :: compact_loop (beq c QUOTE) escaped s
    else compact_loop quoted escaped s
  end.
Definition compact_json (s : string) : string := str_of (compact_loop false false (str_bytes s)).

Definition exact_json_parse `{SerdeJson} (s : string) : Result ExactJson :=
  _ ← source_json unescape (str_bytes s);
  raw ← parsed (raw_from_string (compact_json s));
  Ok (mkExactJson raw).

(** ** Values *)
Inductive Semantic := Date | Time | Naive | Zoned.
#[global] Instance Semantic_eq_dec : EqDecision Semantic.
Proof. solve_decision. Defined.
#[export] Instance Semantic_name : EnumName Semantic := {|
  variants := [Date; Time; Naive; Zoned];
  variant_name s := match s with
    | Date => "date" | Time => "time" | Naive => "naive" | Zoned => "zoned" end%string;
|}.
#[export] Instance Semantic_laws : EnumLaws Semantic.
Proof. enum_laws. Qed.

Inductive Value :=
| VNull
| VBool (value : bool)
| VI64 (value : string)
| VU64 (value : string)
| VF64 (value : string)
| VDecimal (value : string) (precision scale : N)
| VString (value : string)
| VBytes (base64 : string) (len : N)
| VDatetime (semantic : Semantic) (value : string)
| VUuid (value : string)
| VJson (value : ExactJson).

(** *** Decimals *)
Definition is_char (c : ascii) : ascii → bool := fun b => beq b c.

(** the two halves around the point, and no second half when there is none *)
Definition split_point (s : bytes) : bytes * option bytes :=
  match split_once (is_char ".") s with
  | Some (a, b) => (a, Some b)
  | None => (s, None)
  end.
Definition nonempty_digits (s : bytes) : bool := negb (len s =? 0) && forallb digit s.
(** digits without a leading zero *)
Definition plain_int (s : bytes) : bool :=
  nonempty_digits s && ((len s =? 1) || negb (next_is "0" s)).
Definition frac_digits (frac : option bytes) : bool :=
  match frac with Some f => nonempty_digits f | None => true end.

Definition unsigned_part (s : bytes) : bytes := default s (strip_prefix "-" s).

Definition decimal_metadata (value : bytes) : Result (N * N) :=
  let '(int, frac) := split_point (unsigned_part value) in
  _ ← require (plain_int int && frac_digits frac);
  let scale := default 0 (len <$> frac) in
  let precision := N.max (len (trim_start_matches (is_char "0") int) + scale) 1 in
  _ ← cap precision 255;
  Ok (precision, scale).

Definition zeros (n : N) : bytes := replicate (N.to_nat n) ("0"%char : ascii).

(** the spelling of [decimal], from the digits, the scale and the zeros to append *)
Definition decimal_text (negative : bool) (digits : bytes) (scale nzeros : N) : bytes :=
  (if negative then ["-"%char : ascii] else []) ++
  (if scale =? 0 then
     digits ++ (if bytes_eqb digits ["0"%char : ascii] then [] else zeros nzeros)
   else if len digits <=? scale then
     ["0"%char : ascii; "."%char] ++ zeros (scale - len digits) ++ digits
   else
     let split := N.to_nat (len digits - scale) in
     take split digits ++ ["."%char : ascii] ++ drop split digits).

(** [Value::decimal]; the conversions of an [i64] to [usize] cannot fail on a
    64-bit target *)
Definition decimal (coefficient : bytes) (native_scale : Z) : Result Value :=
  let digits := unsigned_part coefficient in
  _ ← require (plain_int digits);
  let scale := Z.to_N (Z.max native_scale 0) in
  let nzeros := if (native_scale <? 0)%Z then Z.to_N (Z.abs native_scale) else 0 in
  width ← ok_or (checked_add (len digits) nzeros) CapExceeded;
  _ ← cap (N.max width scale) 255;
  let out := decimal_text (next_is "-" coefficient) digits scale nzeros in
  '(precision, scale) ← decimal_metadata out;
  Ok (VDecimal (str_of out) (precision mod 256) (scale mod 256)).

(** *** Dates and times *)
Definition byte_at (s : bytes) (i : nat) (c : ascii) : bool :=
  match s !! i with Some b => beq b c | None => false end.
(** [s[a..b]] *)
Definition sub (a b : nat) (s : bytes) : bytes := take (b - a) (drop a s).
Definition parse_max (max : N) (s : bytes) (p : N → bool) : bool :=
  match parse_unsigned max s with Some n => p n | None => false end.

Definition leap (y : N) : bool := (y mod 4 =? 0) && (negb (y mod 100 =? 0) || (y mod 400 =? 0)).
Definition days_in_month (y m : N) : N :=
  if existsb (N.eqb m) [1; 3; 5; 7; 8; 10; 12] then 31
  else if existsb (N.eqb m) [4; 6; 9; 11] then 30
  else if (m =? 2) && leap y then 29
  else if m =? 2 then 28
  else 0.

Definition date (s : bytes) : bool :=
  if negb (len s =? 10) || negb (byte_at s 4 "-") || negb (byte_at s 7 "-") then false
  else if negb (all_indexed (fun i b => (i =? 4) || (i =? 7) || digit b) 0 s) then false
  else match parse_unsigned U32_MAX (sub 0 4 s) with
  | None => false
  | Some y => match parse_unsigned U32_MAX (sub 5 7 s) with
    | None => false
    | Some m => match parse_unsigned U32_MAX (sub 8 10 s) with
      | None => false
      | Some d => (0 <? y) && (0 <? d) && (d <=? days_in_month y m)
      end
    end
  end.

Definition time (s : bytes) : bool :=
  let '(main, frac) := split_point s in
  if negb (len main =? 8) || negb (byte_at main 2 ":") || negb (byte_at main 5 ":") ||
     negb (all_indexed (fun i b => (i =? 2) || (i =? 5) || digit b) 0 main)
  then false
  else
    parse_max 255 (sub 0 2 main) (fun n => n <? 24) &&
    parse_max 255 (sub 3 5 main) (fun n => n <? 60) &&
    parse_max 255 (sub 6 8 main) (fun n => n <? 60) &&
    frac_digits frac.

(** [±hh:mm], not [-00:00] *)
Definition zone_offset (z : bytes) : bool :=
  (byte_at z 0 "+" || byte_at z 0 "-") && byte_at z 3 ":" &&
  forallb digit (sub 1 3 z) && forallb digit (sub 4 6 z) &&
  parse_max 255 (sub 1 3 z) (fun n => n <? 24) &&
  parse_max 255 (sub 4 6 z) (fun n => n <? 60) &&
  negb (bytes_eqb z (str_bytes "-00:00")).

Definition zoned (d t : bytes) : bool :=
  match strip_suffix "Z" t with
  | Some t => date d && time t
  | None =>
    if 6 <=? len t then
      let at_ := (length t - 6)%nat in
      date d && time (take at_ t) && zone_offset (drop at_ t)
    else false
  end.

Definition is_ascii (s : bytes) : bool := forallb (fun b => code b <? 128) s.

Definition validate_datetime (semantic : Semantic) (s : string) : Result unit :=
  _ ← Bounds.text s;
  let s := str_bytes s in
  _ ← require (is_ascii s);
  require (match semantic with
    | Date => date s
    | Time => time s
    | Naive | Zoned =>
      match split_once (is_char "T") s with
      | Some (d, t) =>
        if decide (semantic = Naive) then date d && time t else zoned d t
      | None => false
      end
    end).

(** *** Decimal spellings *)
Definition checked_i64 (z : Z) : option Z :=
  if ((I64_MIN <=? z) && (z <=? I64_MAX))%Z then Some z else None.

(** the mantissa and the exponent, 0 when none is written *)
Definition split_exponent (s : bytes) : option (bytes * Z) :=
  match split_once (fun b => beq b "e" || beq b "E") s with
  | None => Some (s, 0%Z)
  | Some (m, e) => e ← parse_i64 e; Some (m, e)
  end.

(** sign, significant digits, exponent *)
Definition parts (s : bytes) : option (bool * bytes * Z) :=
  let negative := next_is "-" s in
  let s := unsigned_part s in
  '(mantissa, exp) ← split_exponent s;
  let frac := match split_once (is_char ".") mantissa with Some (_, f) => len f | None => 0 end in
  let digits := filter (fun b => negb (beq b ".")) mantissa in
  let leading := trim_start_matches (is_char "0") digits in
  match leading with
  | [] => Some (negative, [], 0%Z)
  | _ =>
    let trimmed := trim_end_matches (is_char "0") leading in
    f ← checked_i64 (Z.of_N frac);
    e ← checked_i64 (exp - f);
    d ← checked_i64 (Z.of_nat (length leading - length trimmed));
    exponent ← checked_i64 (e + d);
    Some (negative, trimmed, exponent)
  end.

Definition decimal_equivalent (a b : bytes) : bool :=
  match parts a with
  | Some pa => match parts b with Some pb => bool_decide (pa = pb) | None => false end
  | None => false
  end.

(** *** Validation *)
Definition uuid (s : bytes) : bool :=
  (len s =? 36) &&
  all_indexed (fun i b => if existsb (N.eqb i) [8; 13; 18; 23] then beq b "-"
                          else is_lower_hex (code b)) 0 s.

(** [a.div_ceil(b)] *)
Definition div_ceil (a b : N) : N := (a + b - 1) / b.

Definition value_validate `{SerdeJson, ValueLibs} (v : Value) : Result unit :=
  match v with
  | VNull | VBool _ => Ok tt
  | VI64 value => require (match parse_i64 (str_bytes value) with
      | Some n => bytes_eqb (print_i64 n) (str_bytes value) | None => false end)
  | VU64 value => require (match parse_unsigned U64_MAX (str_bytes value) with
      | Some n => bytes_eqb (print_u64 n) (str_bytes value) | None => false end)
  | VF64 value =>
    _ ← Bounds.text value;
    require (number (str_bytes value) &&
      match f64_parse (str_bytes value) with
      | Some n => f64_is_finite n && decimal_equivalent (str_bytes value) (f64_to_string n)
      | None => false
      end)
  | VString value => Bounds.text value
  | VUuid value => require (uuid (str_bytes value))
  | VDecimal value precision scale =>
    _ ← Bounds.text value;
    '(p, s) ← decimal_metadata (str_bytes value);
    require ((precision =? p) && (scale =? s))
  | VBytes base64 n =>
    _ ← cap n SCALAR_BYTES;
    _ ← cap (slen base64) (div_ceil SCALAR_BYTES 3 * 4);
    b ← ok_or (b64_decode base64) InvalidRequest;
    require ((len b =? n) && String.eqb (b64_encode b) base64)
  | VDatetime semantic value => validate_datetime semantic value
  | VJson value => source_json unescape (str_bytes (ej_text value))
  end.

(** *** The closed reader, [decode] *)
Definition value_fields `{SerdeJson} (kind raw : string) : Result Value :=
  let fields names := parsed (closed_fields names raw) in
  let string_field fs n := parsed (from_string (field fs n)) in
  match kind with
  | "null" => _ ← fields []; Ok VNull
  | "bool" => fs ← fields ["value"]; b ← parsed (from_bool (field fs 0)); Ok (VBool b)
  | "i64" => fs ← fields ["value"]; v ← string_field fs 0%nat; Ok (VI64 v)
  | "u64" => fs ← fields ["value"]; v ← string_field fs 0%nat; Ok (VU64 v)
  | "f64" => fs ← fields ["value"]; v ← string_field fs 0%nat; Ok (VF64 v)
  | "string" => fs ← fields ["value"]; v ← string_field fs 0%nat; Ok (VString v)
  | "uuid" => fs ← fields ["value"]; v ← string_field fs 0%nat; Ok (VUuid v)
  | "json" => fs ← fields ["value"];
    j ← map_err (exact_json_parse (field fs 0)) (fun _ => InvalidRequest); Ok (VJson j)
  | "decimal" => fs ← fields ["value"; "precision"; "scale"];
    v ← string_field fs 0%nat; p ← parsed (from_u8 (field fs 1)); s ← parsed (from_u8 (field fs 2));
    Ok (VDecimal v p s)
  | "bytes" => fs ← fields ["base64"; "len"];
    b ← string_field fs 0%nat; n ← parsed (from_usize (field fs 1)); Ok (VBytes b n)
  | "datetime" => fs ← fields ["semantic"; "value"];
    s ← parsed (from_enum (field fs 0)); v ← string_field fs 1%nat; Ok (VDatetime s v)
  | _ => Err InvalidRequest
  end%string.

Definition value_decode `{SerdeJson, ValueLibs} (raw : string) : Result Value :=
  _ ← require (next_is "{" (str_bytes raw));
  _ ← Bounds.json unescape (str_bytes raw) RESULT_BYTES;
  kind ← parsed (tag_kind raw);
  v ← value_fields kind raw;
  _ ← value_validate v;
  Ok v.
