(* ===== verification/WireValueFacts.v ===== *)
(** * Correctness of the wire values

    The decimal normalizer keeps the number it is given, the date check is the
    Gregorian calendar, integer values are canonical spellings, and equivalent
    decimal spellings denote one number. *)

From S2P Require Import Prelude Str Bounds Serde JsonGrammar WireValue.

(** ** Decimals *)
Definition digits_of (s : bytes) : bytes := filter (fun b => negb (beq b ".")) s.

(** the integer a spelling denotes when its point is ignored *)
Definition mantissa (s : bytes) : Z :=
  let n := Z.of_N (digits_value 0 (digits_of (unsigned_part s))) in
  if next_is "-" s then (- n)%Z else n.

Definition point : ascii := "."%char.
Definition zero : ascii := "0"%char.

Lemma digit_not_point b : digit b = true → beq b "." = false.
Proof. intros H. apply beq_false. by intros ->. Qed.

Lemma digits_of_digits s : forallb digit s = true → digits_of s = s.
Proof.
  induction s as [|b s IH]; [done|]. cbn [forallb]. intros [Hb Hs]%andb_true_iff.
  unfold digits_of. rewrite filter_cons_True; [by f_equal; apply IH|].
  by rewrite digit_not_point.
Qed.

Lemma digits_of_app s t : digits_of (s ++ t) = digits_of s ++ digits_of t.
Proof. apply filter_app. Qed.

Lemma digits_of_point s : digits_of (point :: s) = digits_of s.
Proof. unfold digits_of. rewrite filter_cons_False; [done|]. intros H. exact H. Qed.

Lemma forallb_app_digit s t : forallb digit (s ++ t) = forallb digit s && forallb digit t.
Proof. apply forallb_app. Qed.

Lemma zeros_digits n : forallb digit (zeros n) = true.
Proof. unfold zeros. induction (N.to_nat n) as [|k IH]; [done|exact IH]. Qed.

Lemma zeros_value n : digits_value 0 (zeros n) = 0.
Proof. unfold zeros. induction (N.to_nat n) as [|k IH]; [done|exact IH]. Qed.

Lemma len_zeros n : len (zeros n) = n.
Proof. unfold len, zeros. rewrite length_replicate. lia. Qed.

Lemma forallb_take_drop n s :
  forallb digit s = true → forallb digit (take n s) = true ∧ forallb digit (drop n s) = true.
Proof. intros H. rewrite <- (take_drop n s), forallb_app_digit in H. by apply andb_true_iff in H. Qed.

Lemma digits_no_point s : forallb digit s = true → Forall (fun x => is_char "." x = false) s.
Proof.
  intros H. apply Forall_forall. intros x Hx. apply digit_not_point.
  rewrite forallb_forall in H. apply H. by apply list_elem_of_In.
Qed.

Lemma split_point_digits s : forallb digit s = true → split_point s = (s, None).
Proof. intros H. unfold split_point. by rewrite (proj2 (split_once_none _ _) (digits_no_point _ H)). Qed.

Lemma split_point_at a b : forallb digit a = true → split_point (a ++ point :: b) = (a, Some b).
Proof.
  intros H. unfold split_point.
  rewrite (proj2 (split_once_some (is_char ".") (a ++ point :: b) a b)); [done|].
  exists point. split_and!; [done|done|by apply digits_no_point].
Qed.

Lemma next_is_minus_digits s : forallb digit s = true → next_is "-" s = false.
Proof.
  destruct s as [|b s]; [done|]. cbn. intros [Hb _]%andb_true_iff. apply beq_false. by intros ->.
Qed.

Lemma next_is_app a b c : a ≠ [] → next_is c (a ++ b) = next_is c a.
Proof. by destruct a. Qed.

Lemma unsigned_signed (neg : bool) body :
  next_is "-" body = false →
  unsigned_part ((if neg then ["-"%char : ascii] else []) ++ body) = body ∧
  next_is "-" ((if neg then ["-"%char : ascii] else []) ++ body) = neg.
Proof.
  intros H. destruct neg; cbn [app]; [done|]. split; [|done].
  unfold unsigned_part. destruct body as [|b body]; [done|]. cbn in *. by rewrite H.
Qed.

Lemma plain_int_spec s : plain_int s = true ↔
  s ≠ [] ∧ forallb digit s = true ∧ (len s = 1 ∨ next_is "0" s = false).
Proof.
  unfold plain_int, nonempty_digits. rewrite !andb_true_iff, orb_true_iff, !negb_true_iff, N.eqb_neq, N.eqb_eq.
  destruct s as [|b s]; [rewrite len_nil; naive_solver|]. rewrite len_cons. split.
  - intros [[_ ?] ?]. done.
  - intros (_ & ? & ?). split; [split; [lia|done]|done].
Qed.

Lemma trim_start_len p s : len (trim_start_matches p s) <= len s.
Proof.
  induction s as [|b s IH]; cbn [trim_start_matches]; [done|].
  destruct (p b); rewrite ?len_cons; lia.
Qed.

(** the three shapes of [decimal_text], by its integer and fraction parts *)
Inductive decimal_shape digits scale nzeros : bytes → option bytes → Prop :=
| shape_int : scale = 0 →
    decimal_shape digits scale nzeros
      (digits ++ (if bytes_eqb digits ["0"%char : ascii] then [] else zeros nzeros)) None
| shape_small : scale ≠ 0 → len digits <= scale →
    decimal_shape digits scale nzeros [zero] (Some (zeros (scale - len digits) ++ digits))
| shape_split n : scale ≠ 0 → N.of_nat n = len digits - scale → scale < len digits →
    decimal_shape digits scale nzeros (take n digits) (Some (drop n digits)).

Definition join_point (int : bytes) (frac : option bytes) : bytes :=
  int ++ match frac with Some f => point :: f | None => [] end.

Lemma decimal_text_shape neg digits scale nzeros :
  ∃ int frac, decimal_shape digits scale nzeros int frac ∧
    decimal_text neg digits scale nzeros =
      (if neg then ["-"%char : ascii] else []) ++ join_point int frac.
Proof.
  unfold decimal_text. destruct (N.eqb_spec scale 0) as [->|Hs].
  - do 2 eexists. split; [by apply shape_int|]. unfold join_point. by rewrite app_nil_r.
  - destruct (N.leb_spec (len digits) scale).
    + do 2 eexists. split; [by apply shape_small|]. done.
    + do 2 eexists. split; [apply shape_split; [done| |done]; apply N2Nat.id|]. done.
Qed.

Lemma shape_facts digits scale nzeros int frac :
  plain_int digits = true → nzeros = 0 ∨ scale = 0 →
  decimal_shape digits scale nzeros int frac →
  plain_int int = true ∧ frac_digits frac = true ∧ default 0 (len <$> frac) = scale ∧
  len (trim_start_matches (is_char "0") int) + scale <= N.max (len digits + nzeros) scale ∧
  digits_value 0 (int ++ default [] frac) = digits_value 0 digits * 10 ^ nzeros.
Proof.
  intros (Hn & Hd & Hz)%plain_int_spec Hzero H.
  destruct H as [Hs|Hs Hlen|n Hs Hn' Hlen]; cbn [fmap option_fmap option_map from_option id].
  - subst scale. rewrite app_nil_r. pose proof (trim_start_len (is_char "0")
      (digits ++ (if bytes_eqb digits ["0"%char : ascii] then [] else zeros nzeros))) as Ht.
    unfold bytes_eqb in *. destruct (bool_decide_reflect (digits = ["0"%char])) as [->|Hne].
    + rewrite app_nil_r in *. split_and!; [done|done|done| |done].
      change (len ["0"%char : ascii]) with 1 in *. lia.
    + rewrite len_app, len_zeros in Ht. split_and!; [|done|done|lia|].
      * apply plain_int_spec. rewrite forallb_app_digit, Hd, zeros_digits.
        split_and!; [by destruct digits|done|]. right. rewrite next_is_app by done.
        destruct Hz as [Hz|Hz]; [|done]. destruct digits as [|b [|? ?]]; [done| |rewrite !len_cons in Hz; lia].
        cbn. apply beq_false. intros ->. done.
      * rewrite digits_value_app, digits_value_shift, zeros_value, len_zeros. lia.
  - destruct Hzero as [->|?]; [|lia]. split_and!.
    + done.
    + unfold frac_digits, nonempty_digits. rewrite forallb_app_digit, zeros_digits, Hd, len_app, len_zeros.
      destruct (N.eqb_spec (scale - len digits + len digits) 0); [lia|done].
    + rewrite len_app, len_zeros. lia.
    + change (len (trim_start_matches (is_char "0") [zero])) with 0. lia.
    + cbn [app digits_value]. rewrite digits_value_app.
      change (0 * 10 + (code zero - 48)) with 0. rewrite zeros_value. lia.
  - destruct Hzero as [->|?]; [|lia].
    pose proof (forallb_take_drop n digits Hd) as [Ht Hdr].
    assert (Hl : len (take n digits) = N.of_nat n) by (unfold len in *; rewrite length_take; lia).
    assert (Hl' : len (drop n digits) = scale) by (unfold len in *; rewrite length_drop; lia).
    split_and!.
    + apply plain_int_spec. split_and!; [intros E; rewrite E, len_nil in Hl; lia|done|]. right.
      destruct Hz as [?|Hz]; [lia|]. destruct digits as [|b digits]; [done|].
      destruct n as [|n]; [lia|]. done.
    + unfold frac_digits, nonempty_digits. rewrite Hdr, Hl'. by apply N.eqb_neq in Hs as ->.
    + done.
    + pose proof (trim_start_len (is_char "0") (take n digits)). lia.
    + rewrite take_drop. lia.
Qed.

Lemma plain_int_digits s : plain_int s = true → forallb digit s = true.
Proof. by intros (_ & ? & _)%plain_int_spec. Qed.

Lemma frac_digits_some f : frac_digits (Some f) = true → forallb digit f = true.
Proof. unfold frac_digits, nonempty_digits. by intros [_ ?]%andb_true_iff. Qed.

(** a signed spelling put together from its parts is taken apart again *)
Lemma split_join (neg : bool) int frac :
  plain_int int = true → frac_digits frac = true →
  let s := (if neg then ["-"%char : ascii] else []) ++ join_point int frac in
  split_point (unsigned_part s) = (int, frac) ∧
  mantissa s = ((if neg then -1 else 1) * Z.of_N (digits_value 0 (int ++ default [] frac)))%Z.
Proof.
  intros Hi%plain_int_digits Hf s.
  assert (Hm : next_is "-" (join_point int frac) = false).
  { unfold join_point. destruct int as [|b int]; [by destruct frac|]. exact (next_is_minus_digits (b :: int) Hi). }
  destruct (unsigned_signed neg _ Hm) as [Hu Hneg]. fold s in Hu, Hneg.
  split; [|unfold mantissa]; rewrite Hu; unfold join_point.
  - destruct frac as [f|]; [by apply split_point_at|]. rewrite app_nil_r. by apply split_point_digits.
  - rewrite Hneg, digits_of_app, (digits_of_digits int) by done.
    enough (digits_of match frac with Some f => point :: f | None => [] end = default [] frac) as ->
      by (destruct neg; lia).
    destruct frac as [f|]; [|done]. rewrite digits_of_point. by apply digits_of_digits, frac_digits_some.
Qed.

Lemma decimal_metadata_join (neg : bool) int frac :
  plain_int int = true → frac_digits frac = true →
  let scale := default 0 (len <$> frac) in
  let precision := N.max (len (trim_start_matches (is_char "0") int) + scale) 1 in
  precision <= 255 →
  decimal_metadata ((if neg then ["-"%char : ascii] else []) ++ join_point int frac) = Ok (precision, scale).
Proof.
  intros Hi Hf scale precision Hp. unfold decimal_metadata.
  rewrite (proj1 (split_join neg int frac Hi Hf)), Hi, Hf. cbn [andb require mbind result_bind].
  fold scale. fold precision. by apply (cap_ok _ _ tt) in Hp as ->.
Qed.

(** the digits the full expansion needs *)
Definition expansion (coefficient : bytes) (native_scale : Z) : N :=
  N.max (len (unsigned_part coefficient) + Z.to_N (- native_scale)) (Z.to_N native_scale).

Lemma expansion_zeros n :
  (if (n <? 0)%Z then Z.to_N (Z.abs n) else 0) = Z.to_N (- n) ∧ Z.to_N (Z.max n 0) = Z.to_N n.
Proof. destruct (Z.ltb_spec n 0); lia. Qed.

Lemma decimal_text_len neg digits scale nzeros int frac :
  decimal_shape digits scale nzeros int frac →
  len ((if neg : bool then ["-"%char : ascii] else []) ++ join_point int frac) <= N.max (len digits + nzeros) scale + 3.
Proof.
  unfold join_point.
  assert (len (if neg then ["-"%char : ascii] else []) <= 1) by (by destruct neg).
  destruct 1 as [Hs|Hs Hl|n Hs Hn Hl]; rewrite !len_app, ?len_cons, ?len_nil.
  - destruct (bytes_eqb _ _); rewrite ?len_nil, ?len_zeros; lia.
  - rewrite len_app, len_zeros. lia.
  - assert (len (take n digits) + len (drop n digits) = len digits) by (rewrite <- len_app; by rewrite take_drop).
    lia.
Qed.

(** The decimal normalizer never rounds and never refuses a number that
    fits: from the digits of a coefficient and a scale within 255 digits it
    yields a value that passes its own validation, whose scale is the native
    scale (none when that is negative) and whose spelling denotes
    [coefficient * 10 ^ -native_scale] exactly. *)
Theorem decimal_exact `{SerdeJson, ValueLibs} coefficient native_scale :
  plain_int (unsigned_part coefficient) = true → expansion coefficient native_scale <= 255 →
  ∃ out precision,
    decimal coefficient native_scale = Ok (VDecimal (str_of out) precision (Z.to_N native_scale)) ∧
    value_validate (VDecimal (str_of out) precision (Z.to_N native_scale)) = Ok tt ∧
    mantissa out = (mantissa coefficient * 10 ^ Z.of_N (Z.to_N (- native_scale)))%Z.
Proof.
  intros Hd He. unfold expansion in He. set (digits := unsigned_part coefficient) in *.
  destruct (expansion_zeros native_scale) as [Ez Es].
  destruct (decimal_text_shape (next_is "-" coefficient) digits (Z.to_N native_scale) (Z.to_N (- native_scale)))
    as (int & frac & Hshape & Etext).
  assert (Hzero : Z.to_N (- native_scale) = 0 ∨ Z.to_N native_scale = 0) by lia.
  destruct (shape_facts _ _ _ _ _ Hd Hzero Hshape) as (Hi & Hf & Hsc & Hprec & Hval).
  pose proof (decimal_text_len (next_is "-" coefficient) _ _ _ _ _ Hshape) as Hlen.
  rewrite <- Etext in Hlen.
  pose proof (decimal_metadata_join (next_is "-" coefficient) int frac Hi Hf) as Hmeta.
  pose proof (proj2 (split_join (next_is "-" coefficient) int frac Hi Hf)) as Hman.
  cbn zeta in Hmeta, Hman. rewrite <- Etext in Hmeta, Hman. rewrite Hsc in Hmeta.
  specialize (Hmeta ltac:(lia)).
  set (precision := N.max _ 1) in Hmeta. set (out := decimal_text _ _ _ _) in *.
  assert (Hp : precision <= 255) by lia.
  exists out, precision. split_and!.
  - unfold decimal. fold digits. rewrite Hd, Ez, Es. cbn [require mbind result_bind].
    rewrite (proj2 (checked_add_some _ _ _)) by (split; [reflexivity|unfold USIZE_MAX, U64_MAX; lia]).
    cbn [ok_or mbind result_bind]. rewrite (proj2 (cap_ok _ _ tt)) by done. cbn [mbind result_bind].
    fold out. rewrite Hmeta. cbn [mbind result_bind].
    rewrite !N.mod_small by lia. done.
  - unfold value_validate. unfold Bounds.text. rewrite (proj2 (cap_ok _ _ tt)).
    + cbn [mbind result_bind]. rewrite bytes_of_str, Hmeta. cbn [mbind result_bind]. by rewrite !N.eqb_refl.
    + rewrite <- len_str_bytes, bytes_of_str. unfold SCALAR_BYTES. lia.
  - rewrite Hman, Hval. unfold mantissa. fold digits. rewrite digits_of_digits by (by apply plain_int_digits).
    rewrite N2Z.inj_mul, N2Z.inj_pow. destruct (next_is "-" coefficient); lia.
Qed.

Definition sample_libs : ValueLibs := {|
  F64 := bytes;
  f64_parse s := Some s;
  f64_is_finite _ := true;
  f64_to_string s := s;
  b64_decode _ := None;
  b64_encode _ := "";
|}.

Lemma decimal_exact_witness :
  plain_int (unsigned_part (str_bytes "-1205")) = true ∧
  expansion (str_bytes "-1205") 6 <= 255 ∧
  ∃ out precision,
    decimal (str_bytes "-1205") 6 = Ok (VDecimal (str_of out) precision 6) ∧
    @value_validate sample_serde sample_libs (VDecimal (str_of out) precision 6) = Ok tt ∧
    mantissa out = (mantissa (str_bytes "-1205") * 10 ^ 0)%Z.
Proof.
  split; [vm_compute; reflexivity|]. split; [vm_compute; discriminate|].
  apply (@decimal_exact sample_serde sample_libs (str_bytes "-1205") 6);
    [vm_compute; reflexivity|vm_compute; discriminate].
Defined.

(** ** Canonical integers *)

(** C36. An [i64] or [u64] wire value passes validation exactly when its text
    is the canonical decimal spelling of an integer of that width: no plus
    sign, no leading zero, no negative zero, no overflow. *)
Theorem integers_canonical `{SerdeJson, ValueLibs} (value : string) :
  (value_validate (VI64 value) = Ok tt ↔
     ∃ z, (I64_MIN <= z <= I64_MAX)%Z ∧ str_bytes value = print_i64 z) ∧
  (value_validate (VU64 value) = Ok tt ↔
     ∃ n, n <= U64_MAX ∧ str_bytes value = print_u64 n).
Proof.
  cbn [value_validate]. rewrite !require_ok. unfold bytes_eqb. split; split.
  - destruct (parse_i64 _) as [z|] eqn:E; [|done]. intros Hz%bool_decide_eq_true.
    exists z. split; [by eapply parse_i64_range|done].
  - intros (z & Hz & ->). rewrite parse_print_i64 by done. by apply bool_decide_eq_true.
  - destruct (parse_unsigned _ _) as [n|] eqn:E; [|done]. intros Hn%bool_decide_eq_true.
    exists n. split; [by eapply parse_unsigned_le|done].
  - intros (n & Hn & ->). rewrite parse_print_u64 by done. by apply bool_decide_eq_true.
Qed.

(** ** The calendar *)

(** two and four digit fields *)
Definition dig (n : N) : ascii := ascii_of_N (48 + n mod 10).
Definition pad2 (n : N) : bytes := [dig (n / 10); dig n].
Definition pad4 (n : N) : bytes := [dig (n / 1000); dig (n / 100); dig (n / 10); dig n].
Definition dash : bytes := ["-"%char : ascii].

(** the Gregorian calendar: a year has a leap day when 400 divides it, or 4
    does and 100 does not *)
Definition LeapYear (y : N) : Prop := N.divide 400 y ∨ N.divide 4 y ∧ ¬ N.divide 100 y.

Inductive MonthLength (y : N) : N → N → Prop :=
| month_31 m : m ∈ [1; 3; 5; 7; 8; 10; 12] → MonthLength y m 31
| month_30 m : m ∈ [4; 6; 9; 11] → MonthLength y m 30
| february_leap : LeapYear y → MonthLength y 2 29
| february : ¬ LeapYear y → MonthLength y 2 28.

Definition CalendarDate (y m d : N) : Prop :=
  1 <= y <= 9999 ∧ ∃ days, MonthLength y m days ∧ 1 <= d <= days.

Lemma leap_spec y : leap y = true ↔ LeapYear y.
Proof.
  unfold leap, LeapYear. rewrite andb_true_iff, orb_true_iff, negb_true_iff, !N.eqb_eq, N.eqb_neq.
  rewrite <- !N.Lcm0.mod_divide. div_lia.
Qed.

Lemma days_in_month_spec y m d : 1 <= d → d <= days_in_month y m ↔ ∃ days, MonthLength y m days ∧ d <= days.
Proof.
  intros Hd. unfold days_in_month. split.
  - destruct (existsb (N.eqb m) [1; 3; 5; 7; 8; 10; 12]) eqn:E1.
    { intros ?. exists 31. split; [|done]. constructor. apply existsb_exists in E1 as (x & Hx & ->%N.eqb_eq).
      by apply list_elem_of_In. }
    destruct (existsb (N.eqb m) [4; 6; 9; 11]) eqn:E2.
    { intros ?. exists 30. split; [|done]. constructor. apply existsb_exists in E2 as (x & Hx & ->%N.eqb_eq).
      by apply list_elem_of_In. }
    destruct (N.eqb_spec m 2) as [->|Hm]; cbn [andb]; [|lia].
    destruct (leap y) eqn:El.
    + intros ?. exists 29. split; [|done]. constructor. by apply leap_spec.
    + intros ?. exists 28. split; [|done]. constructor. rewrite <- leap_spec. congruence.
  - intros (days & Hml & Hdays). destruct Hml as [m Hm|m Hm|Hl|Hl].
    + rewrite !elem_of_cons in Hm. by repeat destruct Hm as [->|Hm]; [..|apply not_elem_of_nil in Hm].
    + rewrite !elem_of_cons in Hm. by repeat destruct Hm as [->|Hm]; [..|apply not_elem_of_nil in Hm].
    + apply leap_spec in Hl. cbn -[leap]. by rewrite Hl.
    + rewrite <- leap_spec, not_true_iff_false in Hl. cbn -[leap]. by rewrite Hl.
Qed.

Lemma code_dig n : code (dig n) = 48 + n mod 10.
Proof.
  unfold code, dig. apply N_ascii_embedding.
  pose proof (N.mod_lt n 10 ltac:(discriminate)). generalize dependent (n mod 10). intros. lia.
Qed.

Lemma digit_range b : digit b = true ↔ 48 <= code b <= 57.
Proof. apply in_range_spec. Qed.

Lemma digit_dig n : digit (dig n) = true.
Proof.
  apply digit_range. rewrite code_dig.
  pose proof (N.mod_lt n 10 ltac:(discriminate)). generalize dependent (n mod 10). intros. lia.
Qed.

Lemma digit_is_dig b n : digit b = true → n mod 10 = code b - 48 → b = dig n.
Proof.
  intros Hb%digit_range Hn. apply (inj code). rewrite code_dig, Hn. lia.
Qed.

Lemma parse_digits_of s max :
  s ≠ [] → forallb digit s = true → digits_value 0 s <= max →
  parse_unsigned max s = Some (digits_value 0 s).
Proof.
  intros Hs Hd Hm. unfold parse_unsigned.
  assert (strip_prefix "+" s = None) as ->.
  { destruct s as [|b s]; [done|]. cbn. destruct (beq b "+") eqn:E; [|done].
    apply beq_true in E as ->. cbn in Hd. by rewrite andb_false_l in Hd. }
  cbn [from_option id]. unfold parse_digits. rewrite Hd.
  destruct s as [|b s]; [done|].
  destruct (N.eqb_spec (len (b :: s)) 0) as [E|_]; [rewrite len_cons in E; lia|].
  cbn [negb andb mbind option_bind]. by apply N.leb_le in Hm as ->.
Qed.

(** the two readings of a fixed-width field *)
Lemma pad2_fields a b :
  digit a = true → digit b = true →
  let n := digits_value 0 [a; b] in [a; b] = pad2 n ∧ n <= 99.
Proof.
  intros Ha Hb n. pose proof (proj1 (digit_range _) Ha). pose proof (proj1 (digit_range _) Hb).
  assert (En : n = (code a - 48) * 10 + (code b - 48)) by (subst n; cbn [digits_value]; lia).
  split; [|lia]. unfold pad2.
  rewrite <- (digit_is_dig a (n / 10)), <- (digit_is_dig b n); try done; rewrite En; div_lia.
Qed.

Lemma pad4_fields a b c d :
  digit a = true → digit b = true → digit c = true → digit d = true →
  let n := digits_value 0 [a; b; c; d] in [a; b; c; d] = pad4 n ∧ n <= 9999.
Proof.
  intros Ha Hb Hc Hd n. pose proof (proj1 (digit_range _) Ha). pose proof (proj1 (digit_range _) Hb).
  pose proof (proj1 (digit_range _) Hc). pose proof (proj1 (digit_range _) Hd).
  assert (En : n = (code a - 48) * 1000 + (code b - 48) * 100 + (code c - 48) * 10 + (code d - 48))
    by (subst n; cbn [digits_value]; lia).
  split; [|lia]. unfold pad4.
  rewrite <- (digit_is_dig a (n / 1000)), <- (digit_is_dig b (n / 100)), <- (digit_is_dig c (n / 10)),
    <- (digit_is_dig d n); try done; rewrite En; div_lia.
Qed.

Lemma pad2_value n : n <= 99 → digits_value 0 (pad2 n) = n.
Proof. intros H. unfold pad2. cbn [digits_value]. rewrite !code_dig. div_lia. Qed.

Lemma pad4_value n : n <= 9999 → digits_value 0 (pad4 n) = n.
Proof. intros H. unfold pad4. cbn [digits_value]. rewrite !code_dig. div_lia. Qed.

Lemma list_of_length_10 (s : bytes) : len s = 10 →
  ∃ a b c d e f g h i j, s = [a; b; c; d; e; f; g; h; i; j].
Proof.
  unfold len. intros H. do 10 (destruct s as [|? s]; [done|]). destruct s; [|cbn in H; lia]. eauto 11.
Qed.

(** the positions the loops of [date] and [time] check *)
Lemma date_positions a b c d x e f y g h :
  all_indexed (fun i b => (i =? 4) || (i =? 7) || digit b) 0 [a; b; c; d; x; e; f; y; g; h] =
  forallb digit [a; b; c; d; e; f; g; h].
Proof. reflexivity. Qed.

Lemma date_fields s :
  date s = true ↔
  ∃ a b c d e f g h, forallb digit [a; b; c; d; e; f; g; h] = true ∧
    s = [a; b; c; d] ++ dash ++ [e; f] ++ dash ++ [g; h] ∧
    let y := digits_value 0 [a; b; c; d] in
    let m := digits_value 0 [e; f] in
    let day := digits_value 0 [g; h] in
    0 < y ∧ 0 < day ∧ day <= days_in_month y m.
Proof.
  assert (Hp : ∀ x y, digit x = true → digit y = true →
    parse_unsigned U32_MAX [x; y] = Some (digits_value 0 [x; y])).
  { intros x y Hx Hy. pose proof (pad2_fields x y Hx Hy) as [_ ?]. apply parse_digits_of; [done|cbn; by rewrite Hx, Hy|].
    unfold U32_MAX. lia. }
  assert (Hp4 : ∀ x y z w, digit x = true → digit y = true → digit z = true → digit w = true →
    parse_unsigned U32_MAX [x; y; z; w] = Some (digits_value 0 [x; y; z; w])).
  { intros x y z w Hx Hy Hz Hw. pose proof (pad4_fields x y z w Hx Hy Hz Hw) as [_ ?].
    apply parse_digits_of; [done|cbn; by rewrite Hx, Hy, Hz, Hw|]. unfold U32_MAX. lia. }
  unfold date. split.
  - destruct (N.eqb_spec (len s) 10) as [Hl|]; [|done].
    destruct (list_of_length_10 s Hl) as (a & b & c & d & x & e & f & z & g & h & ->). cbn [negb orb].
    unfold byte_at. cbn [lookup list_lookup]. destruct (beq x "-") eqn:Hx; [|done]. apply beq_true in Hx as ->.
    destruct (beq z "-") eqn:Hz; [|done]. apply beq_true in Hz as ->. cbn [negb orb]. rewrite date_positions. cbn [forallb].
    change (len _ =? 10) with true. change (beq "-" "-") with true. cbn [negb orb].
    destruct (digit a) eqn:Ha; [|done]. destruct (digit b) eqn:Hb; [|done].
    destruct (digit c) eqn:Hc; [|done]. destruct (digit d) eqn:Hd; [|done].
    destruct (digit e) eqn:He; [|done]. destruct (digit f) eqn:Hf; [|done].
    destruct (digit g) eqn:Hg; [|done]. destruct (digit h) eqn:Hh; [|done].
    cbn [andb negb orb]. unfold sub. cbn [Nat.sub drop take]. rewrite Hp4, !Hp by done.
    rewrite !andb_true_iff, !N.ltb_lt, N.leb_le. intros [[? ?] ?].
    exists a, b, c, d, e, f, g, h. cbn [forallb]. rewrite Ha, Hb, Hc, Hd, He, Hf, Hg, Hh. done.
  - intros (a & b & c & d & e & f & g & h & Hd & -> & Hy & Hday & Hmax). cbn [forallb] in Hd.
    rewrite !andb_true_iff in Hd. destruct Hd as (Ha & Hb & Hc & Hd & He & Hf & Hg & Hh & _).
    cbn [app dash]. change (len _ =? 10) with true. unfold byte_at. cbn [lookup list_lookup].
    change (beq "-" "-") with true. rewrite date_positions. cbn [forallb].
    rewrite Ha, Hb, Hc, Hd, He, Hf, Hg, Hh. cbn [andb negb orb]. unfold sub. cbn [Nat.sub drop take].
    rewrite Hp4, !Hp by done. rewrite !andb_true_iff, !N.ltb_lt, N.leb_le. done.
Qed.

(** The date check accepts exactly the spellings [yyyy-mm-dd] of the days
    of the Gregorian calendar, years 1 to 9999: leap days included, no other
    29 February, no month past its length, no other text. *)
Theorem date_decides_calendar s :
  date s = true ↔ ∃ y m d, CalendarDate y m d ∧ s = pad4 y ++ dash ++ pad2 m ++ dash ++ pad2 d.
Proof.
  rewrite date_fields. split.
  - intros (a & b & c & d & e & f & g & h & Hd & -> & Hy & Hday & Hmax). cbn [forallb] in Hd.
    rewrite !andb_true_iff in Hd. destruct Hd as (Ha & Hb & Hc & Hd & He & Hf & Hg & Hh & _).
    destruct (pad4_fields a b c d Ha Hb Hc Hd) as [Ey Hy'].
    destruct (pad2_fields e f He Hf) as [Em _]. destruct (pad2_fields g h Hg Hh) as [Ed _].
    cbn zeta in *. exists (digits_value 0 [a; b; c; d]), (digits_value 0 [e; f]), (digits_value 0 [g; h]).
    rewrite <- Ey, <- Em, <- Ed. split; [|done]. split; [lia|].
    apply days_in_month_spec in Hmax as (days & ? & ?); [|lia]. exists days. split; [done|lia].
  - intros (y & m & d & [Hy (days & Hm & Hd)] & ->).
    assert (Hm' : m <= 99 ∧ days <= 31).
    { destruct Hm as [m Hm|m Hm| |]; [| |lia|lia]; rewrite !elem_of_cons, elem_of_nil in Hm; lia. }
    unfold pad4, pad2. do 8 eexists. split_and!; [cbn [forallb]; by rewrite !digit_dig|done|..].
    all: fold (pad4 y) (pad2 m) (pad2 d); rewrite ?pad4_value, ?pad2_value by lia; try lia.
    apply days_in_month_spec; [lia|]. exists days. split; [done|lia].
Qed.

(** ** Decimal spellings with exponents *)

(** The number a spelling denotes, as [(d, e)] for [d * 10 ^ e]: the signed
    integer of its digits, and its exponent less the length of its fraction. *)
Definition spelling (s : bytes) : option (Z * Z) :=
  '(m, e) ← split_exponent (unsigned_part s);
  let frac := match split_once (is_char ".") m with Some (_, f) => len f | None => 0 end in
  let n := Z.of_N (digits_value 0 (digits_of m)) in
  Some ((if next_is "-" s then - n else n)%Z, (e - Z.of_N frac)%Z).

(** [d * 10 ^ e] and [d' * 10 ^ e'] are one number: they agree once scaled to
    integers *)
Definition SameNumber (x y : Z * Z) : Prop :=
  ∃ k, (0 <= x.2 + k ∧ 0 <= y.2 + k ∧ x.1 * 10 ^ (x.2 + k) = y.1 * 10 ^ (y.2 + k))%Z.

Lemma same_number_scale x y k k' :
  (0 <= x.2 + k → 0 <= y.2 + k → k <= k' →
   x.1 * 10 ^ (x.2 + k) = y.1 * 10 ^ (y.2 + k) → x.1 * 10 ^ (x.2 + k') = y.1 * 10 ^ (y.2 + k'))%Z.
Proof.
  intros Hx Hy Hk E.
  replace (x.2 + k')%Z with (x.2 + k + (k' - k))%Z by lia.
  replace (y.2 + k')%Z with (y.2 + k + (k' - k))%Z by lia.
  rewrite (Z.pow_add_r 10 (x.2 + k)), (Z.pow_add_r 10 (y.2 + k)), !Z.mul_assoc, E by lia. done.
Qed.

#[global] Instance same_number_equivalence : Equivalence SameNumber.
Proof.
  split.
  - intros x. exists (Z.max 0 (- x.2)). split_and!; lia.
  - intros x y (k & ? & ? & ?). exists k. split_and!; lia.
  - intros x y z (k & Hx & Hy & E) (l & Hy' & Hz & F). exists (Z.max k l). split_and!; [lia|lia|].
    rewrite (same_number_scale x y k (Z.max k l)), (same_number_scale y z l (Z.max k l)) by (done || lia).
    done.
Qed.

Definition parts_number (p : bool * bytes * Z) : Z * Z :=
  let '(neg, digits, e) := p in
  let n := Z.of_N (digits_value 0 digits) in ((if neg then - n else n)%Z, e).

Lemma same_number_trim (neg : bool) v n e :
  let sign z := (if neg then - z else z)%Z in
  SameNumber (sign (Z.of_N (v * 10 ^ n)), e) (sign (Z.of_N v), (e + Z.of_N n)%Z).
Proof.
  intros sign. exists (Z.max 0 (- e)). cbn [fst snd]. split_and!; [lia|lia|].
  replace (e + Z.of_N n + Z.max 0 (- e))%Z with (Z.of_N n + (e + Z.max 0 (- e)))%Z by lia.
  rewrite (Z.pow_add_r 10 (Z.of_N n)), N2Z.inj_mul, N2Z.inj_pow by lia.
  change (Z.of_N 10) with 10%Z. subst sign. destruct neg; ring.
Qed.

Lemma checked_i64_some z w : checked_i64 z = Some w → z = w.
Proof. unfold checked_i64. destruct (_ && _)%Z; congruence. Qed.

Lemma parts_spelling s p :
  parts s = Some p → ∃ x, spelling s = Some x ∧ SameNumber x (parts_number p).
Proof.
  unfold parts, spelling. destruct (split_exponent (unsigned_part s)) as [[m e]|]; [|done].
  cbn [mbind option_bind]. set (frac := match _ with Some _ => _ | None => _ end).
  fold (digits_of m). intros H. eexists; split; [reflexivity|]. revert H.
  destruct (trim_start_split (is_char "0") (digits_of m)) as (t & Et & Ht).
  set (leading := trim_start_matches _ _) in *.
  assert (Hv : digits_value 0 (digits_of m) = digits_value 0 leading).
  { by rewrite Et, digits_value_app, (digits_value_zeros 0 t Ht). }
  rewrite Hv. destruct (trim_end_split (is_char "0") leading) as (u & Eu & Hu).
  set (trimmed := trim_end_matches _ _) in *.
  assert (Hv' : digits_value 0 leading = digits_value 0 trimmed * 10 ^ len u).
  { rewrite Eu at 1. by rewrite digits_value_app, (digits_value_zeros _ u Hu). }
  destruct leading as [|b l] eqn:El.
  - intros [= <-]. cbn. exists (Z.max 0 (- (e - Z.of_N frac))). cbn [fst snd].
    split_and!; [lia|lia|]. by destruct (next_is "-" s).
  - intros H. destruct (checked_i64 (Z.of_N frac)) as [f|] eqn:Ef; [|done]. apply checked_i64_some in Ef as <-.
    cbn [mbind option_bind] in H. destruct (checked_i64 (e - _)) as [g|] eqn:Eg; [|done].
    apply checked_i64_some in Eg as <-. cbn [mbind option_bind] in H.
    destruct (checked_i64 (Z.of_nat _)) as [d|] eqn:Ed; [|done]. apply checked_i64_some in Ed as <-.
    cbn [mbind option_bind] in H. destruct (checked_i64 (_ + _)) as [x|] eqn:Ex; [|done].
    apply checked_i64_some in Ex. cbn [mbind option_bind] in H. injection H as <-.
    assert (Hlen : (length (b :: l) - length trimmed)%nat = length u) by (rewrite Eu at 1; rewrite length_app; lia).
    rewrite Hlen in Ex. rewrite Hv'. unfold parts_number. rewrite <- Ex.
    replace (Z.of_nat (length u)) with (Z.of_N (len u)) by (unfold len; lia).
    apply same_number_trim.
Qed.

(** The precision guard of [f64] values is sound: two spellings
    [decimal_equivalent] accepts denote the same rational number, whatever
    their exponents, leading and trailing zeros; so a value it lets through
    lost nothing when it was parsed and printed. *)
Theorem decimal_equivalent_sound a b :
  decimal_equivalent a b = true →
  ∃ x y, spelling a = Some x ∧ spelling b = Some y ∧ SameNumber x y.
Proof.
  unfold decimal_equivalent. destruct (parts a) as [p|] eqn:Ea; [|done].
  destruct (parts b) as [q|] eqn:Eb; [|done]. intros ->%bool_decide_eq_true.
  apply parts_spelling in Ea as (x & Ex & Hx). apply parts_spelling in Eb as (y & Ey & Hy).
  exists x, y. split_and!; try done. by rewrite Hx, Hy.
Qed.

Lemma decimal_equivalent_sound_witness :
  decimal_equivalent (str_bytes "-1.50e3") (str_bytes "-1500.0") = true ∧
  ∃ x y, spelling (str_bytes "-1.50e3") = Some x ∧ spelling (str_bytes "-1500.0") = Some y ∧ SameNumber x y.
Proof. split; [reflexivity|]. apply decimal_equivalent_sound. reflexivity. Defined.
