(* ===== verification/Wire.v ===== *)
(** * The one-operation connection grammar

    Models crates/gaze-lens-protocol/src/wire.rs: the messages, the request
    arguments and result bodies with their validation, the frame codec, and
    the [Sequence] that enforces wire correlation.  The derived serde
    readers and writers of the message structs are the class [WireSerde], whose
    instance is [WireJson.derived]. *)

From S2P Require Import Prelude Str Utf8 Bounds Serde WireQuery WireValue.

(** ** Messages *)
Inductive Operation :=
| OpQuery | OpSchema | OpListTables | OpLogTail | OpLogWindow | OpLogRegex | OpInspect | OpReadiness.
#[global] Instance Operation_eq_dec : EqDecision Operation.
Proof. solve_decision. Defined.
#[export] Instance Operation_name : EnumName Operation := {|
  variants := [OpQuery; OpSchema; OpListTables; OpLogTail; OpLogWindow; OpLogRegex; OpInspect; OpReadiness];
  variant_name o := match o with
    | OpQuery => "query" | OpSchema => "schema" | OpListTables => "list_tables" | OpLogTail => "log_tail"
    | OpLogWindow => "log_window" | OpLogRegex => "log_regex" | OpInspect => "inspect"
    | OpReadiness => "readiness" end%string;
|}.
#[export] Instance Operation_laws : EnumLaws Operation.
Proof. enum_laws. Qed.

Definition VERSION : string := "gaze-lens-source/2".
Inductive Version := V2.
#[export] Instance Version_name : EnumName Version := {|
  variants := [V2]; variant_name _ := VERSION |}.
Inductive Privacy := ClientGaze.
#[export] Instance Privacy_name : EnumName Privacy := {|
  variants := [ClientGaze]; variant_name _ := "client_gaze"%string |}.

Record DestinationBinding := mkBinding {
  b_principal : string;
  b_principal_generation : string;
  b_resource : string;
  b_resource_generation : string;
}.
#[global] Instance DestinationBinding_eq_dec : EqDecision DestinationBinding.
Proof. solve_decision. Defined.

(** the visitor [Opaque] and the check of [validate]: 32 lower-case hex digits *)
Definition opaque (s : string) : bool :=
  (slen s =? 32) && forallb (fun b => is_lower_hex (code b)) (str_bytes s).

Definition binding_validate (b : DestinationBinding) : Result unit :=
  for_each (fun f => require (opaque f))
    [b_principal b; b_principal_generation b; b_resource b; b_resource_generation b].

Record Prepare := mkPrepare {
  pr_version : Version; pr_privacy : Privacy; pr_id : string;
  pr_credential : string; pr_resource : string; pr_operation : Operation;
}.
Record Prepared := mkPrepared {
  pd_version : Version; pd_privacy : Privacy; pd_id : string;
  pd_operation : Operation; pd_binding : DestinationBinding;
}.
Record Failure := mkFailure { f_version : Version; f_id : string; f_code : Error }.
Record RawCall := mkRawCall {
  rc_version : Version; rc_id : string; rc_operation : Operation;
  rc_binding : DestinationBinding; rc_args : string;
}.
Record RawSuccess := mkRawSuccess {
  rs_version : Version; rs_id : string; rs_operation : Operation;
  rs_binding : DestinationBinding; rs_result : string;
}.

(** ** Arguments *)
Inductive Empty := mkEmpty.
Record Schema := mkSchema { s_table : string }.
Record Tail := mkTail { t_lines : N }.
Record Regex := mkRegex { r_pattern : string; r_level : option string; r_limit : N }.
Inductive View := ViewHost | ViewPackages | ViewPhp.
#[global] Instance View_eq_dec : EqDecision View.
Proof. solve_decision. Defined.
#[export] Instance View_name : EnumName View := {|
  variants := [ViewHost; ViewPackages; ViewPhp];
  variant_name v := match v with
    | ViewHost => "host" | ViewPackages => "packages" | ViewPhp => "php" end%string |}.
Record Inspect := mkInspect {
  i_view : View; i_collector : string; i_limit : N; i_offset : option N }.

Inductive Args :=
| AQuery (q : Query) | ASchema (s : Schema) | AListTables (e : Empty) | ALogTail (t : Tail)
| ALogWindow (e : Empty) | ALogRegex (r : Regex) | AInspect (i : Inspect) | AReadiness (e : Empty).

Definition args_operation (a : Args) : Operation :=
  match a with
  | AQuery _ => OpQuery | ASchema _ => OpSchema | AListTables _ => OpListTables
  | ALogTail _ => OpLogTail | ALogWindow _ => OpLogWindow | ALogRegex _ => OpLogRegex
  | AInspect _ => OpInspect | AReadiness _ => OpReadiness
  end.

Definition args_validate (a : Args) : Result unit :=
  match a with
  | AQuery q => query_validate q
  | ASchema s => identifier (s_table s)
  | ALogTail t => _ ← require (0 <? t_lines t); cap (t_lines t) KEYWORD_WINDOW_LINES
  | ALogRegex r =>
    _ ← require (0 <? r_limit r);
    _ ← cap (r_limit r) 1000;
    _ ← cap (slen (r_pattern r)) REGEX_BYTES;
    match r_level r with Some l => Bounds.text l | None => Ok tt end
  | AInspect i =>
    _ ← configured_id (i_collector i);
    _ ← require (0 <? i_limit i);
    match i_view i with
    | ViewHost => require ((i_limit i =? 1) && bool_decide (i_offset i = None))
    | ViewPhp => _ ← require (bool_decide (i_offset i = None)); cap (i_limit i) MAX_PHP
    | ViewPackages =>
      _ ← cap (i_limit i) MAX_PACKAGES; cap (default 0 (i_offset i)) INVENTORY_RECORDS
    end
  | _ => Ok tt
  end.

(** ** Results *)
Inductive Reason := RBytes | RRows | RLines | RScanBytes | RScanLines | RBoundary | RRecords.
#[global] Instance Reason_eq_dec : EqDecision Reason.
Proof. solve_decision. Defined.
(** the derived order *)
Definition reason_rank (r : Reason) : N :=
  match r with
  | RBytes => 0 | RRows => 1 | RLines => 2 | RScanBytes => 3 | RScanLines => 4 | RBoundary => 5 | RRecords => 6
  end.
Definition reason_lt (a b : Reason) : bool := reason_rank a <? reason_rank b.
#[export] Instance Reason_name : EnumName Reason := {|
  variants := [RBytes; RRows; RLines; RScanBytes; RScanLines; RBoundary; RRecords];
  variant_name r := match r with
    | RBytes => "bytes" | RRows => "rows" | RLines => "lines" | RScanBytes => "scan_bytes"
    | RScanLines => "scan_lines" | RBoundary => "boundary" | RRecords => "records" end%string |}.

Inductive Scope := TailWindow.
#[export] Instance Scope_name : EnumName Scope := {|
  variants := [TailWindow]; variant_name _ := "tail_window"%string |}.
Record Window := mkWindow {
  w_scope : Scope; w_scanned_bytes : N; w_scanned_lines : N; w_admitted_lines : N }.
Record PackagePage := mkPage {
  pg_offset : N; pg_returned : N; pg_total : N; pg_next_offset : option N }.
Record Column := mkColumn { c_name : string; c_data_type : string; c_nullable : bool }.

Inductive Status := StOk | StUnavailable | StUnsupported | StUnknown.
#[global] Instance Status_eq_dec : EqDecision Status.
Proof. solve_decision. Defined.
#[export] Instance Status_name : EnumName Status := {|
  variants := [StOk; StUnavailable; StUnsupported; StUnknown];
  variant_name s := match s with
    | StOk => "ok" | StUnavailable => "unavailable" | StUnsupported => "unsupported"
    | StUnknown => "unknown" end%string |}.
Inductive Evidence := OsRelease | DpkgDatabase | ConfiguredPhp | NoEvidence.
#[global] Instance Evidence_eq_dec : EqDecision Evidence.
Proof. solve_decision. Defined.
#[export] Instance Evidence_name : EnumName Evidence := {|
  variants := [OsRelease; DpkgDatabase; ConfiguredPhp; NoEvidence];
  variant_name e := match e with
    | OsRelease => "os_release" | DpkgDatabase => "dpkg_database"
    | ConfiguredPhp => "configured_php" | NoEvidence => "none" end%string |}.

Record Host := mkHost { h_os_id : string; h_version_id : option string; h_architecture : string }.
Record Package := mkPackage { k_name : string; k_version : string; k_architecture : string }.

Inductive PackageStatus := PsPresent | PsAbsent | PsUnavailable | PsUnsupported.
#[global] Instance PackageStatus_eq_dec : EqDecision PackageStatus.
Proof. solve_decision. Defined.
Inductive ObservationStatus := OsObserved | OsUnavailable | OsUnknown.
#[global] Instance ObservationStatus_eq_dec : EqDecision ObservationStatus.
Proof. solve_decision. Defined.
Inductive AppBinding := AbProven | AbUnknown.
#[global] Instance AppBinding_eq_dec : EqDecision AppBinding.
Proof. solve_decision. Defined.

Record PackageObservation := mkPackageObservation {
  po_status : PackageStatus; po_name : option string; po_version : option string }.
Record CliObservation := mkCli { cli_status : ObservationStatus; cli_version : option string }.
Record FpmObservation := mkFpm {
  fpm_status : ObservationStatus; fpm_version : option string;
  fpm_active : option bool; fpm_app_binding : AppBinding }.
Record Php := mkPhp {
  php_runtime_id : string; php_installed_package : PackageObservation;
  php_cli : CliObservation; php_fpm : FpmObservation }.

Inductive Records := RecHost (v : list Host) | RecPackages (v : list Package) | RecPhp (v : list Php).
Definition records_len (r : Records) : N :=
  match r with RecHost v => len v | RecPackages v => len v | RecPhp v => len v end.
Definition records_empty (r : Records) : bool := records_len r =? 0.

Inductive ReadinessStatus := Configured.
#[export] Instance ReadinessStatus_name : EnumName ReadinessStatus := {|
  variants := [Configured]; variant_name _ := "configured"%string |}.

Inductive ResultBody :=
| QueryRows (columns : list string) (rows : list (list Value)) (truncated : list Reason)
| TableSchema (table : string) (columns : list Column) (truncated : list Reason)
| TableList (tables : list string) (truncated : list Reason)
| LogWindow (lines : list string) (window : Window) (truncated : list Reason)
| LogMatches (lines : list string) (window : Window) (matched_lines : N) (truncated : list Reason)
| Inspection (view : View) (collector : string) (status : Status) (evidence : Evidence)
    (records : Records) (page : option PackagePage) (truncated : list Reason)
| Readiness (status : ReadinessStatus).

Record Call := mkCall { call_id : string; call_binding : DestinationBinding; call_args : Args }.
Record Success := mkSuccess {
  su_id : string; su_operation : Operation; su_binding : DestinationBinding; su_result : ResultBody }.

(** ** The derived readers and writers *)
Class WireSerde := {
  prepare_ser :: Serialize Prepare; prepare_de :: Deserialize Prepare;
  prepared_ser :: Serialize Prepared; prepared_de :: Deserialize Prepared;
  failure_ser :: Serialize Failure; failure_de :: Deserialize Failure;
  call_ser :: Serialize RawCall; call_de :: Deserialize RawCall;
  success_ser :: Serialize RawSuccess; success_de :: Deserialize RawSuccess;
  query_ser :: Serialize Query; query_de :: Deserialize Query;
  schema_ser :: Serialize Schema; schema_de :: Deserialize Schema;
  empty_ser :: Serialize Empty; empty_de :: Deserialize Empty;
  tail_ser :: Serialize Tail; tail_de :: Deserialize Tail;
  regex_ser :: Serialize Regex; regex_de :: Deserialize Regex;
  inspect_ser :: Serialize Inspect; inspect_de :: Deserialize Inspect;
  column_de :: Deserialize Column; window_de :: Deserialize Window;
  page_de :: Deserialize (option PackagePage);
  host_de :: Deserialize Host; package_de :: Deserialize Package; php_de :: Deserialize Php;
  body_ser :: Serialize ResultBody;
}.

(** ** Validation of results *)
Definition reasons (xs allowed : list Reason) : Result unit :=
  require (windows_lt reason_lt xs && forallb (fun r => bool_decide (r ∈ allowed)) xs).

Definition labels (xs : list string) (max : N) (sorted : bool) : Result unit :=
  _ ← cap (len xs) max;
  _ ← distinct_identifiers ∅ xs;
  require (negb sorted || windows_lt str_lt xs).

(** the loop of [log_window]: the bytes of the lines with their terminators *)
Fixpoint window_bytes (acc : N) (lines : list string) : Result N :=
  match lines with
  | [] => Ok acc
  | line :: lines =>
    _ ← Bounds.text line;
    _ ← require (negb (existsb (beq LF) (str_bytes line)));
    acc ← ok_or (checked_add acc (slen line + 1)) CapExceeded;
    window_bytes acc lines
  end.

Definition log_window (w : Window) (lines : list string) (truncated : list Reason) : Result unit :=
  _ ← cap (w_scanned_bytes w) SCAN_BYTES;
  _ ← cap (w_scanned_lines w) SCAN_LINES;
  _ ← require ((w_admitted_lines w <=? w_scanned_lines w) && (w_scanned_lines w <=? w_scanned_bytes w));
  bytes ← window_bytes 0 lines;
  _ ← require (bytes <=? w_scanned_bytes w);
  reasons truncated [RBytes; RLines; RScanBytes; RScanLines; RBoundary].

(** each element checked, and strictly above the one before it *)
Fixpoint ascending {A B} (key : A → B) (lt : B → B → bool) (check : A → Result unit)
    (last : option B) (xs : list A) : Result unit :=
  match xs with
  | [] => Ok tt
  | x :: xs =>
    _ ← check x;
    _ ← require (match last with None => true | Some l => lt l (key x) end);
    ascending key lt check (Some (key x)) xs
  end.

Definition text_opt (o : option string) : Result unit :=
  match o with Some s => Bounds.text s | None => Ok tt end.
Definition is_none {A} (o : option A) : bool := match o with None => true | Some _ => false end.
Definition is_some {A} (o : option A) : bool := negb (is_none o).

Definition page_validate (p : PackagePage) (request : Inspect) (returned : N)
    (truncated : list Reason) : Result unit :=
  _ ← require (bool_decide (i_view request = ViewPackages)
               && (pg_offset p =? default 0 (i_offset request)) && (pg_returned p =? returned));
  _ ← cap (pg_offset p) INVENTORY_RECORDS;
  _ ← cap (pg_total p) INVENTORY_RECORDS;
  _ ← require (0 <? i_limit request);
  _ ← cap (i_limit request) MAX_PACKAGES;
  _ ← reasons truncated [RBytes; RRecords];
  _ ← cap returned (i_limit request);
  end_ ← ok_or (checked_add (pg_offset p) returned) CapExceeded;
  if pg_total p <=? pg_offset p then
    require ((returned =? 0) && is_none (pg_next_offset p) && is_nil truncated)
  else
    _ ← require ((0 <? returned) && (end_ <=? pg_total p));
    _ ← require (bool_decide (pg_next_offset p = if end_ <? pg_total p then Some end_ else None));
    _ ← (if end_ <? pg_total p then require (negb (is_nil truncated)) else require (is_nil truncated));
    require (negb (bool_decide (RRecords ∈ truncated)) || (end_ <? pg_total p)).

Definition host_validate (x : Host) : Result unit :=
  _ ← Bounds.text (h_os_id x); _ ← Bounds.text (h_architecture x); text_opt (h_version_id x).
Definition package_validate (x : Package) : Result unit :=
  for_each Bounds.text [k_name x; k_version x; k_architecture x].
Definition package_key (x : Package) : string * string := (k_name x, k_architecture x).
Definition pair_lt (a b : string * string) : bool :=
  str_lt a.1 b.1 || (String.eqb a.1 b.1 && str_lt a.2 b.2).

Definition php_details (x : Php) : Result unit :=
  let p := php_installed_package x in
  let present := bool_decide (po_status p = PsPresent) in
  let cli := php_cli x in
  let fpm := php_fpm x in
  _ ← require (Bool.eqb present (is_some (po_version p)) && Bool.eqb present (is_some (po_name p)));
  _ ← require (Bool.eqb (bool_decide (cli_status cli = OsObserved)) (is_some (cli_version cli)));
  _ ← require (Bool.eqb (bool_decide (fpm_status fpm = OsObserved)) (is_some (fpm_version fpm)));
  _ ← (if decide (fpm_status fpm = OsObserved) then Ok tt
       else require (is_none (fpm_active fpm) && bool_decide (fpm_app_binding fpm = AbUnknown)));
  _ ← (if decide (fpm_app_binding fpm = AbProven)
       then require (bool_decide (fpm_active fpm = Some true)) else Ok tt);
  for_each text_opt [po_name p; po_version p; cli_version cli; fpm_version fpm].

(** one runtime: its id is checked and compared before the rest *)
Fixpoint php_validate (last : option string) (xs : list Php) : Result unit :=
  match xs with
  | [] => Ok tt
  | x :: xs =>
    _ ← configured_id (php_runtime_id x);
    _ ← require (match last with None => true | Some p => str_lt p (php_runtime_id x) end);
    _ ← php_details x;
    php_validate (Some (php_runtime_id x)) xs
  end.

Definition view_evidence (v : View) : Evidence :=
  match v with ViewHost => OsRelease | ViewPackages => DpkgDatabase | ViewPhp => ConfiguredPhp end.
Definition view_records (v : View) (r : Records) : bool :=
  match v, r with
  | ViewHost, RecHost _ | ViewPackages, RecPackages _ | ViewPhp, RecPhp _ => true
  | _, _ => false
  end.

Definition inspection_validate (view : View) (collector : string) (status : Status)
    (evidence : Evidence) (records : Records) (page : option PackagePage)
    (truncated : list Reason) (i : Inspect) : Result unit :=
  _ ← require (bool_decide (view = i_view i) && String.eqb collector (i_collector i));
  _ ← configured_id collector;
  _ ← require (view_records view records);
  if negb (bool_decide (status = StOk)) then
    _ ← require (bool_decide (evidence = NoEvidence) || bool_decide (evidence = view_evidence view));
    require (records_empty records && is_none page && is_nil truncated)
  else
    _ ← cap (records_len records) (i_limit i);
    match records with
    | RecHost xs =>
      _ ← require (bool_decide (evidence = OsRelease) && (len xs =? 1) && is_none page && is_nil truncated);
      for_each host_validate xs
    | RecPackages xs =>
      _ ← require (bool_decide (evidence = DpkgDatabase));
      _ ← reasons truncated [RBytes; RRecords];
      _ ← ascending package_key pair_lt package_validate None xs;
      p ← ok_or page InvalidRequest;
      page_validate p i (len xs) truncated
    | RecPhp xs =>
      _ ← require (bool_decide (evidence = ConfiguredPhp) && is_none page);
      _ ← reasons truncated [RBytes; RRecords];
      php_validate None xs
    end.

Section WithLibs.
Context `{SerdeJson, ValueLibs, WireSerde}.

Definition row_validate (columns : N) (row : list Value) : Result unit :=
  _ ← require (len row =? columns); for_each value_validate row.

Definition column_validate (c : Column) : Result unit :=
  _ ← identifier (c_name c); Bounds.text (c_data_type c).

Definition validate_for (body : ResultBody) (args : Args) : Result unit :=
  _ ← args_validate args;
  _ ← serialized_size (writes body) RESULT_BYTES;
  match body, args with
  | QueryRows columns rows truncated, AQuery q =>
    _ ← require (negb (is_nil columns));
    _ ← labels columns MAX_COLUMNS false;
    _ ← cap (len rows) (query_limit q);
    _ ← for_each (row_validate (len columns)) rows;
    reasons truncated [RBytes; RRows]
  | TableSchema table columns truncated, ASchema _ =>
    _ ← identifier table;
    _ ← cap (len columns) MAX_ENTRIES;
    _ ← ascending c_name str_lt column_validate None columns;
    reasons truncated [RBytes; RRecords]
  | TableList tables truncated, AListTables _ =>
    _ ← labels tables MAX_ENTRIES true;
    reasons truncated [RBytes; RRecords]
  | LogWindow lines window truncated, ALogTail _ | LogWindow lines window truncated, ALogWindow _ =>
    let limit := match args with ALogTail t => t_lines t | _ => KEYWORD_WINDOW_LINES end in
    _ ← cap (len lines) limit;
    _ ← require (w_admitted_lines window =? len lines);
    log_window window lines truncated
  | LogMatches lines window matched_lines truncated, ALogRegex r =>
    _ ← cap (len lines) (r_limit r);
    _ ← require ((len lines <=? matched_lines) && (matched_lines <=? w_admitted_lines window));
    _ ← log_window window lines truncated;
    require (negb (bool_decide (RLines ∈ truncated)) || (len lines <? matched_lines))
  | Inspection view collector status evidence records page truncated, AInspect i =>
    inspection_validate view collector status evidence records page truncated i
  | Readiness _, AReadiness _ => Ok tt
  | _, _ => Err InvalidRequest
  end.

(** ** Readers of arguments and results *)
Definition parse_as {A} `{Deserialize A} (s : string) : Result A := parsed (from_str s).

Definition parse_args (op : Operation) (s : string) : Result Args :=
  args ← (match op with
    | OpQuery => AQuery <$> parse_as s
    | OpSchema => ASchema <$> parse_as s
    | OpListTables => AListTables <$> parse_as s
    | OpLogTail => ALogTail <$> parse_as s
    | OpLogWindow => ALogWindow <$> parse_as s
    | OpLogRegex => ALogRegex <$> parse_as s
    | OpInspect => AInspect <$> parse_as s
    | OpReadiness => AReadiness <$> parse_as s
    end);
  _ ← args_validate args;
  Ok args.

(** [raw]: the size check, then the text *)
Definition raw_value {A} `{Serialize A} (v : A) (max : N) : Result string :=
  _ ← serialized_size (writes v) max;
  Ok (str_of (to_text v)).

Definition args_raw (a : Args) : Result string :=
  match a with
  | AQuery v => raw_value v REQUEST_BYTES
  | ASchema v => raw_value v REQUEST_BYTES
  | AListTables v | ALogWindow v | AReadiness v => raw_value v REQUEST_BYTES
  | ALogTail v => raw_value v REQUEST_BYTES
  | ALogRegex v => raw_value v REQUEST_BYTES
  | AInspect v => raw_value v REQUEST_BYTES
  end.

Definition vec {A} (f : string → option A) (raw : string) : option (list A) := elements raw ≫= mapM f.
Definition value_of (raw : string) : option Value :=
  match value_decode raw with Ok v => Some v | Err _ => None end.
Definition truncated_of (raw : string) : Result (list Reason) := parsed (vec from_enum raw).

(** [result]: the closed reader of a result body *)
Definition parse_result (s : string) : Result ResultBody :=
  let fields names := parsed (closed_fields names s) in
  _ ← require (next_is "{" (str_bytes s));
  kind ← parsed (tag_kind s);
  match kind with
  | "query_rows" =>
    f ← fields ["columns"; "rows"; "truncated"];
    columns ← parsed (vec from_string (field f 0));
    rows ← parsed (vec (vec value_of) (field f 1));
    truncated ← truncated_of (field f 2);
    Ok (QueryRows columns rows truncated)
  | "table_schema" =>
    f ← fields ["table"; "columns"; "truncated"];
    table ← parsed (from_string (field f 0));
    columns ← parsed (vec from_str (field f 1));
    truncated ← truncated_of (field f 2);
    Ok (TableSchema table columns truncated)
  | "table_list" =>
    f ← fields ["tables"; "truncated"];
    tables ← parsed (vec from_string (field f 0));
    truncated ← truncated_of (field f 1);
    Ok (TableList tables truncated)
  | "log_window" =>
    f ← fields ["lines"; "window"; "truncated"];
    lines ← parsed (vec from_string (field f 0));
    window ← parse_as (field f 1);
    truncated ← truncated_of (field f 2);
    Ok (LogWindow lines window truncated)
  | "log_matches" =>
    f ← fields ["lines"; "window"; "matched_lines"; "truncated"];
    lines ← parsed (vec from_string (field f 0));
    window ← parse_as (field f 1);
    matched_lines ← parsed (from_usize (field f 2));
    truncated ← truncated_of (field f 3);
    Ok (LogMatches lines window matched_lines truncated)
  | "inspection" =>
    f ← fields ["view"; "collector"; "status"; "evidence"; "records"; "page"; "truncated"];
    view ← parsed (from_enum (field f 0));
    collector ← parsed (from_string (field f 1));
    status ← parsed (from_enum (field f 2));
    evidence ← parsed (from_enum (field f 3));
    truncated ← truncated_of (field f 6);
    records ← (match view with
      | ViewHost => RecHost <$> parsed (vec from_str (field f 4))
      | ViewPackages => RecPackages <$> parsed (vec from_str (field f 4))
      | ViewPhp => RecPhp <$> parsed (vec from_str (field f 4))
      end);
    page ← parse_as (field f 5);
    Ok (Inspection view collector status evidence records page truncated)
  | "readiness" =>
    f ← fields ["status"];
    status ← parsed (from_enum (field f 0));
    Ok (Readiness status)
  | _ => Err InvalidRequest
  end%string.

(** ** Frames *)
Definition ulid_byte (b : ascii) : bool :=
  existsb (beq b) (str_bytes "0123456789ABCDEFGHJKMNPQRSTVWXYZ").
Definition id (s : string) : Result unit :=
  require ((slen s =? 26) && match str_bytes s with b :: _ => code b <=? 55 | [] => false end
           && forallb ulid_byte (str_bytes s)).

Definition last_is (c : ascii) (s : bytes) : bool :=
  match last s with Some b => beq b c | None => false end.
Definition but_last (s : bytes) : bytes := take (length s - 1) s.

Definition frame (input : bytes) (max : N) : Result string :=
  _ ← cap (len input) max;
  _ ← require (last_is LF input && negb (existsb (beq LF) (but_last input)));
  let body := but_last input in
  _ ← frame_json unescape body (max - 1);
  _ ← require (next_is "{" body && last_is "}" body);
  _ ← require (utf8_valid body);
  Ok (str_of body).

Definition encode {A} `{Serialize A} (v : A) (max : N) : Result bytes :=
  _ ← serialized_size (writes v) (max - 1);
  let out := to_text v ++ [LF] in
  _ ← frame out max;
  Ok out.

Definition decode_prepare (input : bytes) : Result Prepare :=
  body ← frame input PREPARE_BYTES;
  p ← (parse_as body : Result Prepare);
  _ ← id (pr_id p);
  _ ← configured_id (pr_resource p);
  _ ← require ((slen (pr_credential p) =? 64)
               && forallb (fun b => is_ascii_hexdigit (code b)) (str_bytes (pr_credential p)));
  Ok p.
Definition encode_prepare (p : Prepare) : Result bytes :=
  out ← encode p PREPARE_BYTES; _ ← decode_prepare out; Ok out.

Definition decode_prepared (input : bytes) : Result Prepared :=
  body ← frame input PREPARE_BYTES;
  p ← (parse_as body : Result Prepared);
  _ ← id (pd_id p);
  _ ← binding_validate (pd_binding p);
  Ok p.
Definition encode_prepared (p : Prepared) : Result bytes :=
  out ← encode p PREPARE_BYTES; _ ← decode_prepared out; Ok out.

Definition decode_call (input : bytes) : Result Call :=
  body ← frame input FRAME_BYTES;
  c ← (parse_as body : Result RawCall);
  _ ← id (rc_id c);
  _ ← binding_validate (rc_binding c);
  _ ← cap (slen (rc_args c)) REQUEST_BYTES;
  args ← parse_args (rc_operation c) (rc_args c);
  Ok (mkCall (rc_id c) (rc_binding c) args).
Definition encode_call (c : Call) : Result bytes :=
  _ ← args_validate (call_args c);
  a ← args_raw (call_args c);
  _ ← cap (slen a) REQUEST_BYTES;
  out ← encode (mkRawCall V2 (call_id c) (args_operation (call_args c)) (call_binding c) a) FRAME_BYTES;
  _ ← decode_call out;
  Ok out.

Definition decode_success (input : bytes) (call : Call) : Result Success :=
  body ← frame input FRAME_BYTES;
  r ← (parse_as body : Result RawSuccess);
  _ ← id (rs_id r);
  _ ← binding_validate (rs_binding r);
  _ ← require (String.eqb (rs_id r) (call_id call)
               && bool_decide (rs_operation r = args_operation (call_args call)));
  if negb (bool_decide (rs_binding r = call_binding call)) then Err BindingChanged
  else
    _ ← cap (slen (rs_result r)) RESULT_BYTES;
    result ← parse_result (rs_result r);
    _ ← validate_for result (call_args call);
    Ok (mkSuccess (rs_id r) (rs_operation r) (rs_binding r) result).
Definition encode_success (s : Success) (call : Call) : Result bytes :=
  _ ← validate_for (su_result s) (call_args call);
  result ← raw_value (su_result s) RESULT_BYTES;
  out ← encode (mkRawSuccess V2 (su_id s) (su_operation s) (su_binding s) result) FRAME_BYTES;
  _ ← decode_success out call;
  Ok out.

Definition decode_failure (input : bytes) (expected_id : string) : Result Failure :=
  body ← frame input PREPARE_BYTES;
  f ← (parse_as body : Result Failure);
  _ ← id (f_id f);
  _ ← require (String.eqb (f_id f) expected_id);
  Ok f.
Definition encode_failure (f : Failure) : Result bytes :=
  _ ← id (f_id f); encode f PREPARE_BYTES.

(** ** The sequence checker: the outcome of a call and the state it leaves *)
Inductive State :=
| SNew
| SPreparing (id : string) (operation : Operation)
| SPrepared (id : string) (operation : Operation) (binding : DestinationBinding)
| SCalled (c : Call)
| SClosed.

(** [std::mem::replace(&mut self.state, State::Closed)], then either the new
    state or, on any error, the closed one *)
Definition keep {A} (r : Result (A * State)) : Result A * State :=
  match r with Ok (a, st) => (Ok a, st) | Err e => (Err e, SClosed) end.

Definition seq_prepare (st : State) (p : Prepare) : Result unit * State :=
  keep (
    _ ← require (match st with SNew => true | _ => false end);
    _ ← encode_prepare p;
    Ok (tt, SPreparing (pr_id p) (pr_operation p))).

Definition seq_prepared (st : State) (p : Prepared) : Result unit * State :=
  keep (match st with
    | SPreparing id operation =>
      _ ← encode_prepared p;
      _ ← require (String.eqb id (pd_id p) && bool_decide (operation = pd_operation p));
      Ok (tt, SPrepared id operation (pd_binding p))
    | _ => Err InvalidRequest
    end).

Definition seq_call (st : State) (c : Call) : Result unit * State :=
  keep (match st with
    | SPrepared id operation binding =>
      _ ← require (String.eqb (call_id c) id && bool_decide (args_operation (call_args c) = operation));
      if negb (bool_decide (call_binding c = binding)) then Err BindingChanged
      else
        _ ← encode_call c;
        Ok (tt, SCalled c)
    | _ => Err InvalidRequest
    end).

Definition seq_success (st : State) (input : bytes) : Result Success * State :=
  keep (match st with
    | SCalled call => s ← decode_success input call; Ok (s, SClosed)
    | _ => Err InvalidRequest
    end).

Definition seq_failure (st : State) (input : bytes) : Result Failure * State :=
  keep (
    id ← (match st with
      | SPreparing id _ | SPrepared id _ _ => Ok id
      | SCalled c => Ok (call_id c)
      | _ => Err InvalidRequest
      end);
    f ← decode_failure input id;
    Ok (f, SClosed)).
End WithLibs.
