(* ===== verification/WireFacts.v ===== *)
(** * Correctness of the wire grammar

    The sequence checker correlates a success with the messages before it and
    closes for good; an encoder answers only what it has read back; package pages chained
    by their next offset visit every record once; an admitted log result stays
    within the window it reports. *)

From S2P Require Import Prelude Str Utf8 Bounds Serde JsonGrammar WireQuery WireValue Wire.

(** ** The sequence checker *)
Inductive Event :=
| EvPrepare (p : Prepare) | EvPrepared (p : Prepared) | EvCall (c : Call)
| EvSuccess (input : bytes) | EvFailure (input : bytes).

Inductive Outcome :=
| Accepted | Succeeded (s : Success) | Failed (f : Failure) | Refused (e : Error).

Definition outcome {A} (ok : A → Outcome) (r : Result A) : Outcome :=
  match r with Ok a => ok a | Err e => Refused e end.

Section Run.
Context `{SerdeJson, ValueLibs, WireSerde}.

(** one call of a method of [Sequence] *)
Definition seq_step (st : State) (ev : Event) : Outcome * State :=
  match ev with
  | EvPrepare p => prod_map (outcome (fun _ => Accepted)) (fun st => st) (seq_prepare st p)
  | EvPrepared p => prod_map (outcome (fun _ => Accepted)) (fun st => st) (seq_prepared st p)
  | EvCall c => prod_map (outcome (fun _ => Accepted)) (fun st => st) (seq_call st c)
  | EvSuccess b => prod_map (outcome Succeeded) (fun st => st) (seq_success st b)
  | EvFailure b => prod_map (outcome Failed) (fun st => st) (seq_failure st b)
  end.

Fixpoint seq_run (st : State) (evs : list Event) : list Outcome :=
  match evs with
  | [] => []
  | ev :: evs => let '(o, st) := seq_step st ev in o :: seq_run st evs
  end.

(** what the messages accepted so far say about the state *)
Inductive Agreed : list Event → State → Prop :=
| agreed_new : Agreed [] SNew
| agreed_preparing p : Agreed [EvPrepare p] (SPreparing (pr_id p) (pr_operation p))
| agreed_prepared p q : pd_id q = pr_id p → pd_operation q = pr_operation p →
    Agreed [EvPrepare p; EvPrepared q] (SPrepared (pr_id p) (pr_operation p) (pd_binding q))
| agreed_called p q c : pd_id q = pr_id p → pd_operation q = pr_operation p →
    call_id c = pr_id p → args_operation (call_args c) = pr_operation p → call_binding c = pd_binding q →
    Agreed [EvPrepare p; EvPrepared q; EvCall c] (SCalled c)
| agreed_closed h : Agreed h SClosed.

Lemma keep_err {A} (r : Result (A * State)) e st : keep r = (Err e, st) → st = SClosed.
Proof. destruct r as [[? ?]|]; [discriminate|by intros [= _ <-]]. Qed.

Lemma keep_ok {A} (r : Result (A * State)) a st : keep r = (Ok a, st) → r = Ok (a, st).
Proof. destruct r as [[? ?]|]; [by intros [= -> ->]|discriminate]. Qed.

Lemma closed_step ev : seq_step SClosed ev = (Refused InvalidRequest, SClosed).
Proof. by destruct ev. Qed.

Lemma closed_run evs : Forall (fun o => o = Refused InvalidRequest) (seq_run SClosed evs).
Proof.
  induction evs as [|ev evs IH]; cbn [seq_run]; [constructor|].
  rewrite closed_step. by constructor.
Qed.

(** only an accepted message leaves the checker open *)
Lemma step_closes st ev o st' : seq_step st ev = (o, st') → o ≠ Accepted → st' = SClosed.
Proof.
  intros Hs Ho. destruct ev; cbn [seq_step] in Hs.
  1-3: match type of Hs with prod_map _ _ ?x = _ => destruct x as [[[]|e] s] eqn:E end;
    cbn in Hs; injection Hs as <- <-; [done|by apply keep_err in E].
  all: match type of Hs with prod_map _ _ ?x = _ => destruct x as [[a|e] s] eqn:E end;
    cbn in Hs; injection Hs as <- <-; [|by apply keep_err in E].
  - apply keep_ok in E. destruct st; try discriminate E. by open_bind E as r Hr; injection E as _ <-.
  - apply keep_ok in E. open_bind E as i Hi. by open_bind E as r Hr; injection E as _ <-.
Qed.

Lemma accepted_agrees h st ev st' :
  Agreed h st → seq_step st ev = (Accepted, st') → Agreed (h ++ [ev]) st'.
Proof.
  intros Hh Hs. destruct ev as [p|q|c|b|b]; cbn [seq_step] in Hs.
  - destruct (seq_prepare st p) as [[[]|e] s] eqn:E; cbn in Hs; [|discriminate]. injection Hs as <-.
    apply keep_ok in E. open_bind E as [] Hst%require_ok. open_bind E as out _. injection E as <-.
    destruct Hh; try discriminate Hst. constructor.
  - destruct (seq_prepared st q) as [[[]|e] s] eqn:E; cbn in Hs; [|discriminate]. injection Hs as <-.
    apply keep_ok in E. destruct Hh as [|p| | |]; try discriminate E.
    open_bind E as out _. open_bind E as [] Hq%require_ok. injection E as <-.
    apply andb_true_iff in Hq as [Hi%String.eqb_eq Ho%bool_decide_eq_true]. by constructor.
  - destruct (seq_call st c) as [[[]|e] s] eqn:E; cbn in Hs; [|discriminate]. injection Hs as <-.
    apply keep_ok in E. destruct Hh as [| |p q| |]; try discriminate E.
    open_bind E as [] Hc%require_ok. apply andb_true_iff in Hc as [Hi%String.eqb_eq Ho%bool_decide_eq_true].
    destruct (bool_decide_reflect (call_binding c = pd_binding q)); [|discriminate E]. cbn [negb] in E.
    open_bind E as out _. injection E as <-. by constructor.
  - destruct (seq_success st b) as [[a|e] s]; discriminate Hs.
  - destruct (seq_failure st b) as [[a|e] s]; discriminate Hs.
Qed.

Lemma decode_success_checks input call s :
  decode_success input call = Ok s →
  su_id s = call_id call ∧ su_operation s = args_operation (call_args call) ∧
  su_binding s = call_binding call ∧ validate_for (su_result s) (call_args call) = Ok tt.
Proof.
  unfold decode_success. intros E. open_bind E as body _. open_bind E as r _. open_bind E as [] _.
  open_bind E as [] _. open_bind E as [] Hc%require_ok.
  apply andb_true_iff in Hc as [Hi%String.eqb_eq Ho%bool_decide_eq_true].
  destruct (bool_decide_reflect (rs_binding r = call_binding call)); [|discriminate E]. cbn [negb] in E.
  open_bind E as [] _. open_bind E as body' _. open_bind E as [] Hv. by injection E as <-.
Qed.

(** the four messages behind a success, and what they agree on *)
Definition Correlated (h : list Event) (s : Success) : Prop :=
  ∃ p q c input, h = [EvPrepare p; EvPrepared q; EvCall c; EvSuccess input] ∧
    pr_id p = su_id s ∧ pd_id q = su_id s ∧ call_id c = su_id s ∧
    pr_operation p = su_operation s ∧ pd_operation q = su_operation s ∧
    args_operation (call_args c) = su_operation s ∧
    pd_binding q = su_binding s ∧ call_binding c = su_binding s ∧
    decode_success input c = Ok s ∧ validate_for (su_result s) (call_args c) = Ok tt.

Lemma success_correlated h st ev s st' :
  Agreed h st → seq_step st ev = (Succeeded s, st') → Correlated (h ++ [ev]) s.
Proof.
  intros Hh Hs. destruct ev as [p|q|c|b|b]; cbn [seq_step] in Hs.
  1-3: match type of Hs with prod_map _ _ ?x = _ => destruct x as [[[]|e] s0] end; discriminate Hs.
  - destruct (seq_success st b) as [[a|e] s0] eqn:E; cbn in Hs; [|discriminate]. injection Hs as -> <-.
    apply keep_ok in E. destruct Hh as [| | |p q c Hi Ho Hci Hco Hcb|]; try discriminate E.
    open_bind E as r Hr. injection E as <- <-.
    pose proof (decode_success_checks _ _ _ Hr) as (Hsi & Hso & Hsb & Hv).
    exists p, q, c, b. split_and!; congruence || done.
  - destruct (seq_failure st b) as [[a|e] s0]; discriminate Hs.
Qed.

Lemma run_correlated h st evs i s :
  Agreed h st → seq_run st evs !! i = Some (Succeeded s) → Correlated (h ++ take (S i) evs) s.
Proof.
  revert h st i. induction evs as [|ev evs IH]; intros h st i Hh Hi; [done|].
  cbn [seq_run] in Hi. destruct (seq_step st ev) as [o st'] eqn:Es. destruct i as [|i].
  - cbn in Hi. injection Hi as ->. by eapply success_correlated.
  - cbn [lookup list_lookup] in Hi. cbn [take]. rewrite cons_middle, app_assoc.
    assert (o = Accepted ∨ o ≠ Accepted) as [->|Ho] by (destruct o; auto).
    + apply (IH _ st'); [by eapply accepted_agrees|done].
    + apply step_closes in Es as ->; [|done]. pose proof (closed_run evs) as Hc.
      rewrite Forall_lookup in Hc. by apply Hc in Hi.
Qed.

(** C9. A success is the reward of one complete exchange.  Whatever messages
    a fresh sequence checker is given, when it hands out a success it is the
    fourth message, after an accepted Prepare, Prepared and Call that agree
    with it on the request id, the operation and the destination binding, and
    the result has been validated against the arguments of that call. *)
Theorem success_is_correlated evs i s :
  seq_run SNew evs !! i = Some (Succeeded s) → i = 3%nat ∧ Correlated (take 4 evs) s.
Proof.
  intros Hi. pose proof (run_correlated [] SNew evs i s agreed_new Hi) as Hc. cbn [app] in Hc.
  assert (i = 3%nat) as ->; [|done].
  destruct Hc as (p & q & c & b & E & _). apply lookup_lt_Some in Hi as Hl.
  assert (Hr : ∀ st, length (seq_run st evs) = length evs).
  { clear. induction evs as [|ev evs IH]; intros st; [done|]. cbn [seq_run].
    destruct (seq_step st ev). cbn. by rewrite IH. }
  apply (f_equal length) in E. rewrite Hr in Hl. rewrite length_take in E. cbn [length] in E. lia.
Qed.

(** The checker closes for good: after a refusal, a success or a failure,
    every later message of the connection is refused as an invalid request. *)
Theorem sequence_closes st evs i o :
  seq_run st evs !! i = Some o → o ≠ Accepted →
  ∀ j o', (i < j)%nat → seq_run st evs !! j = Some o' → o' = Refused InvalidRequest.
Proof.
  revert st i. induction evs as [|ev evs IH]; intros st i Hi Ho j o' Hj Ho'; [done|].
  cbn [seq_run] in Hi, Ho'. destruct (seq_step st ev) as [o1 st1] eqn:Es.
  destruct j as [|j]; [lia|]. cbn [lookup list_lookup] in Ho'. destruct i as [|i].
  - cbn in Hi. injection Hi as ->. apply step_closes in Es as ->; [|done].
    pose proof (closed_run evs) as Hc. rewrite Forall_lookup in Hc. by apply Hc in Ho'.
  - eapply IH; [exact Hi|done| |exact Ho']. lia.
Qed.

(** ** The call codec *)
Lemma but_last_app t : but_last (t ++ [LF]) = t.
Proof. unfold but_last. rewrite length_app. cbn. by rewrite Nat.add_sub, take_app_length. Qed.

Lemma encode_body {A} `{Serialize A} (v : A) max out :
  encode v max = Ok out → frame out max = Ok (str_of (to_text v)).
Proof.
  unfold encode. intros E. open_bind E as n _. open_bind E as body Hb. injection E as <-.
  rewrite Hb. unfold frame in Hb. rewrite but_last_app in Hb.
  open_bind Hb as [] _. open_bind Hb as [] _. open_bind Hb as [] _. open_bind Hb as [] _.
  by open_bind Hb as [] _.
Qed.

Lemma raw_value_text {A} `{Serialize A} (v : A) max t : raw_value v max = Ok t → t = str_of (to_text v).
Proof. unfold raw_value. intros E. open_bind E as n _. by injection E as <-. Qed.

Lemma args_raw_written a t : args_raw a = Ok t → t = str_of (match a with
  | AQuery v => to_text v | ASchema v => to_text v | AListTables v | ALogWindow v | AReadiness v => to_text v
  | ALogTail v => to_text v | ALogRegex v => to_text v | AInspect v => to_text v end).
Proof. intros Ht. by destruct a; apply raw_value_text in Ht. Qed.

(** ** What an encoder read back from its own frame *)
Lemma prepare_seen p out : encode_prepare p = Ok out → ∃ q, prepare_de (str_of (to_text p)) = Some q ∧ decode_prepare out = Ok q.
Proof.
  unfold encode_prepare. intros E. open_bind E as o Ho. open_bind E as q Hd. injection E as ->. exists q. split; [|done].
  unfold decode_prepare in Hd. rewrite (encode_body _ _ _ Ho) in Hd. open_bind Hd as b [= <-]. open_bind Hd as x Hx%ok_or_ok.
  do 3 (let u := fresh in open_bind Hd as u ?). by injection Hd as <-.
Qed.
Lemma prepared_seen p out : encode_prepared p = Ok out → ∃ q, prepared_de (str_of (to_text p)) = Some q ∧ decode_prepared out = Ok q.
Proof.
  unfold encode_prepared. intros E. open_bind E as o Ho. open_bind E as q Hd. injection E as ->. exists q. split; [|done].
  unfold decode_prepared in Hd. rewrite (encode_body _ _ _ Ho) in Hd. open_bind Hd as b [= <-]. open_bind Hd as x Hx%ok_or_ok.
  do 2 (let u := fresh in open_bind Hd as u ?). by injection Hd as <-.
Qed.
Lemma call_seen c out : encode_call c = Ok out → ∃ a r x, args_validate (call_args c) = Ok tt ∧ args_raw (call_args c) = Ok a ∧
  call_de (str_of (to_text (mkRawCall V2 (call_id c) (args_operation (call_args c)) (call_binding c) a))) = Some r ∧
  parse_args (rc_operation r) (rc_args r) = Ok x ∧ decode_call out = Ok (mkCall (rc_id r) (rc_binding r) x).
Proof.
  unfold encode_call. intros E. open_bind E as [] Hv. open_bind E as a Ha. open_bind E as [] _. open_bind E as o Ho.
  open_bind E as d Hd. injection E as ->. pose proof Hd as Hd'.
  unfold decode_call in Hd. rewrite (encode_body _ _ _ Ho) in Hd. open_bind Hd as b [= <-]. open_bind Hd as r Hr%ok_or_ok.
  open_bind Hd as [] _. open_bind Hd as [] _. open_bind Hd as [] _. open_bind Hd as x Hx. injection Hd as <-.
  exists a, r, x. by split_and!.
Qed.
Lemma success_seen s c out : encode_success s c = Ok out → ∃ r b, validate_for (su_result s) (call_args c) = Ok tt ∧
  success_de (str_of (to_text (mkRawSuccess V2 (su_id s) (su_operation s) (su_binding s) (str_of (to_text (su_result s)))))) = Some r ∧
  parse_result (rs_result r) = Ok b ∧ decode_success out c = Ok (mkSuccess (rs_id r) (rs_operation r) (rs_binding r) b).
Proof.
  unfold encode_success. intros E. open_bind E as [] Hv. open_bind E as t Ht. apply raw_value_text in Ht as ->.
  open_bind E as o Ho. open_bind E as d Hd. injection E as ->. pose proof Hd as Hd'.
  unfold decode_success in Hd. rewrite (encode_body _ _ _ Ho) in Hd. open_bind Hd as b [= <-]. open_bind Hd as r Hr%ok_or_ok.
  open_bind Hd as [] _. open_bind Hd as [] _. open_bind Hd as [] _.
  destruct (negb _); [discriminate Hd|]. open_bind Hd as [] _. open_bind Hd as x Hx. open_bind Hd as [] _. injection Hd as <-.
  exists r, x. by split_and!.
Qed.
Lemma failure_seen f out : encode_failure f = Ok out → failure_de (str_of (to_text f)) = Some f →
  decode_failure out (f_id f) = Ok f.
Proof.
  unfold encode_failure, decode_failure. intros E Hf. open_bind E as [] Hi. rewrite (encode_body _ _ _ E).
  cbn [mbind result_bind]. unfold parse_as, from_str. rewrite Hf. cbn [parsed ok_or mbind result_bind].
  rewrite Hi, String.eqb_refl. done.
Qed.

(** the records of a result are those of its view *)
Definition ViewMatches (b : ResultBody) : Prop :=
  match b with Inspection view _ _ _ records _ _ => view_records view records = true | _ => True end.
Lemma valid_view b a : validate_for b a = Ok tt → ViewMatches b.
Proof.
  destruct b; try done. unfold validate_for. intros E. open_bind E as [] _. open_bind E as n _. destruct a; try discriminate E.
  unfold inspection_validate in E. open_bind E as [] _. open_bind E as [] _. by open_bind E as [] Hv%require_ok.
Qed.
End Run.

(** ** Package pages *)

(** the request for the page at [offset] *)
Definition page_request (collector : string) (limit offset : N) : Inspect :=
  mkInspect ViewPackages collector limit (Some offset).

(** following [next_offset] from [offset] until there is none *)
Inductive PageChain (collector : string) (limit total : N) : N → list (PackagePage * list Reason) → Prop :=
| chain_last offset p t :
    page_validate p (page_request collector limit offset) (pg_returned p) t = Ok tt →
    pg_total p = total → pg_next_offset p = None → PageChain collector limit total offset [(p, t)]
| chain_more offset p t next ps :
    page_validate p (page_request collector limit offset) (pg_returned p) t = Ok tt →
    pg_total p = total → pg_next_offset p = Some next →
    PageChain collector limit total next ps → PageChain collector limit total offset ((p, t) :: ps).

(** the [n] numbers from [a] on *)
Definition seqN (a n : N) : list N := N.of_nat <$> seq (N.to_nat a) (N.to_nat n).

(** the records a page shows *)
Definition page_records (p : PackagePage) : list N := seqN (pg_offset p) (pg_returned p).

Lemma page_validate_inv p collector limit offset t :
  page_validate p (page_request collector limit offset) (pg_returned p) t = Ok tt →
  pg_offset p = offset ∧ pg_returned p <= limit ∧
  (pg_total p <= offset ∧ pg_returned p = 0 ∧ pg_next_offset p = None ∧ t = [] ∨
   0 < pg_returned p ∧ offset + pg_returned p = pg_total p ∧ pg_next_offset p = None ∧ t = [] ∨
   0 < pg_returned p ∧ offset + pg_returned p < pg_total p ∧
     pg_next_offset p = Some (offset + pg_returned p) ∧ t ≠ []).
Proof.
  unfold page_validate. cbn [page_request i_view i_offset i_limit]. intros E.
  open_bind E as [] Hr%require_ok. apply andb_true_iff in Hr as [Ho _].
  apply andb_true_iff in Ho as [_ Ho%N.eqb_eq]. cbn [from_option] in Ho. unfold Datatypes.id in Ho.
  open_bind E as [] _. open_bind E as [] _. open_bind E as [] _. open_bind E as [] _. open_bind E as [] _.
  open_bind E as [] Hlim%cap_ok. open_bind E as end_ Hend. apply ok_or_ok, checked_add_some in Hend as [Hend _].
  split; [done|]. split; [done|]. rewrite Ho in *.
  destruct (N.leb_spec (pg_total p) offset).
  - left. apply require_ok in E. to_prop. destruct E as [[? En] Et].
    split_and!; [done|done|by destruct (pg_next_offset p)|by destruct t].
  - right. open_bind E as [] Hb%require_ok. to_prop. destruct Hb as [Hpos Hle].
    open_bind E as [] Hn%require_ok%bool_decide_eq_true. subst end_.
    open_bind E as [] Ht. destruct (N.ltb_spec (offset + pg_returned p) (pg_total p)).
    + right. split_and!; [done|lia|done|]. apply require_ok in Ht. by destruct t.
    + left. split_and!; [done|lia|done|]. apply require_ok in Ht. by destruct t.
Qed.

Lemma seqN_app a n m : seqN a n ++ seqN (a + n) m = seqN a (n + m).
Proof.
  unfold seqN. rewrite <- fmap_app. f_equal.
  replace (N.to_nat (n + m)) with (N.to_nat n + N.to_nat m)%nat by lia.
  replace (N.to_nat (a + n)) with (N.to_nat a + N.to_nat n)%nat by lia.
  by rewrite <- List.seq_app.
Qed.

(** Paging is exact: pages that pass validation, each requested at the
    [next_offset] of the one before, show the records from the first offset to
    the total in order, none twice and none missed, each at most [limit] long;
    and the chain ends after at most one page per record. *)
Theorem pages_cover collector limit total offset ps :
  PageChain collector limit total offset ps → offset <= total →
  concat ((fun p => page_records p.1) <$> ps) = seqN offset (total - offset) ∧
  Forall (fun p => pg_returned p.1 <= limit) ps ∧
  len ps <= N.max 1 (total - offset).
Proof.
  induction 1 as [o p t Hv Ht Hn|o p t next ps Hv Ht Hn _ IH]; intros Ho;
    apply page_validate_inv in Hv as (Eo & Hl & Hcase); cbn [fmap list_fmap concat fst].
  - rewrite app_nil_r. unfold page_records. split_and!; [|by repeat constructor|rewrite len_cons, len_nil; lia].
    destruct Hcase as [(? & Er & _)|[(? & Er & _)|(? & ? & ? & _)]]; [| |congruence];
      rewrite Eo; f_equal; lia.
  - destruct Hcase as [(? & Er & ? & _)|[(? & Er & ? & _)|(Hpos & Hlt & Hnx & _)]]; [congruence|congruence|].
    rewrite Hnx in Hn. injection Hn as <-. destruct (IH ltac:(lia)) as (-> & Hf & Hlen).
    unfold page_records. rewrite Eo, seqN_app. split_and!.
    + f_equal. lia.
    + by constructor.
    + rewrite len_cons. lia.
Qed.

Definition sample_pages : list (PackagePage * list Reason) :=
  [(mkPage 0 2 3 (Some 2), [RRecords]); (mkPage 2 1 3 None, [])].
Lemma pages_cover_witness :
  PageChain "dpkg" 2 3 0 sample_pages ∧ 0 <= 3 ∧
  concat ((fun p => page_records p.1) <$> sample_pages) = [0; 1; 2].
Proof.
  assert (H : PageChain "dpkg" 2 3 0 sample_pages).
  { eapply chain_more; [vm_compute; reflexivity|reflexivity|reflexivity|].
    apply chain_last; vm_compute; reflexivity. }
  split; [exact H|]. split; [vm_compute; discriminate|].
  apply (pages_cover "dpkg" 2 3 0 sample_pages H). vm_compute. discriminate.
Defined.

(** ** Log results *)
Definition line_cost (line : string) : N := slen line + 1.

Lemma window_bytes_ok lines acc n :
  window_bytes acc lines = Ok n →
  n = acc + sum (line_cost <$> lines) ∧
  Forall (fun l => slen l <= SCALAR_BYTES ∧ LF ∉ str_bytes l) lines.
Proof.
  revert acc. induction lines as [|l ls IH]; intros acc; cbn [window_bytes].
  - intros [= <-]. split; [cbn; lia|constructor].
  - intros E. open_bind E as [] Ht%cap_ok. open_bind E as [] Hn%require_ok.
    open_bind E as acc' Ha. apply ok_or_ok, checked_add_some in Ha as [-> _].
    apply IH in E as [-> Hf]. split; [unfold sum, line_cost; cbn; lia|]. constructor; [|done].
    split; [done|]. intros Hin%list_elem_of_In. apply negb_true_iff, not_true_iff_false in Hn. apply Hn.
    apply existsb_exists. exists LF. split; [done|by apply beq_true].
Qed.

(** what a log window reports about its lines *)
Record WindowHolds (w : Window) (lines : list string) : Prop := {
  wh_lines : Forall (fun l => slen l <= SCALAR_BYTES ∧ LF ∉ str_bytes l) lines;
  wh_bytes : sum (line_cost <$> lines) <= w_scanned_bytes w <= SCAN_BYTES;
  wh_scanned : w_admitted_lines w <= w_scanned_lines w <= SCAN_LINES;
}.

Lemma log_window_holds w lines t : log_window w lines t = Ok tt → WindowHolds w lines.
Proof.
  unfold log_window. intros E. open_bind E as [] Hb%cap_ok. open_bind E as [] Hl%cap_ok.
  open_bind E as [] Hr%require_ok. to_prop. destruct Hr as [Hr1 Hr2].
  open_bind E as n Hn%window_bytes_ok. destruct Hn as [-> Hf]. open_bind E as [] Hs%require_ok. to_prop.
  split; [done| |done]. split; [lia|done].
Qed.

(** What an admitted log result shows is within what was asked for and
    what was scanned: at most the requested lines, each a single line within
    the scalar ceiling, their bytes with terminators within the scanned bytes
    and so within [SCAN_BYTES]; a match result shows all its matches unless it
    says that lines were cut, and says so only if they were. *)
Theorem log_result_bounded `{SerdeJson, ValueLibs, WireSerde} body args :
  validate_for body args = Ok tt →
  match body, args with
  | LogWindow lines w _, ALogTail t => WindowHolds w lines ∧ len lines = w_admitted_lines w ∧ len lines <= t_lines t
  | LogWindow lines w _, ALogWindow _ =>
    WindowHolds w lines ∧ len lines = w_admitted_lines w ∧ len lines <= KEYWORD_WINDOW_LINES
  | LogMatches lines w matched t, ALogRegex r =>
    WindowHolds w lines ∧ len lines <= r_limit r ∧ len lines <= matched <= w_admitted_lines w ∧
    (RLines ∈ t → len lines < matched)
  | LogWindow _ _ _, _ | LogMatches _ _ _ _, _ => False
  | _, _ => True
  end.
Proof.
  unfold validate_for. intros E. open_bind E as [] _. open_bind E as n _.
  destruct body as [| | |lines w t|lines w m t| |], args as [| | |tl|e|r| |]; try done.
  - open_bind E as [] Hl%cap_ok. open_bind E as [] Ha%require_ok%N.eqb_eq. apply log_window_holds in E. auto.
  - open_bind E as [] Hl%cap_ok. open_bind E as [] Ha%require_ok%N.eqb_eq. apply log_window_holds in E. auto.
  - open_bind E as [] Hl%cap_ok. open_bind E as [] Ha%require_ok. open_bind E as [] Hw%log_window_holds.
    apply require_ok in E. to_prop. destruct Ha as [Ha1 Ha2]. split_and!; try done.
    intros Ht. destruct E as [E|E]; [|done]. apply bool_decide_eq_false in E. done.
Qed.
