(* ===== verification/WireJson.v ===== *)
(** * The JSON of the wire messages

    The derived readers and writers of crates/gaze-lens-protocol: the structs of
    [closed_object!] (lib.rs), the messages, arguments and results of wire.rs,
    the query of query.rs and the tagged values of value.rs.  A struct is
    written as an object with its fields in order, without those that are to be
    skipped; it is read from an object with these fields and no other.  What
    serde_json does with one text, number or list of entries stays an argument;
    the writers write a text in one piece. *)

From S2P Require Import Prelude Str Bounds Serde WireQuery WireValue Wire.

(** ** Names of the enums *)
#[export] Instance Error_name : EnumName Error := {|
  variants := [InvalidRequest; Unauthorized; UnsupportedVersion; UnsupportedOperation; Unavailable; CapExceeded; Timeout;
    BindingChanged; InternalFailure];
  variant_name e := match e with
    | InvalidRequest => "invalid_request" | Unauthorized => "unauthorized" | UnsupportedVersion => "unsupported_version"
    | UnsupportedOperation => "unsupported_operation" | Unavailable => "unavailable" | CapExceeded => "cap_exceeded"
    | Timeout => "timeout" | BindingChanged => "binding_changed" | InternalFailure => "internal_failure" end%string |}.
#[export] Instance PackageStatus_name : EnumName PackageStatus := {|
  variants := [PsPresent; PsAbsent; PsUnavailable; PsUnsupported];
  variant_name s := match s with
    | PsPresent => "present" | PsAbsent => "absent" | PsUnavailable => "unavailable" | PsUnsupported => "unsupported"
    end%string |}.
#[export] Instance ObservationStatus_name : EnumName ObservationStatus := {|
  variants := [OsObserved; OsUnavailable; OsUnknown];
  variant_name s := match s with
    | OsObserved => "observed" | OsUnavailable => "unavailable" | OsUnknown => "unknown" end%string |}.
#[export] Instance AppBinding_name : EnumName AppBinding := {|
  variants := [AbProven; AbUnknown];
  variant_name s := match s with AbProven => "proven" | AbUnknown => "unknown" end%string |}.

#[export] Instance Error_laws : EnumLaws Error. Proof. enum_laws. Qed.
#[export] Instance PackageStatus_laws : EnumLaws PackageStatus. Proof. enum_laws. Qed.
#[export] Instance ObservationStatus_laws : EnumLaws ObservationStatus. Proof. enum_laws. Qed.
#[export] Instance AppBinding_laws : EnumLaws AppBinding. Proof. enum_laws. Qed.
#[export] Instance Version_laws : EnumLaws Version. Proof. enum_laws. Qed.
#[export] Instance Privacy_laws : EnumLaws Privacy. Proof. enum_laws. Qed.
#[export] Instance Combinator_laws : EnumLaws Combinator. Proof. enum_laws. Qed.
#[export] Instance Direction_laws : EnumLaws Direction. Proof. enum_laws. Qed.
#[export] Instance View_laws : EnumLaws View. Proof. enum_laws. Qed.
#[export] Instance Reason_laws : EnumLaws Reason. Proof. enum_laws. Qed.
#[export] Instance Scope_laws : EnumLaws Scope. Proof. enum_laws. Qed.
#[export] Instance Status_laws : EnumLaws Status. Proof. enum_laws. Qed.
#[export] Instance Evidence_laws : EnumLaws Evidence. Proof. enum_laws. Qed.
#[export] Instance ReadinessStatus_laws : EnumLaws ReadinessStatus. Proof. enum_laws. Qed.

(** ** Texts *)
Class SerdeText := {
  (** [to_writer] of a [str] *)
  quote : string → string;
}.
Definition commas (l : list string) : string := String.concat "," l.
Definition array_text (l : list string) : string := String.concat "" ["["; commas l; "]"]%string.
Definition number_text (n : N) : string := str_of (print_u64 n).
Definition bool_text (b : bool) : string := if b then "true" else "false".

Section Texts.
Context `{SerdeText}.

Definition entry_text (e : string * string) : string := String.concat "" [quote e.1; ":"%string; e.2].
Definition object_text (l : list (string * string)) : string := String.concat "" ["{"%string; commas (entry_text <$> l); "}"%string].
(** the fields of a struct: one that is absent is skipped *)
Definition given (l : list (string * option string)) : list (string * string) :=
  omap (fun e => pair e.1 <$> e.2) l.
Definition struct_text (l : list (string * option string)) : string := object_text (given l).
Definition enum_text `{EnumName A} (a : A) : string := quote (variant_name a).
Definition list_text {A} (f : A → string) (l : list A) : string := array_text (f <$> l).
Definition null_or {A} (f : A → string) (o : option A) : string := match o with Some a => f a | None => "null" end.

(** *** query.rs *)
Definition scalar_text (s : Scalar) : string :=
  match s with SString v => quote v | SNumber raw => raw | SBool v => bool_text v | SNull => "null" end.
Definition operand_text (o : Operand) : string :=
  match o with OScalar s => scalar_text s | OList xs => list_text scalar_text xs end.
Definition predicate_text (p : Predicate) : string :=
  struct_text [("col", Some (quote (p_col p))); ("op", Some (enum_text (p_op p))); ("val", operand_text <$> p_val p)]%string.
Definition order_text (o : Order) : string :=
  struct_text [("col", Some (quote (o_col o))); ("dir", Some (enum_text (o_dir o)))]%string.
Definition wire_query_text (q : Query) : string :=
  struct_text [("table", Some (quote (q_table q))); ("columns", list_text quote <$> q_columns q);
    ("where", list_text predicate_text <$> q_where q); ("where_combinator", enum_text <$> q_where_combinator q);
    ("order_by", list_text order_text <$> q_order_by q); ("limit", number_text <$> q_limit q)]%string.

(** *** value.rs: tagged by [kind] *)
Definition tagged_text (kind : string) (l : list (string * string)) : string :=
  struct_text (("kind"%string, Some (quote kind)) :: ((fun e => (e.1, Some e.2)) <$> l)).
Definition value_text (v : Value) : string :=
  match v with
  | VNull => tagged_text "null" []
  | VBool b => tagged_text "bool" [("value", bool_text b)]
  | VI64 s => tagged_text "i64" [("value", quote s)]
  | VU64 s => tagged_text "u64" [("value", quote s)]
  | VF64 s => tagged_text "f64" [("value", quote s)]
  | VDecimal s precision scale =>
    tagged_text "decimal" [("value", quote s); ("precision", number_text precision); ("scale", number_text scale)]
  | VString s => tagged_text "string" [("value", quote s)]
  | VBytes base64 n => tagged_text "bytes" [("base64", quote base64); ("len", number_text n)]
  | VDatetime semantic s => tagged_text "datetime" [("semantic", enum_text semantic); ("value", quote s)]
  | VUuid s => tagged_text "uuid" [("value", quote s)]
  | VJson e => tagged_text "json" [("value", ej_text e)]
  end%string.

(** *** wire.rs *)
Definition binding_text (b : DestinationBinding) : string :=
  struct_text [("principal", Some (quote (b_principal b))); ("principal_generation", Some (quote (b_principal_generation b)));
    ("resource", Some (quote (b_resource b))); ("resource_generation", Some (quote (b_resource_generation b)))]%string.
Definition prepare_text (p : Prepare) : string :=
  struct_text [("version", Some (enum_text (pr_version p))); ("privacy", Some (enum_text (pr_privacy p)));
    ("id", Some (quote (pr_id p))); ("credential", Some (quote (pr_credential p)));
    ("resource", Some (quote (pr_resource p))); ("operation", Some (enum_text (pr_operation p)))]%string.
Definition prepared_text (p : Prepared) : string :=
  struct_text [("version", Some (enum_text (pd_version p))); ("privacy", Some (enum_text (pd_privacy p)));
    ("id", Some (quote (pd_id p))); ("operation", Some (enum_text (pd_operation p)));
    ("binding", Some (binding_text (pd_binding p)))]%string.
Definition failure_text (f : Failure) : string :=
  struct_text [("version", Some (enum_text (f_version f))); ("id", Some (quote (f_id f)));
    ("code", Some (enum_text (f_code f)))]%string.
(** the raw value as it is *)
Definition raw_call_text (c : RawCall) : string :=
  struct_text [("version", Some (enum_text (rc_version c))); ("id", Some (quote (rc_id c)));
    ("operation", Some (enum_text (rc_operation c))); ("binding", Some (binding_text (rc_binding c)));
    ("args", Some (rc_args c))]%string.
Definition raw_success_text (r : RawSuccess) : string :=
  struct_text [("version", Some (enum_text (rs_version r))); ("id", Some (quote (rs_id r)));
    ("operation", Some (enum_text (rs_operation r))); ("binding", Some (binding_text (rs_binding r)));
    ("result", Some (rs_result r))]%string.
Definition schema_text (s : Schema) : string := struct_text [("table", Some (quote (s_table s)))]%string.
Definition empty_text (e : Empty) : string := struct_text [].
Definition tail_text (t : Tail) : string := struct_text [("lines", Some (number_text (t_lines t)))]%string.
Definition regex_text (r : Regex) : string :=
  struct_text [("pattern", Some (quote (r_pattern r))); ("level", quote <$> r_level r);
    ("limit", Some (number_text (r_limit r)))]%string.
Definition inspect_text (i : Inspect) : string :=
  struct_text [("view", Some (enum_text (i_view i))); ("collector", Some (quote (i_collector i)));
    ("limit", Some (number_text (i_limit i))); ("offset", number_text <$> i_offset i)]%string.

(** **** Results *)
Definition window_text (w : Window) : string :=
  struct_text [("scope", Some (enum_text (w_scope w))); ("scanned_bytes", Some (number_text (w_scanned_bytes w)));
    ("scanned_lines", Some (number_text (w_scanned_lines w))); ("admitted_lines", Some (number_text (w_admitted_lines w)))]%string.
Definition page_text (p : PackagePage) : string :=
  struct_text [("offset", Some (number_text (pg_offset p))); ("returned", Some (number_text (pg_returned p)));
    ("total", Some (number_text (pg_total p))); ("next_offset", Some (null_or number_text (pg_next_offset p)))]%string.
Definition column_text (c : Column) : string :=
  struct_text [("name", Some (quote (c_name c))); ("data_type", Some (quote (c_data_type c)));
    ("nullable", Some (bool_text (c_nullable c)))]%string.
Definition host_text (h : Host) : string :=
  struct_text [("os_id", Some (quote (h_os_id h))); ("version_id", Some (null_or quote (h_version_id h)));
    ("architecture", Some (quote (h_architecture h)))]%string.
Definition package_text (k : Package) : string :=
  struct_text [("name", Some (quote (k_name k))); ("version", Some (quote (k_version k)));
    ("architecture", Some (quote (k_architecture k)))]%string.
Definition package_observation_text (p : PackageObservation) : string :=
  struct_text [("status", Some (enum_text (po_status p))); ("name", Some (null_or quote (po_name p)));
    ("version", Some (null_or quote (po_version p)))]%string.
Definition cli_text (c : CliObservation) : string :=
  struct_text [("status", Some (enum_text (cli_status c))); ("version", Some (null_or quote (cli_version c)))]%string.
Definition fpm_text (f : FpmObservation) : string :=
  struct_text [("status", Some (enum_text (fpm_status f))); ("version", Some (null_or quote (fpm_version f)));
    ("active", Some (null_or bool_text (fpm_active f))); ("app_binding", Some (enum_text (fpm_app_binding f)))]%string.
Definition php_text (p : Php) : string :=
  struct_text [("runtime_id", Some (quote (php_runtime_id p)));
    ("installed_package", Some (package_observation_text (php_installed_package p)));
    ("cli", Some (cli_text (php_cli p))); ("fpm", Some (fpm_text (php_fpm p)))]%string.
(** untagged *)
Definition records_text (r : Records) : string :=
  match r with
  | RecHost v => list_text host_text v | RecPackages v => list_text package_text v | RecPhp v => list_text php_text v
  end.
Definition body_text (b : ResultBody) : string :=
  match b with
  | QueryRows columns rows truncated =>
    tagged_text "query_rows" [("columns", list_text quote columns); ("rows", list_text (list_text value_text) rows);
      ("truncated", list_text enum_text truncated)]
  | TableSchema table columns truncated =>
    tagged_text "table_schema" [("table", quote table); ("columns", list_text column_text columns);
      ("truncated", list_text enum_text truncated)]
  | TableList tables truncated =>
    tagged_text "table_list" [("tables", list_text quote tables); ("truncated", list_text enum_text truncated)]
  | LogWindow lines window truncated =>
    tagged_text "log_window" [("lines", list_text quote lines); ("window", window_text window);
      ("truncated", list_text enum_text truncated)]
  | LogMatches lines window matched_lines truncated =>
    tagged_text "log_matches" [("lines", list_text quote lines); ("window", window_text window);
      ("matched_lines", number_text matched_lines); ("truncated", list_text enum_text truncated)]
  | Inspection view collector status evidence records page truncated =>
    tagged_text "inspection" [("view", enum_text view); ("collector", quote collector); ("status", enum_text status);
      ("evidence", enum_text evidence); ("records", records_text records); ("page", null_or page_text page);
      ("truncated", list_text enum_text truncated)]
  | Readiness status => tagged_text "readiness" [("status", enum_text status)]
  end%string.
End Texts.

(** ** Readers *)
Section Readers.
Context `{SerdeJson, ValueLibs}.

(** a required field *)
Definition need {A} (f : string → option A) (o : option string) : option A := o ≫= f.
(** [default] with [present], [present_operand], [level] or [offset]: a field
    that is there is read, and not as an option *)
Definition present {A} (f : string → option A) (o : option string) : option (option A) :=
  match o with Some raw => Some <$> f raw | None => Some None end.
(** [nullable], and [Option] *)
Definition nullable {A} (f : string → option A) (raw : string) : option (option A) :=
  if String.eqb raw "null" then Some None else Some <$> f raw.

(** *** query.rs *)
Definition predicate_of (raw : string) : option Predicate :=
  fs ← closed_object ["col"; "op"; "val"]%string raw;
  match fs with
  | [col; op; val] =>
    col ← need from_string col; op ← need from_enum op; val ← present operand_deserialize val;
    Some (mkPredicate col op val)
  | _ => None
  end.
Definition wire_order_of (raw : string) : option Order :=
  fs ← closed_object ["col"; "dir"]%string raw;
  match fs with
  | [col; dir] => col ← need from_string col; dir ← need from_enum dir; Some (mkOrder col dir)
  | _ => None
  end.
Definition query_of (raw : string) : option Query :=
  fs ← closed_object ["table"; "columns"; "where"; "where_combinator"; "order_by"; "limit"]%string raw;
  match fs with
  | [table; columns; wh; combinator; order_by; limit] =>
    table ← need from_string table; columns ← present (vec from_string) columns; wh ← present (vec predicate_of) wh;
    combinator ← present from_enum combinator; order_by ← present (vec wire_order_of) order_by; limit ← present from_usize limit;
    Some (mkQuery table columns wh combinator order_by limit)
  | _ => None
  end.

(** *** wire.rs *)
(** the visitor [Opaque] *)
Definition opaque_of (raw : string) : option string :=
  s ← from_string raw; if opaque s then Some s else None.
Definition wire_binding_of (raw : string) : option DestinationBinding :=
  fs ← closed_object ["principal"; "principal_generation"; "resource"; "resource_generation"]%string raw;
  match fs with
  | [p; pg; r; rg] =>
    p ← need opaque_of p; pg ← need opaque_of pg; r ← need opaque_of r; rg ← need opaque_of rg; Some (mkBinding p pg r rg)
  | _ => None
  end.
Definition prepare_of (raw : string) : option Prepare :=
  fs ← closed_object ["version"; "privacy"; "id"; "credential"; "resource"; "operation"]%string raw;
  match fs with
  | [version; privacy; id; credential; resource; operation] =>
    version ← need from_enum version; privacy ← need from_enum privacy; id ← need from_string id;
    credential ← need from_string credential; resource ← need from_string resource; operation ← need from_enum operation;
    Some (mkPrepare version privacy id credential resource operation)
  | _ => None
  end.
Definition prepared_of (raw : string) : option Prepared :=
  fs ← closed_object ["version"; "privacy"; "id"; "operation"; "binding"]%string raw;
  match fs with
  | [version; privacy; id; operation; binding] =>
    version ← need from_enum version; privacy ← need from_enum privacy; id ← need from_string id;
    operation ← need from_enum operation; binding ← need wire_binding_of binding;
    Some (mkPrepared version privacy id operation binding)
  | _ => None
  end.
Definition failure_of (raw : string) : option Failure :=
  fs ← closed_object ["version"; "id"; "code"]%string raw;
  match fs with
  | [version; id; code] =>
    version ← need from_enum version; id ← need from_string id; code ← need from_enum code; Some (mkFailure version id code)
  | _ => None
  end.
(** an ordinary derived reader takes an array by position, too *)
Definition any_fields (names : list string) (raw : string) : option (list (option string)) :=
  match closed_object names raw with
  | Some fs => Some fs
  | None => l ← elements raw; if (length l =? length names)%nat then Some (Some <$> l) else None
  end.
Definition raw_call_of (raw : string) : option RawCall :=
  fs ← any_fields ["version"; "id"; "operation"; "binding"; "args"]%string raw;
  match fs with
  | [version; id; operation; binding; args] =>
    version ← need from_enum version; id ← need from_string id; operation ← need from_enum operation;
    binding ← need wire_binding_of binding; args ← args; Some (mkRawCall version id operation binding args)
  | _ => None
  end.
Definition raw_success_of (raw : string) : option RawSuccess :=
  fs ← any_fields ["version"; "id"; "operation"; "binding"; "result"]%string raw;
  match fs with
  | [version; id; operation; binding; result] =>
    version ← need from_enum version; id ← need from_string id; operation ← need from_enum operation;
    binding ← need wire_binding_of binding; result ← result; Some (mkRawSuccess version id operation binding result)
  | _ => None
  end.
Definition schema_args_of (raw : string) : option Schema :=
  fs ← closed_object ["table"]%string raw;
  match fs with [table] => mkSchema <$> need from_string table | _ => None end.
Definition empty_of (raw : string) : option Empty := _ ← closed_object [] raw; Some mkEmpty.
Definition tail_of (raw : string) : option Tail :=
  fs ← closed_object ["lines"]%string raw;
  match fs with [lines] => mkTail <$> need from_usize lines | _ => None end.
Definition regex_of (raw : string) : option Regex :=
  fs ← closed_object ["pattern"; "level"; "limit"]%string raw;
  match fs with
  | [pattern; level; limit] =>
    pattern ← need from_string pattern; level ← present from_string level; limit ← need from_usize limit;
    Some (mkRegex pattern level limit)
  | _ => None
  end.
Definition inspect_of (raw : string) : option Inspect :=
  fs ← closed_object ["view"; "collector"; "limit"; "offset"]%string raw;
  match fs with
  | [view; collector; limit; offset] =>
    view ← need from_enum view; collector ← need from_string collector; limit ← need from_usize limit;
    offset ← present from_usize offset; Some (mkInspect view collector limit offset)
  | _ => None
  end.

(** **** Results *)
Definition window_of (raw : string) : option Window :=
  fs ← closed_object ["scope"; "scanned_bytes"; "scanned_lines"; "admitted_lines"]%string raw;
  match fs with
  | [scope; sb; sl; al] =>
    scope ← need from_enum scope; sb ← need from_usize sb; sl ← need from_usize sl; al ← need from_usize al;
    Some (mkWindow scope sb sl al)
  | _ => None
  end.
Definition page_of (raw : string) : option PackagePage :=
  fs ← closed_object ["offset"; "returned"; "total"; "next_offset"]%string raw;
  match fs with
  | [offset; returned; total; next] =>
    offset ← need from_usize offset; returned ← need from_usize returned; total ← need from_usize total;
    next ← need (nullable from_usize) next; Some (mkPage offset returned total next)
  | _ => None
  end.
Definition wire_column_of (raw : string) : option Column :=
  fs ← closed_object ["name"; "data_type"; "nullable"]%string raw;
  match fs with
  | [name; data_type; null] =>
    name ← need from_string name; data_type ← need from_string data_type; null ← need from_bool null;
    Some (mkColumn name data_type null)
  | _ => None
  end.
Definition host_of (raw : string) : option Host :=
  fs ← closed_object ["os_id"; "version_id"; "architecture"]%string raw;
  match fs with
  | [os; version; arch] =>
    os ← need from_string os; version ← need (nullable from_string) version; arch ← need from_string arch;
    Some (mkHost os version arch)
  | _ => None
  end.
Definition package_of (raw : string) : option Package :=
  fs ← closed_object ["name"; "version"; "architecture"]%string raw;
  match fs with
  | [name; version; arch] =>
    name ← need from_string name; version ← need from_string version; arch ← need from_string arch;
    Some (mkPackage name version arch)
  | _ => None
  end.
Definition package_observation_of (raw : string) : option PackageObservation :=
  fs ← closed_object ["status"; "name"; "version"]%string raw;
  match fs with
  | [status; name; version] =>
    status ← need from_enum status; name ← need (nullable from_string) name; version ← need (nullable from_string) version;
    Some (mkPackageObservation status name version)
  | _ => None
  end.
Definition cli_of (raw : string) : option CliObservation :=
  fs ← closed_object ["status"; "version"]%string raw;
  match fs with
  | [status; version] =>
    status ← need from_enum status; version ← need (nullable from_string) version; Some (mkCli status version)
  | _ => None
  end.
Definition fpm_of (raw : string) : option FpmObservation :=
  fs ← closed_object ["status"; "version"; "active"; "app_binding"]%string raw;
  match fs with
  | [status; version; active; app_binding] =>
    status ← need from_enum status; version ← need (nullable from_string) version; active ← need (nullable from_bool) active;
    app_binding ← need from_enum app_binding; Some (mkFpm status version active app_binding)
  | _ => None
  end.
Definition php_of (raw : string) : option Php :=
  fs ← closed_object ["runtime_id"; "installed_package"; "cli"; "fpm"]%string raw;
  match fs with
  | [runtime; package; cli; fpm] =>
    runtime ← need from_string runtime; package ← need package_observation_of package; cli ← need cli_of cli;
    fpm ← need fpm_of fpm; Some (mkPhp runtime package cli fpm)
  | _ => None
  end.
End Readers.

(** ** The derived code as the codec uses it *)
Definition one_piece {A} (f : A → string) : Serialize A := fun v => [str_bytes (f v)].
#[export] Instance derived `{SerdeJson, SerdeText} : WireSerde := {|
  prepare_ser := one_piece prepare_text; prepare_de := prepare_of;
  prepared_ser := one_piece prepared_text; prepared_de := prepared_of;
  failure_ser := one_piece failure_text; failure_de := failure_of;
  call_ser := one_piece raw_call_text; call_de := raw_call_of;
  success_ser := one_piece raw_success_text; success_de := raw_success_of;
  query_ser := one_piece wire_query_text; query_de := query_of;
  schema_ser := one_piece schema_text; schema_de := schema_args_of;
  empty_ser := one_piece empty_text; empty_de := empty_of;
  tail_ser := one_piece tail_text; tail_de := tail_of;
  regex_ser := one_piece regex_text; regex_de := regex_of;
  inspect_ser := one_piece inspect_text; inspect_de := inspect_of;
  column_de := wire_column_of; window_de := window_of; page_de := nullable page_of;
  host_de := host_of; package_de := package_of; php_de := php_of;
  body_ser := one_piece body_text;
|}.
