(* ===== verification/WireJsonFacts.v ===== *)
(** * What is written is read back

    Under laws that say of serde_json what it does with one text, one number and
    one list, every message of the protocol that can be encoded is decoded as
    itself, and only from an object with exactly its fields. *)

From stdpp Require Import pretty.
From S2P Require Import Prelude Str Utf8 Bounds Serde JsonGrammar WireQuery WireValue Wire WireFacts WireJson.

(** the text of one JSON value *)
Class Raw `{SerdeJson} (t : string) : Prop := is_raw : raw_from_string t = Some t.

Class SerdeLaws `{SerdeJson, SerdeText} : Prop := {
  law_string s : from_string (quote s) = Some s;
  law_quote s : starts_with QUOTE (quote s) = true;
  law_bool b : from_bool (bool_text b) = Some b;
  law_u8 n m : from_u8 (number_text n) = Some m → m = n;
  law_usize n m : from_usize (number_text n) = Some m → m = n;
  law_elements l : Forall Raw l → elements (array_text l) = Some l;
  law_entries l : Forall (fun e => Raw e.2) l → entries (object_text l) = Some l;
  law_raw_quote s : Raw (quote s);
  law_raw_number t : number (str_bytes t) = true → Raw t;
  law_raw_word t : t ∈ ["null"; "true"; "false"]%string → Raw t;
  law_raw_array l : Forall Raw l → Raw (array_text l);
  law_raw_object l : Forall (fun e => Raw e.2) l → Raw (object_text l);
  (** only white space around a value is left out of a [RawValue] *)
  law_raw_compact t t' : compact_json t = t → raw_from_string t = Some t' → t' = t;
}.

(** [f] reads [a], if anything, from [t] *)
Class Reads {A} (f : string → option A) (t : string) (a : A) : Prop := reads a' : f t = Some a' → a' = a.

(** a number is printed without leading zeros *)
Lemma pretty_lead x s : x ≠ 0 → ∃ c r, str_bytes (pretty_N_go x s) = c :: r ∧ in_range 49 57 (code c) = true.
Proof.
  revert s. induction (N.lt_wf_0 x) as [x _ IH]; intros s Hx. rewrite pretty_N_go_step by lia.
  destruct (decide (x / 10 = 0)) as [Hd|Hd].
  - rewrite Hd, pretty_N_go_0. eexists _, _. split; [reflexivity|].
    assert (Hlt : x < 10) by (apply N.div_small_iff in Hd; lia). rewrite N.mod_small, pretty_char_digit by done.
    apply in_range_spec. lia.
  - apply IH; [apply N.div_lt; lia|done].
Qed.
Lemma print_u64_number n : number (print_u64 n) = true.
Proof.
  apply number_complete. replace (print_u64 n) with ([] ++ print_u64 n ++ [] ++ []) by by rewrite app_nil_r.
  apply json_number; [by left| |constructor..]. destruct (decide (n = 0)) as [->|Hn]; [by constructor|].
  unfold print_u64, pretty, pretty_N. rewrite decide_False by done.
  destruct (pretty_lead n "" Hn) as (c & r & E & Hc). pose proof (pretty_go_digits n "") as Hd. rewrite E in Hd |- *.
  constructor; [done|]. cbn [forallb] in Hd. apply andb_true_iff in Hd as [_ Hd].
  apply Forall_forall. intros b Hb%list_elem_of_In. rewrite forallb_forall in Hd. by apply Hd.
Qed.

(** ** The fields of a struct *)
Lemma given_keys l : NoDup l.*1 → NoDup (given l).*1 ∧ ∀ k, k ∈ (given l).*1 → k ∈ l.*1.
Proof.
  induction l as [|[k [t|]] l IH]; [by repeat constructor|..]; cbn [fmap list_fmap fst]; intros [Hk Hnd]%NoDup_cons;
    destruct (IH Hnd) as [IH1 IH2].
  - change (given ((k, Some t) :: l)) with ((k, t) :: given l). cbn [fmap list_fmap fst]. split; [|set_solver].
    constructor; [|done]. auto.
  - change (given ((k, None) :: l)) with (given l). split; [done|set_solver].
Qed.
Lemma assoc_cons {A} k k' (a : A) l : entry_of k ((k', a) :: l) = if String.eqb k k' then Some a else entry_of k l.
Proof. unfold entry_of. cbn. by destruct (String.eqb k k'). Qed.
Lemma assoc_none {A} k (l : list (string * A)) : k ∉ l.*1 → entry_of k l = None.
Proof.
  induction l as [|[k' a] l IH]; [done|]. cbn [fmap list_fmap fst]. intros Hk. rewrite assoc_cons.
  destruct (String.eqb_spec k k') as [->|]; [set_solver|]. apply IH. set_solver.
Qed.
Lemma given_lookup l : NoDup l.*1 → (fun k => entry_of k (given l)) <$> l.*1 = l.*2.
Proof.
  induction l as [|[k o] l IH]; [done|]. cbn [fmap list_fmap fst snd]. intros [Hk Hnd]%NoDup_cons. specialize (IH Hnd).
  destruct (given_keys l Hnd) as [_ Hg]. assert (Hn : entry_of k (given l) = None) by (apply assoc_none; auto).
  destruct o as [t|].
  - change (given ((k, Some t) :: l)) with ((k, t) :: given l). f_equal; [by rewrite assoc_cons, String.eqb_refl|].
    rewrite <- IH. apply list_fmap_ext. intros i x Hx. rewrite assoc_cons.
    destruct (String.eqb_spec x k) as [->|]; [|done]. by apply list_elem_of_lookup_2 in Hx.
  - change (given ((k, None) :: l)) with (given l). by f_equal.
Qed.
(** what is read as a struct is an object with these fields only *)
Lemma fields_are `{SerdeJson} names raw fs :
  closed_object names raw = Some fs → ∃ m, entries raw = Some m ∧ NoDup m.*1 ∧ (∀ k, k ∈ m.*1 → k ∈ names) ∧
    fs = (fun k => entry_of k m) <$> names.
Proof.
  unfold closed_object. destruct (entries raw) as [m|]; [|done]. cbn. destruct (_ && _) eqn:E; [|done]. intros [= <-].
  apply andb_true_iff in E as [Hn%bool_decide_eq_true Hf]. exists m. split_and!; try done. intros k Hk.
  rewrite forallb_forall in Hf. apply list_elem_of_In in Hk. by apply Hf, bool_decide_eq_true in Hk.
Qed.

#[global] Typeclasses Opaque enum_text list_text null_or number_text bool_text struct_text.

Section Laws.
Context `{SerdeLaws}.

(** ** Raw texts *)
#[export] Instance raw_quote s : Raw (quote s) := law_raw_quote s.
#[export] Instance raw_enum `{EnumName A} (a : A) : Raw (enum_text a) := law_raw_quote _.
#[export] Instance raw_bool b : Raw (bool_text b).
Proof. destruct b; apply law_raw_word; set_solver. Qed.
Lemma raw_null : Raw "null".
Proof. apply law_raw_word. set_solver. Qed.
#[export] Instance raw_number n : Raw (number_text n).
Proof. apply law_raw_number. unfold number_text. rewrite bytes_of_str. apply print_u64_number. Qed.
#[export] Instance raw_list {A} (f : A → string) l : (∀ a, Raw (f a)) → Raw (list_text f l).
Proof. intros Hf. apply law_raw_array. induction l; by constructor. Qed.
#[export] Instance raw_null_or {A} (f : A → string) o : (∀ a, Raw (f a)) → Raw (null_or f o).
Proof. intros Hf. destruct o; [apply Hf|apply raw_null]. Qed.

Class RawFields (l : list (string * option string)) : Prop := raw_fields : Forall (fun e => Raw e.2) (given l).
#[export] Instance raw_fields_nil : RawFields [].
Proof. constructor. Qed.
#[export] Instance raw_fields_some k t l : Raw t → RawFields l → RawFields ((k, Some t) :: l).
Proof. by constructor. Qed.
Lemma raw_fields_opt k {A} (f : A → string) o l :
  (∀ a, o = Some a → Raw (f a)) → RawFields l → RawFields ((k, f <$> o) :: l).
Proof. intros Hf Hl. destruct o; [constructor; [by apply Hf|done]|exact Hl]. Qed.
#[export] Instance raw_fields_option k {A} (f : A → string) o l :
  (∀ a, Raw (f a)) → RawFields l → RawFields ((k, f <$> o) :: l).
Proof. intros Hf. by apply raw_fields_opt. Qed.
#[export] Instance raw_struct l : RawFields l → Raw (struct_text l).
Proof. apply law_raw_object. Qed.

(** ** Written structs *)
Lemma fields_back names l :
  RawFields l → l.*1 = names → bool_decide (NoDup names) = true → closed_object names (struct_text l) = Some l.*2.
Proof.
  intros Hr <- Hnd%bool_decide_eq_true. unfold closed_object, struct_text. rewrite (law_entries _ Hr). cbn [mbind option_bind].
  destruct (given_keys l Hnd) as [Hg Hin]. rewrite bool_decide_eq_true_2 by done.
  assert (Hall : forallb (fun k => bool_decide (k ∈ l.*1)) (given l).*1 = true).
  { apply forallb_forall. intros k Hk%list_elem_of_In. apply bool_decide_eq_true. auto. }
  rewrite Hall. cbn [andb]. by rewrite given_lookup.
Qed.
(** ** Readers *)
#[export] Instance reads_string s : Reads from_string (quote s) s.
Proof. intros s'. rewrite law_string. by intros [= <-]. Qed.
#[export] Instance reads_bool b : Reads from_bool (bool_text b) b.
Proof. intros b'. rewrite law_bool. by intros [= <-]. Qed.
#[export] Instance reads_usize n : Reads from_usize (number_text n) n := law_usize n.
#[export] Instance reads_u8 n : Reads from_u8 (number_text n) n := law_u8 n.
#[export] Instance reads_enum `{EnumLaws A} (a : A) : Reads from_enum (enum_text a) a.
Proof. intros a'. unfold from_enum, enum_text. rewrite law_string. cbn. rewrite from_name_of. by intros [= <-]. Qed.
Lemma reads_vec {A} (f : string → option A) g l :
  Forall (fun a => Raw (g a) ∧ Reads f (g a) a) l → Reads (vec f) (list_text g l) l.
Proof.
  intros Hl l'. unfold vec, list_text. rewrite law_elements by (induction Hl as [|a l [? _] _ IH]; by constructor).
  cbn [mbind option_bind]. intros Hm%mapM_Some. revert Hm. generalize l'. induction Hl as [|a l [_ Ha] _ IH]; intros l0 Hm.
  - by inversion Hm.
  - cbn in Hm. apply Forall2_cons_inv_l in Hm as (b & bs & Hb & Hm & ->). apply Ha in Hb as ->. f_equal. by apply IH.
Qed.
#[export] Instance reads_list {A} (f : string → option A) g l :
  (∀ a, Raw (g a)) → (∀ a, Reads f (g a) a) → Reads (vec f) (list_text g l) l.
Proof. intros Hr Hf. apply reads_vec, Forall_true. auto. Qed.
Lemma present_reads {A} (f : string → option A) g o o' :
  (∀ a, o = Some a → Reads f (g a) a) → present f (g <$> o) = Some o' → o' = o.
Proof.
  intros Hf. destruct o as [a|]; cbn; [|by intros [= <-]]. intros (a' & Ha & ->)%fmap_Some. f_equal. by eapply Hf.
Qed.

(** [null] is none of the other texts *)
Class NotNull (t : string) : Prop := not_null : String.eqb t "null" = false.
#[export] Instance quote_not_null s : NotNull (quote s).
Proof. apply String.eqb_neq. intros E. pose proof (law_quote s) as Hq. by rewrite E in Hq. Qed.
#[export] Instance bool_not_null b : NotNull (bool_text b).
Proof. by destruct b. Qed.
#[export] Instance number_not_null n : NotNull (number_text n).
Proof.
  apply String.eqb_neq. unfold number_text. intros E. pose proof (print_u64_number n) as Hn.
  rewrite <- (bytes_of_str (print_u64 n)), E in Hn. by vm_compute in Hn.
Qed.
#[export] Instance struct_not_null l : NotNull (struct_text l).
Proof. done. Qed.
#[export] Instance reads_nullable {A} (f : string → option A) g o :
  (∀ a, Reads f (g a) a) → (∀ a, NotNull (g a)) → Reads (nullable f) (null_or g o) o.
Proof.
  intros Hf Hn o'. unfold nullable. destruct o as [a|]; cbn [null_or]; [|by intros [= <-]].
  rewrite not_null. intros (a' & Ha & ->)%fmap_Some. f_equal. by apply Hf.
Qed.
End Laws.

(** a struct that was written: its fields, each read as what it was *)
Ltac read_field H :=
  first [apply reads in H | apply present_reads in H; [|intros ? _; apply _]]; subst.
Ltac read_struct H :=
  rewrite fields_back in H; [|apply _|done|vm_compute; reflexivity];
  cbn [mbind option_bind fmap list_fmap snd need] in H;
  repeat (let x := fresh "x" in let Hx := fresh "Hx" in first [apply bind_Some in H as (x & Hx & H)|apply fmap_Some in H as (x & Hx & ->)]; read_field Hx);
  try injection H as <-.

Section Structs.
Context `{SerdeLaws}.

(** a written struct is read as itself *)
Tactic Notation "reads_struct" reference(f) reference(g) constr(v) :=
  let v' := fresh "v'" in let E := fresh "E" in intros v' E; unfold f, g in E; read_struct E; by destruct v.
#[export] Instance reads_order o : Reads wire_order_of (order_text o) o.
Proof. reads_struct wire_order_of order_text o. Qed.
#[export] Instance reads_opaque s : Reads opaque_of (quote s) s.
Proof. intros s'. unfold opaque_of. rewrite law_string. cbn. destruct (opaque s); [by intros [= <-]|done]. Qed.
#[export] Instance reads_empty e : Reads empty_of (empty_text e) e. Proof. by intros []; destruct e. Qed.
#[export] Instance reads_binding v : Reads wire_binding_of (binding_text v) v.
Proof. reads_struct wire_binding_of binding_text v. Qed.
#[export] Instance reads_prepare v : Reads prepare_of (prepare_text v) v.
Proof. reads_struct prepare_of prepare_text v. Qed.
#[export] Instance reads_prepared v : Reads prepared_of (prepared_text v) v.
Proof. reads_struct prepared_of prepared_text v. Qed.
#[export] Instance reads_failure v : Reads failure_of (failure_text v) v.
Proof. reads_struct failure_of failure_text v. Qed.
#[export] Instance reads_schema v : Reads schema_args_of (schema_text v) v.
Proof. reads_struct schema_args_of schema_text v. Qed.
#[export] Instance reads_tail v : Reads tail_of (tail_text v) v.
Proof. reads_struct tail_of tail_text v. Qed.
#[export] Instance reads_regex v : Reads regex_of (regex_text v) v.
Proof. reads_struct regex_of regex_text v. Qed.
#[export] Instance reads_inspect v : Reads inspect_of (inspect_text v) v.
Proof. reads_struct inspect_of inspect_text v. Qed.
#[export] Instance reads_window v : Reads window_of (window_text v) v.
Proof. reads_struct window_of window_text v. Qed.
#[export] Instance reads_page v : Reads page_of (page_text v) v.
Proof. reads_struct page_of page_text v. Qed.
#[export] Instance reads_column v : Reads wire_column_of (column_text v) v.
Proof. reads_struct wire_column_of column_text v. Qed.
#[export] Instance reads_host v : Reads host_of (host_text v) v.
Proof. reads_struct host_of host_text v. Qed.
#[export] Instance reads_package v : Reads package_of (package_text v) v.
Proof. reads_struct package_of package_text v. Qed.
#[export] Instance reads_package_observation v : Reads package_observation_of (package_observation_text v) v.
Proof. reads_struct package_observation_of package_observation_text v. Qed.
#[export] Instance reads_cli v : Reads cli_of (cli_text v) v.
Proof. reads_struct cli_of cli_text v. Qed.
#[export] Instance reads_fpm v : Reads fpm_of (fpm_text v) v.
Proof. reads_struct fpm_of fpm_text v. Qed.
#[export] Instance reads_php v : Reads php_of (php_text v) v.
Proof. reads_struct php_of php_text v. Qed.

(** ** Queries *)
Lemma number_head t : number (str_bytes t) = true → ∃ b r, str_bytes t = b :: r ∧ (b = "-"%char ∨ digit b = true).
Proof.
  intros Hn%number_sound. inversion Hn as [m i f e Hm Hi Hf He E]. destruct Hm as [->| ->]; [|by eexists _, _; split; [reflexivity|left]].
  destruct Hi as [|b s Hb _]; (eexists _, _; split; [reflexivity|right]); [done|by apply digit_code].
Qed.
Lemma number_plain t : number (str_bytes t) = true →
  starts_with QUOTE t = false ∧ starts_with "[" t = false ∧ t ≠ "null"%string ∧ t ≠ "true"%string ∧ t ≠ "false"%string.
Proof.
  intros Hn. destruct (number_head t Hn) as (b & r & E & Hb). unfold starts_with. rewrite E. cbn [next_is].
  split_and!; try (intros ->; by vm_compute in Hn); apply beq_false; intros ->; by destruct Hb.
Qed.
Lemma valid_scalar s : ValidScalar s →
  Raw (scalar_text s) ∧ Reads scalar_deserialize (scalar_text s) s ∧ starts_with "[" (scalar_text s) = false.
Proof.
  intros Hs. destruct Hs as [v _|n _ Hn%number_complete|b]; cbn [scalar_text].
  - split_and!; [apply _| |].
    + intros s'. unfold scalar_deserialize. rewrite law_quote, law_string. by intros [= <-].
    + pose proof (law_quote v) as Hq. unfold starts_with in *. destruct (str_bytes (quote v)) as [|c r]; [done|].
      cbn [next_is] in *. apply beq_true in Hq as ->. done.
  - destruct (number_plain n Hn) as (Hn1 & Hn2 & Hn3 & Hn4 & Hn5). split_and!; [by apply law_raw_number| |done].
    intros s'. unfold scalar_deserialize. rewrite Hn1. apply String.eqb_neq in Hn3 as ->, Hn4 as ->, Hn5 as ->. cbn [orb].
    rewrite Hn. by intros [= <-].
  - split_and!; [apply _| |by destruct b]. intros s'. by destruct b; intros [= <-].
Qed.
Lemma valid_list l : Forall ValidScalar l → Forall (fun s => Raw (scalar_text s) ∧ Reads scalar_deserialize (scalar_text s) s) l.
Proof. intros Hl. eapply Forall_impl; [exact Hl|]. intros s Hs. by destruct (valid_scalar s Hs) as (? & ? & _). Qed.
Lemma forall_raw {A} (f : A → string) (P : A → Prop) l : Forall (fun a => Raw (f a) ∧ P a) l → Raw (list_text f l).
Proof. intros Hl. apply law_raw_array. induction Hl as [|a l [? _] _ IH]; by constructor. Qed.
Lemma operand_list l : Forall ValidScalar l →
  Raw (operand_text (OList l)) ∧ Reads operand_deserialize (operand_text (OList l)) (OList l).
Proof.
  intros Hl%valid_list. split; [exact (forall_raw _ _ _ Hl)|]. intros o. unfold operand_deserialize. cbn [operand_text].
  assert (starts_with "[" (list_text scalar_text l) = true) as -> by done.
  intros (xs & Hx & ->)%fmap_Some. f_equal. by apply (reads_vec _ _ _ Hl) in Hx.
Qed.
Lemma operand_scalar s : ValidScalar s →
  Raw (operand_text (OScalar s)) ∧ Reads operand_deserialize (operand_text (OScalar s)) (OScalar s).
Proof.
  intros (Hr & Hd & Hb)%valid_scalar. split; [exact Hr|]. intros o. unfold operand_deserialize. cbn [operand_text].
  rewrite Hb. intros (x & Hx & ->)%fmap_Some. f_equal. by apply Hd.
Qed.
Lemma valid_operand p n o : ValidPredicate p n → p_val p = Some o → Raw (operand_text o) ∧ Reads operand_deserialize (operand_text o) o.
Proof.
  intros [c op _ _|c xs _ _ Hx|c op x _ _ Hx]; [done|..]; intros [= <-]; [by apply operand_list|by apply operand_scalar].
Qed.
Lemma valid_predicate p n : ValidPredicate p n → Raw (predicate_text p) ∧ Reads predicate_of (predicate_text p) p.
Proof.
  intros Hp. assert (Hraw : RawFields [("col", Some (quote (p_col p))); ("op", Some (enum_text (p_op p))); ("val", operand_text <$> p_val p)]%string).
  { do 2 (apply raw_fields_some; [apply _|]). apply raw_fields_opt; [|apply _]. intros o Ho. by apply (valid_operand p n). }
  split; [by apply raw_struct|]. intros p' E. unfold predicate_of, predicate_text in E.
  rewrite fields_back in E; [|exact Hraw|done|done]. cbn [mbind option_bind fmap list_fmap snd need] in E.
  apply bind_Some in E as (col & Hc & E). read_field Hc. apply bind_Some in E as (op & Ho & E). read_field Ho.
  apply bind_Some in E as (val & Hv & E). apply present_reads in Hv; [|intros o Ho; by apply (valid_operand p n)].
  injection E as <-. subst. by destruct p.
Qed.
Lemma query_predicates q : query_validate q = Ok tt → Forall (fun p => Raw (predicate_text p) ∧ Reads predicate_of (predicate_text p) p)
  (default [] (q_where q)).
Proof.
  unfold query_validate. intros E. open_bind E as [] _. open_bind E as [] _. open_bind E as [] _. open_bind E as [] _.
  open_bind E as n Hn. apply where_ok in Hn as (_ & ns & Hns & _). clear E. induction Hns as [|p n' ps ns' Hp _ IH]; [done|].
  constructor; [by apply (valid_predicate p n')|done].
Qed.
Lemma valid_query q : query_validate q = Ok tt → Raw (wire_query_text q) ∧ Reads query_of (wire_query_text q) q.
Proof.
  intros Hq%query_predicates.
  assert (Hraw : RawFields [("table", Some (quote (q_table q))); ("columns", list_text quote <$> q_columns q);
    ("where", list_text predicate_text <$> q_where q); ("where_combinator", enum_text <$> q_where_combinator q);
    ("order_by", list_text order_text <$> q_order_by q); ("limit", number_text <$> q_limit q)]%string).
  { apply raw_fields_some; [apply _|]. apply raw_fields_option; [apply _|]. apply raw_fields_opt; [|unfold order_text; apply _].
    intros ps Hps. rewrite Hps in Hq. exact (forall_raw _ _ _ Hq). }
  split; [by apply raw_struct|]. intros q' E. unfold query_of, wire_query_text in E.
  rewrite fields_back in E; [|exact Hraw|done|vm_compute; reflexivity]. cbn [mbind option_bind fmap list_fmap snd need] in E.
  apply bind_Some in E as (table & Ht & E). read_field Ht. apply bind_Some in E as (cols & Hc & E). read_field Hc.
  apply bind_Some in E as (wh & Hw & E). apply present_reads in Hw; [|intros ps Hps; apply reads_vec; by rewrite Hps in Hq].
  apply bind_Some in E as (comb & Hb & E). read_field Hb. apply bind_Some in E as (ord & Ho & E).
  apply present_reads in Ho; [|intros os _; apply reads_list; [unfold order_text; apply _|apply _]].
  apply bind_Some in E as (lim & Hl & E). read_field Hl. injection E as <-. subst. by destruct q.
Qed.
End Structs.

(** ** Tagged objects *)

(** what [ExactJson::parse], the only way to one, makes *)
Definition Parsed `{SerdeJson} (e : ExactJson) : Prop := ∃ s, exact_json_parse s = Ok e.
Definition ParsedValue `{SerdeJson} (v : Value) : Prop := match v with VJson e => Parsed e | _ => True end.
Definition ParsedBody `{SerdeJson} (b : ResultBody) : Prop :=
  match b with QueryRows _ rows _ => Forall (Forall ParsedValue) rows | _ => True end.

Lemma compact_twice quoted escaped s :
  compact_loop quoted escaped (compact_loop quoted escaped s) = compact_loop quoted escaped s.
Proof.
  revert quoted escaped. induction s as [|c s IH]; intros [] []; cbn [compact_loop]; try reflexivity.
  - by rewrite IH.
  - destruct (beq c BACKSLASH) eqn:E1; [|destruct (beq c QUOTE) eqn:E2]; cbn [compact_loop]; rewrite ?E1, ?E2, IH; done.
  - destruct (is_space c) eqn:E; cbn [negb]; [apply IH|]. cbn [compact_loop]. rewrite E. cbn [negb]. by rewrite IH.
  - destruct (is_space c) eqn:E; cbn [negb]; [apply IH|]. cbn [compact_loop]. rewrite E. cbn [negb]. by rewrite IH.
Qed.

Section Tagged.
Context `{SerdeLaws, ValueLibs}.

Lemma parsed_exact e : Parsed e → Raw (ej_text e) ∧ compact_json (ej_text e) = ej_text e.
Proof.
  intros [s E]. unfold exact_json_parse in E. open_bind E as [] _. open_bind E as raw Hr%ok_or_ok. injection E as <-.
  cbn [ej_text]. assert (Hc : compact_json (compact_json s) = compact_json s).
  { unfold compact_json. by rewrite bytes_of_str, compact_twice. }
  pose proof (law_raw_compact _ _ Hc Hr) as ->. by split.
Qed.

Definition RawEntries (l : list (string * string)) : Prop := Forall (fun e => Raw e.2) l.
Lemma raw_tagged kind l : RawEntries l → RawFields (("kind"%string, Some (quote kind)) :: ((fun e => (e.1, Some e.2)) <$> l)).
Proof. intros Hl. apply raw_fields_some; [apply _|]. induction Hl as [|[k t] l Ht _ IH]; [constructor|by apply raw_fields_some]. Qed.
Lemma given_all (l : list (string * string)) : given ((fun e => (e.1, Some e.2)) <$> l) = l.
Proof. induction l as [|[k t] l IH]; [done|]. by apply (f_equal (cons (k, t))) in IH. Qed.
Lemma tag_back kind l : RawEntries l → bool_decide ("kind"%string ∉ l.*1) = true → tag_kind (tagged_text kind l) = Some kind.
Proof.
  intros Hl Hk%bool_decide_eq_true. unfold tag_kind, tagged_text, struct_text. rewrite (law_entries _ (raw_tagged kind l Hl)).
  change (given (("kind"%string, Some (quote kind)) :: ((fun e => (e.1, Some e.2)) <$> l)))
    with (("kind"%string, quote kind) :: given ((fun e => (e.1, Some e.2)) <$> l)).
  rewrite given_all. cbn [mbind option_bind]. rewrite filter_cons_True by done.
  assert (filter (fun e : string * string => e.1 = "kind"%string) l = []) as ->; [|apply law_string].
  clear Hl. induction l as [|[k t] l IH]; [done|]. cbn [fmap list_fmap fst] in Hk. apply not_elem_of_cons in Hk as [Hk1 Hk2].
  rewrite filter_cons_False; [by apply IH|]. intros E. by apply Hk1.
Qed.
Lemma closed_back names kind l : RawEntries l → l.*1 = names → bool_decide (NoDup ("kind"%string :: names)) = true →
  closed_fields names (tagged_text kind l) = Some l.*2.
Proof.
  intros Hl Hn Hd. unfold closed_fields, tagged_text.
  rewrite (fields_back ("kind"%string :: names)); [|by apply raw_tagged|cbn; by rewrite <- list_fmap_compose, <- Hn|done].
  cbn [mbind option_bind fmap list_fmap snd]. rewrite law_string. clear. induction l as [|[k t] l IH]; [done|].
  cbn [fmap list_fmap snd mapM option_bind mbind Datatypes.id] in *. by rewrite IH.
Qed.
Lemma raw_tagged_text kind l : RawEntries l → Raw (tagged_text kind l).
Proof. intros Hl. by apply raw_struct, raw_tagged. Qed.

(** a tagged object that was written: its kind, then its fields *)
Ltac read_one E :=
  let x := fresh "x" in let Hx := fresh "Hx" in open_bind E as x Hx; apply ok_or_ok in Hx; read_field Hx.
Ltac read_result E := repeat read_one E; try injection E as <-.
Ltac raw_entries := repeat (apply Forall_cons; split; cbn [snd]; [apply _|]); apply Forall_nil_2.

Lemma parsed_some {A B} (a : A) (f : A → Result B) : parsed (Some a) ≫= f = f a.
Proof. done. Qed.
Lemma parsed_map {A B} (f : A → B) o x : f <$> parsed o = Ok x → ∃ a, o = Some a ∧ x = f a.
Proof. destruct o as [a|]; [|discriminate]. intros [= <-]. eauto. Qed.
Lemma raw_value v : ParsedValue v → Raw (value_text v).
Proof.
  intros Hv. destruct v; apply raw_tagged_text; try raw_entries.
  apply parsed_exact in Hv as [Hv _]. by repeat constructor.
Qed.
Lemma reads_value v : ParsedValue v → Reads value_of (value_text v) v.
Proof.
  intros Hv v' E. unfold value_of in E. destruct (value_decode (value_text v)) as [x|] eqn:D; [|done]. injection E as ->.
  unfold value_decode in D. open_bind D as [] _. open_bind D as [] _. open_bind D as kind Hk%ok_or_ok.
  open_bind D as v0 Hf. open_bind D as [] _. injection D as ->.
  destruct v; cbn [value_text] in Hk, Hf;
    (rewrite tag_back in Hk; [|first [raw_entries|apply parsed_exact in Hv as [Hv _]; by repeat constructor]|vm_compute; reflexivity]);
    injection Hk as <-; unfold value_fields in Hf; cbv zeta in Hf;
    (rewrite closed_back in Hf; [|first [raw_entries|apply parsed_exact in Hv as [Hv _]; by repeat constructor]|reflexivity|vm_compute; reflexivity]);
    rewrite parsed_some in Hf; unfold field in Hf;
    cbn [fmap list_fmap snd lookup list_lookup default from_option Datatypes.id] in Hf; try solve [by read_result Hf].
  open_bind Hf as j Hj%map_err_ok. injection Hf as <-. apply parsed_exact in Hv as [Hr Hc].
  unfold exact_json_parse in Hj. open_bind Hj as [] _. open_bind Hj as raw Hraw%ok_or_ok. injection Hj as <-.
  rewrite Hc, Hr in Hraw. injection Hraw as <-. by destruct value.
Qed.

(** ** Results *)
#[local] Instance raw_column c : Raw (column_text c). Proof. unfold column_text. apply _. Qed.
#[local] Instance raw_host h : Raw (host_text h). Proof. unfold host_text. apply _. Qed.
#[local] Instance raw_package k : Raw (package_text k). Proof. unfold package_text. apply _. Qed.
#[local] Instance raw_php p : Raw (php_text p).
Proof. unfold php_text, package_observation_text, cli_text, fpm_text. apply _. Qed.
#[local] Instance raw_page p : Raw (page_text p). Proof. unfold page_text. apply _. Qed.
#[local] Instance raw_window w : Raw (window_text w). Proof. unfold window_text. apply _. Qed.
#[local] Instance raw_records r : Raw (records_text r). Proof. destruct r; cbn [records_text]; apply _. Qed.
#[local] Instance page_not_null p : NotNull (page_text p). Proof. unfold page_text. apply _. Qed.

Lemma rows_back rows : Forall (Forall ParsedValue) rows →
  Raw (list_text (list_text value_text) rows) ∧ Reads (vec (vec value_of)) (list_text (list_text value_text) rows) rows.
Proof.
  intros Hr. assert (Hrow : Forall (fun row => Raw (list_text value_text row) ∧
    Reads (vec value_of) (list_text value_text row) row) rows).
  { eapply Forall_impl; [exact Hr|]. intros row Hv.
    assert (Hf : Forall (fun v => Raw (value_text v) ∧ Reads value_of (value_text v) v) row).
    { eapply Forall_impl; [exact Hv|]. intros v ?. split; [by apply raw_value|by apply reads_value]. }
    split; [exact (forall_raw _ _ _ Hf)|by apply reads_vec]. }
  split; [exact (forall_raw _ _ _ Hrow)|by apply reads_vec].
Qed.
Lemma reads_body b b' : ParsedBody b → ViewMatches b → parse_result (body_text b) = Ok b' → b' = b.
Proof.
  intros Hp Hm E. unfold parse_result in E. cbv zeta in E. open_bind E as [] _. open_bind E as kind Hk%ok_or_ok.
  destruct b; [apply rows_back in Hp as [Hraw Hreads]|..]; cbn [body_text] in Hk, E;
    (rewrite tag_back in Hk; [|raw_entries|vm_compute; reflexivity]);
    injection Hk as <-; (rewrite closed_back in E; [|raw_entries|reflexivity|vm_compute; reflexivity]);
    rewrite parsed_some in E; unfold field, truncated_of, parse_as, from_str in E;
    cbn [fmap list_fmap snd lookup list_lookup default from_option Datatypes.id column_de window_de page_de host_de
      package_de php_de derived] in E;
    match goal with |- _ = Inspection _ _ _ _ _ _ _ => do 5 read_one E | _ => by read_result E end.
  open_bind E as r Hr. assert (r = records) as ->; [|by read_result E]. clear E.
  destruct view, records; try discriminate Hm; cbn [records_text] in Hr; (destruct (parsed _) as [l|] eqn:Hl; [|discriminate Hr]); injection Hr as <-; apply ok_or_ok in Hl; by read_field Hl.
Qed.

(** ** Messages *)
#[local] Instance raw_binding b : Raw (binding_text b). Proof. unfold binding_text. apply _. Qed.
Lemma any_fields_back names l :
  RawFields l → l.*1 = names → bool_decide (NoDup names) = true → any_fields names (struct_text l) = Some l.*2.
Proof. intros Hr Hn Hd. unfold any_fields. by rewrite (fields_back names). Qed.
Lemma reads_raw_call c : Raw (rc_args c) → Reads raw_call_of (raw_call_text c) c.
Proof.
  intros Hr v' E. unfold raw_call_of, raw_call_text in E.
  rewrite any_fields_back in E; [|apply _|done|vm_compute; reflexivity]. cbn [mbind option_bind fmap list_fmap snd need] in E.
  do 4 (let Hx := fresh in apply bind_Some in E as (? & Hx & E); read_field Hx). injection E as <-. by destruct c.
Qed.
Lemma reads_raw_success r : Raw (rs_result r) → Reads raw_success_of (raw_success_text r) r.
Proof.
  intros Hr v' E. unfold raw_success_of, raw_success_text in E.
  rewrite any_fields_back in E; [|apply _|done|vm_compute; reflexivity]. cbn [mbind option_bind fmap list_fmap snd need] in E.
  do 4 (let Hx := fresh in apply bind_Some in E as (? & Hx & E); read_field Hx). injection E as <-. by destruct r.
Qed.

Lemma body_raw b : ParsedBody b → Raw (body_text b).
Proof.
  intros Hp. destruct b; [apply rows_back in Hp as [Hraw _]|..]; apply raw_tagged_text; raw_entries.
Qed.

Lemma text_of {A} (f : A → string) v : str_of (@to_text _ (one_piece f) v) = f v.
Proof. unfold to_text, writes, one_piece. cbn [concat]. by rewrite app_nil_r, str_of_bytes. Qed.
Lemma parse_back {A} (f : string → option A) (g : A → string) (C : A → Args) v x :
  Reads f (g v) v → C <$> @parse_as A f (g v) = Ok x → x = C v.
Proof. intros Hf Hx. apply parsed_map in Hx as (a & Ha & ->). f_equal. by apply Hf. Qed.
Definition args_text (a : Args) : string :=
  match a with
  | AQuery q => wire_query_text q | ASchema s => schema_text s | AListTables e | ALogWindow e | AReadiness e => empty_text e
  | ALogTail t => tail_text t | ALogRegex r => regex_text r | AInspect i => inspect_text i
  end.
Lemma args_raw_text a t : args_raw a = Ok t → t = args_text a.
Proof.
  intros Ht%args_raw_written. rewrite Ht. destruct a;
    [exact (text_of wire_query_text _)|exact (text_of schema_text _)|exact (text_of empty_text _)|exact (text_of tail_text _)
    |exact (text_of empty_text _)|exact (text_of regex_text _)|exact (text_of inspect_text _)|exact (text_of empty_text _)].
Qed.
Lemma raw_args a : args_validate a = Ok tt → Raw (args_text a).
Proof.
  intros Hv. destruct a as [q| | | | | | |]; cbn [args_text]; [by apply valid_query|..];
    unfold schema_text, empty_text, tail_text, regex_text, inspect_text; apply _.
Qed.
Lemma args_back a a' : args_validate a = Ok tt → parse_args (args_operation a) (args_text a) = Ok a' → a' = a.
Proof.
  intros Hv E. unfold parse_args in E. open_bind E as x Hx. open_bind E as [] _. injection E as <-.
  destruct a as [q| | | | | | |]; cbn [args_operation args_text] in Hx.
  - apply (parse_back query_of wire_query_text AQuery); [by apply valid_query|exact Hx].
  - exact (parse_back schema_args_of schema_text ASchema _ _ _ Hx).
  - exact (parse_back empty_of empty_text AListTables _ _ _ Hx).
  - exact (parse_back tail_of tail_text ALogTail _ _ _ Hx).
  - exact (parse_back empty_of empty_text ALogWindow _ _ _ Hx).
  - exact (parse_back regex_of regex_text ALogRegex _ _ _ Hx).
  - exact (parse_back inspect_of inspect_text AInspect _ _ _ Hx).
  - exact (parse_back empty_of empty_text AReadiness _ _ _ Hx).
Qed.

Lemma failure_back f : failure_of (failure_text f) = Some f.
Proof.
  unfold failure_of, failure_text. rewrite fields_back; [|apply _|done|vm_compute; reflexivity].
  cbn [mbind option_bind fmap list_fmap snd need]. unfold from_enum, enum_text. rewrite !law_string.
  cbn [mbind option_bind]. rewrite !from_name_of. by destruct f.
Qed.

Lemma seen_back {A} (f : string → option A) (g : A → string) v w :
  Reads f (g v) v → f (str_of (@to_text A (one_piece g) v)) = Some w → w = v.
Proof. intros Hf E. rewrite text_of in E. by apply Hf. Qed.

Lemma body_written b : str_of (to_text b) = body_text b.
Proof. exact (text_of body_text b). Qed.
Lemma call_written c : str_of (to_text c) = raw_call_text c.
Proof. exact (text_of raw_call_text c). Qed.
Lemma success_written r : str_of (to_text r) = raw_success_text r.
Proof. exact (text_of raw_success_text r). Qed.
Lemma failure_written f : str_of (to_text f) = failure_text f.
Proof. exact (text_of failure_text f). Qed.

(** C11. What the protocol writes is read back as itself, through the derived
    code of its structs: every Prepare, Prepared, Call, Success and Failure that
    can be encoded is decoded, by the one who expects it, as the message it was;
    a result's values, whatever JSON they hold, included. *)
Theorem messages_roundtrip :
  (∀ p out, encode_prepare p = Ok out → decode_prepare out = Ok p) ∧
  (∀ p out, encode_prepared p = Ok out → decode_prepared out = Ok p) ∧
  (∀ c out, encode_call c = Ok out → decode_call out = Ok c) ∧
  (∀ s c out, ParsedBody (su_result s) → encode_success s c = Ok out → decode_success out c = Ok s) ∧
  (∀ f out, encode_failure f = Ok out → decode_failure out (f_id f) = Ok f).
Proof.
  split_and!.
  - intros p out (q & Hq & ->)%prepare_seen. f_equal. exact (seen_back _ prepare_text p q _ Hq).
  - intros p out (q & Hq & ->)%prepared_seen. f_equal. exact (seen_back _ prepared_text p q _ Hq).
  - intros c out (a & r & x & Hv & ->%args_raw_text & Hr & Hx & ->)%call_seen. rewrite call_written in Hr.
    apply (reads_raw_call (mkRawCall _ _ _ _ _) (raw_args _ Hv)) in Hr as ->. apply args_back in Hx as ->; [|done]. by destruct c.
  - intros s c out Hp (r & b & Hv%valid_view & Hr & Hb & ->)%success_seen. rewrite body_written, success_written in Hr.
    apply (reads_raw_success (mkRawSuccess _ _ _ _ _) (body_raw _ Hp)) in Hr as ->.
    apply reads_body in Hb as ->; [|done..]. by destruct s.
  - intros f out E. apply failure_seen; [done|]. rewrite failure_written. exact (failure_back f).
Qed.
End Tagged.

(** ** Closed objects *)
Section Closed.
Context `{SerdeJson, SerdeText}.

(** the text is an object whose keys are these, each once *)
Definition ObjectOf (names : list string) (raw : string) : Prop := ∃ m, entries raw = Some m ∧ m.*1 ≡ₚ names.
Lemma all_fields names raw fs : closed_object names raw = Some fs → bool_decide (NoDup names) = true → Forall is_Some fs →
  ObjectOf names raw.
Proof.
  intros (m & Hm & Hnd & Hin & ->)%fields_are Hd%bool_decide_eq_true Hall.
  exists m. split; [done|]. apply NoDup_Permutation; [done..|]. intros k. split; [apply Hin|]. intros Hk.
  destruct (decide (k ∈ m.*1)) as [|Hn]; [done|]. apply (assoc_none k m) in Hn. rewrite Forall_fmap, Forall_forall in Hall.
  apply Hall in Hk. cbn in Hk. rewrite Hn in Hk. by destruct Hk.
Qed.
Lemma need_some {A} (f : string → option A) o a : need f o = Some a → is_Some o.
Proof. destruct o; [eauto|done]. Qed.

(** the fields of a struct that was read: all there *)
Ltac closed_struct E :=
  let fs := fresh "fs" in let Hfs := fresh "Hfs" in apply bind_Some in E as (fs & Hfs & E);
  repeat (destruct fs as [|? fs]; try discriminate E);
  apply all_fields in Hfs; [exact Hfs|vm_compute; reflexivity|];
  repeat (apply bind_Some in E as (? & ?%need_some & E)); by repeat constructor.
Lemma binding_closed raw b : wire_binding_of raw = Some b →
  ObjectOf ["principal"; "principal_generation"; "resource"; "resource_generation"]%string raw.
Proof. intros E. unfold wire_binding_of in E. closed_struct E. Qed.
Lemma prepare_closed raw p : prepare_of raw = Some p →
  ObjectOf ["version"; "privacy"; "id"; "credential"; "resource"; "operation"]%string raw.
Proof. intros E. unfold prepare_of in E. closed_struct E. Qed.
Lemma prepared_closed raw p : prepared_of raw = Some p → ObjectOf ["version"; "privacy"; "id"; "operation"; "binding"]%string raw.
Proof. intros E. unfold prepared_of in E. closed_struct E. Qed.
Lemma failure_closed raw f : failure_of raw = Some f → ObjectOf ["version"; "id"; "code"]%string raw.
Proof. intros E. unfold failure_of in E. closed_struct E. Qed.

(** A message is a closed object: what is decoded as a Prepare, a Prepared or a
    Failure is a frame that holds an object with exactly the fields of it, each
    once, never an array of their values. *)
Theorem messages_are_closed input :
  (∀ p, decode_prepare input = Ok p → ∃ body, frame input PREPARE_BYTES = Ok body ∧
    ObjectOf ["version"; "privacy"; "id"; "credential"; "resource"; "operation"]%string body) ∧
  (∀ p, decode_prepared input = Ok p → ∃ body, frame input PREPARE_BYTES = Ok body ∧
    ObjectOf ["version"; "privacy"; "id"; "operation"; "binding"]%string body) ∧
  (∀ id f, decode_failure input id = Ok f → ∃ body, frame input PREPARE_BYTES = Ok body ∧
    ObjectOf ["version"; "id"; "code"]%string body).
Proof.
  split_and!.
  - intros p E. unfold decode_prepare in E. open_bind E as body Hb. open_bind E as x Hx%ok_or_ok.
    exists body. split; [done|by eapply prepare_closed].
  - intros p E. unfold decode_prepared in E. open_bind E as body Hb. open_bind E as x Hx%ok_or_ok.
    exists body. split; [done|by eapply prepared_closed].
  - intros id f E. unfold decode_failure in E. open_bind E as body Hb. open_bind E as x Hx%ok_or_ok.
    exists body. split; [done|by eapply failure_closed].
Qed.
End Closed.
