(* ===== verification/WireSample.v ===== *)
(** * A small JSON that keeps the laws

    Texts with two escapes, decimal numbers and nested arrays and objects: a
    concrete instance of [SerdeJson] and [SerdeText] for which [SerdeLaws] holds
    for all inputs, so that the round trip of the messages can be run.  A text
    is walked with its depth and whether it is inside a string; an array or an
    object is split where its separator stands at depth zero. *)

From S2P Require Import Prelude Str Utf8 Bounds Serde JsonGrammar WireQuery WireValue Wire WireFacts WireJson WireJsonFacts.

(** ** Strings *)
Fixpoint toy_escape (s : bytes) : bytes :=
  match s with
  | [] => []
  | c :: s => if beq c QUOTE || beq c BACKSLASH then BACKSLASH :: c :: toy_escape s else c :: toy_escape s
  end.
Definition toy_quote (s : string) : string := str_of (QUOTE :: toy_escape (str_bytes s) ++ [QUOTE]).
(** up to the closing quote, which is to be the last byte *)
Fixpoint toy_unquote (escaped : bool) (s : bytes) : option bytes :=
  match s with
  | [] => None
  | c :: r =>
    if escaped then cons c <$> toy_unquote false r
    else if beq c BACKSLASH then toy_unquote true r
    else if beq c QUOTE then match r with [] => Some [] | _ => None end
    else cons c <$> toy_unquote false r
  end.
Lemma unquote_escape s : toy_unquote false (toy_escape s ++ [QUOTE]) = Some s.
Proof.
  induction s as [|c s IH]; [done|]. cbn [toy_escape]. destruct (beq c QUOTE || beq c BACKSLASH) eqn:E; cbn [app toy_unquote].
  - change (beq BACKSLASH BACKSLASH) with true. cbn iota. by rewrite IH.
  - apply orb_false_iff in E as [-> ->]. by rewrite IH.
Qed.

(** ** Walking a text *)
Record Place := mkPlace { depth : nat; inside : bool; after_backslash : bool }.
Definition start : Place := mkPlace 0 false false.
Definition opens (c : ascii) : bool := beq c "{" || beq c "[".
Definition closes (c : ascii) : bool := beq c "}" || beq c "]".
(** the place after [c]; [None] where [sep] stands at depth zero, or a bracket
    closes that was not opened *)
Definition toy_step (sep : option ascii) (p : Place) (c : ascii) : option Place :=
  let '(mkPlace d q e) := p in
  if q then
    Some (if e then mkPlace d true false
          else if beq c BACKSLASH then mkPlace d true true
          else if beq c QUOTE then mkPlace d false false else p)
  else if beq c QUOTE then Some (mkPlace d true false)
  else if opens c then Some (mkPlace (S d) false false)
  else if closes c then match d with S d => Some (mkPlace d false false) | O => None end
  else match d, sep with O, Some x => if beq c x then None else Some p | _, _ => Some p end.
Fixpoint walk (sep : option ascii) (p : Place) (s : bytes) : option Place :=
  match s with [] => Some p | c :: s => toy_step sep p c ≫= fun p => walk sep p s end.
(** a text that comes back to where it started, with no [sep] at depth zero *)
Definition toy_whole (sep : option ascii) (s : bytes) : Prop := walk sep start s = Some start.

Lemma walk_app sep p s t : walk sep p (s ++ t) = walk sep p s ≫= fun p => walk sep p t.
Proof. revert p. induction s as [|c s IH]; intros p; [done|]. cbn. destruct (toy_step sep p c) as [p'|]; [apply IH|done]. Qed.
Definition deeper (p : Place) : Place := mkPlace (S (depth p)) (inside p) (after_backslash p).
Lemma step_deeper sep p c p' : toy_step None p c = Some p' → toy_step sep (deeper p) c = Some (deeper p').
Proof.
  destruct p as [d [] []]; cbn; intros E; repeat case_match; simplify_eq/=; done.
Qed.
Lemma walk_deeper sep p s p' : walk None p s = Some p' → walk sep (deeper p) s = Some (deeper p').
Proof.
  revert p. induction s as [|c s IH]; intros p; cbn [walk]; [by intros [= <-]|].
  intros (q & Hq & Hw)%bind_Some. rewrite (step_deeper sep _ _ _ Hq). by apply IH.
Qed.
Lemma step_any sep p c p' : toy_step sep p c = Some p' → toy_step None p c = Some p'.
Proof. destruct p as [d [] []], d, sep; cbn; intros E; repeat case_match; simplify_eq/=; done. Qed.
Lemma walk_any sep p s p' : walk sep p s = Some p' → walk None p s = Some p'.
Proof.
  revert p. induction s as [|c s IH]; intros p; cbn [walk]; [done|].
  intros (q & Hq%step_any & Hw)%bind_Some. rewrite Hq. by apply IH.
Qed.

(** *** Splitting at depth zero *)
Fixpoint toy_split (sep : ascii) (p : Place) (done_ s : bytes) : list bytes :=
  match s with
  | [] => [done_]
  | c :: s =>
    match toy_step (Some sep) p c with
    | Some p => toy_split sep p (done_ ++ [c]) s
    | None => done_ :: toy_split sep start [] s
    end
  end.
Lemma split_walk sep p q d s t : walk (Some sep) p s = Some q → toy_split sep p d (s ++ t) = toy_split sep q (d ++ s) t.
Proof.
  revert p d. induction s as [|c s IH]; intros p d; cbn [walk app]; [intros [= <-]; by rewrite app_nil_r|].
  intros (p' & Hp & Hw)%bind_Some. cbn [toy_split]. rewrite Hp, (IH _ _ Hw). by rewrite <- app_assoc.
Qed.
Definition separates (sep : ascii) : Prop := toy_step (Some sep) start sep = None.
Lemma split_sep sep s t : separates sep → toy_whole (Some sep) s →
  toy_split sep start [] (s ++ sep :: t) = s :: toy_split sep start [] t.
Proof. intros Hs Hw. rewrite (split_walk _ _ _ _ _ _ Hw). cbn [toy_split app]. by rewrite Hs. Qed.
Fixpoint joined (sep : ascii) (l : list bytes) : bytes :=
  match l with [] => [] | [s] => s | s :: l => s ++ sep :: joined sep l end.
Lemma split_joined sep l : separates sep → l ≠ [] → Forall (toy_whole (Some sep)) l → toy_split sep start [] (joined sep l) = l.
Proof.
  intros Hs Hl Hf. induction Hf as [|s l Hw Hf IH]; [done|]. destruct l as [|s' l]; cbn [joined].
  - rewrite <- (app_nil_r s) at 1. by rewrite (split_walk _ _ _ _ _ _ Hw).
  - rewrite split_sep by done. f_equal. by apply IH.
Qed.
Lemma joined_walk sep l : toy_step None start sep = Some start → Forall (toy_whole None) l → toy_whole None (joined sep l).
Proof.
  intros Hs Hf. unfold toy_whole. induction Hf as [|s l Hw Hf IH]; [done|]. destruct l as [|s' l]; [exact Hw|].
  change (joined sep (s :: s' :: l)) with (s ++ sep :: joined sep (s' :: l)). rewrite walk_app, Hw.
  cbn [mbind option_bind]. change (walk None start (sep :: joined sep (s' :: l)))
    with (toy_step None start sep ≫= fun p => walk None p (joined sep (s' :: l))). by rewrite Hs.
Qed.

(** ** The texts of values *)
Definition COMMA : ascii := ",".
Definition COLON : ascii := ":".
Definition special (c : ascii) : bool := existsb (beq c) (str_bytes "{[]},:" ++ [QUOTE]).
Definition is_value (s : bytes) : bool :=
  negb (is_nil s) && match walk (Some COMMA) start s, walk (Some COLON) start s with
    | Some (mkPlace 0 false false), Some (mkPlace 0 false false) => true
    | _, _ => false
    end.
Lemma is_value_spec s : is_value s = true ↔ s ≠ [] ∧ toy_whole (Some COMMA) s ∧ toy_whole (Some COLON) s.
Proof.
  unfold is_value, toy_whole. split.
  - intros [Hn Hw]%andb_true_iff. destruct s; [done|]. split; [done|].
    repeat case_match; try discriminate Hw; done.
  - intros (Hn & -> & ->). by destruct s.
Qed.

Lemma walk_plain s : Forall (fun c => special c = false) s → toy_whole (Some COMMA) s ∧ toy_whole (Some COLON) s.
Proof.
  unfold toy_whole. induction 1 as [|c s Hc _ [IH1 IH2]]; [done|]. unfold special in Hc. cbn in Hc.
  repeat (apply orb_false_iff in Hc as [? Hc]).
  assert (∀ sep, sep = COMMA ∨ sep = COLON → toy_step (Some sep) start c = Some start) as Hs.
  { intros sep [->| ->]; cbn; unfold opens, closes, COMMA, COLON; by repeat match goal with E : beq c _ = false |- _ => rewrite E; clear E end. }
  cbn [walk]. rewrite !Hs by auto. done.
Qed.
Lemma special_not (p : ascii → bool) c : forallb (fun x => negb (p x)) (str_bytes "{[]},:" ++ [QUOTE]) = true → p c = true → special c = false.
Proof.
  intros Hl Hp. destruct (special c) eqn:E; [|done]. unfold special in E. apply existsb_exists in E as (x & Hx & ->%beq_true).
  rewrite forallb_forall in Hl. apply Hl in Hx. by rewrite Hp in Hx.
Qed.
Lemma digit_plain c : digit c = true → special c = false.
Proof. by apply special_not. Qed.
Lemma number_value s : number s = true → is_value s = true.
Proof.
  intros Hn%number_sound. apply is_value_spec. split.
  - inversion Hn as [m i f e Hm Hi]. destruct Hi; by destruct m.
  - apply walk_plain. assert (Hds : ∀ ds, Digits ds → Forall (fun c => special c = false) ds).
    { intros ds Hds. eapply Forall_impl; [exact Hds|]. apply digit_plain. }
    inversion Hn as [m i f e Hm Hi Hf He]. repeat apply Forall_app_2.
    + destruct Hm as [->| ->]; by repeat constructor.
    + destruct Hi; constructor; auto. apply (special_not (fun c => in_range 49 57 (code c))); done.
    + destruct Hf; constructor; auto.
    + destruct He as [|c sg ds Hc Hs _ Hds']; constructor; [by destruct Hc as [->| ->]|].
      apply Forall_app_2; [destruct Hs; by repeat constructor|auto].
Qed.

(** an array or an object is a value, whatever values it is made of *)
Lemma bracketed_value o c s : opens o = true → closes c = true → beq o QUOTE = false → beq c QUOTE = false → opens c = false →
  toy_whole None s → is_value (o :: s ++ [c]) = true.
Proof.
  intros Ho Hc Hoq Hcq Hco Hs. apply is_value_spec. split; [done|].
  assert (∀ sep, toy_whole (Some sep) (o :: s ++ [c])) as Hw; [|by split].
  intros sep. unfold toy_whole. cbn [walk]. unfold toy_step at 1. cbn [start]. rewrite Hoq, Ho. cbn [mbind option_bind].
  change (mkPlace 1 false false) with (deeper start). rewrite walk_app, (walk_deeper _ _ _ _ Hs). cbn.
  by rewrite Hcq, Hco, Hc.
Qed.
Lemma quote_whole sep s : sep = COMMA ∨ sep = COLON → toy_whole (Some sep) (QUOTE :: toy_escape s ++ [QUOTE]).
Proof.
  intros Hsep. unfold toy_whole. change (walk (Some sep) (mkPlace 0 true false) (toy_escape s ++ [QUOTE]) = Some start).
  induction s as [|c s IH]; [done|]. cbn [toy_escape]. destruct (beq c QUOTE || beq c BACKSLASH) eqn:E.
  - exact IH.
  - apply orb_false_iff in E as [Eq Eb]. cbn [app walk toy_step]. rewrite Eq, Eb. exact IH.
Qed.
Lemma quote_value s : is_value (QUOTE :: toy_escape s ++ [QUOTE]) = true.
Proof. apply is_value_spec. split; [done|]. split; apply quote_whole; auto. Qed.

(** ** The instance *)
Definition toy_string (s : string) : option string :=
  match str_bytes s with c :: r => if beq c QUOTE then str_of <$> toy_unquote false r else None | [] => None end.
Definition body_of (o c : ascii) (s : string) : option (list bytes) :=
  match str_bytes s with
  | b :: r => if beq b o then s ← strip_suffix c r; Some (match s with [] => [] | _ => toy_split COMMA start [] s end) else None
  | [] => None
  end.
Definition toy_entry (s : bytes) : option (string * string) :=
  match toy_split COLON start [] s with [k; v] => k ← toy_string (str_of k); Some (k, str_of v) | _ => None end.
Definition toy_elements (s : string) : option (list string) := (fun l : list bytes => str_of <$> l) <$> body_of "[" "]" s.
Definition toy_entries (s : string) : option (list (string * string)) := body_of "{" "}" s ≫= mapM toy_entry.
#[export] Instance toy_serde : SerdeJson := {|
  from_string := toy_string;
  from_bool s := if String.eqb s "true" then Some true else if String.eqb s "false" then Some false else None;
  from_u8 s := parse_unsigned 255 (str_bytes s);
  from_usize s := parse_unsigned USIZE_MAX (str_bytes s);
  raw_from_string s := if is_value (str_bytes s) then Some s else None;
  elements := toy_elements;
  entries := toy_entries;
|}.
#[export] Instance toy_text : SerdeText := {| quote := toy_quote |}.

Lemma quote_back s : toy_string (toy_quote s) = Some s.
Proof.
  unfold toy_string, toy_quote. rewrite bytes_of_str. change (beq QUOTE QUOTE) with true. cbn iota.
  rewrite unquote_escape. cbn. by rewrite str_of_bytes.
Qed.
Lemma raw_is t : Raw t ↔ is_value (str_bytes t) = true.
Proof. unfold Raw. cbn. destruct (is_value (str_bytes t)); split; done. Qed.
Lemma bytes_app s t : str_bytes (s +:+ t) = str_bytes s ++ str_bytes t.
Proof. induction s as [|c s IH]; [done|]. exact (f_equal (cons c) IH). Qed.
Lemma concat_bytes sep l : str_bytes (String.concat (str_of [sep]) l) = joined sep (str_bytes <$> l).
Proof.
  induction l as [|s l IH]; [done|]. destruct l as [|s' l]; [done|]. cbn [fmap list_fmap joined] in *.
  rewrite <- IH. change (String.concat (str_of [sep]) (s :: s' :: l)) with (s +:+ str_of [sep] +:+ String.concat (str_of [sep]) (s' :: l)).
  by rewrite !bytes_app, bytes_of_str.
Qed.

(** *** Arrays and objects *)
Definition bracketed (o c : ascii) (l : list string) : string := String.concat "" [str_of [o]; commas l; str_of [c]].
Lemma bracketed_bytes o c l : str_bytes (bracketed o c l) = o :: joined COMMA (str_bytes <$> l) ++ [c].
Proof.
  change (bracketed o c l) with (str_of [o] +:+ "" +:+ commas l +:+ "" +:+ str_of [c])%string.
  rewrite !bytes_app, !bytes_of_str. cbn [app]. unfold commas. by rewrite (concat_bytes COMMA).
Qed.
Lemma raw_bracketed o c l : opens o = true → closes c = true → beq o QUOTE = false → beq c QUOTE = false → opens c = false →
  Forall (fun t => toy_whole None (str_bytes t)) l → Raw (bracketed o c l).
Proof.
  intros ????? Hl. apply raw_is. rewrite bracketed_bytes. apply bracketed_value; [done..|].
  apply joined_walk; [done|]. by apply Forall_fmap.
Qed.
Lemma body_bracketed o c l : Forall (fun t => str_bytes t ≠ [] ∧ toy_whole (Some COMMA) (str_bytes t)) l →
  body_of o c (bracketed o c l) = Some (str_bytes <$> l).
Proof.
  intros Hl. unfold body_of. rewrite bracketed_bytes. rewrite (proj2 (beq_true o o) eq_refl).
  rewrite (proj2 (strip_suffix_some c _ _) eq_refl). cbn [mbind option_bind]. f_equal.
  destruct Hl as [|t l [Hne Ht] Hl]; [done|].
  assert (Hs : toy_split COMMA start [] (joined COMMA (str_bytes <$> t :: l)) = str_bytes <$> t :: l).
  { apply split_joined; [done..|]. apply Forall_fmap. constructor; [done|]. eapply Forall_impl; [exact Hl|]. by intros ? []. }
  destruct (joined COMMA (str_bytes <$> t :: l)) as [|b s] eqn:E; [|done].
  destruct (str_bytes t) as [|b' s'] eqn:Et; [done|]. cbn [fmap list_fmap joined] in E. rewrite Et in E. by destruct (str_bytes <$> l).
Qed.
Lemma elements_back l : Forall Raw l → elements (array_text l) = Some l.
Proof.
  intros Hl. change (toy_elements (bracketed "[" "]" l) = Some l). unfold toy_elements. rewrite body_bracketed.
  - cbn. f_equal. rewrite <- list_fmap_compose. rewrite <- (list_fmap_id l) at 2. apply list_fmap_ext. intros. apply str_of_bytes.
  - eapply Forall_impl; [exact Hl|]. intros t (? & ? & _)%raw_is%is_value_spec. done.
Qed.
Lemma raw_any t : Raw t → toy_whole None (str_bytes t).
Proof. intros (_ & Hw & _)%raw_is%is_value_spec. by apply walk_any in Hw. Qed.
Lemma raw_array l : Forall Raw l → Raw (array_text l).
Proof.
  intros Hl. change (Raw (bracketed "[" "]" l)). apply raw_bracketed; try done. eapply Forall_impl; [exact Hl|]. apply raw_any.
Qed.
Lemma entry_bytes k v : str_bytes (entry_text (k, v)) = str_bytes (toy_quote k) ++ COLON :: str_bytes v.
Proof.
  change (entry_text (k, v)) with (toy_quote k +:+ "" +:+ str_of [COLON] +:+ "" +:+ v)%string. by rewrite !bytes_app.
Qed.
Lemma quote_bytes k : str_bytes (toy_quote k) = QUOTE :: toy_escape (str_bytes k) ++ [QUOTE].
Proof. apply bytes_of_str. Qed.
Lemma entry_whole k v : Raw v → toy_whole (Some COMMA) (str_bytes (entry_text (k, v))).
Proof.
  intros (_ & Hw & _)%raw_is%is_value_spec. unfold toy_whole. rewrite entry_bytes, quote_bytes, walk_app.
  rewrite quote_whole by auto. cbn [mbind option_bind walk]. change (toy_step (Some COMMA) start COLON) with (Some start). exact Hw.
Qed.
Lemma entry_back k v : Raw v → toy_entry (str_bytes (entry_text (k, v))) = Some (k, v).
Proof.
  intros (_ & _ & Hw)%raw_is%is_value_spec. unfold toy_entry. rewrite entry_bytes, quote_bytes, split_sep; [|done|apply quote_whole; auto].
  rewrite <- (app_nil_r (str_bytes v)), (split_walk _ _ _ _ _ _ Hw). cbn [toy_split app].
  rewrite <- quote_bytes, !str_of_bytes, quote_back. done.
Qed.
Lemma toy_entries_back l : Forall (fun e => Raw e.2) l → entries (object_text l) = Some l.
Proof.
  intros Hl. change (toy_entries (bracketed "{" "}" (entry_text <$> l)) = Some l). unfold toy_entries. rewrite body_bracketed.
  - cbn [mbind option_bind]. clear -Hl. induction Hl as [|[k v] l Hv _ IH]; [done|]. cbn [fmap list_fmap mapM].
    rewrite entry_back by done. cbn. by rewrite IH.
  - apply Forall_fmap. eapply Forall_impl; [exact Hl|]. intros [k v] Hv.
    change (str_bytes (entry_text (k, v)) ≠ [] ∧ toy_whole (Some COMMA) (str_bytes (entry_text (k, v)))). split; [|by apply entry_whole].
    rewrite entry_bytes, quote_bytes. done.
Qed.
Lemma raw_object l : Forall (fun e => Raw e.2) l → Raw (object_text l).
Proof.
  intros Hl. change (Raw (bracketed "{" "}" (entry_text <$> l))). apply raw_bracketed; try done. apply Forall_fmap.
  eapply Forall_impl; [exact Hl|]. intros [k v] Hv. cbn. eapply walk_any, entry_whole, Hv.
Qed.
Lemma unsigned_back max n m : parse_unsigned max (print_u64 n) = Some m → m = n.
Proof.
  unfold parse_unsigned. rewrite print_u64_no_sign by done. cbn [default from_option]. unfold Datatypes.id.
  rewrite parse_digits_print. cbn. destruct (n <=? max); [by intros [= ->]|done].
Qed.

#[export] Instance toy_laws : SerdeLaws.
Proof.
  constructor.
  - apply quote_back.
  - intros s. change (starts_with QUOTE (toy_quote s) = true). unfold starts_with. by rewrite quote_bytes.
  - by intros [].
  - intros n m. cbn -[number_text]. unfold number_text. rewrite bytes_of_str. apply unsigned_back.
  - intros n m. cbn -[number_text]. unfold number_text. rewrite bytes_of_str. apply unsigned_back.
  - apply elements_back.
  - apply toy_entries_back.
  - intros s. apply raw_is. change (is_value (str_bytes (toy_quote s)) = true). rewrite quote_bytes. apply quote_value.
  - intros t Ht. apply raw_is. by apply number_value.
  - intros t Ht. repeat (apply elem_of_cons in Ht as [->|Ht]; [vm_compute; reflexivity|]). by apply elem_of_nil in Ht.
  - apply raw_array.
  - apply raw_object.
  - intros t t' _. cbn. case_match; by intros [= ->].
Qed.

(** ** A sample exchange: a readiness request *)
Definition sample_id : string := "01ARZ3NDEKTSV4RRFFQ69G5FAV".
Definition hex32 (b : ascii) : string := str_of (replicate 32 b).
Definition sample_binding : DestinationBinding := mkBinding (hex32 "a") (hex32 "b") (hex32 "c") (hex32 "d").
Definition sample_prepare : Prepare :=
  mkPrepare V2 ClientGaze sample_id (str_of (replicate 64 ("a"%char : ascii))) "site" OpReadiness.
Definition sample_prepared : Prepared := mkPrepared V2 ClientGaze sample_id OpReadiness sample_binding.
Definition sample_call : Call := mkCall sample_id sample_binding (AReadiness mkEmpty).

Definition sample_raw_call : RawCall := mkRawCall V2 sample_id OpReadiness sample_binding "{}".
Definition sample_body : ResultBody := Readiness Configured.
Definition sample_raw_success : RawSuccess := mkRawSuccess V2 sample_id OpReadiness sample_binding (body_text sample_body).
Definition sample_wire : WireSerde := derived.
Definition frame_of (text : string) : bytes := str_bytes text ++ [LF].
Definition prepare_frame : bytes := frame_of (prepare_text sample_prepare).
Definition call_frame : bytes := frame_of (raw_call_text sample_raw_call).
Definition success_frame : bytes := frame_of (raw_success_text sample_raw_success).
Definition no_libs : ValueLibs := {|
  F64 := unit; f64_parse _ := None; f64_is_finite _ := false; f64_to_string _ := [];
  b64_decode _ := None; b64_encode _ := "" |}.

Definition sample_success : Success := mkSuccess sample_id OpReadiness sample_binding (Readiness Configured).
Definition sample_events : list Event :=
  [EvPrepare sample_prepare; EvPrepared sample_prepared; EvCall sample_call;
   EvSuccess success_frame; EvPrepare sample_prepare].

Lemma success_is_correlated_witness :
  @seq_run toy_serde no_libs sample_wire SNew sample_events !! 3%nat = Some (Succeeded sample_success) ∧
  @Correlated toy_serde no_libs sample_wire (take 4 sample_events) sample_success.
Proof.
  split; [vm_compute; reflexivity|].
  apply (@success_is_correlated toy_serde no_libs sample_wire sample_events 3). vm_compute. reflexivity.
Defined.

Lemma sequence_closes_witness :
  @seq_run toy_serde no_libs sample_wire SNew sample_events !! 3%nat = Some (Succeeded sample_success) ∧
  Succeeded sample_success ≠ Accepted ∧ (3 < 4)%nat ∧
  (∀ o, @seq_run toy_serde no_libs sample_wire SNew sample_events !! 4%nat = Some o → o = Refused InvalidRequest).
Proof.
  split_and!; [vm_compute; reflexivity|discriminate|lia|].
  intros o. apply (@sequence_closes toy_serde no_libs sample_wire SNew sample_events 3 (Succeeded sample_success));
    [vm_compute; reflexivity|discriminate|lia].
Defined.

Definition wire_window : Window := mkWindow TailWindow 64 4 3.
Lemma log_result_bounded_witness :
  @validate_for toy_serde no_libs sample_wire
    (LogMatches ["a match"%string] wire_window 2 [RLines]) (ALogRegex (mkRegex "match" None 1)) = Ok tt ∧
  WindowHolds wire_window ["a match"%string] ∧ (RLines ∈ [RLines] → 1 < 2).
Proof.
  pose proof (@log_result_bounded toy_serde no_libs sample_wire
    (LogMatches ["a match"%string] wire_window 2 [RLines]) (ALogRegex (mkRegex "match" None 1))
    ltac:(vm_compute; reflexivity)) as (Hw & _ & _ & Ht).
  split; [vm_compute; reflexivity|]. split; [exact Hw|exact Ht].
Defined.

(** ** A run of the messages *)
Definition wire_query : Query :=
  mkQuery "users" (Some ["id"; "note"]%string) (Some [mkPredicate "name" OpEq (Some (OScalar (SString (quoted "a 'b' , [ \"))))])
    None (Some [mkOrder "id" Desc]) (Some 5).
Definition run_call : Call := mkCall sample_id sample_binding (AQuery wire_query).
(** the value [{"k": [1, "x , y"]}], compacted *)
Definition run_json : ExactJson := mkExactJson (quoted "{'k':[1,'x , y']}").
Definition run_success : Success :=
  mkSuccess sample_id OpQuery sample_binding
    (QueryRows ["id"; "note"]%string [[VI64 "1"; VString (quoted "it's '{'")]; [VU64 "2"; VJson run_json]] [RBytes]).
Definition run_failure : Failure := mkFailure V2 sample_id Unauthorized.

Lemma messages_roundtrip_witness :
  SerdeLaws ∧ ParsedBody (su_result run_success) ∧
  (∃ out, encode_prepare sample_prepare = Ok out ∧ decode_prepare out = Ok sample_prepare) ∧
  (∃ out, encode_prepared sample_prepared = Ok out ∧ decode_prepared out = Ok sample_prepared) ∧
  (∃ out, encode_call run_call = Ok out ∧ decode_call out = Ok run_call) ∧
  (∃ out, @encode_success _ no_libs _ run_success run_call = Ok out ∧
    @decode_success _ no_libs _ out run_call = Ok run_success) ∧
  (∃ out, encode_failure run_failure = Ok out ∧ decode_failure out sample_id = Ok run_failure).
Proof.
  assert (Hp : ParsedBody (su_result run_success)).
  { repeat constructor. exists (quoted " {'k' : [1, 'x , y']} "). vm_compute. reflexivity. }
  destruct (@messages_roundtrip _ _ _ no_libs) as (H1 & H2 & H3 & H4 & H5).
  split; [exact toy_laws|]. split; [exact Hp|].
  split; [eexists; split; [vm_compute; reflexivity|apply H1; vm_compute; reflexivity]|].
  split; [eexists; split; [vm_compute; reflexivity|apply H2; vm_compute; reflexivity]|].
  split; [eexists; split; [vm_compute; reflexivity|apply H3; vm_compute; reflexivity]|].
  split; [eexists; split; [vm_compute; reflexivity|apply H4; [exact Hp|vm_compute; reflexivity]]|].
  eexists; split; [vm_compute; reflexivity|apply (H5 run_failure); vm_compute; reflexivity].
Defined.
