(* ===== verification/Private.v ===== *)
(** * The reader of trusted operator files

    Models crates/gaze-lens-server/src/private.rs.  What the kernel answers
    (metadata of the link and of the opened descriptor, the successive reads)
    is the record [FileView]; the checks on it are the code's.  The theorem
    says which files are admitted. *)

From S2P Require Import Prelude Bounds JsonGrammar.

Definition FILE_BYTES : N := 65536.

Record Metadata := mkMetadata {
  m_is_dir : bool; m_is_file : bool; m_mode : N; m_uid : N; m_ino : N; m_dev : N }.

(** [private], on Unix: [euid] is the effective user *)
Definition private (euid : N) (meta : Metadata) (directory : bool) : Result unit :=
  let expected := if directory then m_is_dir meta else m_is_file meta in
  if negb expected then Err Unavailable
  else if negb (N.land (m_mode meta) 63 =? 0) || negb (m_uid meta =? euid) then Err Unavailable
  else Ok tt.

Definition same (link opened : Metadata) : Result unit :=
  if negb (m_ino link =? m_ino opened) || negb (m_dev link =? m_dev opened)
  then Err Unavailable else Ok tt.

(** a path and the calls made on it, in order; [None] is a failed call and an
    empty read is the end of the file *)
Record FileView := mkFileView {
  fv_parent : option Metadata;
  fv_link : option Metadata;
  fv_opened : option Metadata;
  fv_reads : list (option bytes);
}.

Definition directory (euid : N) (v : FileView) : Result unit :=
  m ← ok_or (fv_parent v) Unavailable;
  private euid m true.

Definition open (euid : N) (v : FileView) : Result unit :=
  _ ← directory euid v;
  link ← ok_or (fv_link v) Unavailable;
  _ ← private euid link false;
  opened ← ok_or (fv_opened v) Unavailable;
  _ ← private euid opened false;
  same link opened.

(** the read loop into a buffer of [FILE_BYTES + 1] bytes: a read returns at
    most the space left *)
Fixpoint read_loop (buffer : bytes) (reads : list (option bytes)) : Result bytes :=
  if FILE_BYTES + 1 <=? len buffer then Ok buffer
  else match reads with
  | [] => Ok buffer
  | None :: _ => Err Unavailable
  | Some [] :: _ => Ok buffer
  | Some got :: reads =>
    read_loop (buffer ++ take (N.to_nat (FILE_BYTES + 1 - len buffer)) got) reads
  end.

Definition read (euid : N) (v : FileView) : Result bytes :=
  _ ← open euid v;
  b ← read_loop [] (fv_reads v);
  if FILE_BYTES <? len b then Err CapExceeded else Ok b.

(** ** What is admitted *)

(** owned by this process, and no permission bit of group or others set *)
Definition OwnedPrivately (euid : N) (m : Metadata) : Prop :=
  m_uid m = euid ∧ ∀ i, i < 6 → N.testbit (m_mode m) i = false.

Lemma land_63 n : N.land n 63 = 0 → ∀ i, i < 6 → N.testbit n i = false.
Proof.
  intros H i Hi. apply (f_equal (fun x => N.testbit x i)) in H.
  rewrite N.land_spec, N.bits_0, andb_false_iff in H. destruct H as [|H]; [done|]. exfalso.
  change 63 with (N.ones 6) in H. rewrite N.ones_spec_low in H by done. done.
Qed.

Lemma private_ok euid m d : private euid m d = Ok tt →
  OwnedPrivately euid m ∧ (if d then m_is_dir m else m_is_file m) = true.
Proof.
  unfold private. destruct (if d then _ else _); [|done]. cbn [negb].
  destruct (N.eqb_spec (N.land (m_mode m) 63) 0) as [Hm|]; [|done].
  destruct (N.eqb_spec (m_uid m) euid); [|done]. intros _. split; [|done]. split; [done|by apply land_63].
Qed.

(** the reads before the end of the file or an error *)
Fixpoint contents (reads : list (option bytes)) : bytes :=
  match reads with
  | Some (b :: got) :: reads => (b :: got) ++ contents reads
  | _ => []
  end.

Lemma read_loop_ok reads buffer b :
  read_loop buffer reads = Ok b → len b <= FILE_BYTES → b = buffer ++ contents reads.
Proof.
  revert buffer. induction reads as [|r reads IH]; intros buffer; cbn [read_loop contents].
  - destruct (_ <=? _); intros [= <-] _; by rewrite app_nil_r.
  - destruct (N.leb_spec (FILE_BYTES + 1) (len buffer)); [intros [= <-]; lia|].
    destruct r as [[|x got]|]; [intros [= <-] _; by rewrite app_nil_r| |done].
    intros E Hl. destruct (decide (len (x :: got) <= FILE_BYTES + 1 - len buffer)) as [Hs|Hs].
    + rewrite take_ge in E by (unfold len in *; lia). rewrite (IH _ E Hl). by rewrite app_assoc.
    + exfalso. set (n := N.to_nat _) in E.
      assert (Hn : len (take n (x :: got)) = FILE_BYTES + 1 - len buffer)
        by (subst n; unfold len in *; rewrite length_take; lia).
      assert (Hb : len (buffer ++ take n (x :: got)) = FILE_BYTES + 1) by (rewrite len_app; lia).
      destruct reads; cbn [read_loop] in E; rewrite Hb in E; cbn in E; injection E as <-; lia.
Qed.

(** A trusted file is read only if its directory and the file are owned
    by this process with no access for group or others, the file is a regular
    one, and the opened descriptor is the inode that was inspected; then the
    result is the whole content, at most [FILE_BYTES] of it. *)
Theorem read_admits euid v b :
  read euid v = Ok b →
  ∃ parent link opened,
    fv_parent v = Some parent ∧ fv_link v = Some link ∧ fv_opened v = Some opened ∧
    OwnedPrivately euid parent ∧ m_is_dir parent = true ∧
    OwnedPrivately euid opened ∧ m_is_file link = true ∧ m_is_file opened = true ∧
    (m_ino link, m_dev link) = (m_ino opened, m_dev opened) ∧
    b = contents (fv_reads v) ∧ len b <= FILE_BYTES.
Proof.
  unfold read, open, directory. intros E. open_bind E as [] Ho.
  open_bind Ho as [] Hd. open_bind Hd as parent Hp%ok_or_ok. apply private_ok in Hd as [Hpo Hpd].
  open_bind Ho as link Hl%ok_or_ok. open_bind Ho as [] Hlp%private_ok. open_bind Ho as opened Hop%ok_or_ok.
  open_bind Ho as [] Hopp%private_ok. open_bind E as b' Hb.
  destruct (N.ltb_spec FILE_BYTES (len b')) as [|Hlen]; [discriminate|]. injection E as <-.
  exists parent, link, opened. unfold same in Ho.
  destruct (N.eqb_spec (m_ino link) (m_ino opened)) as [Ei|]; [|discriminate].
  destruct (N.eqb_spec (m_dev link) (m_dev opened)) as [Ed|]; [|discriminate].
  destruct Hlp, Hopp. rewrite Ei, Ed. split_and!; try done. by apply (read_loop_ok _ [] b').
Qed.

Definition sample_meta (dir : bool) : Metadata := mkMetadata dir (negb dir) 384 1000 7 1.
Lemma read_admits_witness :
  read 1000 (mkFileView (Some (sample_meta true)) (Some (sample_meta false)) (Some (sample_meta false))
    [Some (str_bytes "ab"); Some (str_bytes "c"); Some []]) = Ok (str_bytes "abc") ∧
  OwnedPrivately 1000 (sample_meta false).
Proof.
  split; [vm_compute; reflexivity|].
  destruct (read_admits 1000 (mkFileView (Some (sample_meta true)) (Some (sample_meta false))
    (Some (sample_meta false)) [Some (str_bytes "ab"); Some (str_bytes "c"); Some []]) (str_bytes "abc")
    ltac:(vm_compute; reflexivity)) as (p & l & o & _ & _ & Ho & _ & _ & Hown & _).
  injection Ho as <-. exact Hown.
Defined.
