(* ===== verification/Auth.v ===== *)
(** * Connection-pinned authority

    Models crates/gaze-lens-server/src/auth.rs: the authority file, its parse
    with every cross-check, the identities it enrolls, and the two decisions
    [prepare] and [revalidate] over its grants.  SHA-256 and the serde readers
    are the class [AuthLibs].  The theorem decides [prepare] for every parsed
    authority. *)

From S2P Require Import Prelude Str Bounds Serde JsonGrammar Wire.

(** [crate::hex]: [n] lower-case hex digits *)
Definition hex (s : string) (n : N) : bool :=
  (slen s =? n) && forallb (fun b => is_lower_hex (code b)) (str_bytes s).

Inductive ResourceClass := Database | Log.
#[global] Instance ResourceClass_eq_dec : EqDecision ResourceClass.
Proof. solve_decision. Defined.

Record Principal := mkPrincipal { p_id : string; p_generation : string; p_sha256 : string }.
#[global] Instance Principal_eq_dec : EqDecision Principal.
Proof. solve_decision. Defined.
Record Resource := mkResource {
  r_alias : string; r_id : string; r_generation : string; r_class : ResourceClass }.
#[global] Instance Resource_eq_dec : EqDecision Resource.
Proof. solve_decision. Defined.
Record Grant := mkGrant {
  g_principal : string; g_resource : string; g_operation : Operation;
  g_enabled : bool; g_expires_unix : N }.
Record Authority := mkAuthority {
  a_principals : list Principal; a_resources : list Resource; a_grants : list Grant }.

(** the identities the history enrolls (history.rs) *)
Inductive Kind := KPrincipal | KResource.
#[global] Instance Kind_eq_dec : EqDecision Kind.
Proof. solve_decision. Defined.
Record Identity := mkIdentity {
  id_kind : Kind; id_id : string; id_generation : string; id_fingerprint : string }.
#[global] Instance Identity_eq_dec : EqDecision Identity.
Proof. solve_decision. Defined.

Record Pinned := mkPinned {
  pin_principal : Principal; pin_resource : Resource;
  pin_operation : Operation; pin_binding : DestinationBinding }.

Class AuthLibs := {
  (** [format!("{:x}", Sha256::digest(..))] *)
  sha256_hex : bytes → string;
  (** [serde_json::from_slice::<Authority>] *)
  authority_from_slice : bytes → option Authority;
  (** [serde_json::to_vec] of a principal and of a resource *)
  principal_to_vec : Principal → option bytes;
  resource_to_vec : Resource → option bytes;
}.

(** [for (i, x) in xs.iter().enumerate()] where the body looks at [xs[..i]] *)
Fixpoint each_with_before {A} (f : list A → A → Result unit) (before xs : list A) : Result unit :=
  match xs with
  | [] => Ok tt
  | x :: xs => _ ← f before x; each_with_before f (before ++ [x]) xs
  end.
Definition deny (bad : bool) (e : Error) : Result unit := if bad then Err e else Ok tt.

Definition principal_check (before : list Principal) (p : Principal) : Result unit :=
  deny (negb (hex (p_id p) 32) || negb (hex (p_generation p) 32) || negb (hex (p_sha256 p) 64) ||
        existsb (fun x => String.eqb (p_id x) (p_id p) || String.eqb (p_sha256 x) (p_sha256 p)) before)
    Unauthorized.

Definition resource_check (principals : list Principal) (before : list Resource) (r : Resource) : Result unit :=
  _ ← configured_id (r_alias r);
  deny (negb (hex (r_id r) 32) || negb (hex (r_generation r) 32) ||
        existsb (fun p => String.eqb (p_id p) (r_id r)) principals ||
        existsb (fun x => String.eqb (r_id x) (r_id r) || String.eqb (r_alias x) (r_alias r)) before)
    Unauthorized.

Definition same_grant (x g : Grant) : bool :=
  String.eqb (g_principal x) (g_principal g) && String.eqb (g_resource x) (g_resource g) &&
  bool_decide (g_operation x = g_operation g).

Definition grant_check (a : Authority) (before : list Grant) (g : Grant) : Result unit :=
  deny (negb (existsb (fun p => String.eqb (p_id p) (g_principal g)) (a_principals a)) ||
        negb (existsb (fun r => String.eqb (r_id r) (g_resource g)) (a_resources a)) ||
        existsb (fun x => same_grant x g) before)
    Unauthorized.

(** [sort_by(|a, b| a.id.cmp(&b.id))]: a stable insertion sort *)
Fixpoint insert_identity (x : Identity) (xs : list Identity) : list Identity :=
  match xs with
  | [] => [x]
  | y :: ys => if str_lt (id_id y) (id_id x) then y :: insert_identity x ys else x :: xs
  end.
Definition sort_identities (xs : list Identity) : list Identity := foldr insert_identity [] xs.

Section WithAuth.
Context `{SerdeJson, AuthLibs}.

Definition authority_parse (input : bytes) : Result Authority :=
  _ ← Bounds.json unescape input 65536;
  value ← ok_or (authority_from_slice input) Unauthorized;
  _ ← cap (len (a_principals value)) 128;
  _ ← cap (len (a_resources value)) 128;
  _ ← cap (len (a_grants value)) 1024;
  _ ← each_with_before principal_check [] (a_principals value);
  _ ← each_with_before (resource_check (a_principals value)) [] (a_resources value);
  _ ← each_with_before (grant_check value) [] (a_grants value);
  Ok value.

Definition fingerprint {A} (to_vec : A → option bytes) (value : A) : Result string :=
  b ← ok_or (to_vec value) InternalFailure; Ok (sha256_hex b).

Definition principal_identity (p : Principal) : Result Identity :=
  f ← fingerprint principal_to_vec p; Ok (mkIdentity KPrincipal (p_id p) (p_generation p) f).
Definition resource_identity (r : Resource) : Result Identity :=
  f ← fingerprint resource_to_vec r; Ok (mkIdentity KResource (r_id r) (r_generation r) f).

Fixpoint collect {A B} (f : A → Result B) (xs : list A) : Result (list B) :=
  match xs with
  | [] => Ok []
  | x :: xs => y ← f x; ys ← collect f xs; Ok (y :: ys)
  end.

Definition identities (a : Authority) : Result (list Identity) :=
  ps ← collect principal_identity (a_principals a);
  rs ← collect resource_identity (a_resources a);
  Ok (sort_identities (ps ++ rs)).

Definition grant (a : Authority) (p r : string) (op : Operation) (now : N) : Result unit :=
  if existsb (fun g => String.eqb (g_principal g) p && String.eqb (g_resource g) r &&
                       bool_decide (g_operation g = op) && g_enabled g && (now <? g_expires_unix g))
       (a_grants a)
  then Ok tt else Err Unauthorized.

(** the fold over all principals: the last match *)
Definition find_principal (digest : string) (ps : list Principal) : option Principal :=
  fold_left (fun found x => if String.eqb (p_sha256 x) digest then Some x else found) ps None.

Definition binding_of (p : Principal) (r : Resource) : DestinationBinding :=
  mkBinding (p_id p) (p_generation p) (r_id r) (r_generation r).

Definition prepare (a : Authority) (p : Prepare) (now : N) : Result Pinned :=
  let digest := sha256_hex (str_bytes (pr_credential p)) in
  principal ← ok_or (find_principal digest (a_principals a)) Unauthorized;
  resource ← ok_or (List.find (fun x => String.eqb (r_alias x) (pr_resource p)) (a_resources a)) Unauthorized;
  _ ← grant a (p_id principal) (r_id resource) (pr_operation p) now;
  Ok (mkPinned principal resource (pr_operation p) (binding_of principal resource)).

Definition revalidate (a : Authority) (pin : Pinned) (now : N) : Result unit :=
  if negb (existsb (fun p => bool_decide (p = pin_principal pin)) (a_principals a)) ||
     negb (existsb (fun r => bool_decide (r = pin_resource pin)) (a_resources a))
  then Err BindingChanged
  else grant a (p_id (pin_principal pin)) (r_id (pin_resource pin)) (pin_operation pin) now.
End WithAuth.

(** ** What authorization means *)

(** an enabled grant for exactly this principal, resource and operation that
    has not expired *)
Definition Granted (a : Authority) (p r : string) (op : Operation) (now : N) : Prop :=
  ∃ g, g ∈ a_grants a ∧ g_principal g = p ∧ g_resource g = r ∧ g_operation g = op ∧
    g_enabled g = true ∧ now < g_expires_unix g.

(** the invariant a parsed authority has *)
Record WellFormed (a : Authority) : Prop := {
  wf_principal_ids : NoDup (p_id <$> a_principals a);
  wf_digests : NoDup (p_sha256 <$> a_principals a);
  wf_aliases : NoDup (r_alias <$> a_resources a);
  wf_ids : NoDup ((p_id <$> a_principals a) ++ (r_id <$> a_resources a));
  wf_grants : ∀ g, g ∈ a_grants a →
    g_principal g ∈ p_id <$> a_principals a ∧ g_resource g ∈ r_id <$> a_resources a;
}.

Lemma existsb_false {A} (f : A → bool) l : existsb f l = false ↔ ∀ x, x ∈ l → f x = false.
Proof.
  rewrite <- not_true_iff_false, existsb_exists. split.
  - intros Hn x Hx. apply not_true_iff_false. intros Hf. apply Hn. exists x. by rewrite <- list_elem_of_In.
  - intros Hall (x & Hx & Hf). rewrite <- list_elem_of_In in Hx. apply Hall in Hx. congruence.
Qed.

Lemma existsb_true {A} (f : A → bool) l : existsb f l = true ↔ ∃ x, x ∈ l ∧ f x = true.
Proof. rewrite existsb_exists. by setoid_rewrite list_elem_of_In. Qed.

Lemma deny_ok b e u : deny b e = Ok u ↔ b = false.
Proof. destruct b, u; naive_solver. Qed.

Lemma each_with_before_ok {A} (f : list A → A → Result unit) before xs :
  each_with_before f before xs = Ok tt ↔
  ∀ l x r, xs = l ++ x :: r → f (before ++ l) x = Ok tt.
Proof.
  revert before. induction xs as [|y xs IH]; intros before; cbn [each_with_before].
  - split; [|done]. intros _ l x r E. by destruct l.
  - rewrite check_then, IH. split.
    + intros [Hy Hxs] [|z l] x r E; injection E as -> ->; [by rewrite app_nil_r|].
      rewrite cons_middle, app_assoc. by eapply Hxs.
    + intros Hall. split; [specialize (Hall [] y xs eq_refl); by rewrite app_nil_r in Hall|].
      intros l x r ->. specialize (Hall (y :: l) x r eq_refl). by rewrite cons_middle, app_assoc in Hall.
Qed.

(** a key that differs from all before it at each position is a key *)
Lemma distinct_before {A} (key : A → string) xs :
  (∀ l x r, xs = l ++ x :: r → ∀ y, y ∈ l → key y ≠ key x) → NoDup (key <$> xs).
Proof.
  induction xs as [|x xs IH] using rev_ind; intros Hd; [constructor|].
  rewrite fmap_app. apply NoDup_app. split_and!.
  - apply IH. intros l y r -> z Hz. eapply (Hd l y (r ++ [x])); [by rewrite <- app_assoc|done].
  - intros k (y & -> & Hy)%list_elem_of_fmap [Hk|Hk]%elem_of_cons; [|by apply not_elem_of_nil in Hk].
    by eapply Hd.
  - apply NoDup_singleton.
Qed.

(** ** A parsed authority is well formed *)
Section Facts.
Context `{SerdeJson, AuthLibs}.

Lemma principal_checks ps :
  each_with_before principal_check [] ps = Ok tt → NoDup (p_id <$> ps) ∧ NoDup (p_sha256 <$> ps).
Proof.
  rewrite each_with_before_ok. intros Hc.
  assert (Hb : ∀ l x r, ps = l ++ x :: r → ∀ y, y ∈ l → p_id y ≠ p_id x ∧ p_sha256 y ≠ p_sha256 x).
  { intros l x r E y Hy. apply Hc, deny_ok in E. apply orb_false_iff in E as [_ E].
    rewrite existsb_false in E. apply E, orb_false_iff in Hy as [H1 H2].
    by rewrite String.eqb_neq in H1, H2. }
  split; apply distinct_before; intros; by eapply Hb.
Qed.

Lemma resource_checks ps rs :
  each_with_before (resource_check ps) [] rs = Ok tt →
  NoDup (r_id <$> rs) ∧ NoDup (r_alias <$> rs) ∧ ∀ r p, r ∈ rs → p ∈ ps → p_id p ≠ r_id r.
Proof.
  rewrite each_with_before_ok. intros Hc.
  assert (Hb : ∀ l x r, rs = l ++ x :: r →
    (∀ y, y ∈ l → r_id y ≠ r_id x ∧ r_alias y ≠ r_alias x) ∧ ∀ p, p ∈ ps → p_id p ≠ r_id x).
  { intros l x r E. apply Hc, check_then in E as [_ E%deny_ok].
    apply orb_false_iff in E as [E Eb]. apply orb_false_iff in E as [_ Ep].
    rewrite existsb_false in Eb. rewrite existsb_false in Ep. split.
    - intros y Hy. apply Eb, orb_false_iff in Hy as [H1 H2]. by rewrite String.eqb_neq in H1, H2.
    - intros p Hp. apply Ep in Hp. by rewrite String.eqb_neq in Hp. }
  split_and!.
  - apply distinct_before. intros l x r E y Hy. by apply (proj1 (Hb l x r E)).
  - apply distinct_before. intros l x r E y Hy. by apply (proj1 (Hb l x r E)).
  - intros r p Hr Hp. apply list_elem_of_split in Hr as (l1 & l2 & E). by apply (proj2 (Hb _ _ _ E)).
Qed.

Lemma parse_well_formed input a : authority_parse input = Ok a → WellFormed a.
Proof.
  unfold authority_parse. intros E. open_bind E as [] _. open_bind E as v _. open_bind E as [] _.
  open_bind E as [] _. open_bind E as [] _. open_bind E as [] Hp%principal_checks.
  open_bind E as [] Hr%resource_checks. open_bind E as [] Hg. injection E as ->.
  destruct Hp as [Hp1 Hp2]. destruct Hr as (Hr1 & Hr2 & Hr3). split; try done.
  - apply NoDup_app. split_and!; [done| |done].
    intros k (p & -> & Hp)%list_elem_of_fmap (r & E & Hr)%list_elem_of_fmap. by eapply Hr3.
  - rewrite each_with_before_ok in Hg. intros g (l1 & l2 & E)%list_elem_of_split.
    apply Hg, deny_ok in E. apply orb_false_iff in E as [E _].
    apply orb_false_iff in E as [E1 E2]. apply negb_false_iff, existsb_true in E1 as (p & Hp & Ep).
    apply negb_false_iff, existsb_true in E2 as (r & Hr & Er). apply String.eqb_eq in Ep, Er.
    split; apply list_elem_of_fmap; eauto.
Qed.

Lemma grant_ok a p r op now u : grant a p r op now = Ok u ↔ Granted a p r op now.
Proof.
  unfold grant, Granted. destruct (existsb _ _) eqn:E.
  - rewrite existsb_true in E. destruct u. split; [intros _|done]. destruct E as (g & Hg & Hc).
    rewrite !andb_true_iff, !String.eqb_eq, bool_decide_eq_true, N.ltb_lt in Hc. naive_solver.
  - rewrite existsb_false in E. split; [done|]. intros (g & Hg & <- & <- & <- & Hen & Hexp).
    apply E in Hg. rewrite !String.eqb_refl, bool_decide_true, Hen in Hg by done. cbn in Hg.
    apply N.ltb_ge in Hg. lia.
Qed.

Lemma grant_err a p r op now e : grant a p r op now = Err e → e = Unauthorized ∧ ¬ Granted a p r op now.
Proof.
  intros E. split; [|rewrite <- (grant_ok a p r op now tt); congruence].
  unfold grant in E. destruct (existsb _ _); congruence.
Qed.

(** the fold finds the principal of a digest when digests are distinct *)
Lemma find_principal_spec digest ps p :
  NoDup (p_sha256 <$> ps) → find_principal digest ps = Some p ↔ p ∈ ps ∧ p_sha256 p = digest.
Proof.
  unfold find_principal. induction ps as [|x ps IH] using rev_ind; intros Hd.
  - cbn. split; [done|]. by intros [?%not_elem_of_nil _].
  - rewrite fmap_app in Hd. apply NoDup_app in Hd as (Hps & Hx & _). rewrite fold_left_app. cbn [fold_left].
    destruct (String.eqb_spec (p_sha256 x) digest) as [Ex|Ex].
    + rewrite elem_of_app, list_elem_of_singleton. split; [intros [= ->]; auto|].
      intros [[Hp| ->] Ep]; [|done]. exfalso. eapply Hx; [apply list_elem_of_fmap; by exists p|].
      apply list_elem_of_singleton. congruence.
    + rewrite IH by done. rewrite elem_of_app, list_elem_of_singleton. naive_solver.
Qed.

Lemma find_alias_spec alias rs r :
  NoDup (r_alias <$> rs) →
  List.find (fun x => String.eqb (r_alias x) alias) rs = Some r ↔ r ∈ rs ∧ r_alias r = alias.
Proof.
  induction rs as [|x rs IH]; intros Hd; cbn [List.find fmap list_fmap].
  - split; [done|]. by intros [?%not_elem_of_nil _].
  - cbn [fmap list_fmap] in Hd. apply NoDup_cons in Hd as [Hx Hrs].
    destruct (String.eqb_spec (r_alias x) alias) as [Ex|Ex].
    + rewrite elem_of_cons. split; [intros [= ->]; auto|]. intros [[->|Hr] Er]; [done|].
      exfalso. apply Hx. rewrite Ex, <- Er. apply list_elem_of_fmap. by exists r.
    + rewrite IH by done. rewrite elem_of_cons. naive_solver.
Qed.

(** C12. Prepare is exactly the authorization policy: with an authority that
    was parsed, a request is pinned if and only if its credential hashes to
    the digest of a configured principal, its resource names a configured
    alias, and an enabled, unexpired grant covers that principal, resource and
    operation; the pin holds those very objects and their binding. *)
Theorem prepare_decides_authorization input a p now pin :
  authority_parse input = Ok a →
  prepare a p now = Ok pin ↔
  ∃ pr r, pr ∈ a_principals a ∧ p_sha256 pr = sha256_hex (str_bytes (pr_credential p)) ∧
    r ∈ a_resources a ∧ r_alias r = pr_resource p ∧
    Granted a (p_id pr) (r_id r) (pr_operation p) now ∧
    pin = mkPinned pr r (pr_operation p) (binding_of pr r).
Proof.
  intros Hwf%parse_well_formed. unfold prepare. split.
  - intros E. open_bind E as pr Hp%ok_or_ok. apply find_principal_spec in Hp as [Hp Hd]; [|apply Hwf].
    open_bind E as r Hr%ok_or_ok. apply find_alias_spec in Hr as [Hr Ha]; [|apply Hwf].
    open_bind E as [] Hg%grant_ok. injection E as <-. exists pr, r. done.
  - intros (pr & r & Hp & Hd & Hr & Ha & Hg & ->).
    rewrite (proj2 (find_principal_spec _ _ pr (wf_digests _ Hwf))) by done. cbn [ok_or mbind result_bind].
    rewrite (proj2 (find_alias_spec _ _ r (wf_aliases _ Hwf))) by done. cbn [ok_or mbind result_bind].
    by rewrite (proj2 (grant_ok _ _ _ _ _ tt) Hg).
Qed.

Lemma revalidate_ok a pin now :
  revalidate a pin now = Ok tt ↔
  pin_principal pin ∈ a_principals a ∧ pin_resource pin ∈ a_resources a ∧
  Granted a (p_id (pin_principal pin)) (r_id (pin_resource pin)) (pin_operation pin) now.
Proof.
  unfold revalidate. rewrite <- grant_ok with (u := tt).
  destruct (existsb _ (a_principals a)) eqn:Ep; destruct (existsb _ (a_resources a)) eqn:Er; cbn [negb orb].
  - apply existsb_true in Ep as (x & ? & ->%bool_decide_eq_true).
    apply existsb_true in Er as (y & ? & ->%bool_decide_eq_true). naive_solver.
  - rewrite existsb_false in Er. split; [done|]. intros (_ & Hr & _). apply Er in Hr.
    by rewrite bool_decide_true in Hr.
  - rewrite existsb_false in Ep. split; [done|]. intros (Hp & _). apply Ep in Hp.
    by rewrite bool_decide_true in Hp.
  - rewrite existsb_false in Ep. split; [done|]. intros (Hp & _). apply Ep in Hp.
    by rewrite bool_decide_true in Hp.
Qed.
End Facts.

(** ** A sample authority *)
Definition rep (n : nat) (c : ascii) : string := str_of (replicate n c).
Definition sample_principal : Principal := mkPrincipal (rep 32 "a") (rep 32 "b") (rep 64 "c").
Definition sample_resource : Resource := mkResource "site" (rep 32 "c") (rep 32 "d") Database.
Definition sample_authority : Authority := mkAuthority [sample_principal] [sample_resource]
  [mkGrant (rep 32 "a") (rep 32 "c") OpReadiness true 100].
(** a digest that maps every credential to the sample one *)
Definition sample_auth_libs : AuthLibs := {|
  sha256_hex _ := rep 64 "c";
  authority_from_slice _ := Some sample_authority;
  principal_to_vec p := Some (str_bytes (p_id p));
  resource_to_vec r := Some (str_bytes (r_id r));
|}.
Definition sample_request : Prepare :=
  mkPrepare V2 ClientGaze "01ARZ3NDEKTSV4RRFFQ69G5FAV" (rep 64 "f") "site" OpReadiness.

Lemma prepare_decides_authorization_witness :
  @authority_parse sample_serde sample_auth_libs (str_bytes "{}") = Ok sample_authority ∧
  ∃ pin, @prepare sample_auth_libs sample_authority sample_request 99 = Ok pin ∧
    ∃ pr r, pr ∈ a_principals sample_authority ∧
      p_sha256 pr = @sha256_hex sample_auth_libs (str_bytes (pr_credential sample_request)) ∧
      r ∈ a_resources sample_authority ∧ r_alias r = "site"%string ∧
      Granted sample_authority (p_id pr) (r_id r) OpReadiness 99 ∧
      pin = mkPinned pr r OpReadiness (binding_of pr r).
Proof.
  split; [vm_compute; reflexivity|]. eexists. split; [vm_compute; reflexivity|].
  apply (proj1 (@prepare_decides_authorization sample_serde sample_auth_libs (str_bytes "{}")
    sample_authority sample_request 99 _ ltac:(vm_compute; reflexivity))).
  vm_compute. reflexivity.
Defined.
