(* ===== verification/HistoryFacts.v ===== *)
(** * Correctness of the identity ledger

    Enrollment keeps the ledger valid and append-only and activates exactly
    what was requested; reopening it with the same authority writes nothing. *)

From S2P Require Import Prelude Str Bounds Serde JsonGrammar Wire Private Auth History.

(** ** Valid ledgers *)
Definition ValidEntries (es : list Entry) : Prop :=
  ∀ l e r, es = l ++ e :: r →
    shape_ok (e_identity e) = true ∧ ∀ old, old ∈ l → clashes (e_identity e) old = false.

Lemma ledger_validate_ok l :
  ledger_validate l = Ok tt ↔ l_version l = 1 ∧ len (l_entries l) <= 1024 ∧ ValidEntries (l_entries l).
Proof.
  unfold ledger_validate, ValidEntries. destruct (N.eqb_spec (l_version l) 1); cbn [negb]; [|naive_solver].
  rewrite check_then, cap_ok, each_with_before_ok. unfold entry_check. cbn [app].
  assert (Hd : ∀ e before, deny (negb (shape_ok (e_identity e)) || existsb (clashes (e_identity e)) before) Unavailable = Ok tt
    ↔ shape_ok (e_identity e) = true ∧ ∀ old, old ∈ before → clashes (e_identity e) old = false).
  { intros e0 before. by rewrite deny_ok, orb_false_iff, negb_false_iff, existsb_false. }
  setoid_rewrite Hd. naive_solver.
Qed.

Lemma clashes_false v old :
  clashes v old = false ↔
  id_generation (e_identity old) ≠ id_generation v ∧
  (id_id (e_identity old) = id_id v → id_kind (e_identity old) = id_kind v ∧ e_active old = false).
Proof.
  unfold clashes. rewrite orb_false_iff, String.eqb_neq, andb_false_iff, String.eqb_neq, orb_false_iff,
    negb_false_iff, bool_decide_eq_true. split; [naive_solver|].
  intros [Hg Hi]. split; [done|].
  destruct (decide (id_id (e_identity old) = id_id v)) as [E|E]; [right; by apply Hi|by left].
Qed.

Lemma valid_snoc es e :
  ValidEntries (es ++ [e]) ↔
  ValidEntries es ∧ shape_ok (e_identity e) = true ∧ ∀ old, old ∈ es → clashes (e_identity e) old = false.
Proof.
  split.
  - intros Hv. split; [|by apply (Hv es e [])]. intros l x r ->.
    apply (Hv l x (r ++ [e])). by rewrite <- app_assoc.
  - intros [Hv He] l x r E. destruct r as [|y r _] using rev_ind.
    + apply app_inj_tail in E as [-> ->]. done.
    + rewrite app_comm_cons, app_assoc in E. apply app_inj_tail in E as [-> _]. by eapply Hv.
Qed.

(** the same identity, active only if it was *)
Definition Weaker (e e' : Entry) : Prop :=
  e_identity e' = e_identity e ∧ (e_active e' = true → e_active e = true).

#[global] Instance weaker_preorder : PreOrder Weaker.
Proof. split; [by intros e|]. intros a b c [? ?] [? ?]. split; [congruence|auto]. Qed.

Lemma clashes_weaker v old old' : Weaker old old' → clashes v old = false → clashes v old' = false.
Proof.
  intros [Hi Ha]. rewrite !clashes_false, Hi. intros [? Hc]. split; [done|]. intros ?.
  destruct Hc as [? Hc]; [done|]. split; [done|]. destruct (e_active old') eqn:E; [|done].
  rewrite Ha in Hc; done.
Qed.

Lemma valid_weaker es es' : Forall2 Weaker es es' → ValidEntries es → ValidEntries es'.
Proof.
  intros Hw Hv l e r ->. apply Forall2_app_inv_r in Hw as (l0 & r0 & Hl & Hr & ->).
  apply Forall2_cons_inv_r in Hr as (e0 & r1 & [Hi _] & _ & ->).
  destruct (Hv l0 e0 r1 eq_refl) as [Hs Hc]. rewrite Hi. split; [done|].
  intros old' Hin.
  apply list_elem_of_lookup in Hin as (i & Hold). destruct (Forall2_lookup_r _ _ _ _ _ Hl Hold) as (old & Ho & Hw).
  eapply clashes_weaker; [exact Hw|]. apply Hc. by eapply list_elem_of_lookup_2.
Qed.

Lemma alter_weaker i es : Forall2 Weaker es (alter deactivate i es).
Proof.
  revert i. induction es as [|e es IH]; intros [|i]; cbn; [constructor|constructor| |].
  - constructor; [done|]. by apply Forall_Forall2_diag, Forall_true.
  - by constructor.
Qed.

Lemma retire_weaker requested es : Forall2 Weaker es (retire requested <$> es).
Proof.
  induction es as [|e es IH]; cbn; [constructor|]. constructor; [|done].
  unfold retire. by destruct (_ && _).
Qed.

(** *** The last entry of an id *)
Lemma rposition_some id es i :
  rposition id es = Some i →
  ∃ e, es !! i = Some e ∧ id_id (e_identity e) = id ∧
    ∀ j e', (i < j)%nat → es !! j = Some e' → id_id (e_identity e') ≠ id.
Proof.
  revert i. induction es as [|e es IH]; intros i; cbn [rposition]; [done|].
  destruct (rposition id es) as [k|] eqn:Er.
  - intros [= <-]. destruct (IH k eq_refl) as (x & Hx & Ex & Hl). exists x. split_and!; [done|done|].
    intros [|j] e' Hj He'; [lia|]. eapply Hl; [|exact He']. lia.
  - destruct (String.eqb_spec (id_id (e_identity e)) id) as [E|E]; [|done]. intros [= <-].
    exists e. split_and!; [done|done|]. intros [|j] e' Hj He'; [lia|]. cbn in He'.
    clear IH Hj. revert j He'. induction es as [|y es IHes]; intros j He'; [done|].
    cbn [rposition] in Er. destruct (rposition id es) eqn:E2; [done|].
    destruct (String.eqb_spec (id_id (e_identity y)) id); [done|]. destruct j as [|j]; [by injection He' as <-|].
    by eapply IHes.
Qed.

Lemma rposition_none id es : rposition id es = None → ∀ e, e ∈ es → id_id (e_identity e) ≠ id.
Proof.
  induction es as [|e es IH]; cbn [rposition]; intros Hr x Hx; [by apply not_elem_of_nil in Hx|].
  destruct (rposition id es) eqn:E; [done|].
  destruct (String.eqb_spec (id_id (e_identity e)) id); [done|].
  apply elem_of_cons in Hx as [->|Hx]; [done|]. by apply IH.
Qed.

(** ** One requested identity *)
Definition enrolled_entry (id : Identity) : Entry := mkEntry id true.

(** what an iteration that adds an entry does *)
Record Enrolled (id : Identity) (es mid es' : list Entry) : Prop := {
  en_weaker : Forall2 Weaker es mid;
  en_entries : es' = mid ++ [enrolled_entry id];
  en_len : len es' <= 1024;
  en_valid : ValidEntries es';
  en_kept : ∀ e, e ∈ es → id_id (e_identity e) ≠ id_id id → e ∈ mid;
}.

Lemma valid_lookup es i j e e' :
  ValidEntries es → es !! i = Some e → es !! j = Some e' → (i < j)%nat → clashes (e_identity e') e = false.
Proof.
  intros Hv Hi Hj Hl. apply list_elem_of_split_length in Hj as (l & r & -> & ->).
  apply (Hv l e' r eq_refl). rewrite lookup_app_l in Hi by done. by eapply list_elem_of_lookup_2.
Qed.

Lemma alter_kept (i : nat) (es : list Entry) e x :
  es !! i = Some x → e ∈ es → e ≠ x → e ∈ alter deactivate i es.
Proof.
  intros Hx Hin Hne. apply list_elem_of_lookup in Hin as (j & Hj). apply list_elem_of_lookup. exists j.
  rewrite list_lookup_alter_ne; [done|]. intros ->. congruence.
Qed.

(** the generation is new, and whoever had the id before is of the same kind
    and not active *)
Lemma fresh_valid id es mid :
  ValidEntries es → shape_ok id = true → Forall2 Weaker es mid →
  existsb (fun e => String.eqb (id_generation (e_identity e)) (id_generation id)) es = false →
  (∀ e, e ∈ mid → id_id (e_identity e) = id_id id → id_kind (e_identity e) = id_kind id ∧ e_active e = false) →
  ValidEntries (mid ++ [enrolled_entry id]).
Proof.
  intros Hv Hs Hw Hg Hid. apply valid_snoc. split; [by eapply valid_weaker|]. split; [done|].
  intros old Hold. apply clashes_false. split; [|by apply Hid].
  apply list_elem_of_lookup in Hold as (i & Ho). destruct (Forall2_lookup_r _ _ _ _ _ Hw Ho) as (o & Ho' & Hi & _).
  rewrite Hi. rewrite existsb_false in Hg. apply String.eqb_neq, (Hg o). by eapply list_elem_of_lookup_2.
Qed.

Lemma enroll_new_spec previous id es es' :
  ValidEntries es → shape_ok id = true → previous = rposition (id_id id) es →
  (∀ i old, previous = Some i → es !! i = Some old → id_kind (e_identity old) = id_kind id) →
  enroll_new previous id es = Ok es' → ∃ mid, Enrolled id es mid es'.
Proof.
  intros Hv Hs Hp Hk E. unfold enroll_new in E.
  destruct (existsb _ es) eqn:Hg; [discriminate|].
  set (mid := match previous with Some i => alter deactivate i es | None => es end) in E.
  open_bind E as [] Hcap%cap_ok. injection E as <-. exists mid.
  assert (Hw : Forall2 Weaker es mid).
  { subst mid. destruct previous; [apply alter_weaker|by apply Forall_Forall2_diag, Forall_true]. }
  split; [done|done| | |].
  - rewrite len_app, len_cons, len_nil. lia.
  - apply (fresh_valid id es mid); try done. intros e He Eid. subst mid previous.
    destruct (rposition (id_id id) es) as [i|] eqn:Er; [|by eapply rposition_none in Er].
    pose proof (rposition_some _ _ _ Er) as (old & Hold & Eold & Hlast).
    pose proof (Hk i old eq_refl Hold) as Hko. apply list_elem_of_lookup in He as (j & Hj).
    destruct (decide (i = j)) as [<-|Hij].
    + rewrite list_lookup_alter_eq, Hold in Hj. cbn in Hj. injection Hj as <-. done.
    + rewrite list_lookup_alter_ne in Hj by done.
      assert (Hlt : (j < i)%nat) by (destruct (decide (i < j)%nat); [by eapply Hlast in Hj|lia]).
      pose proof (valid_lookup es j i e old Hv Hj Hold Hlt) as Hc.
      apply clashes_false in Hc as [_ Hc]. rewrite Eold in Hc. destruct (Hc Eid) as [Hkind Ha].
      split; [|done]. congruence.
  - intros e He Hne. subst mid previous. destruct (rposition (id_id id) es) as [i|] eqn:Er; [|done].
    apply rposition_some in Er as (old & Hold & Eold & _).
    eapply alter_kept; [exact Hold|done|]. intros ->. done.
Qed.

Lemma enroll_one_spec id es c es' :
  ValidEntries es → shape_ok id = true → enroll_one id es = Ok (c, es') →
  c = false ∧ es' = es ∧ enrolled_entry id ∈ es ∨ c = true ∧ ∃ mid, Enrolled id es mid es'.
Proof.
  intros Hv Hs E. unfold enroll_one in E. destruct (rposition (id_id id) es) as [i|] eqn:Er.
  - pose proof (rposition_some _ _ _ Er) as (old & Hold & Eold & _). rewrite Hold in E.
    destruct (e_active old) eqn:Ha; [|discriminate E].
    destruct (bool_decide_reflect (id_kind (e_identity old) = id_kind id)) as [Hk|]; [|discriminate E].
    cbn [negb orb] in E. destruct (String.eqb _ _) in E.
    + destruct (bool_decide_reflect (e_identity old = id)) as [Hid|]; [|discriminate E].
      injection E as <- <-. left. split_and!; [done|done|].
      replace (enrolled_entry id) with old by (destruct old; cbn in *; by subst). by eapply list_elem_of_lookup_2.
    + open_bind E as e1 He. injection E as <- <-. right. split; [done|].
      eapply enroll_new_spec; [done|done|symmetry; exact Er| |exact He].
      intros j o [= <-] Ho. congruence.
  - open_bind E as e1 He. injection E as <- <-. right. split; [done|].
    eapply enroll_new_spec; [done|done|symmetry; exact Er| |exact He]. done.
Qed.

(** ** All requested identities *)

(** the entries before, possibly retired, then new ones *)
Definition Extends (es es' : list Entry) : Prop :=
  ∃ mid new, es' = mid ++ new ∧ Forall2 Weaker es mid.

#[global] Instance extends_preorder : PreOrder Extends.
Proof.
  split.
  - intros es. exists es, []. split; [by rewrite app_nil_r|by apply Forall_Forall2_diag, Forall_true].
  - intros a b c (m1 & n1 & -> & H1) (m2 & n2 & -> & H2).
    apply Forall2_app_inv_l in H2 as (m3 & n3 & H3 & H4 & ->). exists m3, (n3 ++ n2).
    split; [by rewrite app_assoc|]. by etrans.
Qed.

Lemma extends_weaker es es' : Forall2 Weaker es es' → Extends es es'.
Proof. intros Hw. exists es', []. by rewrite app_nil_r. Qed.

Record EnrolledAll (requested : list Identity) (es es' : list Entry) : Prop := {
  ea_extends : Extends es es';
  ea_valid : ValidEntries es';
  ea_len : len es <= 1024 → len es' <= 1024;
  ea_kept : ∀ e, e ∈ es → id_id (e_identity e) ∉ id_id <$> requested → e ∈ es';
  ea_fresh : ∀ v, v ∈ requested → enrolled_entry v ∈ es';
}.

Lemma enroll_all_spec requested changed es c es' :
  NoDup (id_id <$> requested) → Forall (fun v => shape_ok v = true) requested → ValidEntries es →
  enroll_all requested changed es = Ok (c, es') →
  EnrolledAll requested es es' ∧ (c = false → changed = false ∧ es' = es).
Proof.
  revert changed es. induction requested as [|v vs IH]; intros changed es Hd Hs Hv E; cbn [enroll_all] in E.
  - injection E as <- <-. split; [|done]. split; [reflexivity|done|done|done|].
    intros x Hx. by apply not_elem_of_nil in Hx.
  - cbn [fmap list_fmap] in Hd. apply NoDup_cons in Hd as [Hnot Hd]. apply Forall_cons in Hs as [Hsv Hs].
    open_bind E as [c1 e1] Eone. apply enroll_one_spec in Eone; [|done|done].
    assert (Hmid : Extends es e1 ∧ ValidEntries e1 ∧ (len es <= 1024 → len e1 <= 1024) ∧ enrolled_entry v ∈ e1 ∧
      (∀ e, e ∈ es → id_id (e_identity e) ≠ id_id v → e ∈ e1) ∧ (c1 = false → e1 = es)).
    { destruct Eone as [(-> & -> & Hf)|(-> & mid & [Hw -> Hl Hv' Hk])]; [by split_and!|].
      split_and!; [by exists mid, [enrolled_entry v]|done|done|apply elem_of_app; right; by left| |done].
      intros e He Hne. apply elem_of_app. left. by apply Hk. }
    destruct Hmid as (Hx & Hv1 & Hl1 & Hf1 & Hk1 & Hc1).
    apply IH in E as [[Hx' Hv' Hl' Hk' Hf'] Hc]; [|done|done|done]. split.
    + split; [by etrans|done|auto| |].
      * intros e He Hne. rewrite fmap_cons, not_elem_of_cons in Hne. apply Hk'; [|naive_solver].
        apply Hk1; naive_solver.
      * intros x [->|Hin]%elem_of_cons; [|by apply Hf']. apply Hk'; [done|]. done.
    + intros Hcf. apply Hc in Hcf as [Hor ->]. apply orb_false_iff in Hor as [-> Hc1']. auto.
Qed.

(** ** The ledger *)
Section Ledger.
Context `{LedgerSerde}.

(** what [Authority::identities] provides: distinct ids, all of hex shape *)
Definition Enrollable (requested : list Identity) : Prop :=
  NoDup (id_id <$> requested) ∧ Forall (fun v => shape_ok v = true) requested.

Lemma enroll_inv l requested c l' :
  Enrollable requested → enroll l requested = Ok (c, l') →
  ledger_validate l = Ok tt ∧
  ∃ es c1, EnrolledAll requested (l_entries l) es ∧
    (c1 = false → es = l_entries l) ∧ c = c1 || existsb (retires requested) es ∧
    l' = mkLedger (l_version l) (retire requested <$> es) ∧
    ∃ n, serialized_size (writes l') FILE_BYTES = Ok n.
Proof.
  intros [Hd Hs] E. unfold enroll in E. open_bind E as [] Hv. split; [done|].
  open_bind E as [c1 es] Ea. open_bind E as n Hn. injection E as <- <-.
  apply ledger_validate_ok in Hv as (_ & _ & Hv).
  apply enroll_all_spec in Ea as [Hall Hc]; [|done|done|done].
  exists es, c1. split_and!; [done|intros Hcf; by destruct (Hc Hcf)|done|done|by exists n].
Qed.

Lemma enroll_valid l requested c l' :
  Enrollable requested → enroll l requested = Ok (c, l') → ledger_validate l' = Ok tt.
Proof.
  intros Hr E. destruct (enroll_inv _ _ _ _ Hr E) as (Hv & es & c1 & [_ Hval Hlen _ _] & _ & _ & -> & _).
  apply ledger_validate_ok in Hv as (Hver & Hl & _). apply ledger_validate_ok. cbn [l_version l_entries].
  split_and!; [done| |by eapply valid_weaker; [apply retire_weaker|]].
  unfold len in *. rewrite length_fmap. auto.
Qed.

(** Enrolling keeps the ledger valid: when it succeeds, the ledger it
    leaves passes the validation it started from, so what is persisted can
    always be read back at the next start. *)
Theorem enroll_keeps_valid l requested c l' :
  Enrollable requested → enroll l requested = Ok (c, l') → ledger_validate l' = Ok tt.
Proof. apply enroll_valid. Qed.

Lemma extends_lookup es es' i e : Extends es es' → es !! i = Some e →
  ∃ e', es' !! i = Some e' ∧ Weaker e e'.
Proof.
  intros (mid & new & -> & Hw) Hi. destruct (Forall2_lookup_l _ _ _ _ _ Hw Hi) as (e' & He & Hwe).
  exists e'. split; [by apply lookup_app_l_Some|done].
Qed.

(** The history is append-only: every entry keeps its place, its
    identity, generation and fingerprint, an entry once retired is never
    active again, and a generation stands for one identity for ever. *)
Theorem enroll_append_only l requested c l' i e :
  Enrollable requested → enroll l requested = Ok (c, l') → l_entries l !! i = Some e →
  ∃ e', l_entries l' !! i = Some e' ∧ e_identity e' = e_identity e ∧
    (e_active e = false → e_active e' = false) ∧
    ∀ j x, l_entries l' !! j = Some x → id_generation (e_identity x) = id_generation (e_identity e) → j = i.
Proof.
  intros Hr E Hi. destruct (enroll_inv _ _ _ _ Hr E) as (_ & es & c1 & [Hx Hval _ _ _] & _ & _ & -> & _).
  assert (Hval' : ValidEntries (retire requested <$> es)) by (by eapply valid_weaker; [apply retire_weaker|]).
  assert (Hx' : Extends (l_entries l) (retire requested <$> es))
    by (etrans; [exact Hx|apply extends_weaker, retire_weaker]).
  destruct (extends_lookup _ _ _ _ Hx' Hi) as (e' & He' & Hid & Hact).
  exists e'. split_and!; [done|done| |].
  - intros Ha. destruct (e_active e') eqn:Ea; [|done]. rewrite Hact in Ha; done.
  - intros j x Hj Hg. cbn [l_entries] in *. rewrite <- Hid in Hg.
    destruct (decide (i = j)) as [->|Hij]; [done|]. exfalso.
    destruct (decide (i < j)%nat) as [Hlt|Hge].
    + pose proof (valid_lookup _ i j _ _ Hval' He' Hj Hlt) as [Hgen _]%clashes_false. congruence.
    + assert (Hlt : (j < i)%nat) by lia.
      pose proof (valid_lookup _ j i _ _ Hval' Hj He' Hlt) as [Hgen _]%clashes_false. congruence.
Qed.

(** at most one active entry of an id: the last *)
Lemma active_last es i j e e' :
  ValidEntries es → es !! i = Some e → es !! j = Some e' → e_active e = true →
  id_id (e_identity e) = id_id (e_identity e') → (j <= i)%nat.
Proof.
  intros Hv Hi Hj Ha Eid. destruct (decide (i < j)%nat) as [Hlt|]; [|lia].
  pose proof (valid_lookup _ _ _ _ _ Hv Hi Hj Hlt) as [_ Hc]%clashes_false. destruct (Hc Eid). congruence.
Qed.

Lemma retire_fresh requested (es : list Entry) v : v ∈ requested → enrolled_entry v ∈ es → enrolled_entry v ∈ retire requested <$> es.
Proof.
  intros Hv Hf. apply list_elem_of_fmap. exists (enrolled_entry v). split; [|done].
  unfold retire, is_requested. cbn [e_active e_identity enrolled_entry].
  rewrite (proj2 (existsb_true _ _)); [done|]. exists v. split; [done|apply String.eqb_refl].
Qed.

(** enrolling what is already enrolled changes nothing *)
Lemma enroll_all_same requested sub es changed :
  ValidEntries es → sub ⊆ requested → (∀ v, v ∈ requested → enrolled_entry v ∈ es) →
  enroll_all sub changed es = Ok (changed, es).
Proof.
  intros Hv Hsub Hf. revert changed. induction sub as [|v vs IH]; intros changed; [done|]. cbn [enroll_all].
  assert (Hin : enrolled_entry v ∈ es) by (apply Hf; set_solver).
  assert (enroll_one v es = Ok (false, es)) as ->.
  { apply list_elem_of_lookup in Hin as (k & Hk). unfold enroll_one.
    destruct (rposition (id_id v) es) as [i|] eqn:Er.
    - apply rposition_some in Er as (old & Hold & Eold & Hlast).
      assert (i = k) as ->.
      { pose proof (active_last es k i (enrolled_entry v) old Hv Hk Hold eq_refl (eq_sym Eold)).
        destruct (decide (i < k)%nat) as [Hlt|]; [|lia]. by eapply Hlast in Hlt; [|exact Hk]. }
      rewrite Hk in Hold. injection Hold as <-. rewrite Hk. cbn [enrolled_entry e_active e_identity negb orb].
      rewrite !bool_decide_true by done. by rewrite String.eqb_refl.
    - eapply rposition_none in Er; [|by eapply list_elem_of_lookup_2]. done. }
  cbn [mbind result_bind]. rewrite orb_false_r. apply IH. set_solver.
Qed.

Lemma retire_twice requested (es : list Entry) : retire requested <$> (retire requested <$> es) = retire requested <$> es.
Proof.
  rewrite <- list_fmap_compose. apply list_fmap_ext. intros i e _. cbn. unfold retire.
  destruct (e_active e && _) eqn:E; [done|]. by rewrite E.
Qed.

Lemma retires_none requested (es : list Entry) : existsb (retires requested) (retire requested <$> es) = false.
Proof.
  apply existsb_false. intros x (e & -> & _)%list_elem_of_fmap. unfold retires, retire.
  destruct (e_active e && _) eqn:E; [done|]. exact E.
Qed.

Lemma enroll_active l requested c l' :
  Enrollable requested → enroll l requested = Ok (c, l') →
  (∀ v, enrolled_entry v ∈ l_entries l' ↔ v ∈ requested) ∧
  (c = false → l' = l) ∧
  enroll l' requested = Ok (false, l').
Proof.
  intros Hr E. pose proof (enroll_inv _ _ _ _ Hr E) as (Hv & es & c1 & [Hx Hval Hlen Hk Hf] & Hc1 & -> & -> & n & Hn).
  assert (Hval' : ValidEntries (retire requested <$> es)) by (by eapply valid_weaker; [apply retire_weaker|]).
  split_and!; cbn [l_entries].
  - intros v. split.
    + intros (e & Ee & He)%list_elem_of_fmap. unfold retire in Ee.
      destruct (e_active e && _) eqn:Eb; [discriminate Ee|]. subst e. cbn [enrolled_entry e_active andb] in Eb.
      apply negb_false_iff, existsb_true in Eb as (w & Hw & Ew%String.eqb_eq). cbn [e_identity enrolled_entry] in Ew.
      assert (v = w) as ->; [|done]. pose proof (Hf w Hw) as Hfw.
      apply list_elem_of_lookup in He as (i & Hi). apply list_elem_of_lookup in Hfw as (j & Hj).
      pose proof (active_last es i j _ _ Hval Hi Hj eq_refl (eq_sym Ew)).
      pose proof (active_last es j i _ _ Hval Hj Hi eq_refl Ew). assert (i = j) as -> by lia.
      rewrite Hi in Hj. by injection Hj.
    + intros Hin. by apply retire_fresh; [|apply Hf].
  - intros [-> Hret]%orb_false_iff. rewrite Hc1 by done. rewrite Hc1 in Hret by done.
    destruct l as [ver es0]. cbn [l_version l_entries] in *. f_equal.
    rewrite <- (list_fmap_id es0) at 2. apply list_fmap_ext. intros i e Hi.
    apply list_elem_of_lookup_2 in Hi. rewrite existsb_false in Hret. apply Hret in Hi.
    unfold retire. unfold retires in Hi. by rewrite Hi.
  - unfold enroll. pose proof (enroll_valid _ _ _ _ Hr E) as Hvalid. rewrite Hvalid.
    cbn [mbind result_bind l_entries l_version].
    rewrite (enroll_all_same requested requested (retire requested <$> es) false); [|done|done|].
    + cbn [mbind result_bind]. rewrite retires_none, retire_twice. rewrite Hn. done.
    + intros v Hin. by apply retire_fresh; [|apply Hf].
Qed.

(** After enrollment the active identities are exactly the requested
    ones, each once; when nothing changed the ledger is the one that was read,
    and enrolling the same set again changes nothing. *)
Theorem enroll_activates l requested c l' :
  Enrollable requested → enroll l requested = Ok (c, l') →
  (∀ v, enrolled_entry v ∈ l_entries l' ↔ v ∈ requested) ∧
  (c = false → l' = l) ∧
  enroll l' requested = Ok (false, l').
Proof. apply enroll_active. Qed.
End Ledger.

(** ** The identities of a parsed authority *)
Lemma insert_identity_perm x xs : insert_identity x xs ≡ₚ x :: xs.
Proof.
  induction xs as [|y ys IH]; [done|]. cbn [insert_identity]. destruct (str_lt _ _); [|done].
  rewrite IH. apply Permutation_swap.
Qed.

Lemma sort_identities_perm xs : sort_identities xs ≡ₚ xs.
Proof.
  unfold sort_identities. induction xs as [|x xs IH]; [done|]. cbn [foldr].
  by rewrite insert_identity_perm, IH.
Qed.

Lemma collect_ok {A B} (f : A → Result B) xs ys :
  collect f xs = Ok ys ↔ Forall2 (fun x y => f x = Ok y) xs ys.
Proof.
  revert ys. induction xs as [|x xs IH]; intros ys; cbn [collect].
  - split; [intros [= <-]; constructor|by inversion 1].
  - split.
    + intros E. open_bind E as y Hy. open_bind E as zs Hzs. injection E as <-. constructor; [done|by apply IH].
    + inversion 1 as [|? y ? zs Hy Hzs]; subst. apply IH in Hzs. by rewrite Hy, Hzs.
Qed.

Section Open.
Context `{SerdeJson, AuthLibs, LedgerSerde}.

(** SHA-256 in hexadecimal *)
Definition DigestIsHex : Prop := ∀ b, hex (sha256_hex b) 64 = true.

Lemma principal_shapes ps p : each_with_before principal_check [] ps = Ok tt → p ∈ ps →
  hex (p_id p) 32 = true ∧ hex (p_generation p) 32 = true.
Proof.
  rewrite each_with_before_ok. intros Hc (l & r & E)%list_elem_of_split. apply Hc, deny_ok in E.
  rewrite !orb_false_iff, !negb_false_iff in E. naive_solver.
Qed.

Lemma resource_shapes ps rs r : each_with_before (resource_check ps) [] rs = Ok tt → r ∈ rs →
  hex (r_id r) 32 = true ∧ hex (r_generation r) 32 = true.
Proof.
  rewrite each_with_before_ok. intros Hc (l & q & E)%list_elem_of_split.
  apply Hc, check_then in E as [_ E%deny_ok]. rewrite !orb_false_iff, !negb_false_iff in E. naive_solver.
Qed.

Lemma fingerprint_hex {A} (to_vec : A → option bytes) v f :
  DigestIsHex → fingerprint to_vec v = Ok f → hex f 64 = true.
Proof. intros Hd E. unfold fingerprint in E. open_bind E as b _. injection E as <-. apply Hd. Qed.

Lemma identities_enrollable input a ids :
  DigestIsHex → authority_parse input = Ok a → identities a = Ok ids → Enrollable ids.
Proof.
  intros Hdig Hp E. pose proof (parse_well_formed _ _ Hp) as Hwf.
  unfold authority_parse in Hp. open_bind Hp as [] _. open_bind Hp as v _. open_bind Hp as [] _.
  open_bind Hp as [] _. open_bind Hp as [] _. open_bind Hp as [] Hps. open_bind Hp as [] Hrs.
  open_bind Hp as [] _. injection Hp as ->.
  unfold identities in E. open_bind E as is0 Hi%collect_ok. open_bind E as js Hj%collect_ok. injection E as <-.
  assert (Ei : id_id <$> is0 = p_id <$> a_principals a).
  { clear -Hi. induction Hi as [|p i ps is0 Hpi _ IH]; [done|]. cbn [fmap list_fmap] in *. rewrite IH.
    unfold principal_identity in Hpi. open_bind Hpi as f _. by injection Hpi as <-. }
  assert (Ej : id_id <$> js = r_id <$> a_resources a).
  { clear -Hj. induction Hj as [|p i ps is0 Hpi _ IH]; [done|]. cbn [fmap list_fmap] in *. rewrite IH.
    unfold resource_identity in Hpi. open_bind Hpi as f _. by injection Hpi as <-. }
  split.
  - rewrite sort_identities_perm, fmap_app, Ei, Ej. apply Hwf.
  - rewrite sort_identities_perm. apply Forall_app. split; apply Forall_forall; intros x Hx.
    + apply list_elem_of_lookup in Hx as (i & Hx). destruct (Forall2_lookup_r _ _ _ _ _ Hi Hx) as (p & Hpi & E).
      unfold principal_identity in E. open_bind E as f Hf%fingerprint_hex; [|done]. injection E as <-.
      apply list_elem_of_lookup_2 in Hpi. destruct (principal_shapes _ _ Hps Hpi) as [H1' H2'].
      unfold shape_ok. cbn. by rewrite H1', H2', Hf.
    + apply list_elem_of_lookup in Hx as (i & Hx). destruct (Forall2_lookup_r _ _ _ _ _ Hj Hx) as (p & Hpi & E).
      unfold resource_identity in E. open_bind E as f Hf%fingerprint_hex; [|done]. injection E as <-.
      apply list_elem_of_lookup_2 in Hpi. destruct (resource_shapes _ _ _ Hrs Hpi) as [H1' H2'].
      unfold shape_ok. cbn. by rewrite H1', H2', Hf.
Qed.

(** A restart is quiet: once a start with some authority has persisted a
    ledger, starting again with the same authority, reading that ledger back,
    succeeds with the same identities and has nothing to write. *)
Theorem restart_is_quiet input a lock file write ids l' file' b :
  DigestIsHex → authority_parse input = Ok a →
  history_open lock file write a = Ok (ids, Some l') →
  file' = Ok b → Bounds.json unescape b FILE_BYTES = Ok tt → ledger_from_slice b = Some l' →
  history_open lock file' write a = Ok (ids, None).
Proof.
  intros Hdig Hp E -> Hb Hl. unfold history_open in E.
  open_bind E as [] Hlock. open_bind E as is0 Hids. open_bind E as l Hread. open_bind E as [c l1] He.
  assert (c = true ∧ is0 = ids ∧ l1 = l') as (-> & -> & ->).
  { destruct c; [|discriminate E]. open_bind E as [] _. by injection E as <- <-. }
  pose proof (identities_enrollable _ _ _ Hdig Hp Hids) as Hr.
  pose proof (enroll_valid _ _ _ _ Hr He) as Hv. destruct (enroll_active _ _ _ _ Hr He) as (_ & _ & Hsame).
  unfold history_open. rewrite Hlock, Hids. cbn [mbind result_bind].
  unfold history_read. cbn [mbind result_bind]. rewrite Hb. cbn [mbind result_bind]. rewrite Hl.
  cbn [ok_or mbind result_bind]. rewrite Hv. cbn [mbind result_bind]. by rewrite Hsame.
Qed.
End Open.

(** ** Concrete runs *)
Definition ident (n g : ascii) : Identity := mkIdentity KPrincipal (rep 32 n) (rep 32 g) (rep 64 "c").
Definition sample_ledger_serde : LedgerSerde := {|
  ledger_ser _ := [];
  ledger_from_slice b := if bytes_eqb b (str_bytes "[]") then Some (mkLedger 1 [])
    else Some (mkLedger 1 (enrolled_entry <$> [mkIdentity KPrincipal (rep 32 "a") (rep 32 "b") (rep 64 "c");
                                      mkIdentity KResource (rep 32 "c") (rep 32 "d") (rep 64 "c")]));
|}.
Definition before : Ledger := mkLedger 1 [enrolled_entry (ident "a" "1"); enrolled_entry (ident "b" "2")].
(** [a] gets a new generation, [b] is retired, [d] is new *)
Definition after : Ledger :=
  mkLedger 1 [deactivate (enrolled_entry (ident "a" "1")); deactivate (enrolled_entry (ident "b" "2"));
              enrolled_entry (ident "a" "3"); enrolled_entry (ident "d" "4")].
Definition wanted : list Identity := [ident "a" "3"; ident "d" "4"].

Lemma wanted_enrollable : Enrollable wanted.
Proof.
  split; [|repeat constructor].
  unfold wanted. cbn [fmap list_fmap]. apply NoDup_cons. split; [|apply NoDup_singleton].
  intros Hin%list_elem_of_singleton. discriminate Hin.
Qed.

Lemma enroll_keeps_valid_witness :
  Enrollable wanted ∧ @enroll sample_ledger_serde before wanted = Ok (true, after) ∧
  ledger_validate after = Ok tt.
Proof.
  split; [apply wanted_enrollable|]. split; [vm_compute; reflexivity|].
  apply (@enroll_keeps_valid sample_ledger_serde before wanted true after wanted_enrollable).
  vm_compute. reflexivity.
Defined.

Lemma enroll_append_only_witness :
  Enrollable wanted ∧ @enroll sample_ledger_serde before wanted = Ok (true, after) ∧
  ∃ e', l_entries after !! 0%nat = Some e' ∧ e_identity e' = ident "a" "1".
Proof.
  split; [apply wanted_enrollable|]. split; [vm_compute; reflexivity|].
  destruct (@enroll_append_only sample_ledger_serde before wanted true after 0 (enrolled_entry (ident "a" "1"))
    wanted_enrollable ltac:(vm_compute; reflexivity) eq_refl) as (e' & He & Hi & _).
  exists e'. split; [exact He|exact Hi].
Defined.

Lemma enroll_activates_witness :
  Enrollable wanted ∧ @enroll sample_ledger_serde before wanted = Ok (true, after) ∧
  @enroll sample_ledger_serde after wanted = Ok (false, after).
Proof.
  split; [apply wanted_enrollable|]. split; [vm_compute; reflexivity|].
  apply (@enroll_activates sample_ledger_serde before wanted true after wanted_enrollable).
  vm_compute. reflexivity.
Defined.

Lemma restart_is_quiet_witness :
  ∃ ids l', @history_open sample_serde sample_auth_libs sample_ledger_serde
      (Ok tt) (Ok (str_bytes "[]")) (Ok tt) sample_authority = Ok (ids, Some l') ∧
    @history_open sample_serde sample_auth_libs sample_ledger_serde
      (Ok tt) (Ok (str_bytes "{}")) (Ok tt) sample_authority = Ok (ids, None).
Proof.
  eexists. eexists. split; [vm_compute; reflexivity|].
  eapply (@restart_is_quiet sample_serde sample_auth_libs sample_ledger_serde (str_bytes "{}")
    sample_authority (Ok tt) (Ok (str_bytes "[]")) (Ok tt) _ _ (Ok (str_bytes "{}")) (str_bytes "{}")).
  - intros b. vm_compute. reflexivity.
  - vm_compute. reflexivity.
  - vm_compute. reflexivity.
  - reflexivity.
  - vm_compute. reflexivity.
  - vm_compute. reflexivity.
Defined.
