(* ===== verification/Service.v ===== *)
(** * The server: one authenticated exchange per connection

    Models crates/gaze-lens-server/src/service.rs.  A connection is a program
    in a state monad over its [World]: the socket reads still to come, the
    readings of the authority file and of the clock, the writes and whether
    they succeed, and at which await the deadline of the connection drops it;
    what it did is recorded in order, as one list of events.
    The accept loop is a fold over accept results, and the two admission
    counters (connections, calls per principal) are a step relation over all
    connections at once. *)

From S2P Require Import Prelude Str Bounds Serde WireValue Wire Auth History.

Record Deadlines := mkDeadlines { d_io : N; d_call : N }.
Definition deadlines_default : Deadlines := mkDeadlines IO_SECONDS CALL_SECONDS.

(** ** The accept loop *)
Definition ACCEPT_BACKOFF_MS : N := 100.
Definition ACCEPT_FAILURES : N := 64.
Inductive Accept := AcceptPeer | AcceptResource | AcceptDead.
#[global] Instance Accept_eq_dec : EqDecision Accept.
Proof. solve_decision. Defined.

(** [std::io::ErrorKind], the kinds [classify] names and the rest *)
Inductive ErrorKind :=
| ConnectionAborted | ConnectionReset | ConnectionRefused | Interrupted | TimedOut
| HostUnreachable | NetworkUnreachable | NetworkDown
| InvalidInput | NotConnected | BrokenPipe | AddrNotAvailable | NotFound
| OtherKind.

Definition classify (kind : ErrorKind) : Accept :=
  match kind with
  | ConnectionAborted | ConnectionReset | ConnectionRefused | Interrupted | TimedOut
  | HostUnreachable | NetworkUnreachable | NetworkDown => AcceptPeer
  | InvalidInput | NotConnected | BrokenPipe | AddrNotAvailable | NotFound => AcceptDead
  | _ => AcceptResource
  end.

(** one turn of the loop on an accept result: the failure count, or the end *)
Inductive Accepted := NewSocket | AcceptError (kind : ErrorKind).
Definition accept_turn (failures : N) (ev : Accepted) : Result N :=
  match ev with
  | NewSocket => Ok 0
  | AcceptError kind =>
    match classify kind with
    | AcceptPeer => Ok failures
    | AcceptDead => Err Unavailable
    | AcceptResource =>
      let failures := failures + 1 in
      if ACCEPT_FAILURES <=? failures then Err Unavailable else Ok failures
    end
  end.
Fixpoint accept_loop (failures : N) (evs : list Accepted) : Result N :=
  match evs with
  | [] => Ok failures
  | ev :: evs => failures ← accept_turn failures ev; accept_loop failures evs
  end.

(** ** Calls per principal *)
Abbreviation Counts := (gmap string N).

Definition acquire (counts : Counts) (id : string) : Result unit * Counts :=
  let count := default 0 (counts !! id) in
  if MAX_PRINCIPAL_CALLS <=? count then (Err Unavailable, <[id := count]> counts)
  else (Ok tt, <[id := count + 1]> counts).

(** [Drop]; subtraction below zero would panic and is the [None] *)
Definition drop_permit (counts : Counts) (id : string) : option Counts :=
  match counts !! id with
  | None => Some counts
  | Some count =>
    if count =? 0 then None
    else if count - 1 =? 0 then Some (delete id counts)
    else Some (<[id := count - 1]> counts)
  end.

(** the server's shared state: the live connections, each with the principal
    whose permit it holds, and the counts *)
Record System := mkSystem { sys_live : list (option string); sys_counts : Counts }.

Inductive sys_step : System → System → Prop :=
| step_accept live counts : len live < DEFAULT_ACTIVE_CALLS →
    sys_step (mkSystem live counts) (mkSystem (None :: live) counts)
| step_refuse live counts : DEFAULT_ACTIVE_CALLS <= len live →
    sys_step (mkSystem live counts) (mkSystem live counts)
| step_acquire l r id counts counts' : acquire counts id = (Ok tt, counts') →
    sys_step (mkSystem (l ++ None :: r) counts) (mkSystem (l ++ Some id :: r) counts')
| step_denied live id counts counts' e : acquire counts id = (Err e, counts') →
    sys_step (mkSystem live counts) (mkSystem live counts')
| step_end l r counts :
    sys_step (mkSystem (l ++ None :: r) counts) (mkSystem (l ++ r) counts)
| step_drop l r id counts counts' : drop_permit counts id = Some counts' →
    sys_step (mkSystem (l ++ Some id :: r) counts) (mkSystem (l ++ r) counts').
Definition sys_init : System := mkSystem [] ∅.
Definition sys_reachable : System → Prop := rtc sys_step sys_init.

(** ** A connection *)

(** what a connection did, in order: the outcome of reading a frame, of reading
    the authority file and the clock, and each frame that was written whole *)
Inductive Event :=
| ReadInput (input : Result bytes)
| ReadAuthority (file : Result bytes)
| ReadClock (t : option N)
| Sent (frame : bytes).
Definition frame_of (e : Event) : option bytes := match e with Sent frame => Some frame | _ => None end.
Definition frames_of (tr : list Event) : list bytes := omap frame_of tr.

Record World := mkWorld {
  (** outcomes of the socket reads to come: bytes, none at the end of the
      stream, or a failed read *)
  w_reads : list (option bytes);
  (** contents of the authority file at each of its readings *)
  w_files : list (Result bytes);
  (** [SystemTime::now] in seconds; [None] before the epoch *)
  w_clock : list (option N);
  (** outcomes of the writes and flushes to come *)
  w_writes : list (Result unit);
  (** what was done so far *)
  w_trace : list Event;
  w_counts : Counts;
  (** how many awaits are left before the deadline of the connection *)
  w_life : N;
}.
Definition with_reads (w : World) reads := mkWorld reads (w_files w) (w_clock w) (w_writes w) (w_trace w) (w_counts w) (w_life w).
Definition with_files (w : World) files := mkWorld (w_reads w) files (w_clock w) (w_writes w) (w_trace w) (w_counts w) (w_life w).
Definition with_clock (w : World) clock := mkWorld (w_reads w) (w_files w) clock (w_writes w) (w_trace w) (w_counts w) (w_life w).
Definition with_writes (w : World) writes := mkWorld (w_reads w) (w_files w) (w_clock w) writes (w_trace w) (w_counts w) (w_life w).
Definition did (w : World) (e : Event) := mkWorld (w_reads w) (w_files w) (w_clock w) (w_writes w) (w_trace w ++ [e]) (w_counts w) (w_life w).
Definition set_counts (w : World) counts := mkWorld (w_reads w) (w_files w) (w_clock w) (w_writes w) (w_trace w) counts (w_life w).
Definition with_life (w : World) life := mkWorld (w_reads w) (w_files w) (w_clock w) (w_writes w) (w_trace w) (w_counts w) life.

(** a future: it ends with its result, or its owner drops it at an await *)
Inductive Future (A : Type) := Ended (r : Result A) | Dropped.
Arguments Ended {A} r.
Arguments Dropped {A}.
Definition M (A : Type) : Type := World → Future A * World.
#[export] Instance M_ret : MRet M := fun A a w => (Ended (Ok a), w).
#[export] Instance M_bind : MBind M := fun A B f m w =>
  match m w with
  | (Ended (Ok a), w) => f a w
  | (Ended (Err e), w) => (Ended (Err e), w)
  | (Dropped, w) => (Dropped, w)
  end.
Definition lift {A} (r : Result A) : M A := fun w => (Ended r, w).
(** the outcome as a value; nothing runs after a drop *)
Definition try {A} (m : M A) : M (Result A) := fun w =>
  match m w with (Ended r, w) => (Ended (Ok r), w) | (Dropped, w) => (Dropped, w) end.
(** an await: the deadline of the connection may have passed, [serve_with] then
    drops the future here *)
Definition await {A} (f : World → Result A * World) : M A := fun w =>
  if w_life w =? 0 then (Dropped, w)
  else let '(r, w) := f (with_life w (w_life w - 1)) in (Ended r, w).

(** the [read] loop under its deadline: when no read is left the peer is
    silent and the deadline ends the wait *)
Fixpoint read_frame (fb : FrameBuffer) (reads : list (option bytes))
  : Result bytes * list (option bytes) :=
  match reads with
  | [] => (Err Timeout, [])
  | None :: reads => (Err Unavailable, reads)
  | Some [] :: reads => (Err InvalidRequest, reads)
  | Some chunk :: reads =>
    match fb_push true chunk fb with
    | (Err e, _) => (Err e, reads)
    | (Ok true, fb) => (fb_finish fb, reads)
    | (Ok false, fb) => read_frame fb reads
    end
  end.
(** one await: what is dropped inside the loop has had no other effect *)
Definition read (max : N) : M bytes := await (fun w =>
  let '(r, reads) := match fb_new max with
                     | Err e => (Err e, w_reads w)
                     | Ok fb => read_frame fb (w_reads w)
                     end in
  (r, did (with_reads w reads) (ReadInput r))).

(** [write_all]: the whole frame, or an error after a part of it *)
Definition send_all (frame : bytes) : M unit := await (fun w =>
  match w_writes w with
  | Ok tt :: ws => (Ok tt, did (with_writes w ws) (Sent frame))
  | Err e :: ws => (Err e, with_writes w ws)
  | [] => (Err Timeout, w)
  end).
Definition flush : M unit := await (fun w =>
  match w_writes w with r :: ws => (r, with_writes w ws) | [] => (Err Timeout, w) end).
(** both under one deadline; what is not answered in time has timed out *)
Definition write (frame : bytes) : M unit := _ ← send_all frame; flush.

Definition now : M N := fun w =>
  let '(t, ts) := match w_clock w with t :: ts => (t, ts) | [] => (None, []) end in
  (Ended (ok_or t Unavailable), did (with_clock w ts) (ReadClock t)).

Definition bounded_file : M bytes := await (fun w =>
  let '(f, fs) := match w_files w with f :: fs => (f, fs) | [] => (Err Unavailable, []) end in
  (f, did (with_files w fs) (ReadAuthority f))).

Definition with_counts (f : Counts → Result unit * Counts) : M unit := fun w =>
  let '(r, counts) := f (w_counts w) in (Ended r, set_counts w counts).
(** the permit is dropped whatever the outcome, with the future that holds it, too *)
Definition holding {A} (id : string) (m : M A) : M A := fun w =>
  let '(r, w) := m w in (r, set_counts w (default (w_counts w) (drop_permit (w_counts w) id))).

Section Connection.
Context `{SerdeJson, ValueLibs, WireSerde, AuthLibs}.

(** [authority]: the file is read and checked against the enrolled history *)
Definition authority (enrolled : list Identity) : M Authority :=
  file ← bounded_file;
  a ← lift (map_err (authority_parse file) (fun _ => Unauthorized));
  _ ← lift (history_validate enrolled a);
  mret a.

Definition finish (frame : bytes) (shutdown : Result unit) : M unit :=
  _ ← write frame; await (fun w => (shutdown, w)).

Definition call (enrolled : list Identity) (pin : Pinned) (id : string) : M bytes :=
  input ← read FRAME_BYTES;
  call ← lift (decode_call input);
  _ ← lift (deny (negb (String.eqb (call_id call) id) ||
                  negb (bool_decide (args_operation (call_args call) = pin_operation pin))) InvalidRequest);
  _ ← lift (deny (negb (bool_decide (call_binding call = pin_binding pin))) BindingChanged);
  a ← authority enrolled;
  t ← now;
  _ ← lift (revalidate a pin t);
  result ← lift (match pin_operation pin with
                 | OpReadiness => Ok (Readiness Configured)
                 | _ => Err UnsupportedOperation end);
  frame ← lift (encode_success (mkSuccess (call_id call) (pin_operation pin) (pin_binding pin) result) call);
  a ← authority enrolled;
  t ← now;
  _ ← lift (revalidate a pin t);
  mret frame.

(** [connection], after the TLS handshake; [shutdown] is its outcome *)
Definition connection (enrolled : list Identity) (shutdown : Result unit) : M unit :=
  input ← read PREPARE_BYTES;
  p ← lift (decode_prepare input);
  a ← authority enrolled;
  t ← now;
  pin ← lift (prepare a p t);
  let principal := b_principal (pin_binding pin) in
  admission ← try (if decide (pin_operation pin = OpReadiness)
                   then with_counts (fun c => acquire c principal)
                   else lift (Err UnsupportedOperation));
  match admission with
  | Err code =>
    frame ← lift (encode_failure (mkFailure V2 (pr_id p) code));
    finish frame shutdown
  | Ok _ =>
    holding principal (
      prepared ← lift (encode_prepared
        (mkPrepared V2 ClientGaze (pr_id p) (pr_operation p) (pin_binding pin)));
      _ ← write prepared;
      outcome ← try (call enrolled pin (pr_id p));
      frame ← lift (match outcome with
                    | Ok frame => Ok frame
                    | Err code => encode_failure (mkFailure V2 (pr_id p) code)
                    end);
      finish frame shutdown)
  end.

(** the task of one connection, after its handshake: its outcome is ignored,
    the deadline may have dropped it *)
Definition task (enrolled : list Identity) (shutdown : Result unit) (w : World) : World :=
  (connection enrolled shutdown w).2.
End Connection.
