(* ===== verification/ServiceFacts.v ===== *)
(** * Correctness of the server

    The accept loop, the admission counters under every interleaving of
    connections, the release of a result, and all that a peer may be sent. *)

From S2P Require Import Prelude Str Bounds Serde JsonGrammar WireValue Wire WireFacts WireSample Auth History Service.

(** ** The accept loop *)

(** resource failures since the last accepted socket *)
Fixpoint streak (evs : list Accepted) : N :=
  match evs with
  | [] => 0
  | ev :: evs =>
    let rest := streak evs in
    if existsb (fun e => match e with NewSocket => true | _ => false end) evs then rest
    else match ev with
    | AcceptError k => if decide (classify k = AcceptResource) then rest + 1 else rest
    | NewSocket => rest
    end
  end.

Definition is_dead (ev : Accepted) : Prop :=
  match ev with AcceptError k => classify k = AcceptDead | NewSocket => False end.

Lemma existsb_snoc {A} (f : A → bool) l x : existsb f (l ++ [x]) = existsb f l || f x.
Proof. rewrite existsb_app. cbn. by rewrite orb_false_r. Qed.

Lemma streak_snoc evs ev :
  streak (evs ++ [ev]) = match ev with
  | NewSocket => 0
  | AcceptError k => if decide (classify k = AcceptResource) then streak evs + 1 else streak evs
  end.
Proof.
  induction evs as [|e evs IH]; [by destruct ev; cbn; repeat case_decide|].
  cbn [app streak]. rewrite IH, existsb_snoc. destruct ev as [|k].
  - rewrite orb_true_r. done.
  - rewrite orb_false_r. destruct (existsb _ evs); [done|].
    destruct e; repeat case_decide; lia.
Qed.

Lemma accept_loop_app f evs evs' :
  accept_loop f (evs ++ evs') = (n ← accept_loop f evs; accept_loop n evs').
Proof.
  revert f. induction evs as [|ev evs IH]; intros f; [done|]. cbn [app accept_loop].
  destruct (accept_turn f ev); [apply IH|done].
Qed.

Lemma accept_loop_spec evs :
  (¬ Exists is_dead evs ∧ (∀ pre post, evs = pre ++ post → streak pre < ACCEPT_FAILURES) ∧
     accept_loop 0 evs = Ok (streak evs)) ∨
  ((Exists is_dead evs ∨ ∃ pre post, evs = pre ++ post ∧ ACCEPT_FAILURES <= streak pre) ∧
     accept_loop 0 evs = Err Unavailable).
Proof.
  induction evs as [|ev evs IH] using rev_ind.
  - left. split_and!; [by intros ?%Exists_nil| |done]. intros pre post E.
    symmetry in E. by apply app_eq_nil in E as [-> ->].
  - rewrite accept_loop_app. destruct IH as [(Hd & Hs & ->)|[Hbad ->]].
    + cbn [mbind result_bind accept_loop].
      assert (Hpre : ∀ n, streak (evs ++ [ev]) = n → n < ACCEPT_FAILURES →
        ∀ pre post, evs ++ [ev] = pre ++ post → streak pre < ACCEPT_FAILURES).
      { intros n <- Hn pre post E. destruct post as [|x post _] using rev_ind.
        - rewrite app_nil_r in E. by rewrite <- E.
        - rewrite app_assoc in E. apply app_inj_tail in E as [E _]. by eapply Hs. }
      assert (Hlast : streak evs < ACCEPT_FAILURES) by (apply (Hs evs []); by rewrite app_nil_r).
      pose proof (streak_snoc evs ev) as Hn. rewrite Exists_app, Exists_cons, Exists_nil.
      destruct ev as [|k]; cbn [accept_turn is_dead].
      * left. split_and!; [naive_solver|by apply (Hpre _ Hn)|by rewrite Hn].
      * destruct (classify k) eqn:Ek; cbn [mbind result_bind].
        -- left. rewrite decide_False in Hn by done. split_and!; [naive_solver|by apply (Hpre _ Hn)|].
           by rewrite Hn.
        -- rewrite decide_True in Hn by done. destruct (N.leb_spec ACCEPT_FAILURES (streak evs + 1)).
           ++ right. split; [|done]. right. exists (evs ++ [AcceptError k]), [].
              rewrite app_nil_r, Hn. done.
           ++ left. split_and!; [naive_solver|by apply (Hpre _ Hn)|]. cbn. by rewrite Hn.
        -- right. split; [|done]. left. naive_solver.
    + right. split; [|done]. destruct Hbad as [Hd|(pre & post & -> & Hs)].
      * left. rewrite Exists_app. auto.
      * right. exists pre, (post ++ [ev]). by rewrite app_assoc.
Qed.

(** The listener gives up for the right reasons only: the loop keeps
    accepting as long as the socket is not dead and fewer than
    [ACCEPT_FAILURES] resource failures occurred since the last accepted
    socket, peer failures not counting; otherwise it ends as unavailable. *)
Theorem accept_loop_ends evs :
  accept_loop 0 evs = Err Unavailable ↔
  Exists is_dead evs ∨ ∃ pre post, evs = pre ++ post ∧ ACCEPT_FAILURES <= streak pre.
Proof.
  destruct (accept_loop_spec evs) as [(Hd & Hs & E)|[Hbad E]]; rewrite E; split; try done.
  intros [?|(pre & post & Ev & Hge)]; [done|]. specialize (Hs _ _ Ev). lia.
Qed.

(** ** Admission *)
Definition held (id : string) (live : list (option string)) : N :=
  len (filter (fun h => h = Some id) live).

Lemma held_app id l r : held id (l ++ r) = held id l + held id r.
Proof. unfold held. by rewrite filter_app, len_app. Qed.

Lemma held_cons id h l : held id (h :: l) = (if decide (h = Some id) then 1 else 0) + held id l.
Proof. unfold held. rewrite filter_cons. destruct (decide _); rewrite ?len_cons; lia. Qed.

(** the counter of a principal is the number of connections that hold its
    permit, and there is no counter at zero *)
Definition Counted (live : list (option string)) (counts : Counts) : Prop :=
  ∀ id, counts !! id = if decide (held id live = 0) then None else Some (held id live).

Record WithinCaps (s : System) : Prop := {
  ad_live : len (sys_live s) <= DEFAULT_ACTIVE_CALLS;
  ad_counts : Counted (sys_live s) (sys_counts s);
  ad_limit : ∀ id, held id (sys_live s) <= MAX_PRINCIPAL_CALLS;
}.

Lemma counted_default live counts id : Counted live counts → default 0 (counts !! id) = held id live.
Proof. intros Hc. rewrite (Hc id). by case_decide as E; [rewrite E|]. Qed.

Lemma counted_update live live' counts id n :
  Counted live counts → held id live' = n →
  (∀ i, i ≠ id → held i live' = held i live) →
  Counted live' (if decide (n = 0) then delete id counts else <[id := n]> counts).
Proof.
  intros Hc <- Ho i. destruct (decide (i = id)) as [->|Hne].
  - case_decide; [by rewrite lookup_delete_eq|by rewrite lookup_insert_eq].
  - rewrite (Ho i Hne). rewrite <- (Hc i). case_decide; [by rewrite lookup_delete_ne|by rewrite lookup_insert_ne].
Qed.

Lemma held_swap i l r h h' : h' ≠ Some i → h ≠ Some i → held i (l ++ h' :: r) = held i (l ++ h :: r).
Proof. intros H1 H2. rewrite !held_app, !held_cons, !decide_False by done. done. Qed.

Lemma len_middle {A} (l r : list A) x y : len (l ++ x :: r) = len (l ++ y :: r).
Proof. rewrite !len_app, !len_cons. done. Qed.

Lemma acquire_admitted l r id counts counts' :
  WithinCaps (mkSystem (l ++ None :: r) counts) → acquire counts id = (Ok tt, counts') →
  WithinCaps (mkSystem (l ++ Some id :: r) counts').
Proof.
  intros [Hl Hc Hlim] E. unfold acquire in E. cbn [sys_live sys_counts] in *.
  rewrite (counted_default _ _ _ Hc) in E.
  destruct (N.leb_spec MAX_PRINCIPAL_CALLS (held id (l ++ None :: r))); [discriminate|].
  injection E as <-.
  assert (Hid : held id (l ++ Some id :: r) = held id (l ++ None :: r) + 1).
  { rewrite !held_app, !held_cons, decide_True, decide_False by done. lia. }
  assert (Ho : ∀ i, i ≠ id → held i (l ++ Some id :: r) = held i (l ++ None :: r))
    by (intros i Hi; apply held_swap; congruence).
  split; cbn [sys_live sys_counts].
  - by rewrite (len_middle l r _ None).
  - pose proof (counted_update _ _ _ _ _ Hc Hid Ho) as Hn. by rewrite decide_False in Hn by lia.
  - intros i. destruct (decide (i = id)) as [->|Hi]; [lia|]. rewrite Ho by done. apply Hlim.
Qed.

Lemma drop_admitted l r id counts counts' :
  WithinCaps (mkSystem (l ++ Some id :: r) counts) → drop_permit counts id = Some counts' →
  WithinCaps (mkSystem (l ++ r) counts').
Proof.
  intros [Hl Hc Hlim] E. cbn [sys_live sys_counts] in *.
  assert (Hid : held id (l ++ Some id :: r) = held id (l ++ r) + 1).
  { rewrite !held_app, held_cons, decide_True by done. lia. }
  assert (Ho : ∀ i, i ≠ id → held i (l ++ r) = held i (l ++ Some id :: r)).
  { intros i Hi. rewrite !held_app, held_cons, decide_False by congruence. lia. }
  unfold drop_permit in E. rewrite (Hc id) in E. rewrite decide_False in E by lia.
  destruct (N.eqb_spec (held id (l ++ Some id :: r)) 0); [lia|].
  replace (held id (l ++ Some id :: r) - 1) with (held id (l ++ r)) in E by lia.
  pose proof (counted_update _ _ _ _ _ Hc eq_refl Ho) as Hn. split; cbn [sys_live sys_counts].
  - rewrite len_app in *. rewrite len_cons in Hl. lia.
  - destruct (N.eqb_spec (held id (l ++ r)) 0) as [E0|E0]; injection E as <-.
    + by rewrite decide_True in Hn.
    + by rewrite decide_False in Hn.
  - intros i. destruct (decide (i = id)) as [->|Hi]; [specialize (Hlim id); lia|]. rewrite Ho by done. apply Hlim.
Qed.

Lemma step_admitted s s' : WithinCaps s → sys_step s s' → WithinCaps s'.
Proof.
  intros Ha Hs. destruct Hs as [live counts Hl|live counts Hl|l r id c c' E|live id c c' e E|l r c|l r id c c' E].
  - destruct Ha as [_ Hc Hlim]. cbn [sys_live sys_counts] in *.
    assert (Hh : ∀ i, held i (None :: live) = held i live) by (intros i; by rewrite held_cons, decide_False).
    split; cbn [sys_live sys_counts].
    + rewrite len_cons. lia.
    + intros i. by rewrite Hh, Hc.
    + intros i. by rewrite Hh.
  - done.
  - by eapply acquire_admitted.
  - destruct Ha as [Hl Hc Hlim]. cbn [sys_live sys_counts] in *. unfold acquire in E.
    rewrite (counted_default _ _ _ Hc) in E.
    destruct (N.leb_spec MAX_PRINCIPAL_CALLS (held id live)) as [Hge|]; [|discriminate]. injection E as _ <-.
    split; [done| |done]. cbn [sys_live sys_counts]. intros i.
    destruct (decide (i = id)) as [->|Hi].
    + rewrite lookup_insert_eq. unfold MAX_PRINCIPAL_CALLS in Hge. by rewrite decide_False by lia.
    + rewrite lookup_insert_ne by done. apply Hc.
  - destruct Ha as [Hl Hc Hlim]. cbn [sys_live sys_counts] in *.
    assert (Hh : ∀ i, held i (l ++ r) = held i (l ++ None :: r))
      by (intros i; by rewrite !held_app, held_cons, decide_False).
    split; cbn [sys_live sys_counts].
    + rewrite len_app in *. rewrite len_cons in Hl. lia.
    + intros i. by rewrite Hh, Hc.
    + intros i. by rewrite Hh.
  - by eapply drop_admitted.
Qed.

(** C7. Admission counts are exact under every interleaving of connections:
    at most [DEFAULT_ACTIVE_CALLS] live connections, at most
    [MAX_PRINCIPAL_CALLS] of one principal, each counter the number of permits
    held; and dropping a held permit never underflows. *)
Theorem admission_invariant s :
  sys_reachable s →
  WithinCaps s ∧ ∀ id, Some id ∈ sys_live s → ∃ counts', drop_permit (sys_counts s) id = Some counts'.
Proof.
  intros Hr.
  assert (Ha : WithinCaps s).
  { revert s Hr. apply (rtc_ind_r WithinCaps sys_init).
    - split; cbn; [done|by intros id|done].
    - intros s s' _ Hs Ha. by eapply step_admitted. }
  split; [done|]. intros id (l & r & El)%list_elem_of_split. destruct Ha as [_ Hc _].
  assert (Hpos : held id (sys_live s) ≠ 0) by (rewrite El, held_app, held_cons, decide_True by done; lia).
  unfold drop_permit. rewrite (Hc id), decide_False by done.
  destruct (N.eqb_spec (held id (sys_live s)) 0); [done|].
  destruct (_ =? 0); eauto.
Qed.

(** two connections of one principal, one of them answered *)
Lemma admission_invariant_witness :
  let s := mkSystem [None; Some "p"%string] {["p"%string := 1]} in
  sys_reachable s ∧ WithinCaps s.
Proof.
  intros s. assert (Hr : sys_reachable s).
  { eapply rtc_l; [apply (step_accept [] ∅); reflexivity|].
    eapply rtc_l; [apply (step_acquire [] [] "p" ∅ {["p"%string := 1]}); vm_compute; reflexivity|].
    eapply rtc_l; [apply (step_accept [Some "p"%string]); reflexivity|]. apply rtc_refl. }
  split; [exact Hr|]. apply (admission_invariant s Hr).
Defined.

(** ** One connection *)
Lemma m_bind_ok {A B} (m : M A) (f : A → M B) w b w' :
  (m ≫= f) w = (Ended (Ok b), w') ↔ ∃ a w1, m w = (Ended (Ok a), w1) ∧ f a w1 = (Ended (Ok b), w').
Proof.
  unfold mbind, M_bind. destruct (m w) as [[[a|e]|] w1]; [|naive_solver..]. split; [naive_solver|].
  by intros (a' & w2 & [= -> ->] & ?).
Qed.

Lemma lift_ok {A} (r : Result A) w a w' : lift r w = (Ended (Ok a), w') ↔ r = Ok a ∧ w' = w.
Proof. unfold lift. naive_solver. Qed.

(** a step that was awaited to its end *)
Lemma await_ended {A} (f : World → Result A * World) w r w' :
  await f w = (Ended r, w') → f (with_life w (w_life w - 1)) = (r, w').
Proof. unfold await. destruct (w_life w =? 0); [discriminate|]. destruct (f _) as [r0 w0]. by intros [= -> ->]. Qed.

Tactic Notation "run_bind" hyp(H) "as" simple_intropattern(p) simple_intropattern(w) simple_intropattern(Hx) :=
  apply m_bind_ok in H as (p & w & Hx & H).
Tactic Notation "run_lift" hyp(H) "as" simple_intropattern(p) simple_intropattern(Hx) :=
  let w := fresh "w" in let Hw := fresh "Hw" in
  apply m_bind_ok in H as (p & w & [Hx Hw]%lift_ok & H); subst w.

Section Release.
Context `{SerdeJson, ValueLibs, WireSerde, AuthLibs}.

(** each reading is recorded as what it gave *)
Lemma authority_ok enrolled w a w' :
  authority enrolled w = (Ended (Ok a), w') →
  ∃ file, w_files w = Ok file :: w_files w' ∧ w_clock w' = w_clock w ∧
    w_trace w' = w_trace w ++ [ReadAuthority (Ok file)] ∧
    authority_parse file = Ok a ∧ history_validate enrolled a = Ok tt.
Proof.
  intros E. unfold authority in E. run_bind E as file w1 Hf. run_lift E as a1 Ha%map_err_ok.
  run_lift E as [] Hh. injection E as -> <-. exists file.
  apply await_ended in Hf. cbn in Hf. destruct (w_files w) as [|f fs]; [discriminate|].
  injection Hf as -> <-. done.
Qed.

Lemma now_ok w t w' :
  now w = (Ended (Ok t), w') →
  w_clock w = Some t :: w_clock w' ∧ w_files w' = w_files w ∧ w_trace w' = w_trace w ++ [ReadClock (Some t)].
Proof.
  unfold now. destruct (w_clock w) as [|[u|] ts]; [discriminate| |discriminate]. by intros [= -> <-].
Qed.

Lemma frame_read_ok max w b w' :
  read max w = (Ended (Ok b), w') →
  w_files w' = w_files w ∧ w_clock w' = w_clock w ∧ w_trace w' = w_trace w ++ [ReadInput (Ok b)].
Proof.
  unfold read. intros E%await_ended. destruct (match fb_new max with Ok _ => _ | Err _ => _ end) as [r reads].
  by injection E as -> <-.
Qed.

Lemma history_validate_ok enrolled a : history_validate enrolled a = Ok tt ↔ identities a = Ok enrolled.
Proof.
  unfold history_validate. rewrite bind_ok. split.
  - intros (ids & -> & E). by case_decide; subst.
  - intros E. exists enrolled. by rewrite decide_True.
Qed.

(** the authorization in force at a reading of the authority file *)
Definition Authorized (enrolled : list Identity) (file : bytes) (t : N) (pin : Pinned) : Prop :=
  ∃ a, authority_parse file = Ok a ∧ identities a = Ok enrolled ∧
    pin_principal pin ∈ a_principals a ∧ pin_resource pin ∈ a_resources a ∧
    Granted a (p_id (pin_principal pin)) (r_id (pin_resource pin)) (pin_operation pin) t.

(** what is done for a result: a Call that asks for what was pinned, then the
    authority file and the clock, twice, and nothing else *)
Inductive Released (enrolled : list Identity) (pin : Pinned) (id : string) (frame : bytes) : list Event → Prop :=
| released input c f1 t1 f2 t2 :
    decode_call input = Ok c → call_id c = id → args_operation (call_args c) = pin_operation pin →
    call_binding c = pin_binding pin → pin_operation pin = OpReadiness →
    Authorized enrolled f1 t1 pin → Authorized enrolled f2 t2 pin →
    encode_success (mkSuccess id OpReadiness (pin_binding pin) (Readiness Configured)) c = Ok frame →
    Released enrolled pin id frame
      [ReadInput (Ok input); ReadAuthority (Ok f1); ReadClock (Some t1); ReadAuthority (Ok f2); ReadClock (Some t2)].

Lemma call_done enrolled pin id w frame w' :
  call enrolled pin id w = (Ended (Ok frame), w') →
  ∃ input c f1 t1 f2 t2,
    w_trace w' = w_trace w ++
      [ReadInput (Ok input); ReadAuthority (Ok f1); ReadClock (Some t1); ReadAuthority (Ok f2); ReadClock (Some t2)] ∧
    w_files w = Ok f1 :: Ok f2 :: w_files w' ∧ w_clock w = Some t1 :: Some t2 :: w_clock w' ∧
    decode_call input = Ok c ∧ call_id c = id ∧ args_operation (call_args c) = pin_operation pin ∧
    call_binding c = pin_binding pin ∧ pin_operation pin = OpReadiness ∧
    Authorized enrolled f1 t1 pin ∧ Authorized enrolled f2 t2 pin ∧
    encode_success (mkSuccess id OpReadiness (pin_binding pin) (Readiness Configured)) c = Ok frame.
Proof.
  intros E. unfold call in E. run_bind E as input w1 Hr. apply frame_read_ok in Hr as (Hf & Hk & Hr).
  run_lift E as c Hc. run_lift E as [] Hid%deny_ok. run_lift E as [] Hb%deny_ok.
  run_bind E as a1 w2 Ha1. run_bind E as t1 w3 Ht1. run_lift E as [] Hv1%revalidate_ok.
  run_lift E as body Hop. run_lift E as frame' Henc.
  run_bind E as a2 w4 Ha2. run_bind E as t2 w5 Ht2. run_lift E as [] Hv2%revalidate_ok.
  injection E as -> <-.
  apply authority_ok in Ha1 as (f1 & Ef1 & Ec1 & E1 & Hp1 & Hh1%history_validate_ok).
  apply authority_ok in Ha2 as (f2 & Ef2 & Ec2 & E2 & Hp2 & Hh2%history_validate_ok).
  apply now_ok in Ht1 as (Et1 & Eg1 & El1). apply now_ok in Ht2 as (Et2 & Eg2 & El2).
  apply orb_false_iff in Hid as [Hi Ho]. apply negb_false_iff, String.eqb_eq in Hi.
  apply negb_false_iff, bool_decide_eq_true in Ho. apply negb_false_iff, bool_decide_eq_true in Hb.
  assert (pin_operation pin = OpReadiness ∧ body = Readiness Configured) as [Eop ->]
    by (destruct (pin_operation pin); naive_solver).
  exists input, c, f1, t1, f2, t2. split; [by rewrite El2, E2, El1, E1, Hr, <- !app_assoc|].
  rewrite Eop in Henc. subst id. split_and!; try done; try congruence.
  - by exists a1.
  - by exists a2.
Qed.

(** C2. Release follows authorization.  When the server has a success frame to
    send, what it did since it asked for the Call is, in this order: it read a
    Call that carries the id, the operation and the binding pinned at Prepare;
    it read the authority file and then the clock; it read both again; and
    nothing more, so that a revocation that precedes the last reading is never
    followed by a release.  In both readings the same identities were enrolled,
    the pinned principal and resource were unchanged and an enabled, unexpired
    grant covered them. *)
Theorem release_is_authorized enrolled pin id w frame w' :
  call enrolled pin id w = (Ended (Ok frame), w') →
  ∃ input c f1 t1 f2 t2,
    w_trace w' = w_trace w ++
      [ReadInput (Ok input); ReadAuthority (Ok f1); ReadClock (Some t1); ReadAuthority (Ok f2); ReadClock (Some t2)] ∧
    w_files w = Ok f1 :: Ok f2 :: w_files w' ∧ w_clock w = Some t1 :: Some t2 :: w_clock w' ∧
    decode_call input = Ok c ∧ call_id c = id ∧ args_operation (call_args c) = pin_operation pin ∧
    call_binding c = pin_binding pin ∧ pin_operation pin = OpReadiness ∧
    Authorized enrolled f1 t1 pin ∧ Authorized enrolled f2 t2 pin ∧
    encode_success (mkSuccess id OpReadiness (pin_binding pin) (Readiness Configured)) c = Ok frame.
Proof. apply call_done. Qed.
End Release.

Definition sample_pin : Pinned :=
  mkPinned sample_principal sample_resource OpReadiness (binding_of sample_principal sample_resource).
Definition sample_enrolled : list Identity :=
  [mkIdentity KPrincipal (rep 32 "a") (rep 32 "b") (rep 64 "c");
   mkIdentity KResource (rep 32 "c") (rep 32 "d") (rep 64 "c")].
Definition sample_world : World :=
  mkWorld [Some (but_last call_frame); Some [LF]]
    [Ok (str_bytes "{}"); Ok (str_bytes "{}")] [Some 10; Some 11] [Ok tt; Ok tt] [] ∅ 3.

(** the frame is in two pieces, and the authority is read twice after it *)
Lemma release_is_authorized_witness :
  ∃ frame w', @Service.call toy_serde no_libs sample_wire sample_auth_libs
      sample_enrolled sample_pin sample_id sample_world = (Ended (Ok frame), w') ∧
    ∃ input f1 f2, w_trace w' = [ReadInput (Ok input); ReadAuthority (Ok f1); ReadClock (Some 10);
        ReadAuthority (Ok f2); ReadClock (Some 11)] ∧
      @Authorized toy_serde sample_auth_libs sample_enrolled f2 11 sample_pin.
Proof.
  eexists. eexists. split; [vm_compute; reflexivity|].
  edestruct (@release_is_authorized toy_serde no_libs sample_wire sample_auth_libs
    sample_enrolled sample_pin sample_id sample_world)
    as (input & c & f1 & t1 & f2 & t2 & Ht & _ & Hc & _ & _ & _ & _ & _ & _ & Ha & _);
    [vm_compute; reflexivity|].
  injection Hc as <- <-. exists input, f1, f2. split; [exact Ht|exact Ha].
Defined.

(** *** What a peer is told, and the permits *)
Section Answers.
Context `{SerdeJson, ValueLibs, WireSerde, AuthLibs}.

(** the counts are left alone and nothing is sent *)
Definition Quiet (w w' : World) : Prop :=
  w_counts w' = w_counts w ∧ ∃ tr, w_trace w' = w_trace w ++ tr ∧ frames_of tr = [].
#[export] Instance Quiet_preorder : PreOrder Quiet.
Proof.
  split.
  - intros w. split; [done|]. exists []. by rewrite app_nil_r.
  - intros u v w [C1 (t1 & E1 & F1)] [C2 (t2 & E2 & F2)]. split; [congruence|].
    exists (t1 ++ t2). rewrite E2, E1, app_assoc. split; [done|]. unfold frames_of in *. by rewrite omap_app, F1, F2.
Qed.
Lemma quiet_did w w' e : w_counts w' = w_counts w → w_trace w' = w_trace w ++ [e] → frame_of e = None → Quiet w w'.
Proof. intros C E F. split; [done|]. exists [e]. split; [done|]. cbn. by rewrite F. Qed.
Lemma quiet_still w w' : w_counts w' = w_counts w → w_trace w' = w_trace w → Quiet w w'.
Proof. intros C E. split; [done|]. exists []. by rewrite app_nil_r. Qed.
Hint Resolve quiet_did quiet_still : core.

(** neither writes nor touches the counts, whatever the outcome *)
Definition Silent {A} (m : M A) : Prop := ∀ w r w', m w = (r, w') → Quiet w w'.

Lemma silent_bind {A B} (m : M A) (f : A → M B) : Silent m → (∀ a, Silent (f a)) → Silent (m ≫= f).
Proof.
  intros Hm Hf w r w' E. unfold mbind, M_bind in E. destruct (m w) as [[[a|e]|] w1] eqn:Em.
  - etrans; [by eapply Hm|by eapply Hf].
  - injection E as <- <-. by eapply Hm.
  - injection E as <- <-. by eapply Hm.
Qed.
Lemma silent_lift {A} (r : Result A) : Silent (lift r).
Proof. by intros w r' w' [= _ <-]. Qed.
Lemma silent_ret {A} (a : A) : Silent (mret a).
Proof. by intros w r' w' [= _ <-]. Qed.
(** an await that is reached runs from a world with one less to come *)
Lemma await_run {A} (f : World → Result A * World) w r w' :
  await f w = (r, w') → (r, w') = (Dropped, w) ∨ ∃ r0, r = Ended r0 ∧ f (with_life w (w_life w - 1)) = (r0, w').
Proof.
  unfold await. destruct (w_life w =? 0); [intros [= <- <-]; by left|]. destruct (f _) as [r0 w0].
  intros [= <- <-]. right. by exists r0.
Qed.
Lemma silent_await {A} (f : World → Result A * World) :
  (∀ w r w', f w = (r, w') → Quiet w w') → Silent (await f).
Proof. intros Hf w r w' [[= -> ->]|(r0 & _ & E)]%await_run; [done|]. by apply Hf in E. Qed.
Lemma silent_read max : Silent (read max).
Proof. apply silent_await. intros w r w'. destruct (match fb_new max with Ok _ => _ | Err _ => _ end). intros [= _ <-]. eauto. Qed.
Lemma silent_now : Silent now.
Proof. intros w r w' E. unfold now in E. destruct (match w_clock w with [] => _ | _ :: _ => _ end). injection E as _ <-. eauto. Qed.
Lemma silent_file : Silent bounded_file.
Proof. apply silent_await. intros w r w'. destruct (w_files w); intros [= _ <-]; eauto. Qed.

Lemma silent_authority enrolled : Silent (authority enrolled).
Proof.
  apply silent_bind; [apply silent_file|intros f]. apply silent_bind; [apply silent_lift|intros a].
  apply silent_bind; [apply silent_lift|intros _]. apply silent_ret.
Qed.

Lemma silent_call enrolled pin id : Silent (call enrolled pin id).
Proof.
  unfold call.
  repeat first [apply silent_read|apply silent_lift|apply silent_now|apply silent_authority|apply silent_ret
               |apply silent_bind; [|intros ?]].
Qed.

(** what sends: the counts are left alone, and the trace grows by nothing or by the frame *)
Lemma flush_still w r w' : flush w = (r, w') → w_counts w' = w_counts w ∧ w_trace w' = w_trace w.
Proof. intros [[= -> ->]|(r0 & _ & E)]%await_run; [done|]. cbn in E. destruct (w_writes w); by injection E as _ <-. Qed.
Lemma send_all_sent frame w r w' :
  send_all frame w = (r, w') →
  w_counts w' = w_counts w ∧
  (r = Ended (Ok tt) ∧ w_trace w' = w_trace w ++ [Sent frame] ∨ r ≠ Ended (Ok tt) ∧ w_trace w' = w_trace w).
Proof.
  intros [[= -> ->]|(r0 & -> & E)]%await_run; [auto|]. cbn in E.
  destruct (w_writes w) as [|[[]|e] ws]; injection E as <- <-; cbn; split; auto; by right.
Qed.
(** a future that did not give a value: an error, or dropped *)
Definition Stopped {A} (r : Future A) : Prop := ∀ a, r ≠ Ended (Ok a).
(** where a run stopped, or the next step of it *)
Lemma m_bind_run {A B} (m : M A) (f : A → M B) w r w' :
  (m ≫= f) w = (r, w') →
  (∃ e, m w = (e, w') ∧ Stopped e ∧ Stopped r) ∨ ∃ a w1, m w = (Ended (Ok a), w1) ∧ f a w1 = (r, w').
Proof.
  unfold mbind, M_bind. destruct (m w) as [[[a|e]|] w1]; [right; eauto|..];
    intros [= <- <-]; left; eexists; (split; [done|]); split; discriminate.
Qed.
(** what was sent of a frame: all of it once [write] succeeds *)
Lemma write_sent frame w r w' :
  write frame w = (r, w') →
  w_counts w' = w_counts w ∧ (w_trace w' = w_trace w ++ [Sent frame] ∨ Stopped r ∧ w_trace w' = w_trace w).
Proof.
  intros E. unfold write in E. apply m_bind_run in E as [(e & E & He & Hr)|([] & w1 & E1 & E)].
  - apply send_all_sent in E as Hs. destruct Hs as [Hc [[-> _]|[_ Hs]]]; [by destruct (He tt)|].
    auto.
  - apply send_all_sent in E1 as [Hc [[_ Hs]|[Hn _]]]; [|done]. apply flush_still in E as [-> ->]. auto.
Qed.

Lemma finish_sent frame sh w r w' :
  finish frame sh w = (r, w') →
  w_counts w' = w_counts w ∧ (w_trace w' = w_trace w ∨ w_trace w' = w_trace w ++ [Sent frame]).
Proof.
  intros E. unfold finish in E. apply m_bind_run in E as [(e & E & _)|(u & w1 & E1 & E)].
  - apply write_sent in E as [? [?|[_ ?]]]; auto.
  - apply write_sent in E1 as [<- Hs]. apply await_run in E as [[= _ ->]|(r0 & _ & [= _ <-])];
      cbn; destruct Hs as [?|[_ ?]]; auto.
Qed.

Lemma try_silent {A} (m : M A) : Silent m → Silent (try m).
Proof. intros Hm w r w' E. unfold try in E. destruct (m w) as [[r0|] w0] eqn:Em; injection E as _ <-; by eapply Hm. Qed.
Lemma try_run {A} (m : M A) w o w' : try m w = (Ended (Ok o), w') → m w = (Ended o, w').
Proof. unfold try. destruct (m w) as [[r0|] w0]; [|discriminate]. by intros [= -> ->]. Qed.

(** ** What the events of a connection may be *)

(** a Prepare was read, then the authority file and the clock, and the three
    together authenticate it *)
Inductive Opening (enrolled : list Identity) (p : Prepare) (pin : Pinned) : list Event → Prop :=
| opening input file a t : decode_prepare input = Ok p → authority_parse file = Ok a → identities a = Ok enrolled →
    prepare a p t = Ok pin →
    Opening enrolled p pin [ReadInput (Ok input); ReadAuthority (Ok file); ReadClock (Some t)].
Lemma call_released enrolled pin id w frame w' :
  call enrolled pin id w = (Ended (Ok frame), w') →
  ∃ tr, w_trace w' = w_trace w ++ tr ∧ Released enrolled pin id frame tr.
Proof.
  intros (input & c & f1 & t1 & f2 & t2 & E & _ & _ & Hd)%call_done. eexists. split; [exact E|].
  destruct Hd as (? & ? & ? & ? & ? & ? & ? & ?). by econstructor.
Qed.

Definition failure_frame (p : Prepare) (code : Error) : Result bytes :=
  encode_failure (mkFailure V2 (pr_id p) code).
Definition prepared_frame (p : Prepare) (pin : Pinned) : Result bytes :=
  encode_prepared (mkPrepared V2 ClientGaze (pr_id p) (pr_operation p) (pin_binding pin)).

(** the events of one connection *)
Inductive Answer (enrolled : list Identity) : list Event → Prop :=
| answer_none tr : frames_of tr = [] → Answer enrolled tr
| answer_refused tr p pin code f : Opening enrolled p pin tr → code = Unavailable ∨ code = UnsupportedOperation →
    failure_frame p code = Ok f → Answer enrolled (tr ++ [Sent f])
| answer_prepared tr p pin f quiet : Opening enrolled p pin tr → prepared_frame p pin = Ok f → frames_of quiet = [] →
    Answer enrolled (tr ++ Sent f :: quiet)
| answer_released tr p pin f call frame : Opening enrolled p pin tr → prepared_frame p pin = Ok f →
    Released enrolled pin (pr_id p) frame call → Answer enrolled (tr ++ Sent f :: call ++ [Sent frame])
| answer_failed tr p pin f quiet code reply : Opening enrolled p pin tr → prepared_frame p pin = Ok f →
    frames_of quiet = [] → failure_frame p code = Ok reply → Answer enrolled (tr ++ Sent f :: quiet ++ [Sent reply]).

(** how a run that began at [w] ended at [w'] *)
Definition Answered (enrolled : list Identity) (w w' : World) : Prop :=
  w_counts w' = w_counts w ∧ ∃ tr, Answer enrolled tr ∧ w_trace w' = w_trace w ++ tr.
Lemma quiet_answered enrolled w w' : Quiet w w' → Answered enrolled w w'.
Proof. intros [Hc (tr & E & F)]. split; [done|]. exists tr. split; [by constructor|done]. Qed.
Lemma opening_quiet enrolled p pin tr : Opening enrolled p pin tr → frames_of tr = [].
Proof. by intros []. Qed.

Lemma acquire_denied counts id e counts' :
  (∀ id, counts !! id ≠ Some 0) → acquire counts id = (Err e, counts') → e = Unavailable ∧ counts' = counts.
Proof.
  unfold acquire. intros Hz. destruct (counts !! id) as [n|] eqn:E; cbn [from_option Datatypes.id].
  - destruct (MAX_PRINCIPAL_CALLS <=? n); intros [= <- <-]. split; [done|]. by apply insert_id.
  - discriminate.
Qed.

Lemma acquire_drop counts id counts' :
  (∀ id, counts !! id ≠ Some 0) → acquire counts id = (Ok tt, counts') →
  drop_permit counts' id = Some counts.
Proof.
  unfold acquire, drop_permit. intros Hz. destruct (counts !! id) as [n|] eqn:E; cbn [from_option Datatypes.id].
  - destruct (MAX_PRINCIPAL_CALLS <=? n); [discriminate|]. intros [= <-]. rewrite lookup_insert_eq.
    assert (n ≠ 0) by (intros ->; by eapply Hz).
    destruct (N.eqb_spec (n + 1) 0); [lia|]. destruct (N.eqb_spec (n + 1 - 1) 0); [lia|].
    rewrite N.add_sub, insert_insert_eq. by rewrite insert_id.
  - intros [= <-]. rewrite lookup_insert_eq. cbn. by rewrite delete_insert_id.
Qed.

(** the exchange after admission, of a connection that began at [w0] *)
Lemma exchange_sent enrolled sh p pin pre w0 w r w' :
  Opening enrolled p pin pre → w_trace w = w_trace w0 ++ pre → 
  (prepared ← lift (prepared_frame p pin);
   _ ← write prepared;
   outcome ← try (call enrolled pin (pr_id p));
   frame ← lift (match outcome with Ok frame => Ok frame | Err code => failure_frame p code end);
   finish frame sh) w = (r, w') →
  w_counts w' = w_counts w ∧ ∃ tr, Answer enrolled tr ∧ w_trace w' = w_trace w0 ++ tr.
Proof.
  intros Ho Hw E. assert (Hnone : ∃ tr, Answer enrolled tr ∧ w_trace w = w_trace w0 ++ tr)
    by (exists pre; split; [constructor; by eapply opening_quiet|done]).
  apply m_bind_run in E as [(e & E & _)|(f & w1 & Ef & E)]; [by injection E as _ <-|].
  apply lift_ok in Ef as [Ef ->].
  apply m_bind_run in E as [(e & E & _)|([] & w1 & Ew & E)].
  { apply write_sent in E as [-> [->|[_ ->]]]; [|done]. split; [done|]. exists (pre ++ [Sent f]).
    split; [by eapply answer_prepared|by rewrite Hw, app_assoc]. }
  apply write_sent in Ew as [Hc1 [Hs1|[Hw1 _]]]; [|by destruct (Hw1 tt)]. rewrite Hw in Hs1.
  apply m_bind_run in E as [(e & E & _)|(o & w2 & Et & E)].
  { apply (try_silent _ (silent_call _ _ _)) in E as [Hc (q & Eq & Hq)]. split; [congruence|].
    exists (pre ++ Sent f :: q). split; [by eapply answer_prepared|]. by rewrite Eq, Hs1, <- !app_assoc. }
  apply try_run in Et as Ecall. pose proof (silent_call _ _ _ _ _ _ Ecall) as [Hc2 (q & Eq & Hq)].
  assert (Hone : ∃ tr, Answer enrolled tr ∧ w_trace w2 = w_trace w0 ++ tr).
  { exists (pre ++ Sent f :: q). split; [by eapply answer_prepared|]. by rewrite Eq, Hs1, <- !app_assoc. }
  apply m_bind_run in E as [(e & E & _)|(reply & w4 & Er & E)].
  { injection E as _ <-. split; [congruence|done]. }
  apply lift_ok in Er as [Er ->]. apply finish_sent in E as [Hc3 Hs3]. split; [congruence|].
  destruct Hs3 as [-> | ->]; [done|]. destruct o as [fr|code].
  - injection Er as ->. apply call_released in Ecall as (tr & Etr & Hr).
    exists (pre ++ Sent f :: tr ++ [Sent reply]). split; [by eapply answer_released|].
    by rewrite Etr, Hs1, <- !app_assoc.
  - exists (pre ++ Sent f :: q ++ [Sent reply]). split; [by eapply answer_failed|]. by rewrite Eq, Hs1, <- !app_assoc.
Qed.

(** the admission decision and what follows it *)
Lemma admission_sent enrolled sh p pin principal pre w0 w adm w1 r w' :
  Opening enrolled p pin pre → w_trace w = w_trace w0 ++ pre → (∀ id, w_counts w !! id ≠ Some 0) →
  try (if decide (pin_operation pin = OpReadiness)
       then with_counts (fun c => acquire c principal) else lift (Err UnsupportedOperation)) w = (Ended (Ok adm), w1) →
  match adm with
  | Err code => frame ← lift (failure_frame p code); finish frame sh
  | Ok _ => holding principal (
      prepared ← lift (prepared_frame p pin);
      _ ← write prepared;
      outcome ← try (call enrolled pin (pr_id p));
      frame ← lift (match outcome with Ok frame => Ok frame | Err code => failure_frame p code end);
      finish frame sh)
  end w1 = (r, w') →
  w_counts w' = w_counts w ∧ ∃ tr, Answer enrolled tr ∧ w_trace w' = w_trace w0 ++ tr.
Proof.
  intros Ho Hw Hz Hadm E.
  assert (Hcase : (∃ code, adm = Err code ∧ (code = Unavailable ∨ code = UnsupportedOperation) ∧
      w_counts w1 = w_counts w ∧ w_trace w1 = w_trace w) ∨
    (adm = Ok tt ∧ drop_permit (w_counts w1) principal = Some (w_counts w) ∧ w_trace w1 = w_trace w)).
  { unfold try in Hadm. case_decide.
    - unfold with_counts in Hadm. destruct (acquire (w_counts w) principal) as [[[]|e] c1] eqn:Eacq;
        injection Hadm as <- <-; cbn.
      + right. apply acquire_drop in Eacq; done.
      + left. apply acquire_denied in Eacq as [-> ->]; [|done]. eauto 6.
    - injection Hadm as <- <-. left. eauto 6. }
  destruct Hcase as [(code & -> & Hcode & Hc & Hs)|(-> & Hdrop & Hs)]; rewrite <- Hs in Hw.
  - assert (Hnone : ∃ tr, Answer enrolled tr ∧ w_trace w1 = w_trace w0 ++ tr)
      by (exists pre; split; [constructor; by eapply opening_quiet|done]).
    apply m_bind_run in E as [(e & E & _)|(f & w2 & Ef & E)]; [by injection E as _ <-|].
    apply lift_ok in Ef as [Ef ->]. apply finish_sent in E as [Hc2 Hs2]. split; [congruence|].
    destruct Hs2 as [-> | ->]; [done|]. exists (pre ++ [Sent f]).
    split; [by eapply answer_refused|by rewrite Hw, app_assoc].
  - unfold holding in E. destruct ((_ : M unit) w1) as [r2 w2] eqn:Ex in E. injection E as <- <-. cbn.
    by apply (exchange_sent _ _ _ _ _ _ _ _ _ Ho Hw) in Ex as [-> Htr]; rewrite Hdrop.
Qed.

(** C23. What a peer learns.  However a connection goes, and wherever its
    deadline drops it, the permit it took is returned, and what it did, in this
    order, is: it sent nothing; or it read a Prepare, the authority file and the
    clock, which authenticate the Prepare together, and then sent one failure
    that refuses admission, or the Prepared of its own pin.  After that at most
    one reply is sent: the frame of a result, just after the Call of this
    connection was read and the authority and the clock were read twice, both
    times authorizing the pin; or a failure that carries the request's id. *)
Theorem connection_answers enrolled sh w w' :
  (∀ id, w_counts w !! id ≠ Some 0) → task enrolled sh w = w' →
  w_counts w' = w_counts w ∧ ∃ tr, Answer enrolled tr ∧ w_trace w' = w_trace w ++ tr.
Proof.
  unfold task. destruct (connection enrolled sh w) as [r w0] eqn:E. cbn. intros Hz <-. rename w0 into w'. unfold connection in E.
  apply m_bind_run in E as [(e & E & _)|(input & w1 & Er & E)]; [by eapply quiet_answered, silent_read|].
  pose proof (silent_read _ _ _ _ Er) as Q1.
  apply m_bind_run in E as [(e & E & _)|(p & w2 & Hp & E)]; [injection E as _ <-; by apply quiet_answered|].
  apply lift_ok in Hp as [Hp ->].
  apply m_bind_run in E as [(e & E & _)|(a & w2 & Ha & E)].
  { apply quiet_answered. etrans; [exact Q1|]. by eapply silent_authority. }
  assert (Q2 : Quiet w w2) by (etrans; [exact Q1|by eapply silent_authority]).
  apply m_bind_run in E as [(e & E & _)|(t & w3 & Ht & E)].
  { apply quiet_answered. etrans; [exact Q2|]. by eapply silent_now. }
  assert (Q3 : Quiet w w3) by (etrans; [exact Q2|by eapply silent_now]).
  apply m_bind_run in E as [(e & E & _)|(pin & w4 & Hpin & E)]; [injection E as _ <-; by apply quiet_answered|].
  apply lift_ok in Hpin as [Hpin ->]. cbv zeta in E.
  apply authority_ok in Ha as (file & _ & _ & E2 & Hfile & Hids%history_validate_ok).
  apply frame_read_ok in Er as (_ & _ & E1). apply now_ok in Ht as (_ & _ & E3).
  apply m_bind_run in E as [(e & E & He & _)|(adm & w5 & Hadm & E)].
  { unfold try, with_counts, lift in E. exfalso. case_decide; [destruct (acquire _ _)|]; injection E as <- _; by eapply He. }
  destruct Q3 as [Ec _]. rewrite <- Ec in *.
  eapply (admission_sent enrolled sh p pin); [by econstructor| |exact Hz|exact Hadm|exact E].
  by rewrite E3, E2, E1, <- !app_assoc.
Qed.
End Answers.

Definition sample_connection : World :=
  mkWorld [Some prepare_frame; Some call_frame]
    [Ok (str_bytes "{}"); Ok (str_bytes "{}"); Ok (str_bytes "{}")] [Some 9; Some 10; Some 11]
    [Ok tt; Ok tt; Ok tt; Ok tt] [] ∅ 10.

(** the same, dropped before its reply is written *)
Definition dropped_connection : World := with_life sample_connection 7.

Lemma connection_answers_witness :
  (∀ id, w_counts sample_connection !! id ≠ Some 0) ∧
  ∃ w' dropped, @task toy_serde no_libs sample_wire sample_auth_libs sample_enrolled (Ok tt) sample_connection = w' ∧
    @task toy_serde no_libs sample_wire sample_auth_libs sample_enrolled (Ok tt) dropped_connection = dropped ∧
    length (frames_of (w_trace w')) = 2%nat ∧ w_counts w' = ∅ ∧
    length (frames_of (w_trace dropped)) = 1%nat ∧ w_counts dropped = ∅ ∧
    @Answer toy_serde no_libs sample_wire sample_auth_libs sample_enrolled (w_trace w').
Proof.
  split; [intros id; vm_compute; discriminate|].
  eexists. eexists. split; [vm_compute; reflexivity|]. split; [vm_compute; reflexivity|].
  do 4 (split; [reflexivity|]).
  edestruct (@connection_answers toy_serde no_libs sample_wire sample_auth_libs sample_enrolled (Ok tt)
    sample_connection) as (_ & tr & Ha & Et).
  - intros id. vm_compute. discriminate.
  - vm_compute. reflexivity.
  - cbn [w_trace app sample_connection] in Et |- *. rewrite Et. exact Ha.
Defined.
