(* ===== verification/SqlQuery.v ===== *)
(** * Compiling canned queries to SQL

    Models src/src/source/db/query_dto.rs and query.rs: the query DTOs, the
    checks of columns and operators, identifier quoting, placeholders and
    [CannedQuery::compile_to_sql_for].  SQL text is bytes, an [f64] its bit
    pattern.  The mutable [binds] and [PlaceholderState] are threaded through
    as the record [Emit]. *)

From S2P Require Import Prelude Str.

Inductive Dialect := Mysql | Postgres | Sqlite.
Inductive ScalarValue :=
| ScString (v : string) | ScI64 (v : Z) | ScU64 (v : N) | ScF64 (bits : N) | ScBool (v : bool) | ScNull.
Inductive ScalarOrList := SlScalar (v : ScalarValue) | SlList (vs : list ScalarValue).
Inductive WhereOp := WEq | WNe | WGt | WGte | WLt | WLte | WIn | WLike | WIsNull | WIsNotNull.
#[global] Instance WhereOp_eq_dec : EqDecision WhereOp.
Proof. solve_decision. Defined.
Inductive WhereCombinator := WAnd | WOr.
Inductive OrderDir := DAsc | DDesc.
Record WhereClause := mkClause { wc_col : string; wc_op : WhereOp; wc_val : option ScalarOrList }.
Record OrderBy := mkOrderBy { ob_col : string; ob_dir : OrderDir }.
Record CannedQuery := mkCanned {
  cq_profile : string; cq_table : string; cq_columns : option (list string);
  cq_where : option (list WhereClause); cq_where_combinator : option WhereCombinator;
  cq_order_by : option (list OrderBy); cq_limit : option N }.
Record ColumnInfo := mkColumnInfo {
  ci_name : string; ci_name_token : string; ci_data_type : string; ci_nullable : bool; ci_allowed : bool }.
Record TableSchema := mkTableSchema {
  ts_table : string; ts_table_token : string; ts_columns : list ColumnInfo; ts_limit_cap : option N }.

Inductive QueryValue := QString (v : string) | QI64 (v : Z) | QU64 (v : N) | QF64 (bits : N) | QBool (v : bool).
Record CompiledQuery := mkCompiled { cq_sql : bytes; cq_binds : list QueryValue }.
Inductive QueryError :=
| TableMismatch (query_table schema_table : string)
| UnknownColumn (col : string)
| DisallowedColumn (col : string)
| OperatorTypeMismatch (col : string) (op : WhereOp) (data_type : string)
| OperatorRequiresList (op : WhereOp)
| OperatorRequiresScalar (op : WhereOp)
| OperatorRequiresNoValue (op : WhereOp)
| OperatorRequiresValue (op : WhereOp)
| LimitExceedsCap (requested cap : N)
| UnsafeColumn (col : string).

Abbreviation QResult := (result QueryError).

(** ** Columns and operators *)
Definition KEYWORDS : list string :=
  ["alter"; "delete"; "drop"; "insert"; "order"; "select"; "truncate"; "union"; "update"; "where"]%string.
Definition has_sql_keyword (column : string) : bool :=
  existsb (String.eqb (to_ascii_lowercase column)) KEYWORDS.

(** [contains] of a two-byte pattern *)
Fixpoint contains_dashes (s : bytes) : bool :=
  match s with
  | a :: (b :: _) as s' => (beq a "-" && beq b "-") || contains_dashes s'
  | _ => false
  end.

Definition validate_column (column : string) (schema : TableSchema) : QResult ColumnInfo :=
  if has_sql_keyword column || existsb (beq ";") (str_bytes column) || contains_dashes (str_bytes column)
  then Err (UnsafeColumn column)
  else
    info ← ok_or (List.find (fun c => String.eqb (ci_name c) column) (ts_columns schema)) (UnknownColumn column);
    if negb (ci_allowed info) then Err (DisallowedColumn column) else Ok info.

Definition is_string_family (data_type : string) : bool :=
  existsb (String.eqb (to_ascii_lowercase data_type))
    ["char"; "varchar"; "text"; "tinytext"; "mediumtext"; "longtext"; "json"]%string.
Definition operator_matches_type (op : WhereOp) (data_type : string) : bool :=
  if decide (op = WLike) then is_string_family data_type else true.

(** *** Quoting *)
Definition BACKTICK : ascii := "`"%char.
Definition DQUOTE : ascii := ascii_of_N 34.
Definition quote_of (d : Dialect) : ascii := match d with Mysql | Sqlite => BACKTICK | Postgres => DQUOTE end.
(** [ident.replace(q, qq)] *)
Definition double (q : ascii) (s : bytes) : bytes :=
  s ≫= fun b => if beq b q then [q; q] else [b].
Definition escape_ident (ident : string) (d : Dialect) : bytes :=
  let q := quote_of d in q :: double q (str_bytes ident) ++ [q].

(** *** Placeholders and binds *)
Record Emit := mkEmit { em_binds : list QueryValue; em_next_index : N }.
Definition placeholder_new : Emit := mkEmit [] 1.
(** [PlaceholderState::next] *)
Definition placeholder_next (d : Dialect) (em : Emit) : bytes * Emit :=
  match d with
  | Mysql | Sqlite => (["?"%char : ascii], em)
  | Postgres => ("$"%char :: print_u64 (em_next_index em), mkEmit (em_binds em) (em_next_index em + 1))
  end.
Definition push_bind (v : QueryValue) (em : Emit) : Emit := mkEmit (em_binds em ++ [v]) (em_next_index em).

Definition query_value (value : ScalarValue) (op : WhereOp) : QResult QueryValue :=
  match value with
  | ScString v => Ok (QString v)
  | ScI64 v => Ok (QI64 v)
  | ScU64 v => Ok (QU64 v)
  | ScF64 v => Ok (QF64 v)
  | ScBool v => Ok (QBool v)
  | ScNull => Err (OperatorRequiresNoValue op)
  end.

(** the last three are [unreachable!] in the source: handled before the call *)
Definition sql_operator (op : WhereOp) : string :=
  match op with
  | WEq => "=" | WNe => "!=" | WGt => ">" | WGte => ">=" | WLt => "<" | WLte => "<=" | WLike => "LIKE"
  | WIn | WIsNull | WIsNotNull => ""
  end.

(** [parts.join(sep)] *)
Fixpoint join {A} (sep : list A) (parts : list (list A)) : list A :=
  match parts with
  | [] => []
  | [p] => p
  | p :: ps => p ++ sep ++ join sep ps
  end.

(** ** Where clauses *)
Fixpoint push_values (op : WhereOp) (values : list ScalarValue) (em : Emit) : QResult Emit :=
  match values with
  | [] => Ok em
  | v :: values => q ← query_value v op; push_values op values (push_bind q em)
  end.
Fixpoint placeholders_for {A} (d : Dialect) (values : list A) (em : Emit) : list bytes * Emit :=
  match values with
  | [] => ([], em)
  | _ :: values =>
    let '(p, em) := placeholder_next d em in
    let '(ps, em) := placeholders_for d values em in
    (p :: ps, em)
  end.

Definition text (s : string) : bytes := str_bytes s.

Definition compile_where_clause (clause : WhereClause) (column : ColumnInfo) (d : Dialect) (em : Emit)
  : QResult (bytes * Emit) :=
  let op := wc_op clause in
  if negb (operator_matches_type op (ci_data_type column))
  then Err (OperatorTypeMismatch (wc_col clause) op (ci_data_type column))
  else
    let ident := escape_ident (wc_col clause) d in
    match op with
    | WIsNull | WIsNotNull =>
      match wc_val clause with
      | Some _ => Err (OperatorRequiresNoValue op)
      | None => Ok (ident ++ text " IS " ++ text (if decide (op = WIsNotNull) then "NOT " else "") ++ text "NULL", em)
      end
    | WIn =>
      values ← (match wc_val clause with
        | Some (SlList values) => Ok values
        | Some (SlScalar _) => Err (OperatorRequiresList op)
        | None => Err (OperatorRequiresValue op)
        end);
      match values with
      | [] => Err (OperatorRequiresList op)
      | _ =>
        em ← push_values op values em;
        let '(ps, em) := placeholders_for d values em in
        Ok (ident ++ text " IN (" ++ join (text ", ") ps ++ text ")", em)
      end
    | WEq | WNe | WGt | WGte | WLt | WLte | WLike =>
      value ← (match wc_val clause with
        | Some (SlScalar value) => Ok value
        | Some (SlList _) => Err (OperatorRequiresScalar op)
        | None => Err (OperatorRequiresValue op)
        end);
      q ← query_value value op;
      let '(p, em) := placeholder_next d (push_bind q em) in
      Ok (ident ++ text " " ++ text (sql_operator op) ++ text " " ++ p, em)
    end.

Fixpoint compile_clauses (schema : TableSchema) (d : Dialect) (clauses : list WhereClause) (em : Emit)
  : QResult (list bytes * Emit) :=
  match clauses with
  | [] => Ok ([], em)
  | c :: cs =>
    column ← validate_column (wc_col c) schema;
    '(p, em) ← compile_where_clause c column d em;
    '(ps, em) ← compile_clauses schema d cs em;
    Ok (p :: ps, em)
  end.

(** ** Ordering *)
Definition dir_text (dir : OrderDir) : string := match dir with DAsc => "ASC" | DDesc => "DESC" end.
Fixpoint compile_orders (schema : TableSchema) (d : Dialect) (orders : list OrderBy) : QResult (list bytes) :=
  match orders with
  | [] => Ok []
  | o :: os =>
    _ ← validate_column (ob_col o) schema;
    ps ← compile_orders schema d os;
    Ok ((escape_ident (ob_col o) d ++ text " " ++ text (dir_text (ob_dir o))) :: ps)
  end.

(** ** The statement *)
Fixpoint validate_columns (columns : list string) (schema : TableSchema) : QResult unit :=
  match columns with
  | [] => Ok tt
  | c :: cs => _ ← validate_column c schema; validate_columns cs schema
  end.

Definition selected_columns (q : CannedQuery) (schema : TableSchema) : list string :=
  let all := ci_name <$> filter (fun c => ci_allowed c = true) (ts_columns schema) in
  match cq_columns q with
  | Some (c :: cs) => c :: cs
  | _ => all
  end.

Definition U32_CAP : N := U32_MAX.
Definition hard_cap (schema : TableSchema) : N := default U32_CAP (ts_limit_cap schema).
(** the safety cap is probed with one row more; a lower limit is exact *)
Definition effective_limit (requested : option N) (cap : N) : N :=
  match requested with
  | Some n => if n =? cap then n + 1 else n
  | None => cap + 1
  end.

Definition combinator_text (c : option WhereCombinator) : bytes :=
  text (match default WAnd c with WAnd => " AND " | WOr => " OR " end).

Definition compile_to_sql_for (q : CannedQuery) (schema : TableSchema) (d : Dialect) : QResult CompiledQuery :=
  if negb (String.eqb (cq_table q) (ts_table schema))
  then Err (TableMismatch (cq_table q) (ts_table schema))
  else
    let selected := selected_columns q schema in
    _ ← validate_columns selected schema;
    let select_list := match selected with
      | [] => text "1"
      | _ => join (text ", ") ((fun c => escape_ident c d) <$> selected)
      end in
    let sql := text "SELECT " ++ select_list ++ text " FROM " ++ escape_ident (ts_table schema) d in
    let em := placeholder_new in
    '(sql, em) ← (match cq_where q with
      | Some (c :: cs) =>
        '(parts, em) ← compile_clauses schema d (c :: cs) em;
        Ok (sql ++ text " WHERE " ++ join (combinator_text (cq_where_combinator q)) parts, em)
      | _ => Ok (sql, em)
      end);
    sql ← (match cq_order_by q with
      | Some (o :: os) =>
        parts ← compile_orders schema d (o :: os);
        Ok (sql ++ text " ORDER BY " ++ join (text ", ") parts)
      | _ => Ok sql
      end);
    let cap := hard_cap schema in
    _ ← (match cq_limit q with
      | Some requested => if cap <? requested then Err (LimitExceedsCap requested cap) else Ok tt
      | None => Ok tt
      end);
    let '(p, em) := placeholder_next d em in
    let em := push_bind (QU64 (effective_limit (cq_limit q) cap)) em in
    Ok (mkCompiled (sql ++ text " LIMIT " ++ p) (em_binds em)).

Definition compile_to_sql (q : CannedQuery) (schema : TableSchema) : QResult CompiledQuery :=
  compile_to_sql_for q schema Mysql.
