(* ===== verification/SqlQueryFacts.v ===== *)
(** * Compiled SQL is what the query says

    A lexer for the quoting rule of the dialects reads a compiled statement
    back into keywords, identifiers and placeholders: names and values cannot
    break out of their place. *)

From S2P Require Import Prelude Str SqlQuery.

(** ** Lexing quoted identifiers *)
Inductive tok := Ch (c : ascii) | Id (name : bytes).

(** outside of quotes a byte is itself; inside, a doubled quote is one quote
    and a single one ends the identifier; an open quote at the end is an error *)
Fixpoint lex (q : ascii) (st : option bytes) (s : bytes) : option (list tok) :=
  match s with
  | [] => match st with None => Some [] | Some _ => None end
  | b :: s' =>
    match st with
    | None => if beq b q then lex q (Some []) s' else cons (Ch b) <$> lex q None s'
    | Some acc =>
      if beq b q then
        match s' with
        | c :: s'' => if beq c q then lex q (Some (acc ++ [q])) s'' else cons (Id acc) <$> lex q None s'
        | [] => Some [Id acc]
        end
      else lex q (Some (acc ++ [b])) s'
    end
  end.

Definition render_tok (q : ascii) (t : tok) : bytes :=
  match t with Ch c => [c] | Id name => q :: double q name ++ [q] end.
Definition render (q : ascii) (ts : list tok) : bytes := ts ≫= render_tok q.

(** no quote among the plain bytes, and no two identifiers side by side *)
Fixpoint Clean (q : ascii) (ts : list tok) : Prop :=
  match ts with
  | [] => True
  | Ch c :: ts => c ≠ q ∧ Clean q ts
  | Id _ :: ts => match ts with Id _ :: _ => False | _ => True end ∧ Clean q ts
  end.

Lemma render_head q ts b s : Clean q ts → render q ts = b :: s →
  match ts with Id _ :: _ => True | _ => b ≠ q end.
Proof.
  destruct ts as [|[c|n] ts]; [done| |done]. intros [Hc _] E. cbn in E. by injection E as <- _.
Qed.

Lemma lex_inside q name acc ts :
  Clean q ts → match ts with Id _ :: _ => False | _ => True end →
  lex q (Some acc) (double q name ++ q :: render q ts) = cons (Id (acc ++ name)) <$> lex q None (render q ts).
Proof.
  intros Hc Hi. revert acc. induction name as [|b name IH]; intros acc.
  - cbn [double mbind list_bind app lex]. rewrite (proj2 (beq_true q q)) by done. rewrite app_nil_r.
    destruct (render q ts) as [|c s] eqn:E; [done|]. pose proof (render_head _ _ _ _ Hc E) as Hh.
    assert (Hcq : c ≠ q) by (destruct ts as [|[]]; done). by rewrite (proj2 (beq_false c q)).
  - change (double q (b :: name)) with ((if beq b q then [q; q] else [b]) ++ double q name).
    destruct (beq b q) eqn:Eb; cbn [app lex].
    + rewrite (proj2 (beq_true q q)) by done. rewrite IH, <- app_assoc. apply beq_true in Eb as ->. done.
    + rewrite Eb, IH, <- app_assoc. done.
Qed.

Lemma lex_render q ts : Clean q ts → lex q None (render q ts) = Some ts.
Proof.
  induction ts as [|[c|n] ts IH]; intros Hc; [done| |].
  - destruct Hc as [Hq Hc]. change (render q (Ch c :: ts)) with (c :: render q ts). cbn [lex].
    rewrite (proj2 (beq_false c q)) by done. by rewrite IH.
  - destruct Hc as [Hn Hc]. change (render q (Id n :: ts)) with ((q :: double q n ++ [q]) ++ render q ts).
    cbn [app]. rewrite <- app_assoc. cbn [app lex]. rewrite (proj2 (beq_true q q)) by done.
    rewrite lex_inside; [|done|by destruct ts as [|[]]]. cbn [app]. by rewrite IH.
Qed.

(** ** The statement a query stands for *)
Definition T (s : string) : list tok := Ch <$> text s.
Definition I (name : string) : list tok := [Id (text name)].
(** the [n]-th placeholder *)
Definition P (d : Dialect) (n : N) : list tok :=
  match d with Mysql | Sqlite => T "?" | Postgres => T "$" ++ (Ch <$> print_u64 n) end.
Fixpoint Ps {A} (d : Dialect) (base : N) (vs : list A) : list (list tok) :=
  match vs with [] => [] | _ :: vs => P d (base + 1) :: Ps d (base + 1) vs end.

Definition clause_values (c : WhereClause) : list ScalarValue :=
  match wc_val c with Some (SlScalar v) => [v] | Some (SlList vs) => vs | None => [] end.
Definition clause_tokens (d : Dialect) (base : N) (c : WhereClause) : list tok :=
  I (wc_col c) ++
  match wc_op c with
  | WIsNull => T " IS NULL"
  | WIsNotNull => T " IS NOT NULL"
  | WIn => T " IN (" ++ join (T ", ") (Ps d base (clause_values c)) ++ T ")"
  | op => T " " ++ T (sql_operator op) ++ T " " ++ P d (base + 1)
  end.
Fixpoint clauses_tokens (d : Dialect) (base : N) (cs : list WhereClause) : list (list tok) :=
  match cs with
  | [] => []
  | c :: cs => clause_tokens d base c :: clauses_tokens d (base + len (clause_values c)) cs
  end.
Definition where_of (q : CannedQuery) : list WhereClause := default [] (cq_where q).
Definition order_of (q : CannedQuery) : list OrderBy := default [] (cq_order_by q).
Definition where_values (q : CannedQuery) : list ScalarValue := where_of q ≫= clause_values.

Definition combinator_string (c : option WhereCombinator) : string :=
  match default WAnd c with WAnd => " AND " | WOr => " OR " end.

Definition order_tokens (o : OrderBy) : list tok := I (ob_col o) ++ T " " ++ T (dir_text (ob_dir o)).

Definition select_part (cq : CannedQuery) (schema : TableSchema) : list tok :=
  match selected_columns cq schema with [] => T "1" | cols => join (T ", ") (I <$> cols) end.
Definition where_part (d : Dialect) (cq : CannedQuery) : list tok :=
  match where_of cq with
  | [] => []
  | cs => T " WHERE " ++ join (T (combinator_string (cq_where_combinator cq))) (clauses_tokens d 0 cs)
  end.
Definition order_part (cq : CannedQuery) : list tok :=
  match order_of cq with
  | [] => []
  | os => T " ORDER BY " ++ join (T ", ") (order_tokens <$> os)
  end.
Definition statement (d : Dialect) (cq : CannedQuery) (schema : TableSchema) : list tok :=
  T "SELECT " ++ select_part cq schema ++ T " FROM " ++ I (ts_table schema) ++
  where_part d cq ++ order_part cq ++ T " LIMIT " ++ P d (len (where_values cq) + 1).

(** *** Rendering *)
Section Render.
Context (q : ascii).

Lemma render_app a b : render q (a ++ b) = render q a ++ render q b.
Proof. apply bind_app. Qed.

Lemma render_chars l : render q (Ch <$> l) = l.
Proof. induction l as [|c l IH]; [done|]. change (c :: render q (Ch <$> l) = c :: l). by rewrite IH. Qed.

Lemma render_T s : render q (T s) = text s.
Proof. apply render_chars. Qed.

Lemma render_join sep ps : render q (join sep ps) = join (render q sep) (render q <$> ps).
Proof.
  induction ps as [|p [|p' ps] IH]; [done|done|]. cbn [join fmap list_fmap] in *.
  by rewrite !render_app, IH.
Qed.

(** *** The tokens are clean *)
Definition quoteless (l : bytes) : bool := forallb (fun c => negb (beq c q)) l.
Definition starts_plain (ts : list tok) : Prop := match ts with Id _ :: _ => False | _ => True end.

Lemma clean_chars l X : quoteless l = true → Clean q X → Clean q ((Ch <$> l) ++ X).
Proof.
  intros Hl HX. induction l as [|c l IH]; [done|]. cbn [quoteless forallb] in Hl.
  apply andb_true_iff in Hl as [Hc Hl]. apply negb_true_iff, beq_false in Hc. split; [done|by apply IH].
Qed.

Lemma clean_T s X : quoteless (text s) = true → Clean q X → Clean q (T s ++ X).
Proof. apply clean_chars. Qed.

Lemma clean_T' s : quoteless (text s) = true → Clean q (T s).
Proof. intros H. rewrite <- (app_nil_r (T s)). by apply clean_T. Qed.

Lemma clean_I name X : starts_plain X → Clean q X → Clean q (I name ++ X).
Proof. by split. Qed.

Lemma clean_app a b : Clean q a → Clean q b → starts_plain b → Clean q (a ++ b).
Proof.
  intros Ha Hb Hs. induction a as [|[c|n] a IH]; [done| |].
  - destruct Ha as [? ?]. split; [done|by apply IH].
  - destruct Ha as [Hn ?]. split; [|by apply IH]. destruct a as [|[]]; done.
Qed.

Lemma clean_join s ps : text s ≠ [] → quoteless (text s) = true → Forall (Clean q) ps → Clean q (join (T s) ps).
Proof.
  intros Hne Hs. induction 1 as [|p [|p' ps] Hp _ IH]; [done|done|]. cbn [join] in *.
  apply clean_app; [done|by apply clean_T|]. unfold T. by destruct (text s).
Qed.

Lemma starts_T s X : text s ≠ [] → starts_plain (T s ++ X).
Proof. unfold T. by destruct (text s). Qed.

End Render.

Lemma quoteless_print q n : digit q = false → quoteless q (print_u64 n) = true.
Proof.
  intros Hq. pose proof (parse_digits_print n) as Hp. unfold parse_digits in Hp.
  destruct (negb _ && _) eqn:E; [|done]. apply andb_true_iff in E as [_ Hd].
  unfold quoteless. rewrite forallb_forall in *. intros c Hc. apply Hd in Hc.
  apply negb_true_iff, beq_false. congruence.
Qed.

Lemma clean_P d n X : Clean (quote_of d) X → Clean (quote_of d) (P d n ++ X).
Proof.
  intros HX. destruct d; [by apply clean_T| |by apply clean_T]. unfold P. rewrite <- app_assoc.
  apply clean_T; [done|]. apply clean_chars; [by apply quoteless_print|done].
Qed.

Lemma render_I d name : render (quote_of d) (I name) = escape_ident name d.
Proof. unfold I, escape_ident, render. cbn [mbind list_bind render_tok]. by rewrite app_nil_r. Qed.

(** *** The compiled bytes are the rendered tokens *)
Section Compiled.
Context (d : Dialect).
Abbreviation q := (quote_of d).

Definition bind_of (v : ScalarValue) : option QueryValue :=
  match query_value v WEq with Ok b => Some b | Err _ => None end.

Lemma query_value_bind v op b : query_value v op = Ok b → bind_of v = Some b.
Proof. unfold bind_of. by destruct v; intros [= <-]. Qed.

(** an emitter after [n] binds, and what a step appends to it *)
Definition Numbered (n : N) (em : Emit) : Prop := d = Postgres → em_next_index em = n + 1.

Lemma placeholder_spec n em s em' :
  Numbered n em → placeholder_next d em = (s, em') →
  s = render q (P d (n + 1)) ∧ em_binds em' = em_binds em ∧ Numbered (n + 1) em'.
Proof.
  unfold Numbered, placeholder_next, P. intros Hn E. destruct d; injection E as <- <-.
  - by rewrite render_T.
  - rewrite Hn by done. rewrite render_app, render_T, render_chars. done.
  - by rewrite render_T.
Qed.

Lemma placeholders_spec {A} (vs : list A) n em ps em' :
  Numbered n em → placeholders_for d vs em = (ps, em') →
  ps = render q <$> Ps d n vs ∧ em_binds em' = em_binds em ∧ Numbered (n + len vs) em'.
Proof.
  revert n em ps. induction vs as [|v vs IH]; intros n em ps Hn E; cbn [placeholders_for Ps] in *.
  - injection E as <- <-. by rewrite len_nil, N.add_0_r.
  - destruct (placeholder_next d em) as [p em1] eqn:Ep. destruct (placeholders_for d vs em1) as [ps1 em2] eqn:Eps.
    injection E as <- <-. apply (placeholder_spec n) in Ep as (-> & Hb & Hn'); [|done].
    apply (IH (n + 1)) in Eps as (-> & Hb' & Hn''); [|done]. split_and!; [done|congruence|].
    rewrite len_cons. by replace (n + (len vs + 1)) with (n + 1 + len vs) by lia.
Qed.

Lemma push_values_spec op vs em em' :
  push_values op vs em = Ok em' →
  ∃ bs, Forall2 (fun v b => bind_of v = Some b) vs bs ∧ em_binds em' = em_binds em ++ bs ∧
    em_next_index em' = em_next_index em.
Proof.
  revert em. induction vs as [|v vs IH]; intros em E; cbn [push_values] in E.
  - injection E as <-. exists []. by rewrite app_nil_r.
  - open_bind E as b Hb%query_value_bind. apply IH in E as (bs & Hf & -> & ->).
    exists (b :: bs). cbn. rewrite <- app_assoc. split_and!; [by constructor|done|done].
Qed.

Lemma clause_spec c col n em s em' :
  Numbered n em → compile_where_clause c col d em = Ok (s, em') →
  s = render q (clause_tokens d n c) ∧
  ∃ bs, Forall2 (fun v b => bind_of v = Some b) (clause_values c) bs ∧ em_binds em' = em_binds em ++ bs ∧
    Numbered (n + len (clause_values c)) em'.
Proof.
  intros Hn E. unfold compile_where_clause in E.
  destruct (operator_matches_type _ _); [|discriminate]. cbn [negb] in E.
  unfold clause_tokens, clause_values. rewrite render_app, render_I.
  destruct c as [cn op val]. cbn [wc_op wc_val wc_col] in *.
  assert (Hcmp : ∀ o : WhereOp,
    (value ← (match val with
        | Some (SlScalar value) => Ok value
        | Some (SlList _) => Err (OperatorRequiresScalar o)
        | None => Err (OperatorRequiresValue o)
        end);
      b ← query_value value o;
      let '(p, em) := placeholder_next d (push_bind b em) in
      Ok (escape_ident cn d ++ text " " ++ text (sql_operator o) ++ text " " ++ p, em)) = Ok (s, em') →
    s = escape_ident cn d ++ render q (T " " ++ T (sql_operator o) ++ T " " ++ P d (n + 1)) ∧
    ∃ bs, Forall2 (fun v b => bind_of v = Some b)
      (match val with Some (SlScalar v) => [v] | Some (SlList vs) => vs | None => [] end) bs ∧
      em_binds em' = em_binds em ++ bs ∧
      Numbered (n + len (match val with Some (SlScalar v) => [v] | Some (SlList vs) => vs | None => [] end)) em').
  { intros o F. destruct val as [[v|vs]|]; [|discriminate|discriminate]. cbn [mbind result_bind] in F.
    open_bind F as b Hb%query_value_bind.
    destruct (placeholder_next d (push_bind b em)) as [p em1] eqn:Ep. injection F as <- <-.
    apply (placeholder_spec n) in Ep as (-> & Hbs & Hn'); [|done]. rewrite !render_app, !render_T.
    split; [done|]. exists [b]. split_and!; [by repeat constructor|done|done]. }
  destruct op; try (exact (Hcmp _ E)).
  - open_bind E as vs Hvs. assert (val = Some (SlList vs)) as -> by (destruct val as [[]|]; naive_solver).
    destruct vs as [|v vs]; [discriminate|]. open_bind E as em1 Hpush.
    apply push_values_spec in Hpush as (bs & Hf & Hb & Hi).
    destruct (placeholders_for d (v :: vs) em1) as [ps em2] eqn:Eps. injection E as <- <-.
    apply (placeholders_spec _ n) in Eps as (-> & Hb' & Hn'); [|intros Hd; rewrite Hi; by apply Hn].
    rewrite !render_app, !render_T, render_join, render_T. split; [done|].
    exists bs. split_and!; [done|congruence|done].
  - destruct val; [discriminate|]. injection E as <- <-. rewrite render_T. split; [done|].
    exists []. rewrite app_nil_r, len_nil, N.add_0_r. split_and!; [constructor|done|done].
  - destruct val; [discriminate|]. injection E as <- <-. rewrite render_T. split; [done|].
    exists []. rewrite app_nil_r, len_nil, N.add_0_r. split_and!; [constructor|done|done].
Qed.

Lemma clauses_spec schema cs n em ps em' :
  Numbered n em → compile_clauses schema d cs em = Ok (ps, em') →
  ps = render q <$> clauses_tokens d n cs ∧ Forall (fun c => ∃ i, validate_column (wc_col c) schema = Ok i) cs ∧
  ∃ bs, Forall2 (fun v b => bind_of v = Some b) (cs ≫= clause_values) bs ∧ em_binds em' = em_binds em ++ bs ∧
    Numbered (n + len (cs ≫= clause_values)) em'.
Proof.
  revert n em ps. induction cs as [|c cs IH]; intros n em ps Hn E; cbn [compile_clauses clauses_tokens] in *.
  - injection E as <- <-. split_and!; [done|constructor|]. exists [].
    rewrite app_nil_r, N.add_0_r. split_and!; [constructor|done|done].
  - open_bind E as col Hcol. open_bind E as [p em1] Hp. open_bind E as [ps1 em2] Hps. injection E as <- <-.
    apply (clause_spec _ _ n) in Hp as (-> & bs & Hf & Hb & Hn'); [|done].
    apply (IH (n + len (clause_values c))) in Hps as (-> & Hcols & bs' & Hf' & Hb' & Hn''); [|done].
    split_and!; [done|constructor; eauto|]. exists (bs ++ bs').
    change ((c :: cs) ≫= clause_values) with (clause_values c ++ (cs ≫= clause_values)).
    split_and!; [by apply Forall2_app|rewrite Hb', Hb; by rewrite app_assoc|].
    rewrite len_app. by replace (n + (len (clause_values c) + len (cs ≫= clause_values)))
      with (n + len (clause_values c) + len (cs ≫= clause_values)) by lia.
Qed.

Lemma orders_spec schema os ps :
  compile_orders schema d os = Ok ps →
  ps = render q <$> (order_tokens <$> os) ∧ Forall (fun o => ∃ i, validate_column (ob_col o) schema = Ok i) os.
Proof.
  revert ps. induction os as [|o os IH]; intros ps E; cbn [compile_orders] in E.
  - by injection E as <-.
  - open_bind E as i Hi. open_bind E as ps1 Hps. injection E as <-. apply IH in Hps as [-> Hf].
    split; [|constructor; eauto]. cbn [fmap list_fmap]. unfold order_tokens at 2.
    by rewrite !render_app, !render_T, render_I.
Qed.

Lemma columns_spec schema cs :
  validate_columns cs schema = Ok tt → Forall (fun c => ∃ i, validate_column c schema = Ok i) cs.
Proof.
  induction cs as [|c cs IH]; intros E; cbn [validate_columns] in E; [constructor|].
  open_bind E as i Hi. constructor; eauto.
Qed.

(** the columns a query names, where an empty selection is the allowed ones *)
Definition columns_used (cq : CannedQuery) (schema : TableSchema) : list string :=
  selected_columns cq schema ++ (wc_col <$> where_of cq) ++ (ob_col <$> order_of cq).

Record Compiles (cq : CannedQuery) (schema : TableSchema) (c : CompiledQuery) : Prop := {
  co_sql : cq_sql c = render q (statement d cq schema);
  co_binds : ∃ bs, Forall2 (fun v b => bind_of v = Some b) (where_values cq) bs ∧
    cq_binds c = bs ++ [QU64 (effective_limit (cq_limit cq) (hard_cap schema))];
  co_table : cq_table cq = ts_table schema;
  co_columns : Forall (fun c => ∃ i, validate_column c schema = Ok i) (columns_used cq schema);
  co_limit : ∀ n, cq_limit cq = Some n → n <= hard_cap schema;
}.

Lemma select_render cq schema :
  match selected_columns cq schema with
  | [] => text "1"
  | _ => join (text ", ") ((fun c => escape_ident c d) <$> selected_columns cq schema)
  end = render q (select_part cq schema).
Proof.
  unfold select_part. destruct (selected_columns cq schema) as [|x xs]; [by rewrite render_T|].
  rewrite render_join, render_T. f_equal. rewrite <- list_fmap_compose. apply list_fmap_ext.
  intros i y _. symmetry. apply render_I.
Qed.

Lemma where_render cq schema sql s em :
  match cq_where cq with
  | Some (c :: cs) =>
    '(parts, em) ← compile_clauses schema d (c :: cs) placeholder_new;
    Ok (sql ++ text " WHERE " ++ join (combinator_text (cq_where_combinator cq)) parts, em)
  | _ => Ok (sql, placeholder_new)
  end = Ok (s, em) →
  s = sql ++ render q (where_part d cq) ∧
  Forall2 (fun v b => bind_of v = Some b) (where_values cq) (em_binds em) ∧
  Numbered (len (where_values cq)) em ∧
  Forall (fun c => ∃ i, validate_column (wc_col c) schema = Ok i) (where_of cq).
Proof.
  unfold where_part, where_values, where_of. intros Hw.
  destruct (cq_where cq) as [[|x xs]|]; cbn [from_option Datatypes.id] in *.
  - injection Hw as <- <-. by rewrite app_nil_r.
  - open_bind Hw as [ps em1] Hps. injection Hw as <- <-.
    apply (clauses_spec _ _ 0) in Hps as (-> & Hf & bs & Hbs & Hb & Hn); [|done].
    cbn [placeholder_new em_binds app] in Hb. subst bs.
    split_and!; [|done|by rewrite N.add_0_l in Hn|done].
    by rewrite !render_app, render_join, !render_T.
  - injection Hw as <- <-. by rewrite app_nil_r.
Qed.

Lemma order_render cq schema sql s :
  match cq_order_by cq with
  | Some (o :: os) =>
    parts ← compile_orders schema d (o :: os);
    Ok (sql ++ text " ORDER BY " ++ join (text ", ") parts)
  | _ => Ok sql
  end = Ok s →
  s = sql ++ render q (order_part cq) ∧
  Forall (fun o => ∃ i, validate_column (ob_col o) schema = Ok i) (order_of cq).
Proof.
  unfold order_part, order_of. intros Ho.
  destruct (cq_order_by cq) as [[|x xs]|]; cbn [from_option Datatypes.id] in *.
  - injection Ho as <-. by rewrite app_nil_r.
  - open_bind Ho as ps Hps. injection Ho as <-. apply orders_spec in Hps as [-> Hf].
    split; [|done]. by rewrite !render_app, render_join, !render_T.
  - injection Ho as <-. by rewrite app_nil_r.
Qed.

Lemma compile_spec cq schema c : compile_to_sql_for cq schema d = Ok c → Compiles cq schema c.
Proof.
  unfold compile_to_sql_for. destruct (String.eqb_spec (cq_table cq) (ts_table schema)) as [Ht|]; [|discriminate].
  cbn [negb]. cbv zeta. rewrite select_render. intros E. open_bind E as [] Hcols%columns_spec.
  open_bind E as [sql em] Hw%where_render. destruct Hw as (-> & Hbs & Hn & Hwc).
  open_bind E as sql2 Ho%order_render. destruct Ho as (-> & Hoc). open_bind E as [] Hlim.
  destruct (placeholder_next d em) as [p em2] eqn:Ep. injection E as <-.
  apply (placeholder_spec (len (where_values cq))) in Ep as (-> & Hb & _); [|done].
  split; cbn [cq_sql cq_binds].
  - unfold statement. rewrite !render_app, !render_T, render_I, <- !app_assoc. done.
  - exists (em_binds em). cbn. by rewrite Hb.
  - done.
  - unfold columns_used. rewrite !Forall_app, !Forall_fmap. done.
  - intros n Hq. rewrite Hq in Hlim. destruct (N.ltb_spec (hard_cap schema) n); [discriminate|done].
Qed.

(** *** The statement is clean *)
Lemma quoteless_const s : quoteless BACKTICK (text s) = true → quoteless DQUOTE (text s) = true →
  quoteless q (text s) = true.
Proof. by destruct d. Qed.

Lemma clean_clause n c : Clean q (clause_tokens d n c).
Proof.
  unfold clause_tokens. destruct (wc_op c); cbn [sql_operator];
    (apply clean_I; [by apply starts_T||done|]);
    repeat first [by apply clean_T', quoteless_const
                 |apply clean_T; [by apply quoteless_const|]
                 |rewrite <- (app_nil_r (P _ _)); by apply clean_P].
  apply clean_app; [|by apply clean_T', quoteless_const|done].
  apply clean_join; [done|by apply quoteless_const|].
  generalize (clause_values c). intros vs. revert n. induction vs as [|v vs IH]; intros n; constructor; [|apply IH].
  rewrite <- (app_nil_r (P _ _)). by apply clean_P.
Qed.

Lemma clean_clauses n cs : Forall (Clean q) (clauses_tokens d n cs).
Proof. revert n. induction cs as [|c cs IH]; intros n; constructor; [apply clean_clause|apply IH]. Qed.

Lemma clean_order o : Clean q (order_tokens o).
Proof.
  apply clean_I; [by apply starts_T|]. apply clean_T; [by apply quoteless_const|].
  apply clean_T'. destruct (ob_dir o); by apply quoteless_const.
Qed.

Lemma clean_statement cq schema : Clean q (statement d cq schema).
Proof.
  unfold statement. apply clean_T; [by apply quoteless_const|].
  apply clean_app; [| |by apply starts_T].
  { unfold select_part. destruct (selected_columns cq schema) as [|x xs]; [by apply clean_T', quoteless_const|].
    apply clean_join; [done|by apply quoteless_const|]. apply Forall_fmap, Forall_forall. intros y _. done. }
  apply clean_T; [by apply quoteless_const|].
  assert (Htail : Clean q (T " LIMIT " ++ P d (len (where_values cq) + 1)) ∧
    starts_plain (T " LIMIT " ++ P d (len (where_values cq) + 1))).
  { split; [|done]. apply clean_T; [by apply quoteless_const|]. rewrite <- (app_nil_r (P _ _)). by apply clean_P. }
  destruct Htail as [Ht1 Ht2].
  assert (Horder : Clean q (order_part cq ++ T " LIMIT " ++ P d (len (where_values cq) + 1)) ∧
    starts_plain (order_part cq ++ T " LIMIT " ++ P d (len (where_values cq) + 1))).
  { unfold order_part. destruct (order_of cq) as [|o os]; [done|]. split; [|done].
    rewrite <- app_assoc. apply clean_T; [by apply quoteless_const|]. apply clean_app; [|done|done].
    apply clean_join; [done|by apply quoteless_const|]. apply Forall_fmap, Forall_forall. intros y _. apply clean_order. }
  destruct Horder as [Ho1 Ho2]. unfold where_part. destruct (where_of cq) as [|c cs]; [by apply clean_I|].
  apply clean_I; [done|]. rewrite <- app_assoc. apply clean_T; [by apply quoteless_const|].
  apply clean_app; [|done|done]. apply clean_join; [| |apply clean_clauses].
  - unfold combinator_string. by destruct (default WAnd _).
  - unfold combinator_string. destruct (default WAnd _); by apply quoteless_const.
Qed.
End Compiled.

(** ** The identifiers of a statement *)
Lemma elem_of_join {A} (x : A) sep ps : x ∈ join sep ps → x ∈ sep ∨ ∃ p, p ∈ ps ∧ x ∈ p.
Proof.
  induction ps as [|p [|p' ps] IH]; cbn [join] in *; [by intros ?%not_elem_of_nil| |].
  - intros Hx. right. exists p. split; [by left|done].
  - rewrite !elem_of_app. intros [Hx|[Hx|Hx]]; [right; exists p; split; [by left|done]|by left|].
    destruct (IH Hx) as [?|(r & Hr & ?)]; [by left|]. right. exists r. split; [by right|done].
Qed.

Lemma no_id_T name s : Id name ∉ T s.
Proof. intros (c & Hc & _)%list_elem_of_fmap. discriminate. Qed.

Lemma no_id_P name d n : Id name ∉ P d n.
Proof.
  destruct d; try apply no_id_T. unfold P. rewrite elem_of_app.
  intros [Hx|(c & Hc & _)%list_elem_of_fmap]; [by eapply no_id_T|discriminate].
Qed.

Lemma id_I name n : Id name ∈ I n → name = text n.
Proof. intros Hx%list_elem_of_singleton. by injection Hx. Qed.

Lemma no_id_Ps {A} name d n (vs : list A) p : p ∈ Ps d n vs → Id name ∉ p.
Proof.
  revert n. induction vs as [|v vs IH]; intros n; cbn [Ps]; [by intros ?%not_elem_of_nil|].
  intros [->|Hp]%elem_of_cons; [apply no_id_P|by eapply IH].
Qed.

Lemma id_clause name d n c : Id name ∈ clause_tokens d n c → name = text (wc_col c).
Proof.
  unfold clause_tokens. rewrite elem_of_app. intros [Hx|Hx]; [by apply id_I|]. exfalso.
  destruct (wc_op c); rewrite ?elem_of_app in Hx;
    repeat match goal with H : _ ∨ _ |- _ => destruct H as [H|H] end;
    try (by eapply no_id_T); try (by eapply no_id_P).
  apply elem_of_join in Hx as [Hx|(p & Hp & Hx)]; [by eapply no_id_T|by eapply no_id_Ps].
Qed.

Lemma id_clauses name d n cs p : p ∈ clauses_tokens d n cs → Id name ∈ p → ∃ c, c ∈ cs ∧ name = text (wc_col c).
Proof.
  revert n. induction cs as [|c cs IH]; intros n; cbn [clauses_tokens]; [by intros ?%not_elem_of_nil|].
  intros [->|Hp]%elem_of_cons Hx; [exists c; split; [by left|by eapply id_clause]|].
  destruct (IH _ Hp Hx) as (x & ? & ?). exists x. split; [by right|done].
Qed.

Lemma statement_ids name d cq schema :
  Id name ∈ statement d cq schema →
  name = text (ts_table schema) ∨ ∃ c, c ∈ columns_used cq schema ∧ name = text c.
Proof.
  unfold statement, columns_used. rewrite !elem_of_app.
  intros [Hx|[Hx|[Hx|[Hx|[Hx|[Hx|[Hx|Hx]]]]]]].
  - by apply no_id_T in Hx.
  - right. unfold select_part in Hx. destruct (selected_columns cq schema) as [|x xs] eqn:Es; [by apply no_id_T in Hx|].
    apply elem_of_join in Hx as [Hx|(p & (y & -> & Hy)%list_elem_of_fmap & Hx)]; [by apply no_id_T in Hx|].
    exists y. split; [|by apply id_I]. rewrite !elem_of_app. by left.
  - by apply no_id_T in Hx.
  - left. by apply id_I.
  - right. unfold where_part in Hx. destruct (where_of cq) as [|w ws] eqn:Ew; [by apply not_elem_of_nil in Hx|].
    rewrite elem_of_app in Hx. destruct Hx as [Hx|Hx]; [by apply no_id_T in Hx|].
    apply elem_of_join in Hx as [Hx|(p & Hp & Hx)]; [by apply no_id_T in Hx|].
    destruct (id_clauses _ _ _ _ _ Hp Hx) as (c & Hc & ->). exists (wc_col c). split; [|done].
    rewrite !elem_of_app. right; left. apply list_elem_of_fmap. by exists c.
  - right. unfold order_part in Hx. destruct (order_of cq) as [|o os] eqn:Eo; [by apply not_elem_of_nil in Hx|].
    rewrite elem_of_app in Hx. destruct Hx as [Hx|Hx]; [by apply no_id_T in Hx|].
    apply elem_of_join in Hx as [Hx|(p & (y & -> & Hy)%list_elem_of_fmap & Hx)]; [by apply no_id_T in Hx|].
    unfold order_tokens in Hx. rewrite !elem_of_app in Hx. destruct Hx as [Hx|[Hx|Hx]]; [|by apply no_id_T in Hx..].
    exists (ob_col y). split; [|by apply id_I]. rewrite !elem_of_app. do 2 right. apply list_elem_of_fmap. by exists y.
  - by apply no_id_T in Hx.
  - by apply no_id_P in Hx.
Qed.

(** a column of the schema that policy allows *)
Definition AllowedColumn (schema : TableSchema) (column : string) : Prop :=
  ∃ i, i ∈ ts_columns schema ∧ ci_name i = column ∧ ci_allowed i = true.

Lemma validate_column_allowed column schema i : validate_column column schema = Ok i → AllowedColumn schema column.
Proof.
  unfold validate_column. destruct (_ || _); [discriminate|]. intros E. open_bind E as j Hj%ok_or_ok.
  apply List.find_some in Hj as [Hin Hn%String.eqb_eq]. destruct (ci_allowed j) eqn:Ha; [|discriminate].
  exists j. split; [by apply list_elem_of_In|done].
Qed.

(** C8. Compiled SQL cannot be broken out of.  The lexer of the dialect reads
    the text of a compiled query as the statement the query stands for and
    nothing else: keywords, quoted identifiers with their exact names whatever
    characters these contain, and placeholders where the values go; and every
    identifier is the table of the schema or a column that policy allows. *)
Theorem compiled_sql_safe cq schema d c :
  compile_to_sql_for cq schema d = Ok c →
  lex (quote_of d) None (cq_sql c) = Some (statement d cq schema) ∧
  ∀ name, Id name ∈ statement d cq schema →
    name = text (ts_table schema) ∨ ∃ column, AllowedColumn schema column ∧ name = text column.
Proof.
  intros [Hs _ _ Hc _]%compile_spec. rewrite Hs. split; [apply lex_render, clean_statement|].
  intros name [?|(col & Hcol & ?)]%statement_ids; [by left|]. right. exists col. split; [|done].
  rewrite Forall_forall in Hc. destruct (Hc col Hcol) as [i Hi]. by eapply validate_column_allowed.
Qed.

(** The binds of a compiled query are the values of its predicates in
    order, none null, and the row limit: one more than the cap when no lower
    limit was asked for, so that truncation can be seen, else the limit
    itself; a limit above the cap does not compile. *)
Theorem compiled_binds cq schema d c :
  compile_to_sql_for cq schema d = Ok c →
  ∃ values limit, cq_binds c = values ++ [QU64 limit] ∧
    Forall2 (fun v b => bind_of v = Some b) (where_values cq) values ∧
    match cq_limit cq with
    | Some n => n <= hard_cap schema ∧ limit = (if decide (n = hard_cap schema) then n + 1 else n)
    | None => limit = hard_cap schema + 1
    end.
Proof.
  intros [_ (bs & Hf & ->) _ _ Hl]%compile_spec. exists bs. eexists. split; [done|]. split; [done|].
  unfold effective_limit. destruct (cq_limit cq) as [n|]; [|done]. split; [by apply Hl|].
  destruct (N.eqb_spec n (hard_cap schema)); by case_decide.
Qed.

(** a table and a column whose names hold quotes *)
Definition odd_schema : TableSchema := mkTableSchema "odd`table" "t"
  [mkColumnInfo "na`me" "c" "text" true true; mkColumnInfo "secret" "s" "text" true false] (Some 50).
Definition odd_query : CannedQuery := mkCanned "p" "odd`table" None
  (Some [mkClause "na`me" WLike (Some (SlScalar (ScString "x'; DROP TABLE t; --")))]) None None (Some 50).

Lemma compiled_sql_safe_witness :
  ∃ c, compile_to_sql_for odd_query odd_schema Mysql = Ok c ∧
    lex BACKTICK None (cq_sql c) = Some (statement Mysql odd_query odd_schema).
Proof.
  eexists. split; [vm_compute; reflexivity|].
  refine (proj1 (compiled_sql_safe odd_query odd_schema Mysql _ _)). vm_compute. reflexivity.
Defined.

Lemma compiled_binds_witness :
  ∃ c, compile_to_sql_for odd_query odd_schema Postgres = Ok c ∧
    ∃ values limit, cq_binds c = values ++ [QU64 limit].
Proof.
  eexists. split; [vm_compute; reflexivity|].
  destruct (compiled_binds odd_query odd_schema Postgres _ ltac:(vm_compute; reflexivity))
    as (values & limit & E & _). exists values, limit. exact E.
Defined.
