(* ===== verification/SchemaTok.v ===== *)
(** * Schema tokens

    Models src/src/source/db/schema.rs: the tokenizer that hides table and
    column names a profile does not allow.  Its mutex-protected maps are the
    state [Inner], threaded through every call.  The theorem: over any history
    of calls, hidden names and tokens correspond one to one. *)

From stdpp Require Import pretty.
From S2P Require Import Prelude Str SqlQuery.

Record Inner := mkInner {
  table_tokens : gmap string string;
  column_tokens : gmap string string;
}.
Definition inner_default : Inner := mkInner ∅ ∅.

Definition default_schema_allowlist : list string :=
  ["id"; "created_at"; "updated_at"; "deleted_at"; "status"; "type"]%string.

(** [value.ends_with("_at")] *)
Definition ends_with_at (value : string) : bool :=
  match reverse (str_bytes value) with
  | a :: b :: c :: _ => beq a "t" && beq b "a" && beq c "_"
  | _ => false
  end.
Definition is_default_allowed_name (value : string) : bool :=
  ends_with_at value || existsb (String.eqb value) default_schema_allowlist.

Definition schema_allowlist (profile_allowlist : option (list string)) : gset string :=
  list_to_set default_schema_allowlist ∪ list_to_set (default [] profile_allowlist).

(** [{:03}] *)
Definition pad3 (n : N) : bytes :=
  let s := print_u64 n in replicate (3 - length s) ("0"%char : ascii) ++ s.
Definition format_token (prefix : string) (n : N) : string :=
  str_of (["<"%char : ascii] ++ str_bytes prefix ++ ["_"%char : ascii] ++ pad3 n ++ [">"%char : ascii]).

Definition is_table (prefix : string) : bool := String.eqb prefix "TABLE".
Definition tokens_of (prefix : string) (st : Inner) : gmap string string :=
  if is_table prefix then table_tokens st else column_tokens st.
Definition set_tokens (prefix : string) (m : gmap string string) (st : Inner) : Inner :=
  if is_table prefix then mkInner m (column_tokens st) else mkInner (table_tokens st) m.

Definition shown (value : string) (allowlist : gset string) : bool :=
  bool_decide (value ∈ allowlist) || is_default_allowed_name value.

Definition token_for (prefix value : string) (allowlist : gset string) (st : Inner) : string * Inner :=
  if shown value allowlist then (value, st)
  else
    let map := tokens_of prefix st in
    match map !! value with
    | Some token => (token, st)
    | None =>
      let token := format_token prefix (N.of_nat (size map) + 1) in
      (token, set_tokens prefix (<[value := token]> map) st)
    end.

Fixpoint tokens_for (prefix : string) (values : list string) (allowlist : gset string) (st : Inner)
  : list string * Inner :=
  match values with
  | [] => ([], st)
  | v :: vs =>
    let '(t, st) := token_for prefix v allowlist st in
    let '(ts, st) := tokens_for prefix vs allowlist st in
    (t :: ts, st)
  end.

Definition tokenize_table_names (tables : list string) (profile_allowlist : option (list string)) (st : Inner)
  : list string * Inner :=
  tokens_for "TABLE" tables (schema_allowlist profile_allowlist) st.

Definition column_allowed (profile_scoped : bool) (allowlist : gset string) (c : ColumnInfo) : bool :=
  if profile_scoped
  then bool_decide (ci_name c ∈ allowlist) || is_default_allowed_name (ci_name c)
  else ci_allowed c || bool_decide (ci_name c ∈ allowlist).

Fixpoint tokenize_columns (profile_scoped : bool) (allowlist : gset string) (cs : list ColumnInfo) (st : Inner)
  : list ColumnInfo * Inner :=
  match cs with
  | [] => ([], st)
  | c :: cs =>
    let '(t, st) := token_for "COL" (ci_name c) allowlist st in
    let c' := mkColumnInfo (ci_name c) t (ci_data_type c) (ci_nullable c)
                (column_allowed profile_scoped allowlist c) in
    let '(cs', st) := tokenize_columns profile_scoped allowlist cs st in
    (c' :: cs', st)
  end.

Definition tokenize_table_schema (schema : TableSchema) (profile_allowlist : option (list string)) (st : Inner)
  : TableSchema * Inner :=
  let allowlist := schema_allowlist profile_allowlist in
  let profile_scoped := bool_decide (profile_allowlist ≠ None) in
  let '(table_token, st) := token_for "TABLE" (ts_table schema) allowlist st in
  let '(columns, st) := tokenize_columns profile_scoped allowlist (ts_columns schema) st in
  (mkTableSchema (ts_table schema) table_token columns (ts_limit_cap schema), st).

(** ** Tokens are injective in their number *)
Lemma pad3_digits n : forallb digit (pad3 n) = true ∧ digits_value 0 (pad3 n) = n.
Proof.
  unfold pad3. pose proof (parse_digits_print n) as Hp. unfold parse_digits in Hp.
  destruct (negb _ && _) eqn:E; [|done]. apply andb_true_iff in E as [_ Hd]. injection Hp as Hv.
  rewrite forallb_app, digits_value_app, Hd.
  assert (Hz : forallb digit (replicate (3 - length (print_u64 n)) ("0"%char : ascii)) = true ∧
    digits_value 0 (replicate (3 - length (print_u64 n)) ("0"%char : ascii)) = 0).
  { generalize (3 - length (print_u64 n))%nat. intros k. by induction k as [|k IH]. }
  destruct Hz as [-> ->]. done.
Qed.

#[global] Instance format_token_inj prefix : Inj (=) (=) (format_token prefix).
Proof.
  intros a b E. unfold format_token in E. apply (inj str_of) in E. cbn [app] in E. injection E as E.
  apply app_inv_head in E. cbn [app] in E. injection E as E. apply app_inj_tail in E as [E _].
  pose proof (pad3_digits a) as [_ <-]. pose proof (pad3_digits b) as [_ <-]. by rewrite E.
Qed.

(** ** Histories *)
Record Request := mkRequest { rq_prefix : string; rq_value : string; rq_allowlist : gset string }.
Fixpoint history (rs : list Request) (st : Inner) : list string :=
  match rs with
  | [] => []
  | r :: rs =>
    let '(t, st) := token_for (rq_prefix r) (rq_value r) (rq_allowlist r) st in t :: history rs st
  end.

(** each token is the one of a number up to the size, no number twice *)
Definition Tokens (prefix : string) (m : gmap string string) : Prop :=
  (∀ v t, m !! v = Some t → ∃ n, t = format_token prefix n ∧ n <= N.of_nat (size m)) ∧
  ∀ v w t, m !! v = Some t → m !! w = Some t → v = w.

Lemma tokens_insert prefix m v :
  Tokens prefix m → m !! v = None → Tokens prefix (<[v := format_token prefix (N.of_nat (size m) + 1)]> m).
Proof.
  intros [Hn Hi] Hv. unfold Tokens. rewrite map_size_insert_None by done. split.
  - intros w t Hw. destruct (decide (v = w)) as [<-|Hne].
    + rewrite lookup_insert_eq in Hw. injection Hw as <-. eexists. split; [done|lia].
    + rewrite lookup_insert_ne in Hw by done. destruct (Hn _ _ Hw) as (n & ? & ?). exists n. split; [done|lia].
  - assert (Hfresh : ∀ w t, m !! w = Some t → t ≠ format_token prefix (N.of_nat (size m) + 1)).
    { intros w t Hw ->. destruct (Hn _ _ Hw) as (n & E%(inj (format_token prefix)) & Hle). lia. }
    intros w w' t Hw Hw'. destruct (decide (v = w)) as [<-|Hne], (decide (v = w')) as [<-|Hne']; [done| | |].
    + rewrite lookup_insert_eq in Hw. rewrite lookup_insert_ne in Hw' by done. injection Hw as <-.
      by apply Hfresh in Hw'.
    + rewrite lookup_insert_eq in Hw'. rewrite lookup_insert_ne in Hw by done. injection Hw' as <-.
      by apply Hfresh in Hw.
    + rewrite lookup_insert_ne in Hw, Hw' by done. by eapply Hi.
Qed.

(** the prefixes the tokenizer uses *)
Definition KnownPrefix (p : string) : Prop := p = "TABLE"%string ∨ p = "COL"%string.
Definition Sound (st : Inner) : Prop := Tokens "TABLE" (table_tokens st) ∧ Tokens "COL" (column_tokens st).

Lemma sound_tokens p st : KnownPrefix p → Sound st → Tokens p (tokens_of p st).
Proof. by intros [-> | ->] [? ?]. Qed.

(** a call keeps the state sound, forgets no token, and answers from the map *)
Lemma token_for_spec p v allow st t st' :
  KnownPrefix p → Sound st → token_for p v allow st = (t, st') →
  Sound st' ∧ (∀ q w u, KnownPrefix q → tokens_of q st !! w = Some u → tokens_of q st' !! w = Some u) ∧
  if shown v allow then t = v else tokens_of p st' !! v = Some t.
Proof.
  intros Hp Hs E. unfold token_for in E. destruct (shown v allow) eqn:Esh; [by injection E as <- <-|].
  destruct (tokens_of p st !! v) as [u|] eqn:El; injection E as <- <-; [done|].
  pose proof (tokens_insert _ _ _ (sound_tokens _ _ Hp Hs) El) as Hn. destruct Hs as [Ht Hc], st as [tt ct].
  destruct Hp as [-> | ->]; cbn [is_table String.eqb Ascii.eqb Bool.eqb set_tokens tokens_of] in *.
  - split_and!; [by split| |by apply lookup_insert_eq].
    intros q w u [-> | ->] Hw; cbn in *; [|done]. rewrite lookup_insert_ne; [done|]. congruence.
  - split_and!; [by split| |by apply lookup_insert_eq].
    intros q w u [-> | ->] Hw; cbn in *; [done|]. rewrite lookup_insert_ne; [done|]. congruence.
Qed.

Definition hidden (r : Request) : Prop := shown (rq_value r) (rq_allowlist r) = false.

(** all hidden answers of a history come from one injective map per prefix *)
Lemma history_spec rs st :
  Forall (fun r => KnownPrefix (rq_prefix r)) rs → Sound st →
  ∃ st', Sound st' ∧ (∀ q w u, KnownPrefix q → tokens_of q st !! w = Some u → tokens_of q st' !! w = Some u) ∧
    ∀ i r t, rs !! i = Some r → history rs st !! i = Some t → 
      if shown (rq_value r) (rq_allowlist r) then t = rq_value r
      else tokens_of (rq_prefix r) st' !! rq_value r = Some t.
Proof.
  revert st. induction rs as [|r rs IH]; intros st Hf Hs; [by exists st|].
  apply Forall_cons in Hf as [Hp Hf]. cbn [history].
  destruct (token_for (rq_prefix r) (rq_value r) (rq_allowlist r) st) as [t st1] eqn:Et.
  apply token_for_spec in Et as (Hs1 & Hk1 & Ht); [|done|done].
  destruct (IH st1 Hf Hs1) as (st' & Hs' & Hk' & Hall). exists st'. split_and!; [done|eauto|].
  intros [|i] r' t' Hr Ht'; cbn in Hr, Ht'; [|by eapply Hall].
  injection Hr as <-. injection Ht' as <-. destruct (shown _ _); [done|]. by apply Hk'.
Qed.

(** C31. Schema tokens hide names consistently.  Over any history of requests
    a name that is shown is shown as it is; two hidden requests of one kind get
    the same token if and only if they are for the same name, whichever
    allowlists the requests carried in between; and a token is the text of its
    number, so it says nothing of the name. *)
Theorem tokens_hide_names rs :
  Forall (fun r => KnownPrefix (rq_prefix r)) rs →
  ∀ i j r1 r2 t1 t2,
    rs !! i = Some r1 → history rs inner_default !! i = Some t1 →
    rs !! j = Some r2 → history rs inner_default !! j = Some t2 →
    (shown (rq_value r1) (rq_allowlist r1) = true → t1 = rq_value r1) ∧
    (hidden r1 → ∃ n, t1 = format_token (rq_prefix r1) n) ∧
    (hidden r1 → hidden r2 → rq_prefix r1 = rq_prefix r2 → t1 = t2 ↔ rq_value r1 = rq_value r2).
Proof.
  intros Hf i j r1 r2 t1 t2 Hi Ht1 Hj Ht2.
  assert (Hempty : Sound inner_default).
  { split; split; cbn; intros *; by rewrite lookup_empty. }
  destruct (history_spec rs inner_default Hf Hempty) as (st & Hs & _ & Hall).
  pose proof (Hall i r1 t1 Hi Ht1) as H1. pose proof (Hall j r2 t2 Hj Ht2) as H2.
  rewrite Forall_lookup in Hf. unfold hidden. split_and!.
  - intros E. by rewrite E in H1.
  - intros E. rewrite E in H1. destruct (sound_tokens _ _ (Hf _ _ Hi) Hs) as [Hn _].
    destruct (Hn _ _ H1) as (n & -> & _). by exists n.
  - intros E1 E2 Ep. rewrite E1 in H1. rewrite E2 in H2. rewrite <- Ep in H2.
    destruct (sound_tokens _ _ (Hf _ _ Hi) Hs) as [_ Hinj]. split.
    + intros ->. by eapply Hinj.
    + intros E. rewrite E in H1. congruence.
Qed.

Definition sample_requests : list Request :=
  [mkRequest "COL" "email" ∅; mkRequest "COL" "id" ∅; mkRequest "TABLE" "email" ∅; mkRequest "COL" "phone" ∅;
   mkRequest "COL" "email" ∅].
Lemma tokens_hide_names_witness :
  Forall (fun r => KnownPrefix (rq_prefix r)) sample_requests ∧
  history sample_requests inner_default = ["<COL_001>"; "id"; "<TABLE_001>"; "<COL_002>"; "<COL_001>"]%string ∧
  ("<COL_001>"%string = "<COL_002>"%string ↔ "email"%string = "phone"%string).
Proof.
  assert (Hk : Forall (fun r => KnownPrefix (rq_prefix r)) sample_requests)
    by (repeat constructor; unfold KnownPrefix; cbn; auto).
  split; [exact Hk|]. split; [vm_compute; reflexivity|].
  destruct (tokens_hide_names sample_requests Hk 0 3 (mkRequest "COL" "email" ∅) (mkRequest "COL" "phone" ∅)
    "<COL_001>" "<COL_002>" eq_refl ltac:(vm_compute; reflexivity) eq_refl ltac:(vm_compute; reflexivity))
    as (_ & _ & H).
  apply H; vm_compute; reflexivity.
Defined.
