(* ===== verification/Errors.v ===== *)
(** * Errors shown to callers

    Models src/src/errors.rs and the error type of src/src/value.rs: the error
    enum, [sanitize_error], the verbose CLI form around the credential
    scrubber, and [scrub_url].  A path is its display text; [debug_str] is
    Rust's [Debug] of a string.  The theorems: what callers see does not
    depend on the confidential fields, and a scrubbed URL keeps none of its
    credentials. *)

From S2P Require Import Prelude Str Bounds.

Inductive LowerError :=
| Decode (kind detail : string)
| Unsupported (type : string).

Inductive TruncatedAt := TrRows | TrBytes | TrCellBytes | TrLineBytes | TrTimeout.

Inductive LensError :=
| ManifestBeginFailed (call_id detail : string) (path : option string)
| ManifestFinishFailed (call_id detail : string) (path : option string)
| FrontendError (frontend detail : string)
| SourceError (source_name detail : string) (sql stderr : option string)
| RedactionFailed (detail : string)
| ReplayUnavailable (lens_session_id detail : string)
| SnapshotPurged (lens_session_id : string) (purged_at_ms : Z) (purged_at_iso8601 : string) (retention_days : N)
| ScopeRejected (scope : string)
| ConvertError (err : LowerError)
| ProfileEnvMissing (env : string)
| SecretKeyringMissing (service account : string)
| SecretKeyringDenied (service account : string)
| SecretBackendUnavailable (backend detail : string)
| ProfileNotFound (label path : string)
| Profile (detail : string)
| ProfileUnknown (profile : string) (loaded : list string)
| ProfileMismatch (profile tool required actual : string)
| BatchPartial (applied pending : list string) (failed : string) (source : LensError)
| FeatureDeferred (feature : string)
| OperationTimeout (phase operation : string) (timeout_secs : N) (context : option string)
| Truncated (reason : TruncatedAt)
| Internal (detail : string).

Definition is_invalid_params (e : LensError) : bool :=
  match e with
  | Profile _ | ProfileEnvMissing _ | ProfileNotFound _ _ | ProfileUnknown _ _ | ProfileMismatch _ _ _ _ => true
  | _ => false
  end.

(** [{:?}] of the truncation reason *)
Definition truncated_debug (t : TruncatedAt) : string :=
  match t with
  | TrRows => "Rows" | TrBytes => "Bytes" | TrCellBytes => "CellBytes"
  | TrLineBytes => "LineBytes" | TrTimeout => "Timeout"
  end.

Definition num (n : N) : string := str_of (print_u64 n).
Fixpoint concat_str (ss : list string) : string :=
  match ss with [] => "" | s :: ss => String.append s (concat_str ss) end.

(** ** The derived messages

    [debug_list]: Rust's [Debug] of a list of strings *)
Definition lower_error_display (e : LowerError) : string :=
  match e with
  | Decode kind detail => concat_str ["decode failure for "; kind; ": "; detail]
  | Unsupported type => String.append "unsupported source type: " type
  end%string.
Fixpoint lens_error_display (debug_list : list string → string) (e : LensError) : string :=
  match e with
  | ManifestBeginFailed call_id detail _ => concat_str ["manifest begin failed for call "; call_id; ": "; detail]
  | ManifestFinishFailed call_id detail _ => concat_str ["manifest finish failed for call "; call_id; ": "; detail]
  | FrontendError frontend detail => concat_str ["frontend error from "; frontend; ": "; detail]
  | SourceError source_name detail _ _ => concat_str ["source error from "; source_name; ": "; detail]
  | RedactionFailed detail => String.append "redaction failed: " detail
  | ReplayUnavailable id detail => concat_str ["replay unavailable for "; id; ": "; detail]
  | SnapshotPurged id _ iso days =>
    concat_str ["snapshot for session "; id; " was purged by retention policy on "; iso; " (retention: "; num days;
      " days). The audit row remains in the manifest; the raw token mappings are not recoverable."]
  | ScopeRejected scope => String.append "scope rejected: " scope
  | ConvertError err => String.append "conversion failed: " (lower_error_display err)
  | ProfileEnvMissing env => String.append "profile environment variable missing: " env
  | SecretKeyringMissing service account =>
    concat_str ["keyring entry not found: service="; service; " account="; account]
  | SecretKeyringDenied service account =>
    concat_str ["keyring access denied: service="; service; " account="; account]
  | SecretBackendUnavailable backend detail => concat_str ["secret backend unavailable ("; backend; "): "; detail]
  | ProfileNotFound label path => concat_str ["profile config not found ("; label; "): "; path]
  | Profile detail => String.append "profile error: " detail
  | ProfileUnknown profile loaded => concat_str ["profile `"; profile; "` not found; loaded: "; debug_list loaded]
  | ProfileMismatch profile tool required actual =>
    concat_str ["profile `"; profile; "` is a "; actual; " source; tool `"; tool; "` requires a "; required; " profile"]
  | BatchPartial applied pending failed source =>
    concat_str ["batch write partial failure on "; failed; ": "; num (N.of_nat (length applied)); " applied, ";
      num (N.of_nat (length pending)); " pending, "; lens_error_display debug_list source]
  | FeatureDeferred feature => String.append "feature deferred: " feature
  | OperationTimeout phase operation secs context =>
    concat_str ["timeout during "; phase; " for "; operation; " after "; num secs; "s";
      match context with Some context => concat_str [" ("; context; ")"] | None => "" end]
  | Truncated reason => String.append "output truncated at " (truncated_debug reason)
  | Internal detail => String.append "internal error: " detail
  end%string.

(** ** URLs *)
Definition REDACTED : bytes := str_bytes "[REDACTED]".
(** [find] of a byte, and of the last one *)
Fixpoint find_byte (c : ascii) (s : bytes) : option nat :=
  match s with
  | [] => None
  | b :: s => if beq b c then Some 0%nat else S <$> find_byte c s
  end.
Definition rfind_byte (c : ascii) (s : bytes) : option nat :=
  (fun i => (length s - 1 - i)%nat) <$> find_byte c (reverse s).
(** [find("://")] *)
Fixpoint find_scheme_end (s : bytes) : option nat :=
  match s with
  | [] => None
  | a :: s' =>
    match s' with
    | b :: c :: _ => if beq a ":" && beq b "/" && beq c "/" then Some 0%nat else S <$> find_scheme_end s'
    | _ => None
    end
  end.

Definition is_separator (b : ascii) : bool := beq b "&" || beq b ";".
(** [split_inclusive(['&', ';'])]: each piece ends with its separator *)
Fixpoint split_inclusive (p : ascii → bool) (acc s : bytes) : list bytes :=
  match s with
  | [] => if (length acc =? 0)%nat then [] else [acc]
  | b :: s => if p b then (acc ++ [b]) :: split_inclusive p [] s else split_inclusive p (acc ++ [b]) s
  end.

(** one piece: the key is kept, the value and a bare parameter are not *)
Definition scrub_parameter (piece : bytes) : bytes :=
  let '(parameter, separator) :=
    match last piece with
    | Some b => if is_separator b then (take (length piece - 1) piece, [b]) else (piece, [])
    | None => (piece, [])
    end in
  (match split_once (fun b => beq b "=") parameter with
   | Some (key, _) => key ++ ["="%char : ascii] ++ REDACTED
   | None => REDACTED
   end) ++ separator.

Definition scrub_url (url : bytes) : bytes :=
  match find_scheme_end url with
  | None => REDACTED
  | Some scheme_end =>
    let fragment_start := find_byte "#" url in
    let query_start := find_byte "?" (take (default (length url) fragment_start) url) in
    let base_end := default (length url) (match query_start with Some i => Some i | None => fragment_start end) in
    let base := take base_end url in
    let authority_start := (scheme_end + 3)%nat in
    let authority_end :=
      match find_byte "/" (drop authority_start base) with
      | Some offset => (authority_start + offset)%nat
      | None => length base
      end in
    let authority := take (authority_end - authority_start) (drop authority_start base) in
    let output :=
      match rfind_byte "@" authority with
      | Some i => take authority_start base ++ REDACTED ++ drop (authority_start + i) base
      | None => base
      end in
    output ++
    (match query_start with
     | Some q =>
       let query_end := default (length url) fragment_start in
       "?"%char :: concat (scrub_parameter <$> split_inclusive is_separator [] (take (query_end - (q + 1)) (drop (q + 1) url)))
     | None => []
     end) ++
    (match fragment_start with Some _ => "#"%char :: REDACTED | None => [] end)
  end.

Section Format.
(** [Debug] of a string, and the regular expressions of the scrubber: the
    outcome of [scrub_urls], then of each replacement; [None] when a pattern
    does not compile *)
Context (debug_str : string → string).
Context (replace_urls : (bytes → bytes) → string → option string).
Context (replace_patterns : list (string → option string)).

(** [{loaded:?}] *)
Definition debug_list (ss : list string) : string :=
  concat_str (["["%string] ++ (match debug_str <$> ss with
    | [] => []
    | d :: ds => d :: (ds ≫= fun x => [", "%string; x])
    end) ++ ["]"%string]).

Definition sanitize_error (e : LensError) : string :=
  match e with
  | ManifestBeginFailed _ _ _ => "ManifestBeginFailed: manifest begin failed"
  | ManifestFinishFailed _ _ _ => "ManifestFinishFailed: manifest finish failed"
  | FrontendError _ _ => "FrontendError: frontend failed"
  | SourceError _ _ _ _ => "SourceError: source failed"
  | RedactionFailed _ => "RedactionFailed: redaction failed"
  | ReplayUnavailable _ _ => "ReplayUnavailable: replay unavailable"
  | SnapshotPurged _ _ _ _ => "SnapshotPurged: snapshot purged by retention policy"
  | ScopeRejected _ => "ScopeRejected: unsupported session scope"
  | ConvertError (Decode kind _) => concat_str ["ConvertError: decode failure for "; kind]
  | ConvertError (Unsupported _) => "ConvertError: unsupported source type"
  | ProfileEnvMissing env => concat_str ["ProfileEnvMissing: missing environment variable "; env]
  | SecretKeyringMissing service account =>
    concat_str ["SecretKeyringMissing: missing keyring entry service="; service; " account="; account]
  | SecretKeyringDenied service account =>
    concat_str ["SecretKeyringDenied: keyring access denied service="; service; " account="; account]
  | SecretBackendUnavailable backend _ => concat_str ["SecretBackendUnavailable: "; backend; " backend unavailable"]
  | ProfileNotFound label path => concat_str ["ProfileNotFound: "; label; " not found: "; path]
  | Profile detail => concat_str ["Profile: "; detail]
  | ProfileUnknown profile loaded =>
    concat_str ["ProfileUnknown: profile `"; profile; "` not found; loaded: "; debug_list loaded]
  | ProfileMismatch profile tool required actual =>
    concat_str ["ProfileMismatch: profile `"; profile; "` is a "; actual; " source; tool `"; tool;
                "` requires a "; required; " profile"]
  | BatchPartial applied pending _ _ =>
    concat_str ["BatchPartial: batch write failed (applied "; num (len applied); ", pending "; num (len pending); ")"]
  | FeatureDeferred feature => concat_str ["FeatureDeferred: "; feature]
  | OperationTimeout phase operation timeout_secs context =>
    concat_str ["Timeout: phase="; phase; " operation="; operation; " timeout_secs="; num timeout_secs;
                match context with Some c => concat_str [" context="; c] | None => "" end]
  | Truncated reason => concat_str ["Truncated: "; truncated_debug reason]
  | Internal _ => "Internal: internal error"
  end%string.

Definition scrubber_failure : string := sanitize_error (Internal "invalid credential scrubber pattern").

Definition scrub_urls (input : string) : option string := replace_urls scrub_url input.
Fixpoint scrub_patterns (ps : list (string → option string)) (scrubbed : string) : string :=
  match ps with
  | [] => scrubbed
  | p :: ps => match p scrubbed with Some s => scrub_patterns ps s | None => scrubber_failure end
  end.
Definition scrub_credentials (input : string) : string :=
  match scrub_urls input with
  | None => scrubber_failure
  | Some scrubbed => scrub_patterns replace_patterns scrubbed
  end.

Definition format_cli_error (e : LensError) (verbose : bool) : string :=
  if negb verbose then sanitize_error e
  else match e with
  | SourceError source_name detail _ _ =>
    concat_str ["SourceError: source error from "; scrub_credentials source_name; ": "; scrub_credentials detail]
  | _ => sanitize_error e
  end%string.

(** ** Confidential fields *)

(** the error with every field erased that callers must not see: details of
    failures, SQL and remote output, identifiers of calls and sessions, paths
    of partial writes *)
Definition public (e : LensError) : LensError :=
  match e with
  | ManifestBeginFailed _ _ _ => ManifestBeginFailed "" "" None
  | ManifestFinishFailed _ _ _ => ManifestFinishFailed "" "" None
  | FrontendError _ _ => FrontendError "" ""
  | SourceError _ _ _ _ => SourceError "" "" None None
  | RedactionFailed _ => RedactionFailed ""
  | ReplayUnavailable _ _ => ReplayUnavailable "" ""
  | SnapshotPurged _ _ _ _ => SnapshotPurged "" 0 "" 0
  | ScopeRejected _ => ScopeRejected ""
  | ConvertError (Decode kind _) => ConvertError (Decode kind "")
  | ConvertError (Unsupported _) => ConvertError (Unsupported "")
  | SecretBackendUnavailable backend _ => SecretBackendUnavailable backend ""
  | BatchPartial applied pending _ _ =>
    BatchPartial (replicate (length applied) ""%string) (replicate (length pending) ""%string) "" (Internal "")
  | Internal _ => Internal ""
  | e => e
  end.

Lemma sanitize_public e : sanitize_error e = sanitize_error (public e).
Proof using Type.
  destruct e; try reflexivity; [by destruct err|]. cbn [public sanitize_error].
  unfold len. by rewrite !length_replicate.
Qed.
Lemma invalid_params_public e : is_invalid_params e = is_invalid_params (public e).
Proof using Type. destruct e; try reflexivity; by destruct err. Qed.

(** Sanitized errors do not leak: what a caller sees of an error, without
    the verbose flag, is a function of its public part, so two errors that
    differ only in details, SQL, remote output, ids or paths look the same;
    with the flag, SQL and remote output still do not show. *)
Theorem sanitize_hides e e' :
  public e = public e' →
  format_cli_error e false = format_cli_error e' false ∧
  ∀ name detail sql sql' stderr stderr',
    format_cli_error (SourceError name detail sql stderr) true =
    format_cli_error (SourceError name detail sql' stderr') true.
Proof using Type.
  intros E. split; [|done]. cbn [format_cli_error negb].
  by rewrite (sanitize_public e), (sanitize_public e'), E.
Qed.
End Format.

Lemma sanitize_hides_witness :
  public (SourceError "db" "password=hunter2" (Some "SELECT 1") None) = public (SourceError "x" "y" None None) ∧
  format_cli_error (fun s => s) (fun _ s => Some s) []
    (SourceError "db" "password=hunter2" (Some "SELECT 1") None) false = "SourceError: source failed"%string.
Proof.
  split; [reflexivity|].
  apply (sanitize_hides (fun s => s) (fun _ s => Some s) [] _ (SourceError "x" "y" None None) eq_refl).
Defined.

(** ** Scrubbed URLs *)
Lemma find_byte_at c a b : c ∉ a → find_byte c (a ++ c :: b) = Some (length a).
Proof.
  induction a as [|x a IH]; intros Hn; cbn [app find_byte].
  - by rewrite (proj2 (beq_true c c)).
  - rewrite (proj2 (beq_false x c)) by set_solver. rewrite IH by set_solver. done.
Qed.

Lemma find_byte_none c a : c ∉ a → find_byte c a = None.
Proof.
  induction a as [|x a IH]; intros Hn; cbn [find_byte]; [done|].
  rewrite (proj2 (beq_false x c)) by set_solver. by rewrite IH by set_solver.
Qed.

Lemma rfind_byte_at c a b : c ∉ b → rfind_byte c (a ++ c :: b) = Some (length a).
Proof.
  intros Hn. unfold rfind_byte. rewrite reverse_app, reverse_cons, <- app_assoc. cbn [app].
  rewrite find_byte_at by (rewrite elem_of_reverse; done). cbn. f_equal.
  rewrite length_app, length_reverse. cbn. lia.
Qed.

Lemma rfind_byte_none c a : c ∉ a → rfind_byte c a = None.
Proof. intros Hn. unfold rfind_byte. by rewrite find_byte_none by (rewrite elem_of_reverse; done). Qed.

Lemma find_scheme_at s r :
  ":"%char ∉ s → find_scheme_end (s ++ str_bytes "://" ++ r) = Some (length s).
Proof.
  induction s as [|a s IH]; intros Hn; [done|].
  change ((a :: s) ++ str_bytes "://" ++ r) with (a :: (s ++ str_bytes "://" ++ r)). cbn [find_scheme_end].
  rewrite IH by set_solver. rewrite (proj2 (beq_false a ":")) by set_solver.
  destruct s as [|b [|c s]]; done.
Qed.

(** a URL by its parts: the user information before the last [@], the
    parameters with their separators, the fragment *)
Record Url := mkUrl {
  u_scheme : bytes; u_user : option bytes; u_host : bytes; u_path : bytes;
  u_query : option (list (bytes * bytes * ascii) * (bytes * bytes));
  u_fragment : option bytes;
}.

Definition param_text (p : bytes * bytes) : bytes := p.1 ++ "="%char :: p.2.
Definition params_text (ps : list (bytes * bytes * ascii)) (l : bytes * bytes) : bytes :=
  concat ((fun p => param_text p.1 ++ [p.2]) <$> ps) ++ param_text l.
Definition query_text (u : Url) : bytes :=
  match u_query u with Some (ps, l) => "?"%char :: params_text ps l | None => [] end.
Definition fragment_text (u : Url) : bytes :=
  match u_fragment u with Some f => "#"%char :: f | None => [] end.
Definition authority_text (u : Url) : bytes :=
  match u_user u with Some i => i ++ ["@"%char : ascii] | None => [] end ++ u_host u.
Definition url_text (u : Url) : bytes :=
  u_scheme u ++ str_bytes "://" ++ authority_text u ++ u_path u ++ query_text u ++ fragment_text u.

(** every place where a credential can be *)
Definition redact_param (p : bytes * bytes) : bytes * bytes := (p.1, REDACTED).
Definition redact_params (ps : list (bytes * bytes * ascii)) : list (bytes * bytes * ascii) :=
  (fun p => (redact_param p.1, p.2)) <$> ps.
Definition redacted (u : Url) : Url :=
  mkUrl (u_scheme u) (match u_user u with Some _ => Some REDACTED | None => None end) (u_host u) (u_path u)
    (match u_query u with Some (ps, l) => Some (redact_params ps, redact_param l) | None => None end)
    (match u_fragment u with Some _ => Some REDACTED | None => None end).

Definition free (cs : list ascii) (s : bytes) : Prop := ∀ c, c ∈ cs → c ∉ s.
Definition PlainParam (p : bytes * bytes) : Prop :=
  free ["="; "&"; ";"; "#"]%char p.1 ∧ free ["&"; ";"; "#"]%char p.2.

Record PlainUrl (u : Url) : Prop := {
  pu_scheme : free [":"; "?"; "#"]%char (u_scheme u);
  pu_user : ∀ i, u_user u = Some i → free ["/"; "?"; "#"]%char i;
  pu_host : free ["@"; "/"; "?"; "#"]%char (u_host u);
  pu_path : free ["?"; "#"]%char (u_path u) ∧ (u_path u = [] ∨ ∃ r, u_path u = "/"%char :: r);
  pu_query : ∀ ps l, u_query u = Some (ps, l) →
    PlainParam l ∧ Forall (fun p => PlainParam p.1 ∧ is_separator p.2 = true) ps;
}.

Lemma separator_cases b : is_separator b = true ↔ b = "&"%char ∨ b = ";"%char.
Proof. unfold is_separator. by rewrite orb_true_iff, !beq_true. Qed.

Lemma no_separators s : free ["&"; ";"]%char s → Forall (fun b => is_separator b = false) s.
Proof.
  intros Hf. apply Forall_forall. intros b Hb. apply not_true_iff_false. intros Hs%separator_cases.
  destruct Hs as [-> | ->]; [apply (Hf "&"%char)|apply (Hf ";"%char)]; set_solver.
Qed.

Lemma split_inclusive_app acc s sep r :
  Forall (fun b => is_separator b = false) s → is_separator sep = true →
  split_inclusive is_separator acc (s ++ sep :: r) = (acc ++ s ++ [sep]) :: split_inclusive is_separator [] r.
Proof.
  intros Hs Hsep. revert acc. induction Hs as [|b s Hb _ IH]; intros acc; cbn [app split_inclusive].
  - by rewrite Hsep.
  - rewrite Hb, IH. by rewrite <- (app_assoc acc).
Qed.

Lemma split_inclusive_last acc s :
  Forall (fun b => is_separator b = false) s → acc ++ s ≠ [] →
  split_inclusive is_separator acc s = [acc ++ s].
Proof.
  intros Hs. revert acc. induction Hs as [|b s Hb _ IH]; intros acc Hne; cbn [split_inclusive].
  - rewrite app_nil_r in *. by destruct acc.
  - rewrite Hb, IH by (by rewrite <- app_assoc || destruct acc). by rewrite <- app_assoc.
Qed.

Lemma param_no_separators p : PlainParam p → Forall (fun b => is_separator b = false) (param_text p).
Proof.
  intros [H1 H2]. apply no_separators. intros c Hc. unfold param_text. rewrite elem_of_app, elem_of_cons.
  intros [Hk|[->|Hv]]; [by apply (H1 c); [set_solver|]|set_solver|by apply (H2 c); [set_solver|]].
Qed.

Lemma scrub_param_body p sep : PlainParam p →
  (match split_once (fun b => beq b "=") (param_text p) with
   | Some (key, _) => key ++ ["="%char : ascii] ++ REDACTED
   | None => REDACTED end) ++ sep = param_text (redact_param p) ++ sep.
Proof.
  intros [Hk _]. unfold param_text.
  rewrite (proj2 (split_once_some (fun b => beq b "=") (p.1 ++ "="%char :: p.2) p.1 p.2)); [done|].
  exists "="%char. split_and!; [done|by apply beq_true|]. apply Forall_forall. intros b Hb. apply beq_false.
  intros ->. apply (Hk "="%char); [set_solver|done].
Qed.

Lemma scrub_parameter_sep p sep : PlainParam p → is_separator sep = true →
  scrub_parameter (param_text p ++ [sep]) = param_text (redact_param p) ++ [sep].
Proof.
  intros Hp Hs. unfold scrub_parameter. rewrite last_snoc, Hs, length_app. cbn [length].
  rewrite Nat.add_sub, take_app_length. by apply scrub_param_body.
Qed.

Lemma scrub_parameter_last p : PlainParam p → scrub_parameter (param_text p) = param_text (redact_param p).
Proof.
  intros Hp. unfold scrub_parameter.
  destruct (last (param_text p)) as [b|] eqn:El.
  - assert (Hb : is_separator b = false).
    { pose proof (param_no_separators p Hp) as Hf. rewrite Forall_forall in Hf. apply Hf.
      apply last_Some in El as (l & ->). apply elem_of_app. right. by left. }
    rewrite Hb. rewrite scrub_param_body by done. by rewrite app_nil_r.
  - rewrite scrub_param_body by done. by rewrite app_nil_r.
Qed.

Lemma scrub_params ps l :
  PlainParam l → Forall (fun p => PlainParam p.1 ∧ is_separator p.2 = true) ps →
  concat (scrub_parameter <$> split_inclusive is_separator [] (params_text ps l)) =
  params_text (redact_params ps) (redact_param l).
Proof.
  intros Hl. unfold params_text, redact_params. induction 1 as [|[p sep] ps [Hp Hs] _ IH]; cbn [fmap list_fmap concat app].
  - rewrite split_inclusive_last; [|by apply param_no_separators|unfold param_text; by destruct l.1].
    cbn [app fmap list_fmap concat]. by rewrite app_nil_r, scrub_parameter_last.
  - cbn [fst snd] in *. rewrite <- !app_assoc. cbn [app]. rewrite split_inclusive_app; [|by apply param_no_separators|done].
    cbn [app fmap list_fmap concat]. rewrite scrub_parameter_sep by done. rewrite IH. by rewrite <- !app_assoc.
Qed.

Lemma params_free ps l :
  PlainParam l → Forall (fun p => PlainParam p.1 ∧ is_separator p.2 = true) ps → "#"%char ∉ params_text ps l.
Proof.
  assert (Hp : ∀ p, PlainParam p → "#"%char ∉ param_text p).
  { intros p [H1 H2]. unfold param_text. rewrite not_elem_of_app, not_elem_of_cons.
    split_and!; [apply H1; set_solver|done|apply H2; set_solver]. }
  intros Hl Hf. unfold params_text. rewrite not_elem_of_app. split; [|by apply Hp].
  induction Hf as [|[p sep] ps [Hpp Hs] _ IH]; cbn [fmap list_fmap concat]; [by apply not_elem_of_nil|].
  rewrite !not_elem_of_app, not_elem_of_cons. cbn [fst snd] in *. split_and!; [by apply Hp| |by apply not_elem_of_nil|done].
  intros <-. done.
Qed.

(** the URL up to its query *)
Definition base_text (u : Url) : bytes := u_scheme u ++ str_bytes "://" ++ authority_text u ++ u_path u.

Lemma url_text_base u : url_text u = base_text u ++ query_text u ++ fragment_text u.
Proof. unfold url_text, base_text. by rewrite <- !app_assoc. Qed.

Lemma base_free u c : PlainUrl u → c = "?"%char ∨ c = "#"%char → c ∉ base_text u.
Proof.
  intros [Hs Hu Hh [Hp _] _] Hc. unfold base_text, authority_text. rewrite !not_elem_of_app.
  split_and!.
  - apply Hs. set_solver.
  - intros Hin%list_elem_of_In. cbn in Hin. destruct Hc as [-> | ->]; naive_solver.
  - destruct (u_user u) as [i|]; [|by apply not_elem_of_nil]. rewrite not_elem_of_app, not_elem_of_cons.
    split_and!; [apply (Hu i eq_refl); set_solver|by destruct Hc as [-> | ->]|by apply not_elem_of_nil].
  - apply Hh. set_solver.
  - apply Hp. set_solver.
Qed.

Lemma url_fragment u : PlainUrl u →
  find_byte "#" (url_text u) =
    match u_fragment u with Some _ => Some (length (base_text u ++ query_text u)) | None => None end.
Proof.
  intros Hu. rewrite url_text_base.
  assert (Hn : "#"%char ∉ base_text u ++ query_text u).
  { rewrite not_elem_of_app. split; [apply base_free; auto|]. unfold query_text.
    destruct (u_query u) as [[ps l]|] eqn:E; [|by apply not_elem_of_nil].
    destruct (pu_query u Hu _ _ E) as [Hl Hf]. rewrite not_elem_of_cons. split; [done|by apply params_free]. }
  unfold fragment_text. destruct (u_fragment u).
  - rewrite app_assoc. by apply find_byte_at.
  - rewrite app_nil_r. by apply find_byte_none.
Qed.

Lemma url_query u : PlainUrl u →
  find_byte "?" (base_text u ++ query_text u) =
    match u_query u with Some _ => Some (length (base_text u)) | None => None end.
Proof.
  intros Hu. pose proof (base_free u "?"%char Hu (or_introl eq_refl)). unfold query_text.
  destruct (u_query u) as [[ps l]|]; [by apply find_byte_at|]. rewrite app_nil_r. by apply find_byte_none.
Qed.

(** the part before the query, with the user information replaced *)
Lemma scrub_base u : PlainUrl u →
  let base := base_text u in
  let authority_start := (length (u_scheme u) + 3)%nat in
  let authority_end := match find_byte "/" (drop authority_start base) with
    | Some offset => (authority_start + offset)%nat | None => length base end in
  let authority := take (authority_end - authority_start) (drop authority_start base) in
  authority = authority_text u ∧
  match rfind_byte "@" authority with
  | Some i => take authority_start base ++ REDACTED ++ drop (authority_start + i) base
  | None => base
  end = base_text (redacted u).
Proof.
  intros Hu base start.
  assert (Hsplit : base = (u_scheme u ++ str_bytes "://") ++ authority_text u ++ u_path u)
    by (unfold base, base_text; by rewrite <- !app_assoc).
  assert (Hlen : start = length (u_scheme u ++ str_bytes "://")) by (rewrite length_app; done).
  assert (Hdrop : drop start base = authority_text u ++ u_path u) by (by rewrite Hsplit, Hlen, drop_app_length).
  assert (Htake : take start base = u_scheme u ++ str_bytes "://") by (by rewrite Hsplit, Hlen, take_app_length).
  assert (Hauth : "/"%char ∉ authority_text u).
  { unfold authority_text. rewrite not_elem_of_app. split; [|apply (pu_host u Hu); set_solver].
    destruct (u_user u) as [i|] eqn:E; [|by apply not_elem_of_nil]. rewrite not_elem_of_app, not_elem_of_cons.
    split_and!; [apply (pu_user u Hu i E); set_solver|done|by apply not_elem_of_nil]. }
  rewrite Hdrop. intros aend authority.
  assert (Ea : authority = authority_text u).
  { subst authority aend. destruct (pu_path u Hu) as [_ [-> | [r ->]]].
    - rewrite app_nil_r, (find_byte_none _ _ Hauth). rewrite take_ge; [done|].
      rewrite Hsplit, !length_app. destruct (pu_path u Hu) as [_ _]. rewrite Hlen, length_app. lia.
    - rewrite (find_byte_at _ _ _ Hauth). rewrite Nat.add_comm, Nat.add_sub. by rewrite take_app_length. }
  split; [done|]. rewrite Ea. unfold authority_text at 1.
  assert (Hhost : "@"%char ∉ u_host u) by (apply (pu_host u Hu); set_solver).
  destruct (u_user u) as [i|] eqn:E.
  - rewrite <- app_assoc. cbn [app]. rewrite (rfind_byte_at _ _ _ Hhost), Htake.
    rewrite <- drop_drop, Hdrop. unfold base_text, authority_text at 2. cbn [redacted u_user u_scheme u_host u_path].
    rewrite E. unfold authority_text. rewrite E. rewrite <- !app_assoc, drop_app_length. done.
  - cbn [app]. rewrite (rfind_byte_none _ _ Hhost). unfold base, base_text, authority_text.
    cbn [redacted u_user u_scheme u_host u_path]. by rewrite E.
Qed.

(** A scrubbed URL keeps none of its credentials: for a URL written from
    its parts, scrubbing yields the same URL with the user information, every
    parameter value and the fragment replaced by the marker, and scheme, host,
    path, parameter names and separators untouched. *)
Theorem scrub_url_redacts u : PlainUrl u → scrub_url (url_text u) = url_text (redacted u).
Proof.
  intros Hu. unfold scrub_url.
  assert (Hscheme : find_scheme_end (url_text u) = Some (length (u_scheme u))).
  { unfold url_text. apply find_scheme_at, (pu_scheme u Hu). set_solver. }
  rewrite Hscheme, (url_fragment u Hu). rewrite (url_text_base (redacted u)).
  set (frag := match u_fragment u with Some _ => Some _ | None => None end).
  assert (Htake : take (default (length (url_text u)) frag) (url_text u) = base_text u ++ query_text u).
  { subst frag. rewrite url_text_base. unfold fragment_text. destruct (u_fragment u) as [f|]; cbn [from_option id].
    - rewrite app_assoc. apply take_app_length.
    - rewrite app_nil_r. by apply take_ge. }
  rewrite Htake, (url_query u Hu).
  set (qs := match u_query u with Some _ => Some _ | None => None end).
  assert (Hbase : take (default (length (url_text u)) (match qs with Some i => Some i | None => frag end)) (url_text u)
    = base_text u).
  { subst qs frag. rewrite url_text_base. unfold query_text, fragment_text.
    destruct (u_query u) as [[ps l]|]; cbn [from_option id app]; [by rewrite take_app_length|].
    destruct (u_fragment u); cbn [from_option id].
    - by rewrite app_nil_r, take_app_length.
    - rewrite app_nil_r. by apply take_ge. }
  rewrite Hbase. cbv zeta. rewrite (proj2 (scrub_base u Hu)). f_equal. f_equal.
  - subst qs frag. unfold query_text at 2. cbn [redacted u_query].
    destruct (u_query u) as [[ps l]|] eqn:Eq; [|done].
    assert (Hq : query_text u = "?"%char :: params_text ps l) by (unfold query_text; by rewrite Eq).
    destruct (pu_query u Hu _ _ Eq) as [Hl Hf]. f_equal. rewrite <- (scrub_params ps l Hl Hf). do 3 f_equal.
    assert (Hdrop : drop (length (base_text u) + 1) (url_text u) = params_text ps l ++ fragment_text u).
    { rewrite url_text_base, Hq, <- drop_drop, drop_app_length. done. }
    rewrite Hdrop. unfold fragment_text. destruct (u_fragment u) as [f|] eqn:Ef; cbn [from_option id].
    + rewrite Hq, length_app. cbn [length].
      replace (length (base_text u) + S (length (params_text ps l)) - (length (base_text u) + 1))%nat
        with (length (params_text ps l)) by lia.
      apply take_app_length.
    + rewrite app_nil_r. apply take_ge. rewrite url_text_base, Hq. unfold fragment_text. rewrite Ef, !length_app. cbn. lia.
  - subst frag. unfold fragment_text. cbn [redacted u_fragment]. by destruct (u_fragment u).
Qed.

Definition sample_url : Url := mkUrl (str_bytes "mysql") (Some (str_bytes "root:pw@x")) (str_bytes "db:3306")
  (str_bytes "/app") (Some ([(str_bytes "sslmode", str_bytes "on", "&"%char)], (str_bytes "password", str_bytes "s=1")))
  (Some (str_bytes "frag")).

Lemma sample_url_plain : PlainUrl sample_url.
Proof.
  assert (Hd : ∀ cs s, forallb (fun c => negb (existsb (beq c) s)) cs = true → free cs s).
  { intros cs s Hf c Hc Hin. rewrite forallb_forall in Hf. apply list_elem_of_In in Hc, Hin.
    specialize (Hf c Hc). apply negb_true_iff, not_true_iff_false in Hf. apply Hf.
    apply existsb_exists. exists c. split; [done|by apply beq_true]. }
  split.
  - apply Hd. reflexivity.
  - intros i [= <-]. apply Hd. reflexivity.
  - apply Hd. reflexivity.
  - split; [apply Hd; reflexivity|]. right. eexists. reflexivity.
  - intros ps l [= <- <-]. repeat split; try (apply Hd; reflexivity). constructor; [|constructor].
    split; [|reflexivity]. split; apply Hd; reflexivity.
Qed.

Lemma scrub_url_redacts_witness :
  PlainUrl sample_url ∧
  scrub_url (str_bytes "mysql://root:pw@x@db:3306/app?sslmode=on&password=s=1#frag") =
  str_bytes "mysql://[REDACTED]@db:3306/app?sslmode=[REDACTED]&password=[REDACTED]#[REDACTED]".
Proof.
  split; [exact sample_url_plain|]. exact (scrub_url_redacts sample_url sample_url_plain).
Defined.
