(* ===== verification/LensValue.v ===== *)
(** * Values of a row and their redaction

    Models src/src/value.rs: [LensValue], its lowering and its redaction in
    place, JSON leaves included, and the decimal check.  The Gaze pipeline is
    the argument [redact]: what [Pipeline::redact] returns for a text.  A
    mutation in place is the value it leaves.  The theorem: redaction replaces
    exactly the texts, each by the pipeline's answer. *)

From S2P Require Import Prelude Utf8 Str Errors.

(** [serde_json::Value]; a number is its text, an object its entries in key order *)
Inductive json :=
| JNull
| JBool (b : bool)
| JNumber (n : string)
| JString (s : string)
| JArray (l : list json)
| JObject (l : list (string * json)).

Inductive LensValue :=
| LNull
| LBool (b : bool)
| LI64 (n : Z)
| LU64 (n : N)
| LF64 (bits : N)
| LDecimal (value : string) (precision scale : N)
| LString (s : string)
| LBytes (base64 : string) (len : N)
| LDateTime (s : string)
| LUuid (s : string)
| LJson (v : json).

(** ** Decimals: text as its [char]s *)
Definition chars (s : string) : list N := default [] (from_utf8 (str_bytes s)).
(** [char::is_whitespace] *)
Definition is_whitespace (c : N) : bool :=
  in_range 9 13 c || (c =? 32) || (c =? 133) || (c =? 160) || (c =? 5760) || in_range 8192 8202 c ||
  (c =? 8232) || (c =? 8233) || (c =? 8239) || (c =? 8287) || (c =? 12288).
Fixpoint trim_start (p : N → bool) (l : list N) : list N :=
  match l with c :: l' => if p c then trim_start p l' else l | [] => [] end.
Definition trim (l : list N) : list N :=
  reverse (trim_start is_whitespace (reverse (trim_start is_whitespace l))).

Definition decode_error (detail : string) : LowerError := Decode "decimal" detail.
Definition strip_sign (l : list N) : list N :=
  match l with c :: l' => if (c =? 43) || (c =? 45) then l' else l | [] => [] end.

(** [invalid character '{ch}'] *)
Definition invalid_character (c : N) : string :=
  concat_str ["invalid character '"; str_of (encode_char c); "'"]%string.

Fixpoint mantissa_loop (seen_digit seen_dot : bool) (l : list N) : result LowerError unit :=
  match l with
  | [] => if seen_digit then Ok tt else Err (decode_error "missing digits")
  | c :: l =>
    if is_ascii_digit c then mantissa_loop true seen_dot l
    else if (c =? 46) && negb seen_dot then mantissa_loop seen_digit true l
    else Err (decode_error (invalid_character c))
  end.
Definition validate_decimal_mantissa (l : list N) : result LowerError unit :=
  mantissa_loop false false (strip_sign l).
Definition validate_decimal_exponent (l : list N) : result LowerError unit :=
  let digits := strip_sign l in
  if negb (len digits =? 0) && forallb is_ascii_digit digits then Ok tt
  else Err (decode_error "invalid exponent").

(** [split_once(['e', 'E'])] *)
Fixpoint split_exp (l : list N) : list N * option (list N) :=
  match l with
  | [] => ([], None)
  | c :: l => if (c =? 101) || (c =? 69) then ([], Some l)
    else let '(m, e) := split_exp l in (c :: m, e)
  end.
Definition validate_decimal (s : string) : result LowerError unit :=
  let value := trim (chars s) in
  match value with
  | [] => Err (decode_error "empty decimal string")
  | _ =>
    let '(mantissa, exponent) := split_exp value in
    _ ← validate_decimal_mantissa mantissa;
    match exponent with Some e => validate_decimal_exponent e | None => Ok tt end
  end.

(** ** Gaze *)
(** [gaze::Value] and [CleanDocument], both open to new variants *)
Inductive GazeValue :=
| GNull | GBool (b : bool) | GI64 (n : Z) | GString (s : string) | GArray | GObject | GOther.
Inductive CleanDocument := CleanText (s : string) | CleanStructured | CleanOther.

Definition lower_for_redaction (v : LensValue) : result LowerError (option GazeValue) :=
  match v with
  | LNull | LBool _ | LU64 _ | LF64 _ | LDateTime _ | LUuid _ => Ok None
  | LI64 n => Ok (Some (GI64 n))
  | LDecimal value _ _ => _ ← validate_decimal value; Ok None
  | LString s => Ok (Some (GString s))
  | LJson (JString s) => Ok (Some (GString s))
  | LJson _ => Ok None
  | LBytes _ _ => Ok None
  end.

Definition gaze_value_to_json (v : GazeValue) : result LensError json :=
  match v with
  | GNull => Ok JNull
  | GBool b => Ok (JBool b)
  | GI64 n => Ok (JNumber (str_of (print_i64 n)))
  | GString s => Ok (JString s)
  | GArray | GObject =>
    Err (RedactionFailed "gaze::Value composite shape (Array/Object) not supported in manifest")
  | GOther => Err (RedactionFailed "gaze::Value unsupported shape not supported in manifest")
  end.

Section Redact.
(** [Pipeline::redact] on a text, its error displayed *)
Context (redact : string → result string CleanDocument).

Definition redact_text (text : string) : result LensError string :=
  clean ← map_err (redact text) RedactionFailed;
  match clean with
  | CleanText text => Ok text
  | CleanStructured => Err (RedactionFailed "text value produced structured output")
  | CleanOther => Err (RedactionFailed "text value produced unsupported output")
  end.

Fixpoint redact_json_value (v : json) : result LensError json :=
  match v with
  | JString text => t ← redact_text text; Ok (JString t)
  | JArray values =>
    values ← (fix go l := match l with
      | [] => Ok []
      | v :: l => v ← redact_json_value v; l ← go l; Ok (v :: l)
      end) values;
    Ok (JArray values)
  | JObject values =>
    values ← (fix go l := match l with
      | [] => Ok []
      | (k, v) :: l => v ← redact_json_value v; l ← go l; Ok ((k, v) :: l)
      end) values;
    Ok (JObject values)
  | JNull | JBool _ | JNumber _ => Ok v
  end.

Definition redact_with (v : LensValue) : result LensError LensValue :=
  match v with
  | LString text => t ← redact_text text; Ok (LString t)
  | LJson j => j ← redact_json_value j; Ok (LJson j)
  | _ => _ ← map_err (lower_for_redaction v) ConvertError; Ok v
  end.

(** ** The texts of a value, in order, and the value without them *)
Fixpoint json_texts (v : json) : list string :=
  match v with
  | JString s => [s]
  | JArray l => l ≫= json_texts
  | JObject l => l ≫= fun e => json_texts e.2
  | JNull | JBool _ | JNumber _ => []
  end.
Fixpoint json_shape (v : json) : json :=
  match v with
  | JString _ => JString ""
  | JArray l => JArray (json_shape <$> l)
  | JObject l => JObject ((fun e => (e.1, json_shape e.2)) <$> l)
  | JNull | JBool _ | JNumber _ => v
  end.
Definition texts (v : LensValue) : list string :=
  match v with LString s => [s] | LJson j => json_texts j | _ => [] end.
Definition shape (v : LensValue) : LensValue :=
  match v with LString _ => LString "" | LJson j => LJson (json_shape j) | v => v end.

(** the pipeline turned the first text into the second *)
Definition Redacted (s t : string) : Prop := redact s = Ok (CleanText t).

Lemma redact_text_ok s t : redact_text s = Ok t ↔ Redacted s t.
Proof using Type.
  unfold redact_text, Redacted. split.
  - intros E. open_bind E as c Hc%map_err_ok. by destruct c; simplify_eq.
  - intros ->. done.
Qed.

(** induction over a JSON tree *)
Lemma json_ind' (P : json → Prop) :
  (∀ v, (match v with JArray _ | JObject _ => False | _ => True end) → P v) →
  (∀ l, Forall P l → P (JArray l)) → (∀ l, Forall (fun e => P e.2) l → P (JObject l)) → ∀ v, P v.
Proof using Type.
  intros Hleaf Harr Hobj. fix IH 1. intros [|b|n|s|l|l]; try by apply Hleaf.
  - apply Harr. induction l as [|v l IHl]; constructor; [apply IH|exact IHl].
  - apply Hobj. induction l as [|[k v] l IHl]; constructor; [apply IH|exact IHl].
Qed.

Lemma redact_json_spec v w :
  redact_json_value v = Ok w → Forall2 Redacted (json_texts v) (json_texts w) ∧ json_shape w = json_shape v.
Proof using Type.
  revert w. induction v as [v Hleaf|l IH|l IH] using json_ind'; intros w E; cbn [redact_json_value] in E.
  - destruct v as [|b|n|s|l|l]; [| | | |done|done]; cbn [redact_json_value] in E.
    4: { open_bind E as t Ht%redact_text_ok. injection E as <-. split; [by repeat constructor|done]. }
    all: injection E as <-; split; [constructor|done].
  - open_bind E as ws Hws. injection E as <-. cbn [json_texts json_shape].
    enough (Forall2 Redacted (l ≫= json_texts) (ws ≫= json_texts) ∧ json_shape <$> ws = json_shape <$> l)
      as [? ->] by done.
    revert ws Hws. induction IH as [|v l Hv _ IHl]; intros ws Hws; [injection Hws as <-; split; [constructor|done]|].
    open_bind Hws as u Hu. open_bind Hws as us Hus. injection Hws as <-. apply Hv in Hu as [Ht Hs].
    apply IHl in Hus as [Hts Hss]. cbn. rewrite Hs. split; [by apply Forall2_app|]. f_equal. exact Hss.
  - open_bind E as ws Hws. injection E as <-. cbn [json_texts json_shape].
    enough (Forall2 Redacted (l ≫= fun e => json_texts e.2) (ws ≫= fun e => json_texts e.2) ∧
      (fun e => (e.1, json_shape e.2)) <$> ws = (fun e => (e.1, json_shape e.2)) <$> l) as [? ->] by done.
    revert ws Hws. induction IH as [|[k v] l Hv _ IHl]; intros ws Hws; [injection Hws as <-; split; [constructor|done]|].
    open_bind Hws as u Hu. open_bind Hws as us Hus. injection Hws as <-. cbn [snd] in Hv. apply Hv in Hu as [Ht Hs].
    apply IHl in Hus as [Hts Hss]. cbn. rewrite Hs. split; [by apply Forall2_app|]. f_equal. exact Hss.
Qed.

(** C28. Redaction is complete and touches nothing else: when a value is
    redacted, its texts, in a JSON value at any depth, are exactly the
    pipeline's answers for the texts it had, in their places; everything that
    is not a text (numbers, keys, structure, typed scalars) is unchanged; and
    if the pipeline fails on one text, or answers with anything but text, the
    whole value is refused. *)
Theorem redaction_complete v :
  (∀ w, redact_with v = Ok w → Forall2 Redacted (texts v) (texts w) ∧ shape w = shape v) ∧
  ((∃ s, s ∈ texts v ∧ ∀ t, ¬ Redacted s t) → ∃ e, redact_with v = Err e).
Proof using Type.
  assert (H1 : ∀ w, redact_with v = Ok w → Forall2 Redacted (texts v) (texts w) ∧ shape w = shape v).
  { intros w E. destruct v as [| | | | | |s| | | |j]; cbn [redact_with] in E;
      try solve [open_bind E as g _; injection E as <-; split; [by constructor|done]].
    - open_bind E as t Ht%redact_text_ok. injection E as <-. split; [by repeat constructor|done].
    - open_bind E as j' [? Hs]%redact_json_spec. injection E as <-. split; [done|]. cbn. by rewrite Hs. }
  split; [done|]. intros (s & Hs & Hno). destruct (redact_with v) as [w|e]; [|by exists e].
  destruct (H1 w eq_refl) as [Hf _]. apply list_elem_of_lookup in Hs as (i & Hi).
  destruct (Forall2_lookup_l _ _ _ _ _ Hf Hi) as (t & _ & Ht). by apply Hno in Ht.
Qed.
End Redact.

Definition sample_redact (s : string) : result string CleanDocument :=
  if String.eqb s "alice@example.com" then Ok (CleanText "<Email_1>") else Ok (CleanText s).
Definition sample_value : LensValue :=
  LJson (JObject [("n"%string, JNumber "1"); ("to"%string, JArray [JString "alice@example.com"; JNull])]).
Lemma redaction_complete_witness :
  ∃ w, redact_with sample_redact sample_value = Ok w ∧
    Forall2 (Redacted sample_redact) (texts sample_value) (texts w) ∧ shape w = shape sample_value.
Proof.
  eexists. split; [vm_compute; reflexivity|].
  apply (redaction_complete sample_redact sample_value). vm_compute. reflexivity.
Defined.
