(* ===== verification/SshArgs.v ===== *)
(** * Command lines for ssh

    Models the validation and argument building of src/src/source/ssh_tunnel.rs:
    host and path checks, the remote command line, the control-master command
    lines and the errors they return.  Starting the processes is not modelled;
    a tunnel's [open] and [close] are the decisions taken on their outcomes.
    The lemmas give the alphabet of what is accepted: a remote shell reads an
    accepted word as that word. *)

From S2P Require Import Prelude Str Bounds Errors.

Record TunnelSpec := mkTunnelSpec {
  ssh_host : string; local_port : N; remote_host : string; remote_port : N }.

Inductive SshError :=
| InvalidHost (host reason : string)
| InvalidPath (path reason : string)
| SpawnFailed (err : string)
| NonZero (detail : string)
| LocalPortInUse (local_port owner_pid : N).

Definition ssh_error_display (e : SshError) : string :=
  match e with
  | InvalidHost host reason => concat_str ["invalid ssh host `"; host; "`: "; reason]
  | InvalidPath path reason => concat_str ["invalid ssh path `"; path; "`: "; reason]
  | SpawnFailed err => concat_str ["ssh spawn failed: "; err]
  | NonZero detail => concat_str ["ssh exited non-zero: "; detail]
  | LocalPortInUse port pid =>
    concat_str ["local port "; num port; " is already in use by pid "; num pid;
                "; stop that process or configure another local_port"]
  end%string.

(** [str::split] on one byte: always at least one piece *)
Fixpoint split (c : ascii) (s : bytes) : list bytes :=
  match s with
  | [] => [[]]
  | b :: s =>
    if beq b c then [] :: split c s
    else match split c s with
         | piece :: pieces => (b :: piece) :: pieces
         | [] => [[b]]
         end
  end.

(** the classes of the [matches!] patterns *)
Definition host_byte (b : ascii) : bool :=
  is_ascii_alphanumeric (code b) || beq b "." || beq b "_" || beq b "-".
Definition path_byte (b : ascii) : bool := host_byte b || beq b "/".
Definition metacharacter (b : ascii) : bool :=
  existsb (beq b) [";"; "|"; "&"; "`"; "$"]%char || existsb (N.eqb (code b)) [10; 13; 0].
Definition glob_byte (b : ascii) : bool := existsb (beq b) ["*"; "?"; "["; "]"]%char.

Definition starts_with_dash (s : bytes) : bool :=
  match s with b :: _ => beq b "-" | [] => false end.

Definition guard (bad : bool) (e : SshError) : result SshError unit := if bad then Err e else Ok tt.

Definition validate_ssh_host (host : string) : result SshError string :=
  let s := str_bytes host in
  _ ← guard (is_nil s) (InvalidHost host "empty host");
  _ ← guard (negb (len s <=? 253)) (InvalidHost host "host exceeds DNS length limit");
  _ ← guard (starts_with_dash s) (InvalidHost host "host cannot start with '-'");
  _ ← guard (negb (forallb host_byte s))
        (InvalidHost host "host may only contain ASCII letters, digits, '.', '_', '-'");
  Ok host.

Definition host_part (host : string) (part : bytes) : result SshError unit :=
  _ ← guard (is_nil part) (InvalidHost host "user and host parts cannot be empty");
  _ ← guard (starts_with_dash part) (InvalidHost host "user and host parts cannot start with '-'");
  guard (negb (forallb host_byte part))
    (InvalidHost host "host may only contain ASCII letters, digits, '.', '_', '-', and one '@'").

Definition validate_ssh_login_host (host : string) : result SshError string :=
  let s := str_bytes host in
  _ ← guard (is_nil s) (InvalidHost host "empty host");
  _ ← guard (negb (len s <=? 253)) (InvalidHost host "host exceeds DNS length limit");
  _ ← guard (starts_with_dash s) (InvalidHost host "host cannot start with '-'");
  _ ← guard (negb (len (filter (fun b => beq b "@" = true) s) <=? 1))
        (InvalidHost host "host may contain at most one '@'");
  _ ← for_each (host_part host) (split "@" s);
  Ok host.

Definition validate_ssh_path (path : string) : result SshError string :=
  let s := str_bytes path in
  _ ← guard (is_nil s) (InvalidPath path "empty path");
  _ ← guard (negb (len s <=? 4096)) (InvalidPath path "path exceeds PATH_MAX");
  _ ← guard (existsb metacharacter s) (InvalidPath path "path contains shell metacharacters");
  _ ← guard (existsb glob_byte s) (InvalidPath path "path contains glob characters");
  _ ← guard (existsb (bytes_eqb (str_bytes "..")) (split "/" s))
        (InvalidPath path "path contains traversal segment");
  _ ← guard (negb (forallb path_byte s))
        (InvalidPath path "path may only contain ASCII letters, digits, '/', '.', '_', '-'");
  Ok path.

Definition remote_argv (host : string) (command_argv : list string) (path : string)
  : result SshError (list string) :=
  host ← validate_ssh_login_host host;
  path ← validate_ssh_path path;
  Ok (["ssh"; "--"; host]%string ++ command_argv ++ ["--"; path]%string).

(** [control_path] is the display of the socket path in the temporary directory *)
Definition open_argv_for_control_path (spec : TunnelSpec) (host control_path : string) : list string :=
  ["-f"; "-N"; "-M"; "-S"; control_path; "-o"; "ExitOnForwardFailure=yes"; "-L";
   concat_str [num (local_port spec); ":"; remote_host spec; ":"; num (remote_port spec)];
   "--"; host]%string.
Definition close_argv_for_control_path (host control_path : string) : list string :=
  ["-S"; control_path; "-O"; "exit"; "--"; host]%string.
Definition open_argv (spec : TunnelSpec) (control_path : string) : result SshError (list string) :=
  host ← validate_ssh_login_host (ssh_host spec);
  Ok (open_argv_for_control_path spec host control_path).
Definition close_argv (host control_path : string) : result SshError (list string) :=
  host ← validate_ssh_login_host host;
  Ok (close_argv_for_control_path host control_path).

(** ** What is accepted *)
Lemma guard_ok b e : guard b e = Ok tt ↔ b = false.
Proof. by destruct b. Qed.

Lemma split_bytes c s : Forall (fun b => b = c ∨ ∃ p, p ∈ split c s ∧ b ∈ p) s.
Proof.
  induction s as [|b s IH]; [done|]. cbn [split]. destruct (beq b c) eqn:E.
  - apply beq_true in E as ->. constructor; [by left|].
    eapply Forall_impl; [exact IH|]. intros x [?|(p & ? & ?)]; [by left|right; exists p; set_solver].
  - destruct (split c s) as [|piece pieces] eqn:Es.
    + destruct s as [|b' s]; cbn [split] in Es; [done|]. by repeat case_match.
    + constructor; [right; exists (b :: piece); set_solver|].
      eapply Forall_impl; [exact IH|]. intros x [?|(p & Hp & ?)]; [by left|right].
      apply elem_of_cons in Hp as [->|?]; [exists (b :: piece)|exists p]; set_solver.
Qed.

Lemma split_pieces c s : Forall (fun p => c ∉ p) (split c s).
Proof.
  induction s as [|b s IH]; cbn [split]; [repeat constructor; set_solver|].
  destruct (beq b c) eqn:Hb; [constructor; [set_solver|done]|]. apply beq_false in Hb.
  destruct (split c s) as [|p ps]; [repeat constructor; set_solver|].
  apply Forall_cons in IH as [Hp Hps]. constructor; [set_solver|done].
Qed.

(** the pieces with [c] between them *)
Fixpoint joined (c : ascii) (pieces : list bytes) : bytes :=
  match pieces with
  | [] => []
  | [p] => p
  | p :: pieces => p ++ c :: joined c pieces
  end.
Lemma pieces_joined c s : joined c (split c s) = s.
Proof.
  induction s as [|b s IH]; [done|]. cbn [split].
  destruct (split c s) as [|p ps] eqn:E; [by destruct s; cbn [split] in E; repeat case_match|].
  destruct (beq b c) eqn:Hb; [apply beq_true in Hb as ->; cbn [joined app] in *; by rewrite IH|].
  destruct ps; cbn [joined app] in *; by rewrite IH.
Qed.

Lemma host_part_ok host part :
  host_part host part = Ok tt ↔
  part ≠ [] ∧ starts_with_dash part = false ∧ Forall (fun b => host_byte b = true) part.
Proof.
  unfold host_part. rewrite !check_then, !guard_ok, negb_false_iff, forallb_Forall.
  destruct part; naive_solver.
Qed.

(** an accepted destination is no option of ssh and holds no byte special to a shell *)
Lemma login_host_safe host h :
  validate_ssh_login_host host = Ok h →
  h = host ∧ str_bytes host ≠ [] ∧ starts_with_dash (str_bytes host) = false ∧
  Forall (fun b => host_byte b = true ∨ b = "@"%char) (str_bytes host).
Proof.
  unfold validate_ssh_login_host. rewrite !check_then, !guard_ok.
  intros (Hn & _ & Hd & _ & Hp & [= <-]). apply for_each_ok in Hp. rewrite Forall_forall in Hp.
  split_and!; [done|by intros E; rewrite E in Hn|done|].
  eapply Forall_impl; [apply (split_bytes "@")|]. intros b [->|(p & Hin & Hb)]; [by right|left].
  apply Hp, host_part_ok in Hin as (_ & _ & Hin). rewrite Forall_forall in Hin. auto.
Qed.

Lemma path_safe path p :
  validate_ssh_path path = Ok p →
  p = path ∧ str_bytes path ≠ [] ∧ Forall (fun b => path_byte b = true) (str_bytes path) ∧
  str_bytes ".." ∉ split "/" (str_bytes path).
Proof.
  unfold validate_ssh_path. rewrite !check_then, !guard_ok.
  intros (Hn & _ & _ & _ & Hd & Hp & [= <-]). apply negb_false_iff in Hp.
  split_and!; [done|by intros E; rewrite E in Hn| |].
  - by apply forallb_Forall.
  - intros Hin. assert (existsb (bytes_eqb (str_bytes "..")) (split "/" (str_bytes path)) = true); [|congruence].
    apply existsb_Exists, Exists_exists. exists (str_bytes ".."). split; [done|]. by apply bool_decide_eq_true.
Qed.
