(* ===== verification/LogSource.v ===== *)
(** * Log sources

    Models src/src/source/log/{mod,ssh_log,local_log}.rs: line splitting and
    capping, the window cache, regex and keyword-window grep, the ssh tail and
    the backwards scan of a local file, and the dispatch of the two wrappers.

    The regex engine, the derived serde code, the file system and the ssh
    process are parameters: a [Regex] class, a [LogSerde] class, a [File] with
    its results, the outcome [Run] of a process.  An [Instant] and a
    [Duration] are nanoseconds.  A call to a clock or to a fetch is given as
    the value it yields. *)

From S2P Require Import Prelude Utf8 Str Errors SshArgs LensValue.

Definition HARD_CAP_LINES : N := 10000.
Definition BOUNDED_TAIL_FOR_GREP : N := 10000.
Definition SSH_CONNECT_TIMEOUT_SECS : N := 10.
Definition STDERR_CAP_BYTES : N := 8 * 1024.
Definition NANOS : N := 1000000000.
Definition GREP_WINDOW_CACHE_TTL : N := 3 * NANOS.
Definition READ_CHUNK_BYTES : N := 64 * 1024.

#[global] Instance TruncatedAt_eq_dec : EqDecision TruncatedAt.
Proof. solve_decision. Defined.

(** [regex]: [Regex::new], [is_match], [escape] *)
Class RegexLib := {
  Regex : Type;
  regex_new : string → option Regex;
  (** the text of the error of [new] *)
  regex_error : string → string;
  is_match : Regex → string → bool;
  regex_escape : string → string;
}.

(** ** Shared helpers *)
Definition LF : ascii := ascii_of_N 10.

(** [str::lines]: without line ends, a last empty line left out *)
Definition CR : ascii := ascii_of_N 13.
Definition str_lines (s : list ascii) : list (list ascii) :=
  let pieces := split LF s in
  let ended := match last pieces with Some [] => take (length pieces - 1) pieces | _ => pieces end in
  imap (fun i l =>
    (* only a line that ended with a newline loses its carriage return *)
    if decide (S i = length pieces) then l else default l (strip_suffix CR l)) ended.

#[global] Arguments LF : simpl never.
Definition saturating_add (a b : N) : N := N.min USIZE_MAX (a + b).
Definition is_empty {A} (l : list A) : bool := is_nil l.

(** the lines of [raw.split(|byte| *byte == b'\n').filter(|line| !line.is_empty())] *)
Definition raw_lines (raw : bytes) : list bytes := filter (fun l => l ≠ []) (split LF raw).

Definition split_and_cap_lines_with_truncation (raw : bytes) (max_line_bytes : N)
  : list string * bool :=
  ((fun l => str_of (from_utf8_lossy (take (N.to_nat (N.min (len l) max_line_bytes)) l))) <$> raw_lines raw,
   existsb (fun l => max_line_bytes <? len l) (raw_lines raw)).

Definition split_and_cap_lines (raw : bytes) (max_line_bytes : N) : list string :=
  fst (split_and_cap_lines_with_truncation raw max_line_bytes).

(** [reader.take(max).read_to_end()]: what is read of what the reader holds *)
Definition read_capped (content : bytes) (max_bytes : N) : bytes :=
  take (N.to_nat (N.min max_bytes U64_MAX)) content.

Definition non_empty_level (level : option string) : option string :=
  match level with Some l => if String.eqb l "" then None else Some l | None => None end.

Definition grep_metadata_required (matched_lines : N) (truncated_at : list TruncatedAt) : bool := true.

Definition grep_status (matched_lines : N) (truncated_at : list TruncatedAt) : string :=
  match (matched_lines =? 0)%N, is_empty truncated_at with
  | true, true => "no_matches"
  | true, false => "no_matches_truncated"
  | _, false => "truncated"
  | _, true => "matches"
  end.

Definition push_truncation (truncated_at : list TruncatedAt) (reason : TruncatedAt) : list TruncatedAt :=
  if decide (reason ∈ truncated_at) then truncated_at else truncated_at ++ [reason].

(** [Display] of [Utf8Error] *)
Definition utf8_error_display (e : N * option N) : string :=
  match e with
  | (i, Some n) => concat_str ["invalid utf-8 sequence of "; num n; " bytes from index "; num i]
  | (i, None) => concat_str ["incomplete utf-8 byte sequence from index "; num i]
  end%string.

Definition source_error (profile_name detail : string) (stderr : option string) : LensError :=
  SourceError profile_name detail None stderr.

(** [lines.join("\n")] *)
Definition newline : string := str_of [LF].
Definition join_lines (lines : list string) : string := String.concat newline lines.

(** the text of an output: the metadata header, then the lines *)
Definition with_header (metadata : option string) (lines : string) : string :=
  match metadata with
  | None => lines
  | Some metadata => if String.eqb lines "" then metadata else concat_str [metadata; newline; lines]
  end.

(** ** The window cache

    [entries] as the map the mutex guards; each method takes the lock once, so
    that it is one atomic step on this map. *)
Section Cache.
Context {K O : Type} `{Countable K}.

Record CachedWindow := mkCachedWindow { minted_at : N; output : O }.
Record WindowCache := mkWindowCache { ttl : N; entries : gmap K CachedWindow }.

Definition cache_new (ttl : N) : WindowCache := mkWindowCache ttl ∅.

Definition fresh (c : WindowCache) (key : K) (now : N) : option O :=
  match entries c !! key with
  | Some entry => if now - minted_at entry <=? ttl c then Some (output entry) else None
  | None => None
  end.

Definition store (c : WindowCache) (key : K) (o : O) (minted_at : N) : WindowCache :=
  mkWindowCache (ttl c) (<[key := mkCachedWindow minted_at o]> (entries c)).

(** a fetch: its result, and the clock read when it has succeeded *)
Record Fetch := mkFetch { fetched : result LensError O; fetched_at : N }.

Definition get_or_fetch (c : WindowCache) (key : K) (now : N) (fetch : Fetch)
  : result LensError O * WindowCache :=
  match fresh c key now with
  | Some o => (Ok o, c)
  | None =>
    match fetched fetch with
    | Ok o => (Ok o, store c key o (fetched_at fetch))
    | Err e => (Err e, c)
    end
  end.

Definition get_or_fetch_refresh (c : WindowCache) (key : K) (refresh : bool) (now : N) (fetch : Fetch)
  : result LensError O * WindowCache :=
  if negb refresh then get_or_fetch c key now fetch
  else match fetched fetch with
       | Ok o => (Ok o, store c key o (fetched_at fetch))
       | Err e => (Err e, c)
       end.
End Cache.
Arguments CachedWindow : clear implicits.
Arguments WindowCache K O {_ _}.
Arguments Fetch : clear implicits.

(** ** Filtering by pattern and level *)
Section Filtering.
Context `{RegexLib}.

Definition matches (re : Regex) (level_re : option Regex) (line : string) : bool :=
  is_match re line && match level_re with Some level => is_match level line | None => true end.

(** the loop: the count of matches and the lines kept *)
Fixpoint filter_loop (keep : string → bool) (limit : N) (matched : N) (kept : list string) (ls : list string)
  : N * list string :=
  match ls with
  | [] => (matched, kept)
  | line :: ls =>
    if keep line then
      filter_loop keep limit (matched + 1) (if len kept <? limit then kept ++ [line] else kept) ls
    else filter_loop keep limit matched kept ls
  end.

(** [(?i)\b{}\b] of the escaped level *)
Definition level_pattern (level : string) : string :=
  concat_str ["(?i)\b"; regex_escape level; "\b"]%string.
Definition level_regex (profile_name : string) (level : option string) : result LensError (option Regex) :=
  match level with
  | None => Ok None
  | Some level =>
    Some <$> ok_or (regex_new (level_pattern level)) (source_error profile_name "invalid log level filter" None)
  end.

End Filtering.

(** ** Logs read over ssh: ssh_log.rs *)
Module Ssh.
Record SshLogCaps := mkSshLogCaps { caps_line_bytes : N; caps_bytes : N; caps_timeout : N }.

Record SshLogMetadata := mkSshLogMetadata {
  operation : string; status : string; profile : string; source_kind : string; host : string;
  path : string; pattern : string; level : option string; requested_limit : N;
  tail_window_lines : N; searched_lines : N; matched_lines : N; returned_lines : N;
  searched_bytes : N; meta_truncated_at : list TruncatedAt }.

Record SshLogOutput := mkSshLogOutput {
  lines : list string; truncated_at : list TruncatedAt; bytes : N; metadata : option SshLogMetadata }.

(** [WindowCacheKey]: host, path, window lines *)
Definition WindowCacheKey : Type := string * string * N.

Record SshLogSource := mkSshLogSource {
  profile_name : string; s_host : string; s_path : string; max_line_bytes : N; max_total_bytes : N;
  timeout : N; grep_window_cache : WindowCache WindowCacheKey SshLogOutput }.

Definition with_cache (s : SshLogSource) (c : WindowCache WindowCacheKey SshLogOutput) : SshLogSource :=
  mkSshLogSource (profile_name s) (s_host s) (s_path s) (max_line_bytes s) (max_total_bytes s) (timeout s) c.

Definition new (profile_name host path : string) (caps : SshLogCaps) : result LensError SshLogSource :=
  _ ← map_err (validate_ssh_login_host host) (fun e => source_error profile_name (ssh_error_display e) None);
  _ ← map_err (validate_ssh_path path) (fun e => source_error profile_name (ssh_error_display e) None);
  Ok (mkSshLogSource profile_name host path (caps_line_bytes caps) (caps_bytes caps) (caps_timeout caps)
        (cache_new GREP_WINDOW_CACHE_TTL)).

(** the two [expect]s panic on an unvalidated host or path: [None] *)
Definition tail_argv (host path : string) (lines : N) : option (list string) :=
  match validate_ssh_login_host host, validate_ssh_path path with
  | Ok host, Ok path =>
    Some ["ssh"; "-o"; "BatchMode=yes"; "-o";
          concat_str ["ConnectTimeout="; num SSH_CONNECT_TIMEOUT_SECS];
          "--"; host; "tail"; "-n"; num (N.min lines HARD_CAP_LINES); "--"; path]%string
  | _, _ => None
  end.

(** [SshLogSource::tail_argv]: [new] validates both, so there is no panic *)
Definition source_argv (s : SshLogSource) (lines : N) : list string :=
  default [] (tail_argv (s_host s) (s_path s) lines).

(** what became of the process: not started, an I/O error on its pipes or on
    [wait], the timeout, or its exit code (none for a signal) and all it wrote *)
Inductive Run :=
| SpawnError (err : string)
| IoError (err : string)
| TimedOut
| Exited (code : option Z) (stdout stderr : list ascii).

(** [str::contains] *)
Fixpoint contains (pat s : list ascii) : bool :=
  bool_decide (pat `prefix_of` s) || match s with [] => false | _ :: s => contains pat s end.

Definition ssh_stderr_indicates_connect_timeout (stderr : list ascii) : bool :=
  let stderr := byte_lower <$> from_utf8_lossy stderr in
  contains (str_bytes "connection timed out") stderr || contains (str_bytes "operation timed out") stderr.

Definition timeout_error (profile_name phase operation host path : string) (timeout : N) : LensError :=
  OperationTimeout phase operation (timeout / NANOS)
    (Some (concat_str ["profile="; profile_name; " host="; host; " path="; path])).

(** [{:?}] of [Option<i32>] *)
Definition debug_code (code : option Z) : string :=
  match code with
  | Some z => concat_str ["Some("; str_of (print_i64 z); ")"]
  | None => "None"
  end%string.

(** [exec]: what becomes of the process of a command line *)
Definition tail_for_operation (s : SshLogSource) (lines : N) (operation : string) (exec : list string → Run)
  : result LensError SshLogOutput :=
  match exec (source_argv s lines) with
  | SpawnError err | IoError err => Err (source_error (profile_name s) err None)
  | TimedOut => Err (timeout_error (profile_name s) "ssh log command/read" operation (s_host s) (s_path s) (timeout s))
  | Exited code stdout stderr =>
    let stdout := read_capped stdout (saturating_add (max_total_bytes s) 1) in
    let stderr := read_capped stderr STDERR_CAP_BYTES in
    if negb (bool_decide (code = Some 0%Z)) then
      if ssh_stderr_indicates_connect_timeout stderr
      then Err (timeout_error (profile_name s) "ssh connect" operation (s_host s) (s_path s)
                  (SSH_CONNECT_TIMEOUT_SECS * NANOS))
      else Err (source_error (profile_name s) (concat_str ["ssh returned "; debug_code code])
                  (Some (str_of (from_utf8_lossy stderr))))
    else
      let cut := max_total_bytes s <? len stdout in
      let stdout := take (N.to_nat (max_total_bytes s)) stdout in
      let '(lines, line_truncated) := split_and_cap_lines_with_truncation stdout (max_line_bytes s) in
      Ok (mkSshLogOutput lines
            ((if cut then [TrBytes] else []) ++ (if line_truncated then [TrLineBytes] else []))
            (len stdout) None)
  end.

Definition tail (s : SshLogSource) (lines : N) (exec : list string → Run) : result LensError SshLogOutput :=
  tail_for_operation s lines "log_tail" exec.

Section WithRegex.
Context `{RegexLib}.

Definition filter_grep_output (s : SshLogSource) (pattern : string) (level : option string) (limit : N)
    (output : SshLogOutput) (re : Regex) (level_re : option Regex) : SshLogOutput :=
  let level := non_empty_level level in
  let searched_lines := len (lines output) in
  let searched_bytes := bytes output in
  let '(matched_lines, kept) := filter_loop (matches re level_re) limit 0 [] (lines output) in
  let truncated_at :=
    if len kept <? matched_lines then push_truncation (truncated_at output) TrRows else truncated_at output in
  let metadata :=
    if grep_metadata_required matched_lines truncated_at then
      Some (mkSshLogMetadata "log_grep" (grep_status matched_lines truncated_at) (profile_name s) "ssh_log"
              (s_host s) (s_path s) pattern level limit BOUNDED_TAIL_FOR_GREP searched_lines matched_lines
              (len kept) searched_bytes truncated_at)
    else None in
  mkSshLogOutput kept truncated_at searched_bytes metadata.

Definition full_grep_window_output (s : SshLogSource) (pattern : string) (level : option string) (limit : N)
    (output : SshLogOutput) : SshLogOutput :=
  let level := non_empty_level level in
  let searched_lines := len (lines output) in
  let searched_bytes := bytes output in
  let truncated_at := truncated_at output in
  mkSshLogOutput (lines output) truncated_at searched_bytes
    (Some (mkSshLogMetadata "log_grep" (grep_status searched_lines truncated_at) (profile_name s) "ssh_log"
             (s_host s) (s_path s) pattern level limit BOUNDED_TAIL_FOR_GREP searched_lines searched_lines
             searched_lines searched_bytes truncated_at)).

Definition grep_window_cache_key (s : SshLogSource) (window_lines : N) : WindowCacheKey :=
  (s_host s, s_path s, window_lines).

Definition grep_with_tail_fetcher (s : SshLogSource) (pattern : string) (level : option string) (limit : N)
    (now : N) (fetch : Fetch SshLogOutput) : result LensError SshLogOutput * SshLogSource :=
  let level := non_empty_level level in
  match ok_or (regex_new pattern) (source_error (profile_name s) "invalid log grep regex" None) with
  | Err e => (Err e, s)
  | Ok re =>
    match level_regex (profile_name s) level with
    | Err e => (Err e, s)
    | Ok level_re =>
      let '(r, c) := get_or_fetch (grep_window_cache s)
                       (grep_window_cache_key s BOUNDED_TAIL_FOR_GREP) now fetch in
      ((fun output => filter_grep_output s pattern level limit output re level_re) <$> r, with_cache s c)
    end
  end.

Definition grep_window_with_tail_fetcher (s : SshLogSource) (pattern : string) (level : option string)
    (limit : N) (refresh : bool) (now : N) (fetch : Fetch SshLogOutput)
  : result LensError SshLogOutput * SshLogSource :=
  let level := non_empty_level level in
  let '(r, c) := get_or_fetch_refresh (grep_window_cache s)
                   (grep_window_cache_key s BOUNDED_TAIL_FOR_GREP) refresh now fetch in
  (full_grep_window_output s pattern level limit <$> r, with_cache s c).

(** the fetch of both: one bounded tail, which ended at [at_] *)
Definition grep_fetch (s : SshLogSource) (exec : list string → Run) (at_ : N) : Fetch SshLogOutput :=
  mkFetch (tail_for_operation s BOUNDED_TAIL_FOR_GREP "log_grep" exec) at_.
Definition grep (s : SshLogSource) (pattern : string) (level : option string) (limit now : N)
    (exec : list string → Run) (at_ : N) :=
  grep_with_tail_fetcher s pattern level limit now (grep_fetch s exec at_).
Definition grep_window (s : SshLogSource) (pattern : string) (level : option string) (limit : N)
    (refresh : bool) (now : N) (exec : list string → Run) (at_ : N) :=
  grep_window_with_tail_fetcher s pattern level limit refresh now (grep_fetch s exec at_).
End WithRegex.
End Ssh.

(** ** Logs of a local file: local_log.rs *)
Module Local.
Record LocalLogCaps := mkLocalLogCaps { caps_line_bytes : N; caps_bytes : N; caps_timeout : N }.

Record LocalLogMetadata := mkLocalLogMetadata {
  operation : string; status : string; profile : string; source_kind : string;
  path : string; pattern : string; level : option string; requested_limit : N;
  tail_window_lines : N; searched_lines : N; matched_lines : N; returned_lines : N;
  searched_bytes : N; meta_truncated_at : list TruncatedAt }.

Record LocalLogOutput := mkLocalLogOutput {
  lines : list string; truncated_at : list TruncatedAt; bytes : N; metadata : option LocalLogMetadata }.

(** [WindowCacheKey]: path bytes, window lines *)
Definition WindowCacheKey : Type := list ascii * N.

Record LocalLogSource := mkLocalLogSource {
  profile_name : string; l_path : list ascii; max_line_bytes : N; max_total_bytes : N; timeout : N;
  grep_window_cache : WindowCache WindowCacheKey LocalLogOutput; poisoned : bool }.

Definition with_cache (s : LocalLogSource) (c : WindowCache WindowCacheKey LocalLogOutput) : LocalLogSource :=
  mkLocalLogSource (profile_name s) (l_path s) (max_line_bytes s) (max_total_bytes s) (timeout s) c (poisoned s).

(** [path.display()] and [to_string_lossy] *)
Definition path_display (path : list ascii) : string := str_of (from_utf8_lossy path).

Definition new (profile_name : string) (path : list ascii) (caps : LocalLogCaps) : result LensError LocalLogSource :=
  if is_empty path then Err (source_error profile_name "local_log path must not be empty" None)
  else Ok (mkLocalLogSource profile_name path (caps_line_bytes caps) (caps_bytes caps) (caps_timeout caps)
             (cache_new GREP_WINDOW_CACHE_TTL) false).

(** an opened file: its length or the error of [metadata], and what a seek to
    [pos] followed by a read of at most [n] bytes yields *)
Record File := mkFile { f_len : result string N; f_read : N → N → result string (list ascii) }.

Section Reading.
Variable profile_name : string.
Variable file : File.

Definition io {A} (r : result string A) : result LensError A :=
  map_err r (fun err => source_error profile_name err None).

(** the indices of a chunk in reverse, from the newline count [seen]: the
    index of the newline that makes it [target], else the count *)
Fixpoint scan_chunk (target seen : N) (rev_chunk : list ascii) : nat + N :=
  match rev_chunk with
  | [] => inr seen
  | b :: rest =>
    if beq b LF then
      if seen + 1 =? target then inl (length rest) else scan_chunk target (seen + 1) rest
    else scan_chunk target seen rest
  end.

(** [while pos > 0]; the fuel is one more than the number of chunks *)
Fixpoint scan_back (fuel : nat) (target seen pos : N) : result LensError N :=
  if pos =? 0 then Ok 0
  else match fuel with
  | O => Err (Internal "fuel")
  | S fuel =>
    let read_len := N.min pos READ_CHUNK_BYTES in
    let start := pos - read_len in
    chunk ← io (f_read file start read_len);
    match scan_chunk target seen (reverse chunk) with
    | inl index => Ok (start + N.of_nat index + 1)
    | inr seen => scan_back fuel target seen start
    end
  end.

Definition tail_start_offset (len lines : N) : result LensError N :=
  last_byte ← io (f_read file (len - 1) 1);
  let target_newlines := saturating_add lines (if bool_decide (last_byte = [LF]) then 1 else 0) in
  scan_back (S (N.to_nat (len / READ_CHUNK_BYTES))) target_newlines 0 len.

(** after [File::open] *)
Definition read_opened (max_total_bytes lines : N) : result LensError (list ascii) :=
  len ← io (f_len file);
  if len =? 0 then Ok []
  else
    start ← tail_start_offset len lines;
    io (f_read file start (saturating_add max_total_bytes 1)).
End Reading.

Definition read_tail_bytes (s : LocalLogSource) (open : result string File) (lines : N)
  : result LensError (list ascii) :=
  if lines =? 0 then Ok []
  else
    file ← io (profile_name s) open;
    read_opened (profile_name s) file (max_total_bytes s) lines.

Definition validate_utf8 (raw : list ascii) : result LensError unit :=
  match utf8_error raw with
  | None => Ok tt
  | Some e => Err (ConvertError (Decode "local_log" (utf8_error_display e)))
  end.

Definition tail_inner (s : LocalLogSource) (open : result string File) (lines : N)
  : result LensError LocalLogOutput :=
  let capped_lines := N.min lines HARD_CAP_LINES in
  raw ← read_tail_bytes s open capped_lines;
  let cut := max_total_bytes s <? len raw in
  let raw := if cut then take (N.to_nat (max_total_bytes s)) raw else raw in
  _ ← validate_utf8 raw;
  let '(lines, line_truncated) := split_and_cap_lines_with_truncation raw (max_line_bytes s) in
  Ok (mkLocalLogOutput lines
        ((if cut then [TrBytes] else []) ++ (if line_truncated then [TrLineBytes] else []))
        (len raw) None).

(** [None] when the timeout fires first *)
Definition tail_for_operation (s : LocalLogSource) (operation : string) (open : option (result string File))
    (lines : N) : result LensError LocalLogOutput :=
  match open with
  | Some open => tail_inner s open lines
  | None =>
    Err (OperationTimeout "local log read" operation (timeout s / NANOS)
           (Some (concat_str ["profile="; profile_name s; " path="; path_display (l_path s)]%string)))
  end.
Definition tail (s : LocalLogSource) (open : option (result string File)) (lines : N) :=
  tail_for_operation s "log_tail" open lines.

(** *** The cache behind its lock, which is an error when poisoned *)
Definition guarded {A} (s : LocalLogSource) (k : result LensError A * WindowCache WindowCacheKey LocalLogOutput)
  : result LensError A * LocalLogSource :=
  if poisoned s then (Err (Internal "local log window cache lock poisoned"), s)
  else (fst k, with_cache s (snd k)).

(** with [refresh] a poisoned lock is met only after the fetch *)
Definition cached (s : LocalLogSource) (key : WindowCacheKey) (refresh : bool) (now : N)
    (fetch : Fetch LocalLogOutput) : result LensError LocalLogOutput * LocalLogSource :=
  match refresh, fetched fetch with
  | true, Err e => (Err e, s)
  | _, _ => guarded s (get_or_fetch_refresh (grep_window_cache s) key refresh now fetch)
  end.

Section WithRegex.
Context `{RegexLib}.

Definition filter_grep_output (s : LocalLogSource) (pattern : string) (level : option string) (limit : N)
    (output : LocalLogOutput) (re : Regex) (level_re : option Regex) : LocalLogOutput :=
  let level := non_empty_level level in
  let searched_lines := len (lines output) in
  let searched_bytes := bytes output in
  let '(matched_lines, kept) := filter_loop (matches re level_re) limit 0 [] (lines output) in
  let truncated_at :=
    if len kept <? matched_lines then push_truncation (truncated_at output) TrRows else truncated_at output in
  let metadata :=
    if grep_metadata_required matched_lines truncated_at then
      Some (mkLocalLogMetadata "log_grep" (grep_status matched_lines truncated_at) (profile_name s) "local_log"
              (path_display (l_path s)) pattern level limit BOUNDED_TAIL_FOR_GREP searched_lines matched_lines
              (len kept) searched_bytes truncated_at)
    else None in
  mkLocalLogOutput kept truncated_at searched_bytes metadata.

Definition full_grep_window_output (s : LocalLogSource) (pattern : string) (level : option string) (limit : N)
    (output : LocalLogOutput) : LocalLogOutput :=
  let level := non_empty_level level in
  let searched_lines := len (lines output) in
  let searched_bytes := bytes output in
  let truncated_at := truncated_at output in
  mkLocalLogOutput (lines output) truncated_at searched_bytes
    (Some (mkLocalLogMetadata "log_grep" (grep_status searched_lines truncated_at) (profile_name s) "local_log"
             (path_display (l_path s)) pattern level limit BOUNDED_TAIL_FOR_GREP searched_lines searched_lines
             searched_lines searched_bytes truncated_at)).

Definition grep_window_cache_key (s : LocalLogSource) (window_lines : N) : WindowCacheKey :=
  (l_path s, window_lines).

Definition grep_with_tail_fetcher (s : LocalLogSource) (pattern : string) (level : option string) (limit : N)
    (now : N) (fetch : Fetch LocalLogOutput) : result LensError LocalLogOutput * LocalLogSource :=
  let level := non_empty_level level in
  match ok_or (regex_new pattern) (source_error (profile_name s) "invalid log grep regex" None) with
  | Err e => (Err e, s)
  | Ok re =>
    match level_regex (profile_name s) level with
    | Err e => (Err e, s)
    | Ok level_re =>
      let '(r, s') := cached s (grep_window_cache_key s BOUNDED_TAIL_FOR_GREP) false now fetch in
      ((fun output => filter_grep_output s pattern level limit output re level_re) <$> r, s')
    end
  end.

Definition grep_window_with_tail_fetcher (s : LocalLogSource) (pattern : string) (level : option string)
    (limit : N) (refresh : bool) (now : N) (fetch : Fetch LocalLogOutput)
  : result LensError LocalLogOutput * LocalLogSource :=
  let level := non_empty_level level in
  let '(r, s') := cached s (grep_window_cache_key s BOUNDED_TAIL_FOR_GREP) refresh now fetch in
  (full_grep_window_output s pattern level limit <$> r, s').

Definition grep_fetch (s : LocalLogSource) (open : option (result string File)) (at_ : N) : Fetch LocalLogOutput :=
  mkFetch (tail_for_operation s "log_grep" open BOUNDED_TAIL_FOR_GREP) at_.
Definition grep (s : LocalLogSource) (pattern : string) (level : option string) (limit now : N)
    (open : option (result string File)) (at_ : N) :=
  grep_with_tail_fetcher s pattern level limit now (grep_fetch s open at_).
Definition grep_window (s : LocalLogSource) (pattern : string) (level : option string) (limit : N)
    (refresh : bool) (now : N) (open : option (result string File)) (at_ : N) :=
  grep_window_with_tail_fetcher s pattern level limit refresh now (grep_fetch s open at_).
End WithRegex.
End Local.

(** ** Dispatch: mod.rs *)
Record LogTailArgs := mkLogTailArgs { ta_lines : option N }.
Record LogGrepArgs := mkLogGrepArgs {
  ga_pattern : string; ga_level : option string; ga_limit : option N; ga_mode : option string;
  ga_refresh : option bool }.

(** the derived serde code: arguments from a JSON value (or the error's text),
    metadata to its JSON text *)
Class LogSerde := {
  tail_args_from_value : json → result string LogTailArgs;
  grep_args_from_value : json → result string LogGrepArgs;
  ssh_metadata_text : Ssh.SshLogMetadata → string;
  local_metadata_text : Local.LocalLogMetadata → result string string;
}.

(** [SourceOutput::TextWithTruncation] *)
Record LogText := mkLogText { text : string; text_truncated_at : list TruncatedAt }.

Section Dispatch.
Context `{RegexLib, LogSerde}.

Definition ssh_into_text (o : Ssh.SshLogOutput) : string :=
  with_header (ssh_metadata_text <$> Ssh.metadata o) (join_lines (Ssh.lines o)).
Definition text_output_from_log (o : Ssh.SshLogOutput) : LogText :=
  mkLogText (ssh_into_text o) (Ssh.truncated_at o).

Definition local_into_text (o : Local.LocalLogOutput) : result LensError string :=
  let lines := join_lines (Local.lines o) in
  match Local.metadata o with
  | None => Ok (with_header None lines)
  | Some metadata =>
    text ← map_err (local_metadata_text metadata) (fun err =>
      source_error (Local.profile metadata)
        (concat_str ["local log metadata serialization failed: "; err]%string) None);
    Ok (with_header (Some text) lines)
  end.
Definition text_output_from_local_log (o : Local.LocalLogOutput) : result LensError LogText :=
  text ← local_into_text o;
  Ok (mkLogText text (Local.truncated_at o)).

Definition unsupported_tool (profile_name tool : string) : LensError :=
  source_error profile_name (concat_str ["unsupported tool "; tool; " on log source"]%string) None.
Definition invalid_mode (profile_name mode : string) : LensError :=
  source_error profile_name
    (concat_str ["invalid log_grep mode `"; mode; "`; expected `regex` or `keyword`"]%string) None.

Definition ssh_dispatch (s : Ssh.SshLogSource) (tool_name : string) (args : json) (now : N)
    (exec : list string → Ssh.Run) (at_ : N) : result LensError LogText * Ssh.SshLogSource :=
  if String.eqb tool_name "log_tail" then
    (args ← map_err (tail_args_from_value args) (fun err => source_error (Ssh.profile_name s) err None);
     text_output_from_log <$> Ssh.tail s (default 100 (ta_lines args)) exec, s)
  else if String.eqb tool_name "log_grep" then
    match grep_args_from_value args with
    | Err _ => (Err (source_error (Ssh.profile_name s) "invalid log_grep args" None), s)
    | Ok args =>
      let mode := default "regex"%string (ga_mode args) in
      let limit := default 100 (ga_limit args) in
      if String.eqb mode "regex" then
        let '(r, s) := Ssh.grep s (ga_pattern args) (ga_level args) limit now exec at_ in
        (text_output_from_log <$> r, s)
      else if String.eqb mode "keyword" then
        let '(r, s) := Ssh.grep_window s (ga_pattern args) (ga_level args) limit
                         (default false (ga_refresh args)) now exec at_ in
        (text_output_from_log <$> r, s)
      else (Err (invalid_mode (Ssh.profile_name s) mode), s)
    end
  else (Err (unsupported_tool (Ssh.profile_name s) tool_name), s).

Definition local_dispatch (s : Local.LocalLogSource) (tool_name : string) (args : json) (now : N)
    (open : option (result string Local.File)) (at_ : N) : result LensError LogText * Local.LocalLogSource :=
  if String.eqb tool_name "log_tail" then
    (args ← map_err (tail_args_from_value args) (fun err => source_error (Local.profile_name s) err None);
     o ← Local.tail s open (default 100 (ta_lines args));
     text_output_from_local_log o, s)
  else if String.eqb tool_name "log_grep" then
    match grep_args_from_value args with
    | Err _ => (Err (source_error (Local.profile_name s) "invalid log_grep args" None), s)
    | Ok args =>
      let mode := default "regex"%string (ga_mode args) in
      let limit := default 100 (ga_limit args) in
      if String.eqb mode "regex" then
        let '(r, s) := Local.grep s (ga_pattern args) (ga_level args) limit now open at_ in
        (r ≫= text_output_from_local_log, s)
      else if String.eqb mode "keyword" then
        let '(r, s) := Local.grep_window s (ga_pattern args) (ga_level args) limit
                         (default false (ga_refresh args)) now open at_ in
        (r ≫= text_output_from_local_log, s)
      else (Err (invalid_mode (Local.profile_name s) mode), s)
    end
  else (Err (unsupported_tool (Local.profile_name s) tool_name), s).
End Dispatch.
