(* ===== verification/LogFacts.v ===== *)
(** * What the log sources promise

    A local tail is [tail -n] of the file, without its empty lines and cut at
    the caps; a grep shows the
    first matching lines of the window and says what it left out; the window
    cache never serves an old or foreign window; the ssh command line holds
    plain words only. *)

From S2P Require Import Prelude Utf8 Str Errors SshArgs LogSource.

(** ** Lines of a file *)

(** the lines of a file, each with its newline, the last perhaps without *)
Fixpoint file_lines (s : bytes) : list bytes :=
  match s with
  | [] => []
  | b :: s =>
    if beq b LF then [b] :: file_lines s
    else match file_lines s with
         | [] => [[b]]
         | l :: ls => (b :: l) :: ls
         end
  end.
(** what [tail -n] prints *)
Definition tail_n (n : N) (s : bytes) : bytes :=
  concat (drop (length (file_lines s) - N.to_nat n) (file_lines s)).

Fixpoint newlines (s : bytes) : nat :=
  match s with [] => 0%nat | b :: s => if beq b LF then S (newlines s) else newlines s end.
Definition open_line (s : bytes) : bool :=
  match last s with Some b => negb (beq b LF) | None => false end.

Lemma concat_file_lines s : concat (file_lines s) = s.
Proof.
  induction s as [|b s IH]; [done|]. cbn [file_lines]. destruct (beq b LF).
  - cbn. by rewrite IH.
  - revert IH. destruct (file_lines s); cbn; congruence.
Qed.

Lemma newlines_app s t : newlines (s ++ t) = (newlines s + newlines t)%nat.
Proof. induction s as [|b s IH]; [done|]. cbn [app newlines]. rewrite IH. by destruct (beq b LF). Qed.

Lemma length_file_lines s :
  length (file_lines s) = (newlines s + if open_line s then 1 else 0)%nat.
Proof.
  induction s as [|b s IH]; [done|]. cbn [file_lines newlines].
  assert (Ho : open_line (b :: s) = if is_nil s then negb (beq b LF) else open_line s).
  { unfold open_line. destruct s as [|b' s]; [done|]. by rewrite last_cons_cons. }
  rewrite Ho. destruct (beq b LF) eqn:Hb.
  - cbn [length]. rewrite IH. destruct s; [done|]. cbn [is_nil]. lia.
  - destruct (file_lines s) as [|l ls] eqn:E.
    + assert (s = []) as -> by (rewrite <- (concat_file_lines s), E; done). done.
    + destruct s; [done|]. cbn [is_nil length] in *. lia.
Qed.

Lemma file_lines_app s t :
  open_line s = false → file_lines (s ++ t) = file_lines s ++ file_lines t.
Proof.
  induction s as [|b s IH]; [done|]. intros Ho. cbn [app file_lines].
  destruct s as [|b' s].
  - unfold open_line in Ho. cbn in Ho. apply negb_false_iff in Ho. rewrite Ho. done.
  - assert (open_line (b' :: s) = false) as Ho' by (unfold open_line in *; by rewrite last_cons_cons in Ho).
    rewrite IH by done. destruct (beq b LF); [done|].
    destruct (file_lines (b' :: s)) as [|l ls] eqn:E; [|done].
    assert (H := concat_file_lines (b' :: s)). rewrite E in H. done.
Qed.

(** the tail cut after a newline, by the number of newlines it keeps *)
Lemma tail_n_cut n p t :
  open_line p = false →
  (N.to_nat n = newlines t + if open_line t then 1 else 0)%nat →
  tail_n n (p ++ t) = t.
Proof.
  intros Hp Hn. unfold tail_n. rewrite file_lines_app, Hn, <- length_file_lines, length_app by done.
  rewrite drop_app_ge by lia. replace (_ + _ - _ - _)%nat with 0%nat by lia.
  apply concat_file_lines.
Qed.

Lemma tail_n_all n s :
  (newlines s + (if open_line s then 1 else 0) <= N.to_nat n)%nat → tail_n n s = s.
Proof.
  rewrite <- length_file_lines. intros Hn. unfold tail_n.
  replace (_ - _)%nat with 0%nat by lia. apply concat_file_lines.
Qed.

(** ** The backwards scan *)

(** a file whose content does not change while it is read *)
Definition static (content : bytes) : Local.File :=
  Local.mkFile (Ok (len content)) (fun pos n => Ok (read_capped (drop (N.to_nat pos) content) n)).

Lemma scan_chunk_spec target seen c :
  seen < target →
  match Local.scan_chunk target seen (reverse c) with
  | inl i => ∃ p t, c = p ++ LF :: t ∧ length p = i ∧ seen + 1 + N.of_nat (newlines t) = target
  | inr seen' => seen' = seen + N.of_nat (newlines c) ∧ seen' < target
  end.
Proof.
  revert seen. induction c as [|b c IH] using rev_ind; intros seen Hs; [cbn; lia|].
  rewrite reverse_snoc. cbn [Local.scan_chunk]. destruct (beq b LF) eqn:Hb.
  - destruct (N.eqb_spec (seen + 1) target) as [E|E].
    + exists c, []. rewrite length_reverse. apply beq_true in Hb as ->. cbn. split_and!; [done|done|lia].
    + specialize (IH (seen + 1) ltac:(lia)). destruct (Local.scan_chunk _ _ _).
      * destruct IH as (p & t & -> & Hp & Ht). exists p, (t ++ [b]). rewrite <- app_assoc, newlines_app.
        cbn [newlines]. rewrite Hb. split_and!; [done|done|lia].
      * rewrite newlines_app. cbn [newlines]. rewrite Hb. lia.
  - specialize (IH seen Hs). destruct (Local.scan_chunk _ _ _).
    + destruct IH as (p & t & -> & Hp & Ht). exists p, (t ++ [b]). rewrite <- app_assoc, newlines_app.
      cbn [newlines]. rewrite Hb. split_and!; [done|done|lia].
    + rewrite newlines_app. cbn [newlines]. rewrite Hb. lia.
Qed.

Lemma chunk_split {A} (content : list A) a b :
  (a <= b)%nat → drop a content = take (b - a) (drop a content) ++ drop b content.
Proof.
  intros H. rewrite <- (take_drop (b - a) (drop a content)) at 1. rewrite drop_drop.
  by replace (a + (b - a))%nat with b by lia.
Qed.

Lemma scan_back_spec name content fuel target pos :
  (pos = 0 ∨ (N.to_nat (pos / READ_CHUNK_BYTES) < fuel)%nat) → pos <= len content → len content <= U64_MAX →
  N.of_nat (newlines (drop (N.to_nat pos) content)) < target →
  ∃ start,
    Local.scan_back name (static content) fuel target
      (N.of_nat (newlines (drop (N.to_nat pos) content))) pos = Ok start ∧
    (start = 0 ∧ N.of_nat (newlines content) < target ∨
     ∃ p t, content = p ++ LF :: t ∧ start = len p + 1 ∧ 1 + N.of_nat (newlines t) = target).
Proof.
  revert pos. induction fuel as [|fuel IH]; intros pos Hf Hl Hu Hs; cbn [Local.scan_back].
  { destruct Hf as [->|Hf]; [|by apply Nat.nlt_0_r in Hf]. exists 0. cbn. auto. }
  destruct (N.eqb_spec pos 0) as [->|Hp]; [exists 0; auto|].
  set (rl := N.min pos READ_CHUNK_BYTES). cbn [static Local.f_read Local.io map_err mbind result_bind].
  assert (Hrl : rl <= pos) by (unfold rl; lia).
  set (chunk := read_capped (drop (N.to_nat (pos - rl)) content) rl).
  assert (Hc : drop (N.to_nat (pos - rl)) content = chunk ++ drop (N.to_nat pos) content).
  { unfold chunk, read_capped. rewrite (chunk_split content (N.to_nat (pos - rl)) (N.to_nat pos)) at 1 by lia.
    by replace (N.to_nat (N.min rl U64_MAX)) with (N.to_nat pos - N.to_nat (pos - rl))%nat by lia. }
  pose proof (scan_chunk_spec target _ chunk Hs) as H.
  destruct (Local.scan_chunk _ _ _) as [i|seen'].
  - destruct H as (p & t & E & Hi & Ht). exists (pos - rl + N.of_nat i + 1). split; [done|right].
    exists (take (N.to_nat (pos - rl)) content ++ p), (t ++ drop (N.to_nat pos) content).
    rewrite newlines_app. split_and!.
    + rewrite <- (take_drop (N.to_nat (pos - rl)) content) at 1. rewrite Hc, E. by rewrite <- !app_assoc.
    + unfold len in *. rewrite length_app, length_take. lia.
    + lia.
  - destruct H as [-> H]. rewrite <- Nat2N.inj_add, Nat.add_comm, <- newlines_app, <- Hc.
    apply IH; [|lia|done|rewrite Hc, newlines_app; lia].
    unfold rl, READ_CHUNK_BYTES in *. destruct (N.min_spec pos (64 * 1024)) as [[? ->]|[? ->]]; [left; lia|right].
    destruct Hf as [?|Hf]; [done|]. assert ((pos - 64 * 1024) / (64 * 1024) < pos / (64 * 1024)); [|lia]. div_lia.
Qed.

(** whatever the file answers, the scan ends before its fuel does: it returns
    an offset or the error of a read *)
Lemma scan_back_answers name file fuel target seen pos :
  (pos = 0 ∨ (N.to_nat (pos / READ_CHUNK_BYTES) < fuel)%nat) →
  (∃ start, Local.scan_back name file fuel target seen pos = Ok start) ∨
  ∃ at_ n err, Local.f_read file at_ n = Err err ∧
    Local.scan_back name file fuel target seen pos = Err (source_error name err None).
Proof.
  revert seen pos. induction fuel as [|fuel IH]; intros seen pos Hf; cbn [Local.scan_back].
  { destruct Hf as [->|Hf]; [cbn; eauto|by apply Nat.nlt_0_r in Hf]. }
  destruct (N.eqb_spec pos 0) as [->|Hp]; [eauto|].
  set (rl := N.min pos READ_CHUNK_BYTES).
  destruct (Local.f_read file (pos - rl) rl) as [chunk|err] eqn:E; [|right; exists (pos - rl), rl, err];
    [cbn [Local.io map_err mbind result_bind]|done].
  destruct (Local.scan_chunk _ _ _) as [i|seen']; [eauto|]. apply IH.
  unfold rl, READ_CHUNK_BYTES in *. destruct (N.min_spec pos (64 * 1024)) as [[? ->]|[? ->]]; [left; lia|right].
  destruct Hf as [?|Hf]; [done|]. assert ((pos - 64 * 1024) / (64 * 1024) < pos / (64 * 1024)); [|lia]. div_lia.
Qed.

Lemma open_line_last s : s ≠ [] →
  open_line s = negb (bool_decide (drop (length s - 1) s = [LF])).
Proof.
  intros Hs. destruct (exists_last Hs) as (p & b & ->). unfold open_line. rewrite last_snoc, length_app.
  cbn [length]. rewrite drop_app_ge by lia. replace (_ + _ - _ - _)%nat with 0%nat by lia. cbn [drop].
  f_equal. destruct (beq b LF) eqn:E.
  - apply beq_true in E as ->. by rewrite bool_decide_eq_true_2.
  - apply beq_false in E. rewrite bool_decide_eq_false_2; [done|]. congruence.
Qed.

Lemma open_line_app s t : t ≠ [] → open_line (s ++ t) = open_line t.
Proof.
  intros Ht. destruct (exists_last Ht) as (p & b & ->). unfold open_line.
  by rewrite app_assoc, !last_snoc.
Qed.

(** the offset is where [tail -n] would start *)
Lemma tail_start_offset_spec name content lines :
  content ≠ [] → len content <= U64_MAX → 0 < lines <= HARD_CAP_LINES →
  ∃ start, Local.tail_start_offset name (static content) (len content) lines = Ok start ∧
    drop (N.to_nat start) content = tail_n lines content.
Proof.
  intros Hc Hu Hl. unfold Local.tail_start_offset, HARD_CAP_LINES in *.
  cbn [static Local.f_read Local.io map_err mbind result_bind].
  assert (Hlen : (0 < length content)%nat) by (destruct content; [done|cbn; lia]).
  assert (Hlast : read_capped (drop (N.to_nat (len content - 1)) content) 1 = drop (length content - 1) content).
  { unfold read_capped, len. replace (N.to_nat (N.of_nat _ - 1)) with (length content - 1)%nat by lia.
    change (N.to_nat (N.min 1 U64_MAX)) with 1%nat. apply take_ge. rewrite length_drop. lia. }
  rewrite Hlast. pose proof (open_line_last content Hc) as Ho.
  set (target := saturating_add _ _).
  assert (Ht : target = lines + (if open_line content then 0 else 1)).
  { unfold target, saturating_add, USIZE_MAX, U64_MAX. rewrite Ho. destruct (bool_decide _); cbn; lia. }
  assert (Hd : drop (N.to_nat (len content)) content = []) by (apply drop_ge; unfold len; lia).
  destruct (scan_back_spec name content (S (N.to_nat (len content / READ_CHUNK_BYTES))) target (len content))
    as (start & Hs & Hcase); [right; lia|lia|done|rewrite Hd; cbn; destruct (open_line content); lia|].
  rewrite Hd in Hs. exists start. split; [exact Hs|].
  destruct Hcase as [[-> Hn]|(p & t & E & -> & Hn)].
  - cbn [N.to_nat drop]. rewrite drop_0. symmetry. apply tail_n_all. revert Ht. destruct (open_line content); lia.
  - assert (Hcut : tail_n lines ((p ++ [LF]) ++ t) = t).
    { apply tail_n_cut; [unfold open_line; by rewrite last_snoc, (proj2 (beq_true LF LF) eq_refl)|].
      destruct t as [|b t].
      - rewrite E in Ht. unfold open_line in Ht |- *. rewrite last_snoc in Ht.
        rewrite (proj2 (beq_true LF LF) eq_refl) in Ht. cbn in *. lia.
      - rewrite E in Ht. change (p ++ LF :: b :: t) with (p ++ [LF] ++ (b :: t)) in Ht.
        rewrite app_assoc, open_line_app in Ht by done. revert Ht. destruct (open_line (b :: t)); lia. }
    rewrite <- app_assoc in Hcut. cbn [app] in Hcut. rewrite E, Hcut. unfold len.
    rewrite drop_app_ge by lia. by replace (N.to_nat (N.of_nat (length p) + 1) - length p)%nat with 1%nat by lia.
Qed.

(** ** Local tails *)
Lemma tail_n_zero s : tail_n 0 s = [].
Proof. unfold tail_n. by rewrite drop_ge by lia. Qed.

Lemma len_tail_n n s : len (tail_n n s) <= len s.
Proof.
  unfold tail_n, len. set (k := (_ - _)%nat).
  rewrite <- (concat_file_lines s) at 2. rewrite <- (take_drop k (file_lines s)) at 2.
  rewrite concat_app, length_app. lia.
Qed.

Lemma read_tail_bytes_spec s content lines :
  len content <= U64_MAX → lines <= HARD_CAP_LINES →
  Local.read_tail_bytes s (Ok (static content)) lines =
  Ok (read_capped (tail_n lines content) (saturating_add (Local.max_total_bytes s) 1)).
Proof.
  intros Hu Hl. unfold Local.read_tail_bytes, read_capped.
  destruct (N.eqb_spec lines 0) as [->|Hz]; [by rewrite tail_n_zero, take_nil|].
  cbn [Local.io map_err mbind result_bind]. unfold Local.read_opened.
  cbn [static Local.f_len Local.io map_err mbind result_bind].
  destruct (N.eqb_spec (len content) 0) as [E|E].
  { destruct content; [|unfold len in E; cbn in E; lia]. unfold tail_n. cbn [file_lines]. rewrite drop_nil. cbn [concat]. by rewrite take_nil. }
  destruct (tail_start_offset_spec (Local.profile_name s) content lines) as (start & -> & Hd);
    [by intros ->|done|lia|].
  cbn [mbind result_bind Local.f_read static Local.io map_err]. by rewrite Hd.
Qed.

(** what the lines of a text come to under the line cap *)
Lemma capped_lines raw cap :
  split_and_cap_lines_with_truncation raw cap =
  ((fun l => str_of (from_utf8_lossy (if cap <? len l then take (N.to_nat cap) l else l))) <$> raw_lines raw,
   existsb (fun l => cap <? len l) (raw_lines raw)).
Proof.
  unfold split_and_cap_lines_with_truncation. f_equal. apply list_fmap_ext. intros _ l _. do 2 f_equal.
  destruct (N.ltb_spec cap (len l)); [by rewrite N.min_r by lia|].
  rewrite N.min_l by done. unfold len. by rewrite Nat2N.id, take_ge.
Qed.

Lemma existsb_non_empty (p : bytes → bool) ls :
  p [] = false → existsb p (filter (fun l => l ≠ []) ls) = existsb p ls.
Proof.
  intros Hp. induction ls as [|l ls IH]; [done|]. destruct l as [|b l].
  - rewrite filter_cons_False by naive_solver. cbn [existsb]. by rewrite Hp.
  - rewrite filter_cons_True by done. cbn [existsb]. by rewrite IH.
Qed.

(** C33. A local tail is [tail -n]: for a file that does not change while it is
    read, the backwards scan in chunks finds the start of the last lines of
    the file, at most [HARD_CAP_LINES] of them, and what is shown of them is
    cut at the byte cap from their start.  The answer is the lines of that
    text in order, the empty ones left out and each of the others cut at its
    own line cap, with one truncation reason for each cap that bit; if the
    text is not UTF-8, the answer is the decoding error. *)
Theorem local_tail_shows_last_lines s content lines :
  len content <= U64_MAX → Local.max_total_bytes s <= USIZE_MAX →
  let window := tail_n (N.min lines HARD_CAP_LINES) content in
  let shown := take (N.to_nat (Local.max_total_bytes s)) window in
  let cap := Local.max_line_bytes s in
  ∃ ls, joined LF ls = shown ∧ Forall (fun l => LF ∉ l) ls ∧
  Local.tail_inner s (Ok (static content)) lines =
  match utf8_error shown with
  | Some e => Err (ConvertError (Decode "local_log" (utf8_error_display e)))
  | None =>
    Ok (Local.mkLocalLogOutput
          ((fun l => str_of (from_utf8_lossy (if cap <? len l then take (N.to_nat cap) l else l))) <$>
             filter (fun l => l ≠ []) ls)
          ((if Local.max_total_bytes s <? len window then [TrBytes] else []) ++
           (if existsb (fun l => cap <? len l) ls then [TrLineBytes] else []))
          (len shown) None)
  end.
Proof.
  intros Hu Hm window shown cap. exists (split LF shown). split_and!; [apply pieces_joined|apply split_pieces|].
  unfold Local.tail_inner. rewrite read_tail_bytes_spec by lia.
  cbn [mbind result_bind]. fold window.
  assert (Hw : len window <= U64_MAX) by (etransitivity; [apply len_tail_n|done]).
  set (raw := read_capped window _).
  assert (Hraw : (Local.max_total_bytes s <? len raw) = (Local.max_total_bytes s <? len window) ∧
                 (if Local.max_total_bytes s <? len raw
                  then take (N.to_nat (Local.max_total_bytes s)) raw else raw) = shown).
  { unfold raw, shown, read_capped, saturating_add, USIZE_MAX in *. clearbody window.
    unfold len in *. rewrite length_take, take_take. unfold U64_MAX in *.
    destruct (N.ltb_spec (Local.max_total_bytes s) (N.of_nat (length window))).
    - match goal with |- context [?a <? ?b] => destruct (N.ltb_spec a b) end; [|lia].
      split; [done|]. f_equal. lia.
    - match goal with |- context [?a <? ?b] => destruct (N.ltb_spec a b) end; [lia|].
      split; [done|]. by rewrite !take_ge by lia. }
  destruct Hraw as [-> ->]. unfold Local.validate_utf8. destruct (utf8_error shown); [done|].
  rewrite capped_lines. unfold raw_lines. fold cap. cbn [ok_or mbind result_bind].
  by rewrite existsb_non_empty by by rewrite len_nil, N.ltb_ge; apply N.le_0_l.
Qed.

(** The byte cap is not aligned to characters: a file of valid text is refused
    as undecodable when the cap falls inside a character. *)
Lemma cut_inside_a_character_is_an_error :
  let s := Local.mkLocalLogSource "app" (str_bytes "/var/log/app.log") 1024 2 (3 * NANOS)
             (cache_new GREP_WINDOW_CACHE_TTL) false in
  let content := to_utf8 [97; 233; 10] in
  utf8_valid content = true ∧
  Local.tail_inner s (Ok (static content)) 10 =
  Err (ConvertError (Decode "local_log" "incomplete utf-8 byte sequence from index 1")).
Proof. split; vm_compute; reflexivity. Qed.

(** ** Greps *)
Section Greps.
Context `{RegexLib}.

Lemma filter_loop_spec keep limit matched kept ls :
  filter_loop keep limit matched kept ls =
  (matched + len (filter (fun l => keep l = true) ls),
   kept ++ take (N.to_nat limit - length kept) (filter (fun l => keep l = true) ls)).
Proof.
  revert matched kept. induction ls as [|l ls IH]; intros matched kept; cbn [filter_loop].
  - change (filter _ []) with (@nil string). by rewrite take_nil, app_nil_r, len_nil, N.add_0_r.
  - destruct (keep l) eqn:E.
    + rewrite filter_cons_True, IH, len_cons by done. f_equal; [lia|].
      unfold len. destruct (N.ltb_spec (N.of_nat (length kept)) limit).
      * rewrite <- app_assoc, length_app. cbn [length app].
        replace (N.to_nat limit - length kept)%nat with (S (N.to_nat limit - (length kept + 1)))%nat by lia. done.
      * by replace (N.to_nat limit - length kept)%nat with 0%nat by lia.
    + rewrite IH, filter_cons_False by congruence. done.
Qed.

(** what a grep says of a window: lines shown, their number, and what is left out *)
Definition Filtered (re : Regex) (level_re : option Regex) (limit : N)
    (window : list string) (cut : list TruncatedAt)
    (shown : list string) (truncated_at : list TruncatedAt) (searched matched returned : N) (status : string) : Prop :=
  let hits := filter (fun l => matches re level_re l = true) window in
  shown = take (N.to_nat limit) hits ∧
  searched = len window ∧ matched = len hits ∧ returned = len shown ∧
  (∀ reason, reason ∈ truncated_at ↔ reason ∈ cut ∨ reason = TrRows ∧ limit < len hits) ∧
  (truncated_at = [] → (status = "no_matches" ∧ hits = [] ∨ status = "matches" ∧ hits ≠ [] ∧ shown = hits)%string) ∧
  (truncated_at ≠ [] → (status = "no_matches_truncated" ∧ hits = [] ∨ status = "truncated" ∧ hits ≠ [])%string).

Lemma elem_of_push cut reason r : reason ∈ push_truncation cut r ↔ reason ∈ cut ∨ reason = r.
Proof. unfold push_truncation. destruct (decide _); set_solver. Qed.

Lemma filtered re level_re limit window cut :
  let '(matched, kept) := filter_loop (matches re level_re) limit 0 [] window in
  let truncated_at := if len kept <? matched then push_truncation cut TrRows else cut in
  Filtered re level_re limit window cut kept truncated_at (len window) matched (len kept)
    (grep_status matched truncated_at).
Proof.
  rewrite filter_loop_spec. cbn [app length]. rewrite N.add_0_l, Nat.sub_0_r. unfold Filtered.
  set (hits := filter _ window). set (kept := take _ hits). cbv zeta.
  assert (Hlt : len kept < len hits ↔ limit < len hits) by (unfold kept, len; rewrite length_take; lia).
  set (truncated := if len kept <? len hits then push_truncation cut TrRows else cut).
  assert (Ht : ∀ reason, reason ∈ truncated ↔ reason ∈ cut ∨ reason = TrRows ∧ limit < len hits).
  { intros reason. unfold truncated. destruct (N.ltb_spec (len kept) (len hits)).
    - rewrite elem_of_push. naive_solver.
    - split; [auto|]. intros [?|[_ ?%Hlt]]; [done|lia]. }
  assert (Hz : len hits =? 0 = is_nil hits) by (by destruct hits).
  unfold grep_status, is_empty. rewrite Hz. split_and!; try done.
  - intros E. assert (Hall : kept = hits).
    { unfold kept. apply take_ge. destruct (decide (limit < len hits)) as [Hl|]; [|unfold len in *; lia].
      assert (TrRows ∈ truncated) as Hin by (apply Ht; auto). rewrite E in Hin. set_solver. }
    rewrite E. cbn [is_nil]. clearbody hits kept. destruct hits; [by left|by right].
  - intros E. clearbody truncated. destruct truncated; [done|]. cbn [is_nil]. clearbody hits.
    destruct hits; [by left|by right].
Qed.
End Greps.

(** C32. A grep shows the matches: over ssh and for a local file, a successful
    regex grep filtered one window, served by the cache or fetched by this
    call; it shows the first [limit] lines that match pattern and level, in
    their order; its metadata counts what was searched, matched and returned;
    it reports [Rows] exactly when matches were left out, besides the
    window's own reasons, and its status says whether anything matched and
    whether anything could be missing. *)
Theorem grep_shows_matches `{RegexLib} :
  (∀ s pattern level limit now exec at_ o s',
    Ssh.grep s pattern level limit now exec at_ = (Ok o, s') →
    ∃ re level_re window m,
      regex_new pattern = Some re ∧ level_regex (Ssh.profile_name s) (non_empty_level level) = Ok level_re ∧
      (fresh (Ssh.grep_window_cache s) (Ssh.grep_window_cache_key s BOUNDED_TAIL_FOR_GREP) now = Some window ∨
       Ssh.tail_for_operation s BOUNDED_TAIL_FOR_GREP "log_grep" exec = Ok window) ∧
      Ssh.metadata o = Some m ∧
      Filtered re level_re limit (Ssh.lines window) (Ssh.truncated_at window) (Ssh.lines o) (Ssh.truncated_at o)
        (Ssh.searched_lines m) (Ssh.matched_lines m) (Ssh.returned_lines m) (Ssh.status m)) ∧
  (∀ s pattern level limit now open at_ o s',
    Local.grep s pattern level limit now open at_ = (Ok o, s') →
    ∃ re level_re window m,
      regex_new pattern = Some re ∧ level_regex (Local.profile_name s) (non_empty_level level) = Ok level_re ∧
      (fresh (Local.grep_window_cache s) (Local.grep_window_cache_key s BOUNDED_TAIL_FOR_GREP) now = Some window ∨
       Local.tail_for_operation s "log_grep" open BOUNDED_TAIL_FOR_GREP = Ok window) ∧
      Local.metadata o = Some m ∧
      Filtered re level_re limit (Local.lines window) (Local.truncated_at window) (Local.lines o) (Local.truncated_at o)
        (Local.searched_lines m) (Local.matched_lines m) (Local.returned_lines m) (Local.status m)).
Proof.
  split; intros s pattern level limit now ? at_ o s' Hg.
  - unfold Ssh.grep, Ssh.grep_with_tail_fetcher in Hg.
    destruct (regex_new pattern) as [re|] eqn:Hre; [|done]. cbn [ok_or] in Hg.
    destruct (level_regex _ _) as [level_re|] eqn:Hl; [|done].
    destruct (get_or_fetch _ _ _ _) as [[window|] c] eqn:Hf; [|done]. injection Hg as <- <-.
    pose proof (filtered re level_re limit (Ssh.lines window) (Ssh.truncated_at window)) as Hw.
    unfold Ssh.filter_grep_output. destruct (filter_loop _ _ _ _ _) as [matched kept].
    exists re, level_re, window. eexists. split_and!; [done|done| |reflexivity|exact Hw].
    unfold get_or_fetch in Hf. destruct (fresh _ _ _); [left; congruence|right].
    cbn [fetched Ssh.grep_fetch] in Hf. destruct (Ssh.tail_for_operation _ _ _ _); congruence.
  - unfold Local.grep, Local.grep_with_tail_fetcher in Hg.
    destruct (regex_new pattern) as [re|] eqn:Hre; [|done]. cbn [ok_or] in Hg.
    destruct (level_regex _ _) as [level_re|] eqn:Hl; [|done].
    destruct (Local.cached _ _ _ _ _) as [[window|] c] eqn:Hf; [|done]. injection Hg as <- <-.
    pose proof (filtered re level_re limit (Local.lines window) (Local.truncated_at window)) as Hw.
    unfold Local.filter_grep_output. destruct (filter_loop _ _ _ _ _) as [matched kept].
    exists re, level_re, window. eexists. split_and!; [done|done| |reflexivity|exact Hw].
    unfold Local.cached, Local.guarded in Hf. destruct (Local.poisoned s); [done|].
    cbn [get_or_fetch_refresh negb] in Hf. unfold get_or_fetch in Hf.
    destruct (fresh _ _ _); [left; cbn in Hf; congruence|right].
    cbn [fetched Local.grep_fetch] in Hf. destruct (Local.tail_for_operation _ _ _ _); cbn in Hf; congruence.
Qed.

(** ** The window cache *)
Section CacheFacts.
Context {K O : Type} `{Countable K}.

(** the stores of any interleaving of callers, in the order of the lock *)
Definition stored (c : WindowCache K O) (events : list (K * O * N)) : WindowCache K O :=
  fold_left (fun c '(key, o, at_) => store c key o at_) events c.

(** [o] is what was last stored for the key, no longer ago than the ttl *)
Definition Latest (ttl : N) (events : list (K * O * N)) (key : K) (now : N) (o : O) : Prop :=
  ∃ pre at_ post, events = pre ++ (key, o, at_) :: post ∧
    Forall (fun e => fst (fst e) ≠ key) post ∧ now - at_ <= ttl.

Lemma stored_snoc c events key o at_ :
  stored c (events ++ [(key, o, at_)]) = store (stored c events) key o at_.
Proof. unfold stored. by rewrite fold_left_app. Qed.

Lemma stored_ttl c events : ttl (stored c events) = ttl c.
Proof.
  induction events as [|[[key o] at_] events IH] using rev_ind; [done|]. by rewrite stored_snoc.
Qed.

Lemma fresh_latest t events key now o :
  fresh (stored (cache_new t) events) key now = Some o ↔ Latest t events key now o.
Proof.
  induction events as [|[[key' o'] at_] events IH] using rev_ind.
  - unfold fresh, Latest. cbn. rewrite lookup_empty. split; [done|]. intros (pre & ? & ? & E & _). by destruct pre.
  - rewrite stored_snoc. unfold fresh, store. cbn [entries ttl]. rewrite stored_ttl. cbn [ttl cache_new].
    destruct (decide (key' = key)) as [->|Hk].
    + rewrite lookup_insert_eq. cbn [minted_at output]. split.
      * destruct (N.leb_spec (now - at_) t); [|done]. intros [= ->]. exists events, at_, []. auto.
      * intros (pre & at' & post & E & Hp & Ha). destruct post as [|e post] using rev_ind.
        { apply app_inj_tail in E as [-> [= -> ->]]. by apply N.leb_le in Ha as ->. }
        rewrite app_comm_cons, app_assoc in E. apply app_inj_tail in E as [_ <-].
        apply Forall_app in Hp as [_ Hp]. by inversion Hp.
    + rewrite lookup_insert_ne by done. unfold fresh in IH. rewrite stored_ttl in IH. cbn [ttl cache_new] in IH.
      rewrite IH. split; intros (pre & at' & post & E & Hp & Ha).
      * exists pre, at', (post ++ [(key', o', at_)]). rewrite E, <- app_assoc. split_and!; [done| |done].
        apply Forall_app. auto.
      * destruct post as [|e post _] using rev_ind.
        { apply app_inj_tail in E as [_ [= ? ? ?]]. done. }
        rewrite app_comm_cons, app_assoc in E. apply app_inj_tail in E as [-> _].
        apply Forall_app in Hp as [Hp _]. exists pre, at', post. auto.
Qed.

(** The window cache serves nothing stale or foreign: after any stores by
    any interleaving of callers, a request is answered without a fetch exactly
    when it does not ask for a refresh and the last window stored for its own
    key is within the ttl, and then with that window; otherwise it answers
    what it fetched, which becomes the last window of its key, while a failed
    fetch leaves the cache as it was. *)
Theorem cache_serves_latest t events key refresh now fetch :
  let c := stored (cache_new t) events in
  let '(r, c') := get_or_fetch_refresh c key refresh now fetch in
  (∃ o, refresh = false ∧ Latest t events key now o ∧ r = Ok o ∧ c' = c) ∨
  ((refresh = true ∨ ∀ o, ¬ Latest t events key now o) ∧ r = fetched fetch ∧
   c' = match fetched fetch with
        | Ok o => stored (cache_new t) (events ++ [(key, o, fetched_at fetch)])
        | Err _ => c
        end).
Proof.
  cbv zeta. unfold get_or_fetch_refresh, get_or_fetch.
  assert (Hs : ∀ o, store (stored (cache_new t) events) key o (fetched_at fetch) =
                    stored (cache_new t) (events ++ [(key, o, fetched_at fetch)]))
    by (intros o; by rewrite stored_snoc).
  destruct refresh; cbn [negb].
  - destruct (fetched fetch); right; rewrite ?Hs; auto.
  - destruct (fresh (stored (cache_new t) events) key now) as [o|] eqn:E.
    + left. exists o. apply fresh_latest in E. auto.
    + assert (Hno : ∀ o, ¬ Latest t events key now o) by (intros o Ho%fresh_latest; congruence).
      destruct (fetched fetch); right; rewrite ?Hs; auto.
Qed.
End CacheFacts.

(** ** The ssh command line *)

(** the words a POSIX shell reads in a text of bytes it gives no meaning to
    but the space *)
Definition shell_words (s : bytes) : option (list bytes) :=
  if forallb (fun b => path_byte b || beq b " ") s then Some (filter (fun w => w ≠ []) (split " " s)) else None.
(** ssh passes its remaining arguments, joined by spaces, to the remote shell *)
Fixpoint remote_command (words : list bytes) : bytes :=
  match words with
  | [] => []
  | [w] => w
  | w :: words => w ++ " "%char :: remote_command words
  end.

Definition word (w : bytes) : Prop := w ≠ [] ∧ Forall (fun b => path_byte b = true) w.

Lemma split_word c w : Forall (fun b => beq b c = false) w → split c w = [w].
Proof. induction 1 as [|b w Hb _ IH]; [done|]. cbn [split]. by rewrite Hb, IH. Qed.

Lemma split_word_app c w s : Forall (fun b => beq b c = false) w → split c (w ++ c :: s) = w :: split c s.
Proof.
  induction 1 as [|b w Hb _ IH]; cbn [app split].
  - by rewrite (proj2 (beq_true c c) eq_refl).
  - by rewrite Hb, IH.
Qed.

Lemma word_no_space w : word w → Forall (fun b => beq b " " = false) w.
Proof.
  intros [_ Hw]. eapply Forall_impl; [exact Hw|]. intros b Hb. cbv beta in Hb. apply beq_false. intros ->. done.
Qed.

Lemma shell_reads_words words :
  Forall word words → words ≠ [] → shell_words (remote_command words) = Some words.
Proof.
  intros Hw Hn. unfold shell_words. rewrite (proj2 (forallb_Forall _ _)).
  - f_equal. induction Hw as [|w words Hw Hws IH]; [done|]. destruct words as [|w' words].
    + cbn [remote_command]. rewrite split_word by by apply word_no_space.
      by rewrite filter_cons_True by apply Hw.
    + change (remote_command (w :: w' :: words)) with (w ++ " "%char :: remote_command (w' :: words)).
      rewrite split_word_app by by apply word_no_space. rewrite filter_cons_True by apply Hw.
      by rewrite IH.
  - clear Hn. induction Hw as [|w words [_ Hw] Hws IH]; [constructor|].
    assert (Hw' : Forall (fun b => path_byte b || beq b " " = true) w)
      by (eapply Forall_impl; [exact Hw|]; intros b Hb; cbv beta in *; by rewrite Hb).
    destruct words as [|w' words]; [done|].
    change (remote_command (w :: w' :: words)) with (w ++ " "%char :: remote_command (w' :: words)).
    apply Forall_app. split; [done|]. by constructor.
Qed.

Lemma digits_word n : word (print_u64 n).
Proof.
  pose proof (parse_digits_print n) as H. unfold parse_digits in H.
  destruct (negb (len (print_u64 n) =? 0) && forallb digit (print_u64 n)) eqn:E; [|done].
  apply andb_true_iff in E as [En Ed]. split; [by intros E; rewrite E in En|].
  apply forallb_Forall in Ed. eapply Forall_impl; [exact Ed|].
  intros b Hb. unfold path_byte, host_byte, is_ascii_alphanumeric. cbv beta in Hb. unfold digit in Hb.
  by rewrite Hb, orb_true_r.
Qed.

(** The ssh command is what it looks like: for every source that was
    accepted, ssh reads the host as its destination, never as an option, and
    the remote shell reads the rest as the plain words tail -n N -- path, with
    N at most [HARD_CAP_LINES] and the path as configured, free of ".."
    segments. *)
Theorem ssh_command_is_plain name host path caps s lines :
  Ssh.new name host path caps = Ok s →
  ∃ command,
    Ssh.source_argv s lines = ["ssh"; "-o"; "BatchMode=yes"; "-o"; "ConnectTimeout=10"; "--"; host]%string ++ command ∧
    starts_with_dash (str_bytes host) = false ∧ str_bytes host ≠ [] ∧
    Forall (fun b => host_byte b = true ∨ b = "@"%char) (str_bytes host) ∧
    shell_words (remote_command (str_bytes <$> command)) =
      Some (str_bytes <$> ["tail"; "-n"; num (N.min lines HARD_CAP_LINES); "--"; path]%string) ∧
    str_bytes ".." ∉ split "/" (str_bytes path).
Proof.
  unfold Ssh.new. intros H. open_bind H as h Hh. open_bind H as p Hp. injection H as <-.
  apply map_err_ok in Hh, Hp. unfold Ssh.source_argv, Ssh.tail_argv. cbn [Ssh.s_host Ssh.s_path]. rewrite Hh, Hp.
  apply login_host_safe in Hh as (-> & Hn & Hd & Hs). apply path_safe in Hp as (-> & Hpn & Hps & Hseg).
  cbn [default from_option id]. eexists. split; [reflexivity|]. split_and!; [done..| |done].
  cbn [fmap list_fmap]. apply shell_reads_words; [|done].
  assert (Hplain : ∀ w, forallb path_byte (str_bytes w) = true → str_bytes w ≠ [] → word (str_bytes w)).
  { intros w Hw ?. split; [done|]. by apply forallb_Forall. }
  assert (Hnum : word (str_bytes (num (N.min lines HARD_CAP_LINES))))
    by (unfold num; rewrite bytes_of_str; apply digits_word).
  repeat constructor; try (by apply Hplain); try done; apply Hnum.
Qed.

(** ** Concrete runs *)
Definition sample_caps : Ssh.SshLogCaps := Ssh.mkSshLogCaps 1024 4096 (10 * NANOS).
Definition sample_ssh : Ssh.SshLogSource :=
  Ssh.mkSshLogSource "app" "deploy@app01" "/var/log/app.log" 1024 4096 (10 * NANOS) (cache_new GREP_WINDOW_CACHE_TTL).
Definition sample_local : Local.LocalLogSource :=
  Local.mkLocalLogSource "app" (str_bytes "/var/log/app.log") 8 12 (10 * NANOS) (cache_new GREP_WINDOW_CACHE_TTL) false.
(** one whose line cap is shorter than a line of the log *)
Definition sample_narrow : Local.LocalLogSource :=
  Local.mkLocalLogSource "app" (str_bytes "/var/log/app.log") 5 12 (10 * NANOS) (cache_new GREP_WINDOW_CACHE_TTL) false.
Definition sample_log : bytes := str_bytes "ok" ++ LF :: str_bytes "error 1" ++ LF :: str_bytes "error 2" ++ [LF].
(** a regex engine of literal patterns *)
Definition literal_regex : RegexLib :=
  {| Regex := string; regex_new := Some; regex_error := fun _ => ""%string; is_match := fun re l => Ssh.contains (str_bytes re) (str_bytes l);
     regex_escape := fun s => s |}.
Definition sample_exec (argv : list string) : Ssh.Run := Ssh.Exited (Some 0%Z) sample_log [].

Lemma ssh_command_is_plain_witness :
  Ssh.new "app" "deploy@app01" "/var/log/app.log" sample_caps = Ok sample_ssh ∧
  ∃ command, Ssh.source_argv sample_ssh 20000 =
    ["ssh"; "-o"; "BatchMode=yes"; "-o"; "ConnectTimeout=10"; "--"; "deploy@app01"]%string ++ command.
Proof.
  assert (H : Ssh.new "app" "deploy@app01" "/var/log/app.log" sample_caps = Ok sample_ssh) by (vm_compute; reflexivity).
  split; [exact H|].
  destruct (ssh_command_is_plain "app" "deploy@app01" "/var/log/app.log" sample_caps sample_ssh 20000 H)
    as (command & Hc & _).
  exists command. exact Hc.
Defined.

Lemma local_tail_shows_last_lines_witness :
  tail_n 2 sample_log = str_bytes "error 1" ++ LF :: str_bytes "error 2" ++ [LF] ∧
  Local.tail_inner sample_narrow (Ok (static sample_log)) 2 =
    Ok (Local.mkLocalLogOutput ["error"; "erro"]%string [TrBytes; TrLineBytes] 12 None) ∧
  ∃ ls, joined LF ls = str_bytes "error 1" ++ LF :: str_bytes "erro" ∧ Forall (fun l => LF ∉ l) ls.
Proof.
  split; [vm_compute; reflexivity|]. split; [vm_compute; reflexivity|].
  destruct (local_tail_shows_last_lines sample_narrow sample_log 2) as (ls & Hls & Hlf & _);
    [vm_compute; discriminate..|]. exists ls. split; [exact Hls|exact Hlf].
Defined.

Lemma grep_shows_matches_witness :
  let '(r, s') := @Ssh.grep literal_regex sample_ssh "error" None 1 0 sample_exec 5 in
  ∃ o m, r = Ok o ∧ Ssh.metadata o = Some m ∧ Ssh.lines o = ["error 1"%string] ∧ Ssh.matched_lines m = 2.
Proof.
  destruct (@Ssh.grep literal_regex sample_ssh "error" None 1 0 sample_exec 5) as [r s'] eqn:E.
  destruct r as [o|e]; [|vm_compute in E; discriminate E].
  destruct (proj1 (@grep_shows_matches literal_regex) _ _ _ _ _ _ _ _ _ E)
    as (re & level_re & window & m & _ & _ & _ & Hm & _).
  exists o, m. vm_compute in E. injection E as <- <-. injection Hm as <-. split_and!; reflexivity.
Defined.
