(* ===== verification/Output.v ===== *)
(** * Clean output, and the JSON values it is made of

    [CleanOutput], [ResultSummary] and [push_truncation] of
    src/src/session/mod.rs, with [serde_json::Map] as entries in key order:
    the maps are B-trees.  The text form of a JSON value is [serde_json]'s and
    is a parameter. *)

From S2P Require Import Prelude Utf8 Str Errors LensValue LogSource.

Abbreviation json_map := (list (string * json)).

Class JsonText := {
  (** [to_string] and [to_vec], and [from_str::<Value>] *)
  json_to_string : json → string;
  json_from_str : string → option json;
}.

(** [Map::insert] *)
Fixpoint map_insert (k : string) (v : json) (m : json_map) : json_map :=
  match m with
  | [] => [(k, v)]
  | (k', v') :: m' =>
    match String.compare k k' with
    | Lt => (k, v) :: m
    | Eq => (k, v) :: m'
    | Gt => (k', v') :: map_insert k v m'
    end
  end.
(** [Map::get] *)
Fixpoint map_get (k : string) (m : json_map) : option json :=
  match m with
  | [] => None
  | (k', v) :: m => if String.eqb k k' then Some v else map_get k m
  end.
(** the [json!] of an object *)
Definition json_object (entries : json_map) : json :=
  JObject (fold_left (fun m '(k, v) => map_insert k v m) entries []).
(** [Value::get] of a key *)
Definition json_get (v : json) (k : string) : option json :=
  match v with JObject m => map_get k m | _ => None end.
Definition as_str (v : json) : option string := match v with JString s => Some s | _ => None end.
Definition as_u64 (v : json) : option N := match v with JNumber n => parse_unsigned U64_MAX (str_bytes n) | _ => None end.
Definition as_array (v : json) : option (list json) := match v with JArray l => Some l | _ => None end.

(** [to_value] of an unsigned integer, of an optional text, of reasons *)
Definition json_number (n : N) : json := JNumber (num n).
Definition json_option (s : option string) : json := match s with Some s => JString s | None => JNull end.
Definition json_reasons (l : list TruncatedAt) : json := JArray (JString ∘ truncated_debug <$> l).

Inductive CleanOutput :=
| CleanRows (rows : list json_map) (truncated_at : list TruncatedAt)
| CleanText (text : string) (truncated_at : list TruncatedAt).

Record ResultSummary := mkResultSummary { sum_rows : N; sum_bytes : N; sum_truncated_at : list TruncatedAt }.

Definition summary `{JsonText} (o : CleanOutput) : ResultSummary :=
  match o with
  | CleanRows rows truncated_at =>
    mkResultSummary (N.min (len rows) U32_MAX) (N.min (slen (json_to_string (JArray (JObject <$> rows)))) U64_MAX)
      truncated_at
  | CleanText text truncated_at => mkResultSummary 0 (slen text) truncated_at
  end.

(** [gaze_mcp_core::ToolError]: a boxed error is one of the lens, or the text
    of another *)
Inductive BoxedError := BoxedLens (e : LensError) | BoxedOther (detail : string).
Inductive ToolError :=
| InvalidArgs (detail : string)
| NotFound (detail : string)
| ToolInternal (e : BoxedError)
| ToolOther.

(** [ToolError::internal] of a lens error *)
Definition tool_internal (e : LensError) : ToolError := ToolInternal (BoxedLens e).

Definition lens_error_to_tool_error (debug_str : string → string) (err : LensError) : ToolError :=
  if is_invalid_params err then InvalidArgs (sanitize_error debug_str err) else tool_internal err.
