(* ===== verification/Keyword.v ===== *)
(** * The keyword index of log_grep

    Models src/src/mcp/tools/log_grep.rs: query terms, the terms a redacted
    line is indexed under, the inverted index and its lookup, filtering and
    rendering, and the index cache.

    A text is the list of its [char]s.  Unicode's alphabetic and case tables
    are a class, as are the regex engine ([RegexLib]) and [serde_json]'s text
    form; a [ToolError] keeps its message. *)

From S2P Require Import Prelude Utf8 Str Errors LensValue LogSource Output.

Abbreviation text := (list N).

(** the [char] tables of the standard library, and [str::to_lowercase] *)
Class Unicode := {
  is_alphanumeric : N → bool;
  to_lowercase : text → text;
}.

(** the string with these [char]s *)
Definition string_of (t : text) : string := str_of (to_utf8 t).

(** ** Splitting *)

(** [str::split_whitespace] *)
Fixpoint words_loop (word : text) (t : text) : list text :=
  match t with
  | [] => if is_nil word then [] else [word]
  | c :: t =>
    if is_whitespace c then (if is_nil word then [] else [word]) ++ words_loop [] t
    else words_loop (word ++ [c]) t
  end.
Definition split_whitespace (t : text) : list text := words_loop [] t.

(** [str::trim_end] *)
Definition trim_end (t : text) : text := reverse (trim_start is_whitespace (reverse t)).
(** [str::trim_matches] *)
Definition trim_matches (p : N → bool) (t : text) : text :=
  reverse (trim_start p (reverse (trim_start p t))).

Fixpoint find (p : N → bool) (t : text) : option nat :=
  match t with [] => None | c :: t => if p c then Some 0%nat else S <$> find p t end.

(** [char::is_ascii_punctuation] *)
Definition is_ascii_punctuation (c : N) : bool :=
  in_range 33 47 c || in_range 58 64 c || in_range 91 96 c || in_range 123 126 c.

Definition is_char (c : string) (n : N) : bool :=
  match str_bytes c with [b] => n =? code b | _ => false end.
(** [matches!(ch, ..)] of ASCII characters *)
Definition one_of (cs : string) (n : N) : bool := existsb (fun b => n =? code b) (str_bytes cs).
Definition QUOTE : N := 34.

(** ** Terms *)
Section Terms.
Context `{Unicode}.

Definition KEY_VALUE_TERM_MAX_VALUE_CHARS : N := 64.

Definition normalize_keyword_term (term : text) : option text :=
  let term := trim_matches (fun ch => is_ascii_punctuation ch && negb (one_of "<>_-=:@." ch)) term in
  if is_nil term then None else Some (to_lowercase term).

Definition keyword_query_terms (pattern : text) : list text :=
  omap normalize_keyword_term (split_whitespace pattern).

(** [terms.insert] of a term that exists *)
Definition insert_term (term : option text) (terms : gset text) : gset text :=
  match term with Some t => {[t]} ∪ terms | None => terms end.

Definition is_structured_key_start (ch : N) : bool := is_ascii_alphabetic ch || one_of "_" ch.
Definition is_structured_key_char (ch : N) : bool := is_ascii_alphanumeric ch || one_of "_-." ch.
Definition is_structured_value_start (ch : N) : bool := is_alphanumeric ch || one_of "<_-." ch.
Definition is_unquoted_value_terminator (ch : N) : bool :=
  is_whitespace ch || (ch =? QUOTE) || one_of "&,;)}]" ch.

Definition validate_structured_key (key : text) : option text :=
  match key with
  | [] => None
  | first :: rest =>
    if is_structured_key_start first && forallb is_structured_key_char rest then Some key else None
  end.

(** the longest suffix of key characters *)
Fixpoint take_while (p : N → bool) (t : text) : text :=
  match t with c :: t => if p c then c :: take_while p t else [] | [] => [] end.

(** [before]: the line up to the separator *)
Definition key_before_separator (before : text) : option text :=
  let before := trim_end before in
  match reverse before with
  | c :: rquoted =>
    if c =? QUOTE then
      start ← find (N.eqb QUOTE) rquoted;
      validate_structured_key (reverse (take start rquoted))
    else
      let key := reverse (take_while is_structured_key_char (c :: rquoted)) in
      if is_nil key then None else validate_structured_key key
  | [] => None
  end.

Fixpoint closing_json_quote_index (escaped : bool) (quoted : text) : option nat :=
  match quoted with
  | [] => None
  | ch :: quoted =>
    if (ch =? QUOTE) && negb escaped then Some 0%nat
    else if is_char "\" ch && negb escaped then S <$> closing_json_quote_index true quoted
    else S <$> closing_json_quote_index false quoted
  end.

Definition validate_structured_value (value : text) : option text :=
  if negb (is_nil value) && (len value <=? KEY_VALUE_TERM_MAX_VALUE_CHARS) && negb (existsb is_whitespace value)
  then Some value else None.

(** [after]: the line behind the separator *)
Definition value_after_separator (after : text) : option text :=
  match trim_start is_whitespace after with
  | [] => None
  | first :: rest =>
    if first =? QUOTE then
      end_ ← closing_json_quote_index false rest;
      validate_structured_value (take end_ rest)
    else if negb (is_structured_value_start first) then None
    else
      let after := first :: rest in
      validate_structured_value (take (default (length after) (find is_unquoted_value_terminator after)) after)
  end.

Definition canonical_key_value_term (before after : text) : option text :=
  key ← key_before_separator before;
  value ← value_after_separator after;
  normalize_keyword_term (key ++ [58] ++ value).

Fixpoint collect_key_value_terms (in_gaze_token : bool) (rbefore line : text) (terms : gset text) : gset text :=
  match line with
  | [] => terms
  | ch :: after =>
    if is_char "<" ch then collect_key_value_terms true (ch :: rbefore) after terms
    else if is_char ">" ch && in_gaze_token then collect_key_value_terms false (ch :: rbefore) after terms
    else if one_of ":=" ch && negb in_gaze_token then
      collect_key_value_terms in_gaze_token (ch :: rbefore) after
        (insert_term (canonical_key_value_term (reverse rbefore) after) terms)
    else collect_key_value_terms in_gaze_token (ch :: rbefore) after terms
  end.

(** every turn drops at least one character: the fuel is the length *)
Fixpoint collect_gaze_tokens (fuel : nat) (rest : text) (terms : gset text) : gset text :=
  match fuel with
  | O => terms
  | S fuel =>
    match find (is_char "<") rest with
    | None => terms
    | Some start =>
      let after_start := drop start rest in
      match find (is_char ">") after_start with
      | None => terms
      | Some end_ =>
        let token := take (S end_) after_start in
        collect_gaze_tokens fuel (drop (S end_) after_start)
          (if existsb is_whitespace token then terms else insert_term (normalize_keyword_term token) terms)
      end
    end
  end.

Definition push_segment (segment : text) (terms : gset text) : gset text :=
  insert_term (normalize_keyword_term segment) terms.

Fixpoint collect_keyword_segments (in_gaze_token : bool) (segment chunk : text) (terms : gset text) : gset text :=
  match chunk with
  | [] => push_segment segment terms
  | ch :: chunk =>
    if is_char "<" ch then collect_keyword_segments true [] chunk (push_segment segment terms)
    else if is_char ">" ch && in_gaze_token then collect_keyword_segments false segment chunk terms
    else if in_gaze_token then collect_keyword_segments true segment chunk terms
    else if is_alphanumeric ch || is_char "_" ch then collect_keyword_segments false (segment ++ [ch]) chunk terms
    else collect_keyword_segments false [] chunk (push_segment segment terms)
  end.

(** the body of the loop over the chunks of a line *)
Definition chunk_terms (terms : gset text) (chunk : text) : gset text :=
  collect_keyword_segments false [] chunk
    (collect_gaze_tokens (length chunk) chunk (insert_term (normalize_keyword_term chunk) terms)).

Definition indexed_line_terms (line : text) : gset text :=
  fold_left chunk_terms (split_whitespace line) (collect_key_value_terms false [] line ∅).
End Terms.

(** ** The index *)

(** [while left_index < left.len() && right_index < right.len()] *)
Fixpoint intersect_sorted (left right : list nat) : list nat :=
  let fix go (right : list nat) : list nat :=
    match left, right with
    | x :: left', y :: right' =>
      match Nat.compare x y with
      | Lt => intersect_sorted left' right
      | Gt => go right'
      | Eq => x :: intersect_sorted left' right'
      end
    | _, _ => []
    end in
  go right.

Record KeywordIndex := mkKeywordIndex { postings : gmap text (list nat) }.

Record KeywordRequest := mkKeywordRequest {
  rq_pattern : string; match_pattern : string; rq_level : option string; rq_limit : N; rq_refresh : bool;
  rq_profile_key : string }.
Record RedactedKeywordWindow := mkWindow {
  w_lines : list string; w_metadata : option json; w_truncated_at : list TruncatedAt }.
Record IndexedKeywordWindow := mkIndexed { window : RedactedKeywordWindow; index : KeywordIndex }.

(** [postings.entry(term).or_default().push(line_index)] *)
Definition push_posting (line_index : nat) (term : text) (postings : gmap text (list nat)) : gmap text (list nat) :=
  <[term := default [] (postings !! term) ++ [line_index]]> postings.

Section Index.
Context `{Unicode}.

(** the loop of [build], from line [i] *)
Fixpoint build_from (i : nat) (lines : list string) (m : gmap text (list nat)) : gmap text (list nat) :=
  match lines with
  | [] => m
  | line :: lines =>
    build_from (S i) lines (foldr (push_posting i) m (elements (indexed_line_terms (chars line))))
  end.
Definition build (lines : list string) : KeywordIndex := mkKeywordIndex (build_from 0 lines ∅).

(** the loop of [matching_lines], which may stop early *)
Fixpoint match_rest (ix : KeywordIndex) (matches : list nat) (rest : list text) : list nat :=
  match rest with
  | [] => matches
  | term :: rest =>
    let matches := intersect_sorted matches (default [] (postings ix !! term)) in
    if is_nil matches then matches else match_rest ix matches rest
  end.
Definition matching_lines (ix : KeywordIndex) (terms : list text) : list nat :=
  match terms with
  | [] => []
  | first :: rest => match_rest ix (default [] (postings ix !! first)) rest
  end.

Definition indexed_window (w : RedactedKeywordWindow) : IndexedKeywordWindow :=
  mkIndexed w (build (w_lines w)).
End Index.

(** ** Requests *)
Inductive LogGrepMode := ModeRegex | ModeKeyword.

Definition log_grep_mode (args : json) : result ToolError LogGrepMode :=
  match json_get args "mode" with
  | None | Some JNull => Ok ModeRegex
  | Some (JString mode) =>
    if String.eqb mode "regex" then Ok ModeRegex
    else if String.eqb mode "keyword" then Ok ModeKeyword
    else Err (InvalidArgs (concat_str ["invalid log_grep mode `"; mode; "`; expected `regex` or `keyword`"]%string))
  | Some _ => Err (InvalidArgs "invalid log_grep mode; expected `regex` or `keyword`")
  end.

Definition profile_key_from_args (args : json) : string := default ""%string (json_get args "profile" ≫= as_str).

Definition arg_error {A} (key what : string) : result ToolError A :=
  Err (InvalidArgs (concat_str ["log_grep `"; key; "` must be a "; what]%string)).
Definition string_arg (args : json) (key : string) : result ToolError string :=
  match json_get args key ≫= as_str with Some s => Ok s | None => arg_error key "string" end.
Definition optional_string_arg (args : json) (key : string) : result ToolError (option string) :=
  match json_get args key with
  | None | Some JNull => Ok None
  | Some (JString value) => Ok (Some value)
  | Some _ => arg_error key "string"
  end.
Definition optional_usize_arg (args : json) (key : string) : result ToolError (option N) :=
  match json_get args key with
  | None | Some JNull => Ok None
  | Some (JNumber value) =>
    match as_u64 (JNumber value) with Some n => Ok (Some n) | None => arg_error key "usize" end
  | Some _ => arg_error key "usize"
  end.
Definition optional_bool_arg (args : json) (key : string) : result ToolError (option bool) :=
  match json_get args key with
  | None | Some JNull => Ok None
  | Some (JBool value) => Ok (Some value)
  | Some _ => arg_error key "bool"
  end.

Definition keyword_request_from_args `{Unicode} (args : json) (match_pattern : string)
  : result ToolError KeywordRequest :=
  pattern ← string_arg args "pattern";
  if is_nil (keyword_query_terms (chars match_pattern))
  then Err (InvalidArgs "keyword log_grep pattern must contain at least one term")
  else
    level ← optional_string_arg args "level";
    limit ← optional_usize_arg args "limit";
    refresh ← optional_bool_arg args "refresh";
    Ok (mkKeywordRequest pattern match_pattern (non_empty_level level) (default 100 limit)
          (default false refresh) (profile_key_from_args args)).

(** ** Rendering *)
Section Rendering.
Context `{JsonText}.

Definition keyword_status (matched_lines : N) (truncated_at : list TruncatedAt) : string :=
  match (matched_lines =? 0)%N, is_nil truncated_at with
  | true, true => "no_matches"
  | true, false => "no_matches_truncated"
  | _, false => "truncated"
  | _, true => "matches"
  end.

Definition keyword_metadata (metadata : option json) (request : KeywordRequest) (lines : list string)
    (matched_lines : N) (truncated_at : list TruncatedAt) : string :=
  let returned_lines := len lines in
  let status := keyword_status matched_lines truncated_at in
  json_to_string
    (match metadata with
     | Some (JObject existing) =>
       JObject (map_insert "truncated_at" (json_reasons truncated_at)
         (map_insert "returned_lines" (json_number returned_lines)
         (map_insert "matched_lines" (json_number matched_lines)
         (map_insert "requested_limit" (json_number (rq_limit request))
         (map_insert "level" (json_option (rq_level request))
         (map_insert "pattern" (JString (rq_pattern request))
         (map_insert "status" (JString status) existing)))))))
     | _ =>
       json_object [("operation", JString "log_grep"); ("status", JString status);
         ("pattern", JString (rq_pattern request)); ("level", json_option (rq_level request));
         ("requested_limit", json_number (rq_limit request)); ("matched_lines", json_number matched_lines);
         ("returned_lines", json_number returned_lines); ("truncated_at", json_reasons truncated_at)]%string
     end).

Definition render_keyword_output (metadata : option json) (request : KeywordRequest) (lines : list string)
    (matched_lines : N) (truncated_at : list TruncatedAt) : string :=
  with_header (Some (keyword_metadata metadata request lines matched_lines truncated_at)) (join_lines lines).

Definition keyword_core_metadata (metadata : json) (request : KeywordRequest) : json :=
  match metadata with
  | JObject existing =>
    JObject (map_insert "requested_limit" (json_number (rq_limit request))
      (map_insert "level" (json_option (rq_level request))
      (map_insert "pattern" (JString (rq_pattern request)) existing)))
  | _ => metadata
  end.
Definition render_keyword_core_window (w : RedactedKeywordWindow) (request : KeywordRequest) : string :=
  with_header ((fun m => json_to_string (keyword_core_metadata m request)) <$> w_metadata w)
    (join_lines (w_lines w)).
Definition keyword_core_summary (w : RedactedKeywordWindow) (request : KeywordRequest) : ResultSummary :=
  summary (CleanText (render_keyword_core_window w request) (w_truncated_at w)).

Definition has_string (metadata : json) (key : string) : bool :=
  match json_get metadata key ≫= as_str with Some _ => true | None => false end.
Definition has_u64 (metadata : json) (key : string) : bool :=
  match json_get metadata key ≫= as_u64 with Some _ => true | None => false end.
Definition is_log_source_kind (source_kind : string) : bool :=
  String.eqb source_kind "ssh_log" || String.eqb source_kind "local_log".
Definition is_log_grep_metadata_header (metadata : json) : bool :=
  match json_get metadata "source_kind" ≫= as_str with
  | None => false
  | Some source_kind =>
    (match metadata with JObject _ => true | _ => false end) &&
    bool_decide (json_get metadata "operation" ≫= as_str = Some "log_grep"%string) &&
    is_log_source_kind source_kind &&
    (negb (String.eqb source_kind "ssh_log") || has_string metadata "host") &&
    match json_get metadata "truncated_at" ≫= as_array with Some _ => true | None => false end &&
    has_string metadata "status" && has_string metadata "profile" && has_string metadata "path" &&
    has_string metadata "pattern" && has_u64 metadata "requested_limit" &&
    has_u64 metadata "tail_window_lines" && has_u64 metadata "searched_lines" &&
    has_u64 metadata "matched_lines" && has_u64 metadata "returned_lines" && has_u64 metadata "searched_bytes"
  end.

Definition split_redacted_window_text (text : string) : option json * list string :=
  match str_of <$> str_lines (str_bytes text) with
  | [] => (None, [])
  | first :: lines =>
    match json_from_str first with
    | Some metadata =>
      if is_log_grep_metadata_header metadata then (Some metadata, lines) else (None, first :: lines)
    | None => (None, first :: lines)
    end
  end.

Definition redacted_keyword_window_from_clean (clean : CleanOutput) : result ToolError RedactedKeywordWindow :=
  match clean with
  | CleanText text truncated_at =>
    let '(metadata, lines) := split_redacted_window_text text in
    Ok (mkWindow lines metadata truncated_at)
  | CleanRows _ _ => Err (tool_internal (Internal "keyword log_grep expected text output"))
  end.
End Rendering.

(** ** Filtering *)
Section Filtering.
Context `{Unicode, RegexLib, JsonText}.

(** [window.lines[index]]: the indices of a window's index are in range *)
Definition line_at (w : RedactedKeywordWindow) (i : nat) : string := default ""%string (w_lines w !! i).

Definition keyword_level_regex (level : option string) : result ToolError (option Regex) :=
  match level with
  | None => Ok None
  | Some level =>
    match regex_new (level_pattern level) with
    | Some re => Ok (Some re)
    | None => Err (tool_internal (Internal (regex_error (level_pattern level))))
    end
  end.

Definition filter_keyword_indexed_window (w : RedactedKeywordWindow) (ix : KeywordIndex) (request : KeywordRequest)
  : result ToolError CleanOutput :=
  let terms := keyword_query_terms (chars (match_pattern request)) in
  level_re ← keyword_level_regex (rq_level request);
  let matched_indices :=
    filter (fun i => match level_re with Some re => is_match re (line_at w i) | None => true end = true)
      (matching_lines ix terms) in
  let matched_lines := len matched_indices in
  let returned_indices := take (N.to_nat (rq_limit request)) matched_indices in
  let truncated_at :=
    if len returned_indices <? matched_lines then push_truncation (w_truncated_at w) TrRows else w_truncated_at w in
  let lines := line_at w <$> returned_indices in
  Ok (CleanText (render_keyword_output (w_metadata w) request lines matched_lines truncated_at) truncated_at).

(** ** The index cache: session id and profile key *)
Definition KEYWORD_INDEX_CACHE_TTL : N := 3 * NANOS.
Definition KeywordCacheKey : Type := string * string.
Definition KeywordIndexCache : Type := WindowCache KeywordCacheKey IndexedKeywordWindow.

Definition keyword_get_or_fetch (c : KeywordIndexCache) (key : KeywordCacheKey) (refresh : bool) (now : N)
    (fetch : result ToolError RedactedKeywordWindow) (at_ : N)
  : result ToolError (IndexedKeywordWindow * bool) * KeywordIndexCache :=
  match (if negb refresh then fresh c key now else None) with
  | Some indexed => (Ok (indexed, true), c)
  | None =>
    match fetch with
    | Err e => (Err e, c)
    | Ok window =>
      let indexed := indexed_window window in
      (Ok (indexed, false), store c key indexed at_)
    end
  end.

(** [invoke_keyword]: [raw_pattern] is the task-local pattern, if it is in
    scope, and [core] what the session's core tool answers if it is called;
    the last component is the summary recorded on a cache hit *)
Definition invoke_keyword (debug_str : string → string) (session_id : string) (args : json)
    (raw_pattern : option (option string)) (cache : KeywordIndexCache) (now : N)
    (core : result LensError CleanOutput) (at_ : N)
  : result ToolError CleanOutput * KeywordIndexCache * option ResultSummary :=
  let request :=
    raw_pattern ← ok_or raw_pattern
      (tool_internal (Internal "keyword log_grep raw pattern task-local was not scoped"));
    raw_pattern ← ok_or raw_pattern (InvalidArgs "log_grep `pattern` is required");
    keyword_request_from_args args raw_pattern in
  match request with
  | Err e => (Err e, cache, None)
  | Ok request =>
    let fetch :=
      clean ← map_err core (lens_error_to_tool_error debug_str);
      redacted_keyword_window_from_clean clean in
    let '(lookup, cache) :=
      keyword_get_or_fetch cache (session_id, rq_profile_key request) (rq_refresh request) now fetch at_ in
    match lookup with
    | Err e => (Err e, cache, None)
    | Ok (indexed, cache_hit) =>
      match filter_keyword_indexed_window (window indexed) (index indexed) request with
      | Err e => (Err e, cache, None)
      | Ok clean =>
        (Ok clean, cache, if cache_hit then Some (keyword_core_summary (window indexed) request) else None)
      end
    end
  end.
End Filtering.
