(* ===== verification/KeywordFacts.v ===== *)
(** * What the keyword index promises

    Looking terms up in the index gives exactly the lines a scan of every
    line would give, in order; a search shows the first of them; a line is
    found by its own words. *)

From S2P Require Import Prelude Utf8 Str Errors LensValue LogSource LogFacts Output Keyword.

(** ** The reference: the indices, from [i], of the lines with a property *)
Fixpoint hits (i : nat) (lines : list string) (p : string → bool) : list nat :=
  match lines with
  | [] => []
  | l :: lines => (if p l then [i] else []) ++ hits (S i) lines p
  end.

Lemma hits_above i lines p : Forall (fun j => i <= j)%nat (hits i lines p).
Proof.
  revert i. induction lines as [|l lines IH]; intros i; cbn [hits]; [constructor|].
  apply Forall_app. split; [destruct (p l); repeat constructor|].
  eapply Forall_impl; [apply IH|]. cbv beta. lia.
Qed.

Lemma hits_ext i lines p q : (∀ l, p l = q l) → hits i lines p = hits i lines q.
Proof.
  intros E. revert i. induction lines as [|l lines IH]; intros i; [done|]. cbn [hits]. by rewrite E, IH.
Qed.

Lemma hits_none i lines p q : hits i lines p = [] → (∀ l, q l = true → p l = true) → hits i lines q = [].
Proof.
  intros Hp Hq. revert i Hp. induction lines as [|l lines IH]; intros i; cbn [hits]; [done|].
  intros [Hl Hp]%app_eq_nil. rewrite IH by done. destruct (q l) eqn:E; [|done]. by rewrite (Hq l E) in Hl.
Qed.

Lemma intersect_skip_left x l r : Forall (fun j => x < j)%nat r → intersect_sorted (x :: l) r = intersect_sorted l r.
Proof.
  destruct 1 as [|y r Hy _]; [by destruct l|]. cbn [intersect_sorted].
  destruct (Nat.compare_spec x y); [lia|done|lia].
Qed.

Lemma intersect_skip_right y l r : Forall (fun j => y < j)%nat l → intersect_sorted l (y :: r) = intersect_sorted l r.
Proof.
  destruct 1 as [|x l Hx _]; [by destruct r|]. cbn [intersect_sorted].
  destruct (Nat.compare_spec x y); [lia|lia|done].
Qed.

Lemma intersect_hits i lines p q :
  intersect_sorted (hits i lines p) (hits i lines q) = hits i lines (fun l => p l && q l).
Proof.
  revert i. induction lines as [|l lines IH]; intros i; [done|]. cbn [hits]. rewrite <- IH.
  destruct (p l), (q l); cbn [andb app].
  - cbn [intersect_sorted]. by rewrite Nat.compare_refl.
  - by rewrite intersect_skip_left by apply hits_above.
  - by rewrite intersect_skip_right by apply hits_above.
  - done.
Qed.

(** with the index of a line goes the line *)
Lemma filter_hits (p q : string → bool) pre lines :
  filter (fun j => q (default ""%string ((pre ++ lines) !! j)) = true) (hits (length pre) lines p) =
  hits (length pre) lines (fun l => p l && q l).
Proof.
  revert pre. induction lines as [|l lines IH]; intros pre; [done|]. cbn [hits].
  specialize (IH (pre ++ [l])). rewrite <- app_assoc, length_app, Nat.add_1_r in IH. cbn [app] in IH.
  rewrite filter_app, IH. f_equal. destruct (p l); [|done]. cbn [andb].
  assert (Hl : (pre ++ l :: lines) !! length pre = Some l) by by apply list_lookup_middle.
  destruct (q l) eqn:E.
  - rewrite filter_cons_True; [done|]. by rewrite Hl.
  - rewrite filter_cons_False; [done|]. rewrite Hl. cbn. congruence.
Qed.

Lemma lines_of_hits (p : string → bool) pre lines :
  (fun j => default ""%string ((pre ++ lines) !! j)) <$> hits (length pre) lines p =
  filter (fun l => p l = true) lines.
Proof.
  revert pre. induction lines as [|l lines IH]; intros pre; [done|]. cbn [hits].
  specialize (IH (pre ++ [l])). rewrite <- app_assoc, length_app, Nat.add_1_r in IH. cbn [app] in IH.
  rewrite fmap_app, IH. destruct (p l) eqn:E.
  - rewrite filter_cons_True by done. cbn [fmap list_fmap app]. by rewrite list_lookup_middle.
  - rewrite filter_cons_False by congruence. done.
Qed.

(** ** The index *)
Section Index.
Context `{Unicode}.

(** the line is indexed under the term *)
Definition has_term (t : text) (line : string) : bool := bool_decide (t ∈ indexed_line_terms (chars line)).
Definition has_terms (terms : list text) (line : string) : bool := forallb (fun t => has_term t line) terms.

Lemma push_postings i ts m t :
  NoDup ts →
  default [] (foldr (push_posting i) m ts !! t) =
  default [] (m !! t) ++ (if decide (t ∈ ts) then [i] else []).
Proof.
  induction 1 as [|x ts Hx _ IH]; cbn [foldr].
  - rewrite decide_False by set_solver. by rewrite app_nil_r.
  - unfold push_posting at 1. destruct (decide (t = x)) as [->|Ht].
    + rewrite lookup_insert_eq. cbn [default from_option id]. rewrite IH, decide_False by done.
      rewrite decide_True by set_solver. by rewrite app_nil_r.
    + rewrite lookup_insert_ne by done. rewrite IH. f_equal.
      destruct (decide (t ∈ ts)); [rewrite decide_True by set_solver|rewrite decide_False by set_solver]; done.
Qed.

Lemma build_postings i lines m t :
  default [] (build_from i lines m !! t) = default [] (m !! t) ++ hits i lines (has_term t).
Proof.
  revert i m. induction lines as [|l lines IH]; intros i m; cbn [build_from hits]; [by rewrite app_nil_r|].
  rewrite IH, push_postings, <- app_assoc by apply NoDup_elements. do 2 f_equal. unfold has_term.
  destruct (decide (t ∈ elements _)) as [E|E]; rewrite elem_of_elements in E.
  - by rewrite bool_decide_eq_true_2.
  - by rewrite bool_decide_eq_false_2.
Qed.

Lemma postings_hits lines t : default [] (postings (build lines) !! t) = hits 0 lines (has_term t).
Proof. unfold build. cbn [postings]. by rewrite build_postings, lookup_empty. Qed.

Lemma match_rest_hits lines p rest :
  match_rest (build lines) (hits 0 lines p) rest = hits 0 lines (fun l => p l && has_terms rest l).
Proof.
  revert p. induction rest as [|t rest IH]; intros p; cbn [match_rest].
  - apply hits_ext. intros l. by rewrite andb_true_r.
  - rewrite postings_hits, intersect_hits. set (q := fun l => p l && has_term t l).
    assert (E : hits 0 lines (fun l => p l && has_terms (t :: rest) l) = hits 0 lines (fun l => q l && has_terms rest l))
      by (apply hits_ext; intros l; unfold q; cbn [has_terms forallb]; by rewrite andb_assoc).
    rewrite E. destruct (is_nil (hits 0 lines q)) eqn:En; [|apply IH].
    destruct (hits 0 lines q) eqn:Eq; [|done]. symmetry. apply (hits_none _ _ q); [done|].
    intros l Hl. by apply andb_true_iff in Hl as [? _].
Qed.

(** The index is exact: looking a list of terms up in the index of a
    window gives, in order and each once, the indices of the lines that are
    indexed under every one of the terms, as a scan of all lines would; no
    terms give no lines. *)
Theorem index_is_exact lines terms :
  matching_lines (build lines) terms =
  if is_nil terms then [] else hits 0 lines (has_terms terms).
Proof.
  destruct terms as [|t terms]; [done|]. cbn [matching_lines is_nil]. rewrite postings_hits. apply match_rest_hits.
Qed.
End Index.

(** ** Searching *)
Section Searching.
Context `{Unicode, RegexLib, JsonText}.

(** the lines a request is for *)
Definition wanted (terms : list text) (level_re : option Regex) (line : string) : bool :=
  has_terms terms line && match level_re with Some re => is_match re line | None => true end.

(** A keyword search shows the matching lines: on the index of its own
    window it answers the first [limit] lines, in their order, that are
    indexed under every term of the query and match the level; the header
    counts all matches and those returned, [Rows] is added exactly when some
    are left out, and the only error is a level that is no regex. *)
Theorem keyword_search_shows_matches w request :
  let terms := keyword_query_terms (chars (match_pattern request)) in
  terms ≠ [] →
  match keyword_level_regex (rq_level request) with
  | Err e => filter_keyword_indexed_window w (build (w_lines w)) request = Err e
  | Ok level_re =>
    let found := filter (fun l => wanted terms level_re l = true) (w_lines w) in
    let shown := take (N.to_nat (rq_limit request)) found in
    let truncated_at :=
      if rq_limit request <? len found then push_truncation (w_truncated_at w) TrRows else w_truncated_at w in
    filter_keyword_indexed_window w (build (w_lines w)) request =
    Ok (CleanText (render_keyword_output (w_metadata w) request shown (len found) truncated_at) truncated_at)
  end.
Proof.
  intros terms Ht. unfold filter_keyword_indexed_window. fold terms.
  destruct (keyword_level_regex _) as [level_re|]; [|done]. cbn [mbind result_bind]. cbv zeta.
  assert (Hm : matching_lines (build (w_lines w)) terms = hits 0 (w_lines w) (has_terms terms))
    by (rewrite index_is_exact; by destruct terms).
  rewrite Hm. clear Hm.
  pose proof (filter_hits (has_terms terms)
    (fun l => match level_re with Some re => is_match re l | None => true end) [] (w_lines w)) as Hfl.
  cbn [app length] in Hfl. unfold line_at. rewrite Hfl. clear Hfl.
  change (fun l => has_terms terms l && _) with (wanted terms level_re).
  set (is_ := hits 0 (w_lines w) (wanted terms level_re)).
  assert (Hf : (fun j => default ""%string (w_lines w !! j)) <$> is_ = filter (fun l => wanted terms level_re l = true) (w_lines w))
    by apply (lines_of_hits _ []).
  rewrite fmap_take, Hf. assert (Hlen : len is_ = len (filter (fun l => wanted terms level_re l = true) (w_lines w)))
    by (rewrite <- Hf; unfold len; by rewrite length_fmap).
  rewrite Hlen. set (found := filter _ _) in *.
  assert (Hlt : (len (take (N.to_nat (rq_limit request)) is_) <? len found) = (rq_limit request <? len found)).
  { apply eq_true_iff_eq. rewrite !N.ltb_lt. unfold len in *. rewrite length_take. lia. }
  by rewrite Hlt.
Qed.

(** the window of a text that the session released *)
Definition window_of (text : string) (reasons : list TruncatedAt) : RedactedKeywordWindow :=
  let '(metadata, lines) := split_redacted_window_text text in mkWindow lines metadata reasons.
Lemma window_from_clean clean w :
  redacted_keyword_window_from_clean clean = Ok w → ∃ text reasons, clean = CleanText text reasons ∧ w = window_of text reasons.
Proof.
  unfold redacted_keyword_window_from_clean, window_of. destruct clean as [|text reasons]; [done|].
  intros E. exists text, reasons. split; [done|]. by destruct (split_redacted_window_text text); injection E as <-.
Qed.
Lemma request_spec args pattern request :
  keyword_request_from_args args pattern = Ok request →
  rq_profile_key request = profile_key_from_args args ∧ match_pattern request = pattern ∧ keyword_query_terms (chars pattern) ≠ [].
Proof.
  unfold keyword_request_from_args. intros E. open_bind E as p _. destruct (is_nil _) eqn:Hn; [done|].
  open_bind E as level _. open_bind E as limit _. open_bind E as refresh _. injection E as <-. cbn. by destruct (keyword_query_terms _).
Qed.

(** one search: what it leaves in the cache, and the window it answers from *)
Lemma invoke_keyword_spec debug_str session_id args raw cache now core at_ r cache' hit :
  let key := (session_id, profile_key_from_args args) in
  invoke_keyword debug_str session_id args raw cache now core at_ = (r, cache', hit) →
  (cache' = cache ∨ ∃ text reasons, core = Ok (CleanText text reasons) ∧
    cache' = store cache key (indexed_window (window_of text reasons)) at_) ∧
  ∀ out, r = Ok out → ∃ pattern request indexed,
    raw = Some (Some pattern) ∧ keyword_request_from_args args pattern = Ok request ∧
    (rq_refresh request = false ∧ fresh cache key now = Some indexed ∨
     ∃ text reasons, core = Ok (CleanText text reasons) ∧ indexed = indexed_window (window_of text reasons)) ∧
    filter_keyword_indexed_window (window indexed) (index indexed) request = Ok out.
Proof.
  cbv zeta. unfold invoke_keyword. destruct raw as [[pattern|]|]; [|by intros [= <- <- _]; split; [left|]..].
  cbn [ok_or mbind result_bind]. destruct (keyword_request_from_args args pattern) as [request|e] eqn:Er; [|by intros [= <- <- _]; split; [left|]].
  apply request_spec in Er as Hq. destruct Hq as (Hkey & _ & _). rewrite Hkey. unfold keyword_get_or_fetch.
  set (key := (session_id, profile_key_from_args args)).
  assert (Hfetch : ∀ w, (clean ← map_err core (lens_error_to_tool_error debug_str); redacted_keyword_window_from_clean clean) = Ok w →
    ∃ text reasons, core = Ok (CleanText text reasons) ∧ w = window_of text reasons).
  { intros w E. open_bind E as clean Hc%map_err_ok. apply window_from_clean in E as (text & reasons & -> & ->). eauto. }
  destruct (if negb (rq_refresh request) then fresh cache key now else None) as [indexed|] eqn:Ef.
  - destruct (filter_keyword_indexed_window _ _ _) as [out|e] eqn:Eo; intros [= <- <- _]; (split; [by left|]); [|done].
    intros out' [= <-]. exists pattern, request, indexed. split_and!; try done. left.
    by destruct (rq_refresh request).
  - destruct (_ ← _; _) as [w|e] eqn:Ew; [|by intros [= <- <- _]; split; [left|]].
    destruct (Hfetch w eq_refl) as (text & reasons & Hc & ->). clear Hfetch Ew.
    destruct (filter_keyword_indexed_window _ _ _) as [out|e] eqn:Eo; intros [= <- <- _]; (split; [right; eauto|]); [|done].
    intros out' [= <-]. exists pattern, request, (indexed_window (window_of text reasons)). split_and!; try done. right. eauto.
Qed.
End Searching.

(** ** Own words *)
Section OwnWords.
Context `{Unicode}.

(** the term is absent, or in the set *)
Definition within (term : option text) (terms : gset text) : Prop := ∀ t, term = Some t → t ∈ terms.

Lemma insert_term_within term terms : within term (insert_term term terms).
Proof. intros t ->. cbn. set_solver. Qed.
Lemma insert_term_mono term terms : terms ⊆ insert_term term terms.
Proof. destruct term; cbn; set_solver. Qed.

Lemma within_mono term terms terms' : within term terms → terms ⊆ terms' → within term terms'.
Proof. intros Hw Hs t Ht. by apply Hs, Hw. Qed.

Lemma gaze_tokens_mono fuel rest terms : terms ⊆ collect_gaze_tokens fuel rest terms.
Proof.
  revert rest terms. induction fuel as [|fuel IH]; intros rest terms; cbn [collect_gaze_tokens]; [done|].
  destruct (find (is_char "<") rest); [|done]. destruct (find (is_char ">") _); [|done].
  etransitivity; [|apply IH]. destruct (existsb _ _); [done|apply insert_term_mono].
Qed.

(** fuel past the length of the text changes nothing *)
Lemma gaze_tokens_fuel fuel fuel' rest terms :
  (length rest <= fuel)%nat → (length rest <= fuel')%nat →
  collect_gaze_tokens fuel rest terms = collect_gaze_tokens fuel' rest terms.
Proof.
  assert (Hnil : ∀ f t, collect_gaze_tokens f [] t = t) by by intros [|].
  revert fuel' rest terms. induction fuel as [|fuel IH]; intros fuel' rest terms Hf Hf'.
  { destruct rest; [by rewrite !Hnil|cbn in Hf; lia]. }
  destruct fuel' as [|fuel']; [destruct rest; [by rewrite !Hnil|cbn in Hf'; lia]|].
  cbn [collect_gaze_tokens]. destruct (find (is_char "<") rest) as [start|] eqn:Hs; [|done].
  destruct (find (is_char ">") _) as [end_|]; [|done].
  assert (length rest ≠ 0%nat) by by destruct rest.
  apply IH; rewrite !length_drop; lia.
Qed.

Lemma segments_mono b segment chunk terms : terms ⊆ collect_keyword_segments b segment chunk terms.
Proof.
  revert b segment terms. induction chunk as [|c chunk IH]; intros b segment terms; cbn [collect_keyword_segments];
    [apply insert_term_mono|].
  repeat case_match; try apply IH; (etransitivity; [apply insert_term_mono|apply IH]).
Qed.

Lemma chunk_terms_mono terms chunk : terms ⊆ chunk_terms terms chunk.
Proof.
  unfold chunk_terms. etransitivity; [|apply segments_mono]. etransitivity; [|apply gaze_tokens_mono].
  apply insert_term_mono.
Qed.

Lemma fold_chunks_mono chunks terms : terms ⊆ fold_left chunk_terms chunks terms.
Proof.
  revert terms. induction chunks as [|c chunks IH]; intros terms; [done|]. cbn [fold_left].
  etransitivity; [apply chunk_terms_mono|apply IH].
Qed.

(** whatever a chunk yields alone it yields to the line *)
Lemma chunk_of_line line chunk term :
  chunk ∈ split_whitespace line → (∀ terms, within term (chunk_terms terms chunk)) →
  within term (indexed_line_terms line).
Proof.
  unfold indexed_line_terms. generalize (collect_key_value_terms false [] line ∅). intros terms Hc Hw.
  revert terms. induction (split_whitespace line) as [|c chunks IH]; intros terms; [by apply elem_of_nil in Hc|].
  cbn [fold_left]. apply elem_of_cons in Hc as [->|Hc]; [|by apply IH].
  eapply within_mono; [apply Hw|apply fold_chunks_mono].
Qed.

Lemma own_chunk terms chunk : within (normalize_keyword_term chunk) (chunk_terms terms chunk).
Proof.
  unfold chunk_terms. eapply within_mono; [apply insert_term_within|].
  etransitivity; [apply gaze_tokens_mono|apply segments_mono].
Qed.

(** *** Complete tokens *)
Lemma words_no_space word t :
  Forall (fun c => is_whitespace c = false) word →
  ∀ w, w ∈ words_loop word t → Forall (fun c => is_whitespace c = false) w.
Proof.
  revert word. induction t as [|c t IH]; intros word Hw w; cbn [words_loop].
  - destruct (is_nil word); [set_solver|]. by intros ->%list_elem_of_singleton.
  - destruct (is_whitespace c) eqn:Ec.
    + intros [Hin|Hin]%elem_of_app; [|by apply (IH [])].
      destruct (is_nil word); [set_solver|]. by apply list_elem_of_singleton in Hin as ->.
    + apply IH. apply Forall_app. auto.
Qed.

Lemma find_app_none p s t : find p s = None → find p (s ++ t) = (Nat.add (length s)) <$> find p t.
Proof.
  induction s as [|c s IH]; cbn; [by destruct (find p t)|].
  destruct (p c); [done|]. destruct (find p s); [done|]. intros _. rewrite IH by done. by destruct (find p t).
Qed.

Lemma find_some p s i : find p s = Some i →
  ∃ c r, s = take i s ++ c :: r ∧ p c = true ∧ length (take i s) = i ∧ find p (take i s) = None.
Proof.
  revert i. induction s as [|c s IH]; intros i; cbn; [done|]. destruct (p c) eqn:Ec.
  - intros [= <-]. exists c, s. done.
  - destruct (find p s) as [j|]; [|done]. intros [= <-]. destruct (IH j eq_refl) as (c' & r & E & Hp & Hl & Hn).
    exists c', r. cbn [take app length find]. rewrite Hl, Ec, Hn. split_and!; [by f_equal|done..].
Qed.

Lemma opens_no_close c : is_char "<" c = true → is_char ">" c = false.
Proof. change (is_char "<" c) with (c =? 60). intros ->%N.eqb_eq. done. Qed.

(** reading [t] from outside a token ends outside a token *)
Fixpoint outside (inside : bool) (t : text) : bool :=
  match t with
  | [] => negb inside
  | c :: t => outside (if is_char "<" c then true else if is_char ">" c then false else inside) t
  end.

Lemma outside_none s t : find (is_char "<") s = None → outside false (s ++ t) = outside false t.
Proof.
  induction s as [|c s IH]; [done|]. cbn [find app outside]. destruct (is_char "<" c); [done|].
  destruct (find (is_char "<") s); [done|]. intros _. rewrite <- IH by done. by destruct (is_char ">" c).
Qed.

Lemma outside_closes s : outside true s = true →
  ∃ i, find (is_char ">") s = Some i ∧ outside false (drop (S i) s) = true.
Proof.
  induction s as [|c s IH]; [done|]. cbn [outside find]. destruct (is_char ">" c) eqn:Ec.
  - destruct (is_char "<" c) eqn:El; [|intros Hs; by exists 0%nat].
    by rewrite (opens_no_close c El) in Ec.
  - intros Hs. assert (Hs' : outside true s = true) by (by destruct (is_char "<" c)).
    destruct (IH Hs') as (i & -> & Hi). by exists (S i).
Qed.

Lemma token_collected fuel pre body post terms :
  (length pre + length body + length post + 2 <= fuel)%nat →
  outside false pre = true → find (is_char ">") body = None →
  existsb is_whitespace ([60] ++ body ++ [62]) = false →
  within (normalize_keyword_term ([60] ++ body ++ [62]))
    (collect_gaze_tokens fuel (pre ++ ([60] ++ body ++ [62]) ++ post) terms).
Proof.
  intros Hf Ho Hb Hw. revert pre terms Hf Ho.
  induction fuel as [|fuel IH]; intros pre terms Hf Ho; [lia|]. cbn [collect_gaze_tokens].
  destruct (find (is_char "<") pre) as [i|] eqn:Ep.
  - destruct (find_some _ _ _ Ep) as (c & r & E & Hc & Hl & Hn). rewrite E, outside_none in Ho by done.
    cbn [outside] in Ho. rewrite Hc in Ho. destruct (outside_closes r Ho) as (j & Hj & Hr).
    destruct (find_some _ _ _ Hj) as (d & r' & Er & Hd & Hlj & Hnj).
    set (s := take i pre) in *. clearbody s.
    assert (Hpre : pre ++ ([60] ++ body ++ [62]) ++ post =
                   s ++ (c :: take j r ++ [d]) ++ (r' ++ ([60] ++ body ++ [62]) ++ post)).
    { rewrite E, Er at 1. by rewrite <- !app_assoc; cbn [app]; rewrite <- ?app_assoc. }
    rewrite Hpre, find_app_none by done. cbn [app find]. rewrite Hc. cbn [fmap option_fmap option_map].
    rewrite Nat.add_0_r, drop_app_length. cbn [find].
    rewrite (opens_no_close c Hc), <- app_assoc, find_app_none by done. cbn [app find]. rewrite Hd.
    cbn [fmap option_fmap option_map]. rewrite Nat.add_0_r. cbn [drop].
    rewrite (drop_app_ge (take j r)) by lia. rewrite Hlj, Nat.sub_succ_l, Nat.sub_diag by lia. cbn [drop].
    apply IH.
    + apply (f_equal length) in E. apply (f_equal length) in Er. rewrite !length_app in E, Er.
      cbn [length] in E, Er. lia.
    + rewrite Er in Hr. rewrite drop_app_ge in Hr by lia.
      by rewrite Hlj, Nat.sub_succ_l, Nat.sub_diag in Hr by lia.
  - rewrite find_app_none by done. cbn [app find]. change (is_char "<" 60) with true.
    cbn [fmap option_fmap option_map]. rewrite Nat.add_0_r, drop_app_length. cbn [find].
    change (is_char ">" 60) with false. rewrite <- app_assoc, find_app_none by done. cbn [app find].
    change (is_char ">" 62) with true. cbn [fmap option_fmap option_map]. rewrite Nat.add_0_r.
    set (rest := drop _ _). cbn [take].
    replace (S (length body)) with (length (body ++ [62])) by (rewrite length_app; cbn; lia).
    change (body ++ 62 :: post) with (body ++ [62] ++ post). rewrite (app_assoc body), take_app_length.
    cbn [app] in Hw |- *. rewrite Hw. eapply within_mono; [apply insert_term_within|apply gaze_tokens_mono].
Qed.

(** A line is found by what it shows: every word of a redacted line,
    whatever its punctuation, and every complete token of a word, is a query
    that finds the line; so a query made only of such words misses no line
    that has them all. *)
Theorem line_found_by_its_words line query :
  (∀ word, word ∈ split_whitespace query →
     word ∈ split_whitespace line ∨
     ∃ pre body post, word = [60] ++ body ++ [62] ∧ pre ++ word ++ post ∈ split_whitespace line ∧
       outside false pre = true ∧ find (is_char ">") body = None) →
  Forall (fun t => t ∈ indexed_line_terms line) (keyword_query_terms query).
Proof.
  intros Hq. unfold keyword_query_terms. apply Forall_forall. intros t (word & Hw & Ht)%list_elem_of_omap.
  destruct (Hq word Hw) as [Hin|(pre & body & post & -> & Hin & Ho & Hb)].
  - eapply chunk_of_line; [exact Hin|intros terms; apply own_chunk|exact Ht].
  - assert (Hs := words_no_space [] line (Forall_nil_2 _) _ Hin). apply Forall_app in Hs as [_ Hs].
    apply Forall_app in Hs as [Hs _].
    assert (Hws : existsb is_whitespace ([60] ++ body ++ [62]) = false).
    { apply not_true_is_false. rewrite existsb_Exists, Exists_exists. intros (c & Hc & Hcw).
      rewrite Forall_forall in Hs. specialize (Hs c Hc). cbv beta in Hs. congruence. }
    eapply chunk_of_line; [exact Hin| |exact Ht]. intros terms. unfold chunk_terms.
    eapply within_mono; [apply token_collected; [|done..]|apply segments_mono].
    rewrite !length_app. cbn [length]. lia.
Qed.
End OwnWords.

(** ** Concrete runs: ASCII tables, and a header that is always the empty object *)
Definition ascii_unicode : Unicode :=
  {| is_alphanumeric := is_ascii_alphanumeric;
     to_lowercase := fun t => (fun c => if is_ascii_upper c then c + 32 else c) <$> t |}.
Definition brace_json : JsonText := {| json_to_string := fun _ => "{}"%string; json_from_str := fun _ => None |}.

Definition sample_window : RedactedKeywordWindow :=
  mkWindow ["login user=<ab12:Email_1> ok"; "logout"; "Login user=<ab12:Email_2> denied"]%string None [].
Definition sample_request (pattern : string) : KeywordRequest :=
  mkKeywordRequest pattern pattern None 1 false "app".

(** a complete token finds its line, a fragment of one finds nothing *)
Example token_search :
  let found p := @filter_keyword_indexed_window ascii_unicode literal_regex brace_json sample_window
                   (@build ascii_unicode (w_lines sample_window)) (sample_request p) in
  found "<ab12:Email_2>"%string = Ok (CleanText (String.concat newline ["{}"; "Login user=<ab12:Email_2> denied"]%string) []) ∧
  found "Email_2"%string = Ok (CleanText "{}" []).
Proof. split; vm_compute; reflexivity. Qed.

Lemma keyword_search_shows_matches_witness :
  @keyword_query_terms ascii_unicode (chars "LOGIN") ≠ [] ∧
  @filter_keyword_indexed_window ascii_unicode literal_regex brace_json sample_window
    (@build ascii_unicode (w_lines sample_window)) (sample_request "LOGIN") =
  Ok (CleanText (String.concat newline ["{}"; "login user=<ab12:Email_1> ok"]%string) [TrRows]).
Proof.
  assert (Ht : @keyword_query_terms ascii_unicode (chars (match_pattern (sample_request "LOGIN"))) ≠ [])
    by (vm_compute; discriminate).
  split; [exact Ht|].
  etransitivity; [exact (@keyword_search_shows_matches ascii_unicode literal_regex brace_json
    sample_window (sample_request "LOGIN") Ht)|].
  vm_compute. reflexivity.
Defined.

Lemma line_found_by_its_words_witness :
  Forall (fun t => t ∈ @indexed_line_terms ascii_unicode (chars "Login user=<ab12:Email_2> denied"))
    (@keyword_query_terms ascii_unicode (chars "denied <ab12:Email_2>")).
Proof.
  apply (@line_found_by_its_words ascii_unicode). intros word Hw.
  assert (E : split_whitespace (chars "denied <ab12:Email_2>") = [chars "denied"; [60] ++ chars "ab12:Email_2" ++ [62]])
    by (vm_compute; reflexivity).
  rewrite E in Hw. apply elem_of_cons in Hw as [->|Hw]; [left|right].
  - assert (El : split_whitespace (chars "Login user=<ab12:Email_2> denied") =
                 [chars "Login"; chars "user=<ab12:Email_2>"; chars "denied"]) by (vm_compute; reflexivity).
    rewrite El. apply elem_of_cons. right. apply elem_of_cons. right. by apply list_elem_of_singleton.
  - apply list_elem_of_singleton in Hw as ->. exists (chars "user="), (chars "ab12:Email_2"), [].
    assert (El : split_whitespace (chars "Login user=<ab12:Email_2> denied") =
                 [chars "Login"; chars "user=" ++ ([60] ++ chars "ab12:Email_2" ++ [62]) ++ []; chars "denied"])
      by (vm_compute; reflexivity).
    rewrite El. split_and!; [done| |vm_compute; reflexivity|vm_compute; reflexivity].
    apply elem_of_cons. right. apply elem_of_cons. by left.
Defined.
