(* ===== verification/Profile.v ===== *)
(** * Profiles

    Models src/src/profile.rs with the [AutoPurge] of
    src/src/session/maintenance.rs and the [RemoteConfig] of
    src/src/source/remote/mod.rs: profile names, password resolution, the
    check of rendered profile bytes, and the merge of the user's profiles into
    the project's.  TOML parsing, the environment and the keyring are
    arguments; a path is its text.  The theorem: merging cannot escalate what
    the project authorizes. *)

From Stdlib Require Import Sorted.
From S2P Require Import Prelude Utf8 Str Errors.

Inductive AutoPurge := Off | Warn | Purge.
#[global] Instance AutoPurge_eq_dec : EqDecision AutoPurge.
Proof. solve_decision. Defined.
Definition rank (a : AutoPurge) : N := match a with Off => 0 | Warn => 1 | Purge => 2 end.
Definition cap_with (a other : AutoPurge) : AutoPurge := if rank a <=? rank other then a else other.
Definition auto_purge_str (a : AutoPurge) : string :=
  match a with Off => "off" | Warn => "warn" | Purge => "purge" end.

Inductive SecretSpec :=
| SecretEnv (var : string)
| SecretKeyring (service account : string).

Record RemoteConfig := mkRemoteConfig {
  endpoint : string; server_name : string; trust_root : string; resource : string; secret : SecretSpec }.

(** the connection of the two database kinds *)
Record DbSource := mkDbSource {
  db_host : string; db_port : N; database : string; username : string; password_env : option string;
  db_secret : option SecretSpec; db_ssh_host : option string; db_local_port : option N;
  readonly_required : bool }.

Inductive SourceSpec :=
| RemoteMcpLog (config : RemoteConfig)
| Mysql (db : DbSource)
| Postgres (db : DbSource)
| Sqlite (path : string) (readonly_required : bool) (json_text_columns : list string)
| SshLog (host path : string)
| LocalLog (path : string).

Record Profile := mkProfile {
  name : string;
  source : SourceSpec;
  discovered_from_ssh_host : option string;
  discovered_from_path : option string;
  discovered_at : option string;
  discovered_ssh_host_key_fingerprint : option string;
  credential_class : option string;
  policy : option string;
  schema_tokenize : option bool;
  schema_allowlist : option (list string);
  production : bool;
  snapshot_retention_days : option N;
  auto_purge : AutoPurge }.

Definition schema_tokenize_or_default (p : Profile) : bool := default false (schema_tokenize p).

(** ** Names: what the pattern [^[a-z0-9][a-z0-9_-]{0,63}$] matches *)
Definition name_start (b : ascii) : bool := is_ascii_lower (code b) || is_ascii_digit (code b).
Definition name_byte (b : ascii) : bool := name_start b || beq b "_" || beq b "-".
Definition is_safe_profile_name (name : string) : bool :=
  match str_bytes name with
  | first :: rest => name_start first && forallb name_byte rest && (len rest <=? 63)
  | [] => false
  end.
Definition PROFILE_NAME_PATTERN : string := "^[a-z0-9][a-z0-9_-]{0,63}$".
Definition validate_profile_name (name : string) : result LensError unit :=
  if is_safe_profile_name name then Ok tt
  else Err (Errors.Profile (concat_str ["invalid profile name `"; name; "`; expected "; PROFILE_NAME_PATTERN]%string)).

(** ** Passwords *)
Definition profile_error {A} (parts : list string) : result LensError A := Err (Errors.Profile (concat_str parts)).
Definition sets_both (name : string) : list string :=
  ["profile `"; name; "` sets both `password_env` and `secret`; specify exactly one"]%string.
Definition sets_neither (name : string) : list string :=
  ["profile `"; name; "` has neither `password_env` nor `secret`; one is required for mysql/postgres profiles"]%string.

(** [env]: the environment; [keyring]: what the keyring task answers *)
Definition resolve_password (env : string → option string) (keyring : string → string → result LensError string)
    (p : Profile) : result LensError string :=
  match source p with
  | Sqlite _ _ _ => profile_error ["sqlite profiles do not have database passwords"]%string
  | SshLog _ _ => profile_error ["ssh_log profiles do not have database passwords"]%string
  | LocalLog _ => profile_error ["local_log profiles do not have database passwords"]%string
  | RemoteMcpLog _ => profile_error ["remote log profiles do not have database passwords"]%string
  | Mysql db | Postgres db =>
    match password_env db, db_secret db with
    | Some _, Some _ => profile_error (sets_both (name p))
    | Some var, None | None, Some (SecretEnv var) => ok_or (env var) (ProfileEnvMissing var)
    | None, Some (SecretKeyring service account) => keyring service account
    | None, None => profile_error (sets_neither (name p))
    end
  end.

(** ** Rendered bytes: no literal password assignment *)
Definition word_byte (b : ascii) : bool := is_ascii_alphanumeric (code b) || beq b "_".
(** [prev]: the byte before, if any *)
Definition password_at (prev : option ascii) (s : bytes) : bool :=
  bool_decide (str_bytes "password" `prefix_of` s) &&
  match prev with Some b => negb (word_byte b) | None => true end &&
  (let rest := drop 8 s in
   negb (bool_decide (str_bytes "_env" `prefix_of` rest)) &&
   match trim_start_matches (fun b => beq b " " || (code b =? 9)%N) rest with b :: _ => beq b "=" | [] => false end).
Fixpoint literal_password (prev : option ascii) (s : bytes) : bool :=
  match s with
  | [] => false
  | b :: s' => password_at prev s || literal_password (Some b) s'
  end.

(** [dest]: the display of the destination; [parse_error]: the error of the
    TOML parser for the text, if it has one *)
Definition validate_profile_bytes (utf8_error parse_error : bytes → option string) (bytes : bytes) (dest : string)
  : result LensError unit :=
  match utf8_error bytes with
  | Some err => profile_error ["generated profile bytes for "; dest; " are not utf-8: "; err]%string
  | None =>
    if literal_password None bytes then
      profile_error ["rendered profile "; dest; " contains a literal `password = ...` assignment; use `password_env` or `secret = { type = "; quoted "'keyring'"; ", ... }` instead"]%string
    else match parse_error bytes with Some err => Err (Errors.Profile err) | None => Ok tt end
  end.

(** [line_column] over the [char]s with their byte offsets *)
Fixpoint line_column_from (offset line column byte_index : N) (cs : list N) : N * N :=
  match cs with
  | [] => (line, column)
  | ch :: cs =>
    if byte_index <=? offset then (line, column)
    else if ch =? 10 then line_column_from (offset + len_utf8 ch) (line + 1) 1 byte_index cs
    else line_column_from (offset + len_utf8 ch) line (column + 1) byte_index cs
  end.
Definition line_column (cs : list N) (byte_index : N) : N * N := line_column_from 0 1 1 byte_index cs.

(** ** Merging *)
Record MergeWarning := mkMergeWarning { warned_profile : string; requested : AutoPurge }.
Definition warning_message (w : MergeWarning) : string :=
  concat_str ["gaze-lens: warning — profile `"; warned_profile w;
    "` is defined only in the user config and requested auto_purge = "; quoted "'"; auto_purge_str (requested w);
    quoted "'. Destructive purge requires project-level opt-in. Forcing auto_purge = 'off' for this profile."]%string.

(** [BTreeSet] of names: in byte order, each once *)
Fixpoint insert_name (n : string) (l : list string) : list string :=
  match l with
  | [] => [n]
  | m :: l' =>
    match String.compare n m with Lt => n :: l | Eq => l | Gt => m :: insert_name n l' end
  end.
Definition names (ps : list Profile) : list string := fold_left (fun l p => insert_name (name p) l) ps [].
(** the map of a list of profiles: the last of a name wins *)
Definition named (ps : list Profile) (n : string) : option Profile :=
  last (filter (fun p => name p = n) ps).

Definition with_auto_purge (p : Profile) (a : AutoPurge) : Profile :=
  mkProfile (name p) (source p) (discovered_from_ssh_host p) (discovered_from_path p) (discovered_at p)
    (discovered_ssh_host_key_fingerprint p) (credential_class p) (policy p) (schema_tokenize p)
    (schema_allowlist p) (production p) (snapshot_retention_days p) a.
Definition downgrade_user_only_profile (user : Profile) : Profile * option MergeWarning :=
  (with_auto_purge user Off,
   if decide (auto_purge user = Off) then None else Some (mkMergeWarning (name user) (auto_purge user))).

(** [Option::or], and the choice of the user's text unless it is empty *)
Definition or {A} (a b : option A) : option A := match a with Some _ => a | None => b end.
Definition unless_empty (user project : string) : string := if String.eqb user "" then project else user.

Definition merge_db (user project : DbSource) : DbSource :=
  mkDbSource (unless_empty (db_host user) (db_host project))
    (if db_port user =? 0 then db_port project else db_port user)
    (database project) (username project) (password_env project) (db_secret project)
    (or (db_ssh_host user) (db_ssh_host project)) (or (db_local_port user) (db_local_port project))
    (readonly_required project).

Definition merge_source (user project : SourceSpec) : SourceSpec :=
  match user, project with
  | Mysql u, Mysql p => Mysql (merge_db u p)
  | Postgres u, Postgres p => Postgres (merge_db u p)
  | Sqlite user_path _ user_columns, Sqlite project_path readonly project_columns =>
    Sqlite (unless_empty user_path project_path) readonly
      (match project_columns with [] => user_columns | _ => project_columns end)
  | SshLog user_host user_path, SshLog project_host project_path =>
    SshLog (unless_empty user_host project_host) (unless_empty user_path project_path)
  | LocalLog user_path, LocalLog project_path => LocalLog (unless_empty user_path project_path)
  | RemoteMcpLog u, RemoteMcpLog p =>
    RemoteMcpLog (mkRemoteConfig (endpoint u) (server_name u) (trust_root u) (resource p) (secret u))
  | _, project => project
  end.

Definition merge_one (user project : Profile) : Profile :=
  mkProfile (name project) (merge_source (source user) (source project))
    (or (discovered_from_ssh_host project) (discovered_from_ssh_host user))
    (or (discovered_from_path project) (discovered_from_path user))
    (or (discovered_at project) (discovered_at user))
    (or (discovered_ssh_host_key_fingerprint project) (discovered_ssh_host_key_fingerprint user))
    (or (credential_class project) (credential_class user))
    (or (policy project) (policy user))
    (or (schema_tokenize project) (schema_tokenize user))
    (or (schema_allowlist project) (schema_allowlist user))
    (production project || production user)
    (or (snapshot_retention_days project) (snapshot_retention_days user))
    (cap_with (auto_purge project) (auto_purge user)).

(** the closure of [filter_map]: the profile of a name, and its warning *)
Definition merge_name (users projects : list Profile) (n : string) : option (Profile * option MergeWarning) :=
  match named users n, named projects n with
  | Some user, Some project => Some (merge_one user project, None)
  | Some user, None => Some (downgrade_user_only_profile user)
  | None, Some project => Some (project, None)
  | None, None => None
  end.
Definition merge_profiles (user_profiles project_profiles : list Profile) : list Profile * list MergeWarning :=
  let merged := omap (merge_name user_profiles project_profiles) (names (user_profiles ++ project_profiles)) in
  (merged.*1, omap id merged.*2).

Definition post_merge_check (p : Profile) : result LensError unit :=
  match source p with
  | Mysql db | Postgres db =>
    match password_env db, db_secret db with
    | Some _, Some _ => profile_error (sets_both (name p))
    | None, None => profile_error (sets_neither (name p))
    | _, _ => Ok tt
    end
  | _ => Ok tt
  end.
Definition validate_post_merge (profiles : list Profile) : result LensError unit := for_each post_merge_check profiles.

(** [user] and [project]: what reading the two files yields, no profiles for a
    file that need not exist and does not *)
Definition load_profiles_with_warnings (user project : result LensError (list Profile))
  : result LensError (list Profile * list MergeWarning) :=
  user_profiles ← user;
  project_profiles ← project;
  let '(merged, warnings) := merge_profiles user_profiles project_profiles in
  _ ← validate_post_merge merged;
  Ok (merged, warnings).
Definition load_profile (n : string) (user project : result LensError (list Profile)) : result LensError Profile :=
  '(profiles, _) ← load_profiles_with_warnings user project;
  ok_or (head (filter (fun p => name p = n) profiles))
    (Errors.Profile (concat_str ["profile `"; n; "` not found"]%string)).

(** ** What a merge can and cannot do *)

(** the kind of a source *)
Definition source_kind (s : SourceSpec) : N :=
  match s with
  | RemoteMcpLog _ => 0 | Mysql _ => 1 | Postgres _ => 2 | Sqlite _ _ _ => 3 | SshLog _ _ => 4 | LocalLog _ => 5
  end.

Definition read_only (s : SourceSpec) : option bool :=
  match s with Mysql db | Postgres db => Some (readonly_required db) | Sqlite _ r _ => Some r | _ => None end.

(** [m] is the user's [u] when that says anything, else the project's [p] *)
Definition Given (u p m : string) : Prop := (u = "" → m = p) ∧ (u ≠ "" → m = u).
Definition Chosen {A} (first second m : option A) : Prop :=
  (∀ x, first = Some x → m = Some x) ∧ (first = None → m = second).

(** The project owns what is read and with which credentials, the user the way
    to it *)
Record DbOwned (u p m : DbSource) : Prop := {
  owned_database : database m = database p; owned_username : username m = username p;
  owned_password_env : password_env m = password_env p; owned_secret : db_secret m = db_secret p;
  owned_readonly : readonly_required m = readonly_required p;
  owned_host : Given (db_host u) (db_host p) (db_host m);
  owned_port : (db_port u = 0 → db_port m = db_port p) ∧ (db_port u ≠ 0 → db_port m = db_port u);
  owned_ssh : Chosen (db_ssh_host u) (db_ssh_host p) (db_ssh_host m);
  owned_local : Chosen (db_local_port u) (db_local_port p) (db_local_port m) }.
(** Of a remote log the project owns the resource alone: the service, its
    identity, the trust root and the credential are the user's *)
Record RemoteOwned (u p m : RemoteConfig) : Prop := {
  owned_resource : resource m = resource p; owned_endpoint : endpoint m = endpoint u;
  owned_server : server_name m = server_name u; owned_root : trust_root m = trust_root u;
  owned_credential : secret m = secret u }.
Definition SourceOwned (user project merged : SourceSpec) : Prop :=
  if decide (source_kind user = source_kind project) then
    match user, project, merged with
    | Mysql u, Mysql p, Mysql m | Postgres u, Postgres p, Postgres m => DbOwned u p m
    | Sqlite u _ cu, Sqlite p r cp, Sqlite m rm cm =>
      Given u p m ∧ rm = r ∧ (cp ≠ [] → cm = cp) ∧ (cp = [] → cm = cu)
    | SshLog uh up, SshLog ph pp, SshLog mh mp => Given uh ph mh ∧ Given up pp mp
    | LocalLog u, LocalLog p, LocalLog m => Given u p m
    | RemoteMcpLog u, RemoteMcpLog p, RemoteMcpLog m => RemoteOwned u p m
    | _, _, _ => False
    end
  else merged = project.

Lemma insert_name_elem n m l : m ∈ insert_name n l ↔ m = n ∨ m ∈ l.
Proof.
  induction l as [|x l IH]; cbn [insert_name]; [set_solver|].
  destruct (String.compare n x) eqn:E; [apply String.compare_eq_iff in E as ->| |]; set_solver.
Qed.

Lemma insert_name_sorted n l : Sorted (fun a b => str_lt a b = true) l → Sorted (fun a b => str_lt a b = true) (insert_name n l).
Proof.
  induction 1 as [|x l Hl IH Hx]; cbn [insert_name]; [by repeat constructor|].
  destruct (String.compare n x) eqn:E.
  - by constructor.
  - constructor; [by constructor|]. constructor. unfold str_lt. by rewrite E.
  - constructor; [done|]. assert (Hnx : str_lt x n = true) by (unfold str_lt; by rewrite String.compare_antisym, E).
    destruct Hx as [|y l Hy]; cbn [insert_name]; [by constructor|].
    destruct (String.compare n y); by constructor.
Qed.

Lemma names_elem ps n : n ∈ names ps ↔ ∃ p, p ∈ ps ∧ name p = n.
Proof.
  unfold names. assert (H : ∀ l, n ∈ fold_left (fun l p => insert_name (name p) l) ps l ↔
    n ∈ l ∨ ∃ p, p ∈ ps ∧ name p = n).
  { induction ps as [|p ps IH]; intros l; cbn [fold_left]; [set_solver|].
    rewrite IH, insert_name_elem. set_solver. }
  rewrite H. set_solver.
Qed.

Lemma names_sorted ps : Sorted (fun a b => str_lt a b = true) (names ps).
Proof.
  unfold names. assert (H : ∀ l, Sorted (fun a b => str_lt a b = true) l →
    Sorted (fun a b => str_lt a b = true) (fold_left (fun l p => insert_name (name p) l) ps l)).
  { induction ps as [|p ps IH]; intros l Hl; cbn [fold_left]; [done|]. by apply IH, insert_name_sorted. }
  apply H. constructor.
Qed.

Lemma named_some ps n p : named ps n = Some p → p ∈ ps ∧ name p = n.
Proof.
  unfold named. intros H%last_Some_elem_of. by apply list_elem_of_filter in H as [? ?].
Qed.

Lemma named_none ps n : named ps n = None ↔ ∀ p, p ∈ ps → name p ≠ n.
Proof.
  unfold named. rewrite last_None. split.
  - intros E p Hp Hn. assert (H : p ∈ filter (fun p => name p = n) ps) by by apply list_elem_of_filter.
    rewrite E in H. by apply elem_of_nil in H.
  - intros H. destruct (filter _ ps) as [|p l] eqn:E; [done|].
    assert (Hp : p ∈ filter (fun p => name p = n) ps) by (rewrite E; set_solver).
    apply list_elem_of_filter in Hp as [Hn Hp]. by apply H in Hp.
Qed.

Lemma cap_with_min a b : rank (cap_with a b) = N.min (rank a) (rank b).
Proof. by destruct a, b. Qed.
Lemma cap_with_le a b : rank (cap_with a b) <= rank a ∧ rank (cap_with a b) <= rank b.
Proof. rewrite cap_with_min. lia. Qed.

Lemma unless_empty_given u p : Given u p (unless_empty u p).
Proof. unfold Given, unless_empty. destruct (String.eqb_spec u ""); naive_solver. Qed.

Lemma or_chosen {A} (a b : option A) : Chosen a b (or a b).
Proof. unfold Chosen. destruct a; naive_solver. Qed.
#[local] Hint Resolve unless_empty_given or_chosen : core.

Lemma merge_db_owned u p : DbOwned u p (merge_db u p).
Proof. constructor; cbn; auto. destruct (N.eqb_spec (db_port u) 0); naive_solver. Qed.
#[local] Hint Resolve merge_db_owned : core.

Lemma merge_source_owned user project : SourceOwned user project (merge_source user project).
Proof.
  unfold SourceOwned. destruct user, project; cbn [source_kind merge_source]; case_decide; try done; auto.
  all: try by constructor.
  destruct json_text_columns0; naive_solver.
Qed.

Lemma merge_name_name users projects n p w : merge_name users projects n = Some (p, w) → name p = n.
Proof.
  unfold merge_name, downgrade_user_only_profile.
  destruct (named users n) eqn:Eu, (named projects n) eqn:Ep; intros H; simplify_eq/=.
  - by apply named_some in Ep as [_ ?].
  - by apply named_some in Eu as [_ ?].
  - by apply named_some in Ep as [_ ?].
Qed.

(** what the merged profile owes to those it was made from *)
Definition Authorized (user project : option Profile) (p : Profile) : Prop :=
  match user, project with
  | Some u, Some pr =>
    SourceOwned (source u) (source pr) (source p) ∧
    Chosen (policy pr) (policy u) (policy p) ∧
    Chosen (schema_tokenize pr) (schema_tokenize u) (schema_tokenize p) ∧
    Chosen (schema_allowlist pr) (schema_allowlist u) (schema_allowlist p) ∧
    Chosen (snapshot_retention_days pr) (snapshot_retention_days u) (snapshot_retention_days p) ∧
    (production p = true ↔ production pr = true ∨ production u = true) ∧
    rank (auto_purge p) = N.min (rank (auto_purge pr)) (rank (auto_purge u))
  | None, Some pr => p = pr
  | Some u, None => p = with_auto_purge u Off
  | None, None => False
  end.

Lemma merge_name_authorized users projects n p w :
  merge_name users projects n = Some (p, w) → Authorized (named users n) (named projects n) p.
Proof.
  unfold merge_name, downgrade_user_only_profile, Authorized.
  destruct (named users n) as [u|], (named projects n) as [pr|]; intros H; simplify_eq/=; try done.
  split_and!; try apply or_chosen; [apply merge_source_owned|apply orb_true_iff|apply cap_with_min].
Qed.

(** C30. Merging never escalates: the merged profiles are one for each name of
    either file, in order, the last of a name in a file being the one that
    counts.  One only the project defines is the project's.  One both define
    keeps, from the project, the kind of the source, its read-only demand, the
    database with its user name and password reference, or a remote log's
    resource, and its policy, schema presentation, allowlist and retention
    where it has them (the user's otherwise), and the whole source when the
    two are of different kinds; the user's file sets what it gives of host, port, SSH host, local port and paths, and of a remote log
    the endpoint, its identity, the trust root and the credential; the profile
    is production if either file says so, and purges no more than the less
    destructive of the two.  One only the user defines never purges, with
    exactly one warning when it asked to. *)
Theorem merge_never_escalates users projects :
  let '(merged, warnings) := merge_profiles users projects in
  Sorted (fun a b => str_lt a b = true) (name <$> merged) ∧
  (∀ n, n ∈ name <$> merged ↔ ∃ p, (p ∈ users ∨ p ∈ projects) ∧ name p = n) ∧
  (∀ p, p ∈ merged → Authorized (named users (name p)) (named projects (name p)) p) ∧
  (∀ w, w ∈ warnings ↔ ∃ u, named users (warned_profile w) = Some u ∧
     named projects (warned_profile w) = None ∧ requested w = auto_purge u ∧ auto_purge u ≠ Off).
Proof.
  unfold merge_profiles. set (ns := names (users ++ projects)). set (f := merge_name users projects).
  assert (Hf : ∀ n, n ∈ ns → ∃ p w, f n = Some (p, w)).
  { intros n (p & [Hp|Hp]%elem_of_app & Hn)%names_elem; unfold f, merge_name.
    - destruct (named users n) eqn:E; [|by eapply named_none in E; [|exact Hp]].
      destruct (named projects n), (downgrade_user_only_profile p0); eauto.
    - destruct (named projects n) eqn:E; [|by eapply named_none in E; [|exact Hp]].
      destruct (named users n); eauto. }
  assert (Hn : name <$> (omap f ns).*1 = ns).
  { clearbody ns. induction ns as [|n ns IH]; [done|]. destruct (Hf n) as (p & w & E); [set_solver|].
    cbn [omap list_omap]. rewrite E. cbn [fmap list_fmap fst]. rewrite (merge_name_name _ _ _ _ _ E). f_equal.
    apply IH. intros m Hm. apply Hf. set_solver. }
  rewrite Hn. split_and!.
  - apply names_sorted.
  - intros n. unfold ns. rewrite names_elem. set_solver.
  - intros p Hp. apply list_elem_of_fmap in Hp as ([p' w] & -> & Hp). cbn [fst].
    apply list_elem_of_omap in Hp as (n & _ & E). rewrite (merge_name_name _ _ _ _ _ E) in *.
    by apply (merge_name_authorized _ _ _ _ _ E).
  - intros w. rewrite list_elem_of_omap. split.
    + intros (ow & Hw & Ew). cbn in Ew. subst ow. apply list_elem_of_fmap in Hw as ([p' w'] & Ew' & Hp).
      cbn [snd] in Ew'. subst w'. apply list_elem_of_omap in Hp as (n & _ & E). unfold f, merge_name in E.
      destruct (named users n) as [u|] eqn:Eu, (named projects n) eqn:Ep; try done.
      unfold downgrade_user_only_profile in E. destruct (decide (auto_purge u = Off)); simplify_eq/=.
      apply named_some in Eu as Hu. destruct Hu as [_ <-]. exists u. auto.
    + intros (u & Hu & Hp & Hr & Ho). exists (Some w). split; [|done].
      apply list_elem_of_fmap. exists (with_auto_purge u Off, Some w). split; [done|].
      apply list_elem_of_omap. exists (warned_profile w). apply named_some in Hu as Hin. destruct Hin as [Hin Hname]. split.
      { unfold ns. apply names_elem. exists u. split; [set_solver|done]. }
      unfold f, merge_name. rewrite Hu, Hp. unfold downgrade_user_only_profile. rewrite decide_False by done.
      do 3 f_equal. destruct w. cbn in *. congruence.
Qed.
