(* ===== verification/Policy.v ===== *)
(** * Policies

    Models src/src/policy.rs: the policy file, the per-column actions, the
    checks of a policy, and the pipeline built from one.  A pipeline is the
    list of detectors and rules given to Gaze's builder, in order; loading a
    detector and building the pipeline are Gaze's and are a class.  The
    theorem: a remote log profile that passes its checks never gets a
    pipeline that preserves a detected span. *)

From S2P Require Import Prelude Utf8 Str Errors LensValue Profile.

(** ** Gaze's types *)
Inductive Action := Tokenize | Redact | FormatPreserve | Generalize | Preserve.
Inductive PiiClass := Email | Name | Location | Organization | Custom (name : string).
#[global] Instance Action_eq_dec : EqDecision Action.
Proof. solve_decision. Defined.

(** what the loaders are asked for; a [Ner] has Gaze's default threshold *)
Inductive Detector :=
| Emails
| Ner (model_dir : string) (locale : option string)
| Pattern (pattern : string) (class : PiiClass) (label : string)
| PlainPattern (pattern : string) (class : PiiClass).
Inductive BuilderStep :=
| AddDetector (d : Detector)
| AddColumnRule (column : string) (action : Action)
| AddClassRule (class : PiiClass) (action : Action)
| AddDefaultRule (action : Action).

Class GazeBuilder := {
  Pipeline : Type;
  (** [PiiClass::custom] *)
  pii_custom : string → PiiClass;
  (** loading a detector, or the error's text *)
  load_detector : Detector → result string unit;
  (** [build] of what was added *)
  build_steps : list BuilderStep → result string Pipeline;
}.

(** ** The policy file

    [policy] and [policy.database] are flattened into [default_action],
    [column_rules] and [logs].  [connection] is only parsed, nothing in the
    repository's policies reads it. *)
Record ColumnRule := mkColumnRule { cr_column : string; cr_class : string; cr_action : option string }.
Record LogsPolicy := mkLogsPolicy {
  logs_path : option string; strip_patterns : list string; logs_action : option string }.
Record SessionConfig := mkSessionConfig { scope : string; ttl_secs : option N }.
Record NerSection := mkNerSection { model_dir : option string; locale : option string }.
Record PolicyFile := mkPolicyFile {
  pf_session : SessionConfig; pf_ner : NerSection; default_action : option string;
  column_rules : list ColumnRule; logs : option LogsPolicy }.

Definition default_session_scope : string := "conversation".

(** [PipelineError] carries the text of a Gaze error, [NerLoad] included *)
Inductive PolicyError :=
| InvalidAction (column action : string)
| UnknownPiiClass (column class : string)
| UnsupportedSessionScope (scope : string)
| PipelineError (detail : string)
| Recognizer (detail : string)
| ProductionNerRequired (profile : string).

Definition policy_error_display (e : PolicyError) : string :=
  match e with
  | InvalidAction column action => concat_str ["invalid action `"; action; "` for column `"; column; "`"]
  | UnknownPiiClass column class => concat_str ["unknown pii class `"; class; "` for column `"; column; "`"]
  | UnsupportedSessionScope scope =>
    concat_str [quoted "policy.session.scope = '"; scope;
      quoted "' is not supported in v0.1; only 'conversation' is accepted. See SPEC.md §session-lifecycle."]
  | PipelineError detail => concat_str ["pipeline build failed: "; detail]
  | Recognizer detail => concat_str ["recognizer build failed: "; detail]
  | ProductionNerRequired profile =>
    concat_str ["profile `"; profile; "` is marked `production = true` but its policy has no `[ner].model_dir`; production profiles require a configured NER model so person names cannot leak unredacted. Configure `[ner].model_dir` in the profile's policy file, or remove `production = true`."]
  end%string.

Definition parse_action (raw column : string) : result PolicyError Action :=
  if String.eqb raw "tokenize" then Ok Tokenize
  else if String.eqb raw "redact" then Ok Redact
  else if String.eqb raw "format_preserve" then Ok FormatPreserve
  else if String.eqb raw "generalize" then Ok Generalize
  else if String.eqb raw "preserve" then Ok Preserve
  else Err (InvalidAction column raw).

Definition parse_log_strip_action (raw : option string) : result PolicyError Action :=
  let raw := default "redact"%string raw in
  action ← parse_action raw "policy.logs.action";
  match action with
  | Redact | Tokenize => Ok action
  | _ => Err (InvalidAction "policy.logs.action" raw)
  end.

Section Policy.
Context `{GazeBuilder}.

Definition parse_class (raw column : string) : result PolicyError PiiClass :=
  if String.eqb raw "email" then Ok Email
  else if String.eqb raw "name" then Ok Name
  else if String.eqb raw "location" then Ok Location
  else if String.eqb raw "organization" then Ok Organization
  else if negb (is_nil (trim (chars raw))) then Ok (pii_custom raw)
  else Err (UnknownPiiClass column raw).

(** ** Per-column actions *)
Record ColumnAction := mkColumnAction { ca_action : Action; ca_class : PiiClass }.
Definition ColumnActionPolicy : Type := gmap string ColumnAction.

Definition rule_action (rule : ColumnRule) : result PolicyError Action :=
  parse_action (default "tokenize"%string (cr_action rule)) (cr_column rule).
Fixpoint actions_from (rules : list ColumnRule) (actions : ColumnActionPolicy) : result PolicyError ColumnActionPolicy :=
  match rules with
  | [] => Ok actions
  | rule :: rules =>
    action ← rule_action rule;
    class ← parse_class (cr_class rule) (cr_column rule);
    actions_from rules (<[cr_column rule := mkColumnAction action class]> actions)
  end.
Definition from_policy_file (p : PolicyFile) : result PolicyError ColumnActionPolicy := actions_from (column_rules p) ∅.
Definition action_for (p : ColumnActionPolicy) (column : string) : option ColumnAction := p !! column.

(** ** Checks *)

(** scope, time to live and bundled rule packs of the Gaze policy *)
Record GazePolicy := mkGazePolicy { gaze_ttl_secs : option N; bundled : list string }.
Definition to_gaze_policy (p : PolicyFile) : result PolicyError GazePolicy :=
  if eq_ignore_ascii_case (scope (pf_session p)) "conversation"
  then Ok (mkGazePolicy (ttl_secs (pf_session p)) ["core"]%string)
  else Err (UnsupportedSessionScope (scope (pf_session p))).

Definition log_strip : PiiClass := pii_custom "log_strip".
Definition strip_label (index : N) : string := concat_str ["log-strip-"; num index]%string.
Definition load (d : Detector) : result PolicyError unit := map_err (load_detector d) Recognizer.
(** the loop over [strip_patterns]: the detectors, from [index] *)
Fixpoint strip_detectors (index : N) (patterns : list string) : result PolicyError (list BuilderStep) :=
  match patterns with
  | [] => Ok []
  | pattern :: patterns =>
    let d := Pattern pattern log_strip (strip_label index) in
    _ ← load d;
    steps ← strip_detectors (index + 1) patterns;
    Ok (AddDetector d :: steps)
  end.

Definition parse_default_action (p : PolicyFile) : result PolicyError Action :=
  parse_action (default "preserve"%string (default_action p)) "policy.default_action".

Definition validate_policy_file (p : PolicyFile) : result PolicyError unit :=
  _ ← to_gaze_policy p;
  _ ← from_policy_file p;
  _ ← parse_default_action p;
  match logs p with
  | None => Ok tt
  | Some logs =>
    _ ← strip_detectors 0 (strip_patterns logs);
    if is_nil (strip_patterns logs) then Ok tt
    else _ ← parse_log_strip_action (logs_action logs); Ok tt
  end.

Definition safe (action : option string) : bool :=
  match action with Some a => String.eqb a "tokenize" || String.eqb a "redact" | None => false end.
Definition remote_policy_message : string :=
  "remote profiles require an explicit policy with default_action tokenize or redact and only tokenize/redact column overrides".
Definition enforce_remote_output_policy (profile : Profile) (p : PolicyFile) : result LensError unit :=
  match source profile with
  | RemoteMcpLog _ =>
    if match policy profile with None => true | Some _ => false end ||
       negb (safe (default_action p)) ||
       existsb (fun r => negb (safe (Some (default "tokenize"%string (cr_action r))))) (column_rules p)
    then Err (Errors.Profile remote_policy_message)
    else Ok tt
  | _ => Ok tt
  end.

Definition enforce_production_ner (profile_name : string) (production : bool) (p : PolicyFile) : result PolicyError unit :=
  if production && match model_dir (pf_ner p) with None => true | Some _ => false end
  then Err (ProductionNerRequired profile_name) else Ok tt.

(** ** The pipeline *)
Fixpoint column_steps (rules : list ColumnRule) : result PolicyError (list BuilderStep) :=
  match rules with
  | [] => Ok []
  | rule :: rules =>
    action ← rule_action rule;
    class ← parse_class (cr_class rule) (cr_column rule);
    steps ← column_steps rules;
    Ok (AddColumnRule (cr_column rule) action :: AddClassRule class action :: steps)
  end.

Definition ner_steps (p : PolicyFile) : result PolicyError (list BuilderStep) :=
  match model_dir (pf_ner p) with
  | None => Ok []
  | Some dir =>
    let d := Ner dir (locale (pf_ner p)) in
    _ ← map_err (load_detector d) PipelineError;
    Ok [AddDetector d]
  end.

Definition logs_steps (p : PolicyFile) : result PolicyError (list BuilderStep) :=
  match logs p with
  | None => Ok []
  | Some logs =>
    steps ← strip_detectors 0 (strip_patterns logs);
    if is_nil (strip_patterns logs) then Ok steps
    else
      action ← parse_log_strip_action (logs_action logs);
      Ok (steps ++ [AddClassRule log_strip action])
  end.

(** what is given to the builder *)
Definition pipeline_steps (p : PolicyFile) : result PolicyError (list BuilderStep) :=
  _ ← load Emails;
  ner ← ner_steps p;
  columns ← column_steps (column_rules p);
  logs ← logs_steps p;
  action ← parse_default_action p;
  Ok ([AddDetector Emails] ++ ner ++ columns ++ logs ++ [AddDefaultRule action]).
Definition build_pipeline (p : PolicyFile) : result PolicyError Pipeline :=
  steps ← pipeline_steps p;
  map_err (build_steps steps) PipelineError.
End Policy.

(** ** What a policy that passes its checks builds *)

(** the actions a list of steps can apply to a detected span *)
Definition step_action (s : BuilderStep) : option Action :=
  match s with
  | AddDetector _ => None
  | AddColumnRule _ a | AddClassRule _ a | AddDefaultRule a => Some a
  end.
Definition hides (a : Action) : Prop := a = Tokenize ∨ a = Redact.

(** every action the steps can take hides *)
Definition all_hide (steps : list BuilderStep) : Prop := Forall hides (omap step_action steps).
Lemma all_hide_app a b : all_hide a → all_hide b → all_hide (a ++ b).
Proof.
  unfold all_hide. induction a as [|s a IH]; [done|]. cbn. destruct (step_action s); [|done].
  inversion 1; subst. constructor; auto.
Qed.

Lemma all_hide_one s a : step_action s = Some a → hides a → all_hide [s].
Proof. intros E Ha. unfold all_hide. cbn. rewrite E. by constructor. Qed.

Section Facts.
Context `{GazeBuilder}.

Lemma safe_hides raw column a : safe (Some raw) = true → parse_action raw column = Ok a → hides a.
Proof.
  unfold safe, parse_action, hides. destruct (String.eqb raw "tokenize"); [intros _ [= <-]; by left|].
  destruct (String.eqb raw "redact"); [intros _ [= <-]; by right|done].
Qed.

Lemma strip_detectors_actions i ps steps : strip_detectors i ps = Ok steps → omap step_action steps = [].
Proof.
  revert i steps. induction ps as [|p ps IH]; intros i steps; cbn [strip_detectors]; [by intros [= <-]|].
  intros Hs. open_bind Hs as u Hu. open_bind Hs as ss Hss. injection Hs as <-. cbn. by apply IH in Hss.
Qed.

Lemma column_steps_actions rules steps :
  column_steps rules = Ok steps →
  Forall (fun a => ∃ r, r ∈ rules ∧ rule_action r = Ok a) (omap step_action steps).
Proof.
  revert steps. induction rules as [|r rules IH]; intros steps; cbn [column_steps]; [intros [= <-]; constructor|].
  intros Hs. open_bind Hs as a Ha. open_bind Hs as c Hc. open_bind Hs as ss Hss. injection Hs as <-.
  cbn. repeat constructor; [exists r; set_solver..|].
  eapply Forall_impl; [by apply IH|]. intros b (r' & ? & ?). exists r'. set_solver.
Qed.

Lemma log_strip_hides raw a : parse_log_strip_action raw = Ok a → hides a.
Proof.
  unfold parse_log_strip_action, hides. intros Hs. open_bind Hs as b Hb.
  destruct b; simplify_eq; auto.
Qed.

Lemma remote_policy_ok profile p :
  enforce_remote_output_policy profile p = Ok tt → source_kind (source profile) = 0 →
  (∃ path, policy profile = Some path) ∧ safe (default_action p) = true ∧
  Forall (fun r => safe (Some (default "tokenize"%string (cr_action r))) = true) (column_rules p).
Proof.
  unfold enforce_remote_output_policy. destruct (source profile); try done. intros E _.
  destruct (policy profile) as [path|]; [|done]. cbn [orb] in E. split; [by exists path|].
  destruct (safe (default_action p)); [|done]. cbn [negb orb] in E. split; [done|].
  destruct (existsb _ _) eqn:Ex; [done|]. apply Forall_forall. intros r Hr.
  apply not_false_is_true. intros Hs. apply not_true_iff_false in Ex. apply Ex.
  apply existsb_Exists, Exists_exists. exists r. by rewrite Hs.
Qed.

Lemma validated_columns p : is_ok (from_policy_file p) = true → is_ok (column_steps (column_rules p)) = true.
Proof.
  unfold from_policy_file. generalize (∅ : ColumnActionPolicy).
  induction (column_rules p) as [|r rules IH]; intros m; [done|]. cbn [actions_from column_steps].
  destruct (rule_action r) as [a|]; [|done]. cbn [mbind result_bind].
  destruct (parse_class _ _) as [c|]; [|done]. cbn [mbind result_bind]. intros Hm%IH.
  by destruct (column_steps rules).
Qed.

Lemma remote_steps_hide profile p steps :
  enforce_remote_output_policy profile p = Ok tt → source_kind (source profile) = 0 → pipeline_steps p = Ok steps →
  Forall hides (omap step_action steps) ∧ ∃ pre a, steps = pre ++ [AddDefaultRule a] ∧ hides a.
Proof.
  intros Hr Hk Hs. destruct (remote_policy_ok profile p Hr Hk) as (_ & Hd & Hc).
  unfold pipeline_steps in Hs. open_bind Hs as u Hu. open_bind Hs as ner Hner.
  open_bind Hs as columns Hcols. open_bind Hs as ls Hls. open_bind Hs as a Ha. injection Hs as <-.
  assert (Hha : hides a).
  { unfold parse_default_action in Ha. destruct (default_action p) as [raw|]; [|done]. by eapply safe_hides. }
  split; [|exists ([AddDetector Emails] ++ ner ++ columns ++ ls), a; split; [by rewrite <- !app_assoc|done]].
  apply (all_hide_app [AddDetector Emails]); [constructor|].
  apply all_hide_app; [|apply all_hide_app; [|apply all_hide_app; [|by eapply all_hide_one]]]; unfold all_hide.
  - unfold ner_steps in Hner. destruct (model_dir _); [|injection Hner as <-; constructor].
    open_bind Hner as v Hld. injection Hner as <-. constructor.
  - eapply Forall_impl; [by apply column_steps_actions|]. intros b (r & Hin & Hb).
    rewrite Forall_forall in Hc. by eapply safe_hides; [apply (Hc r)|].
  - unfold logs_steps in Hls. destruct (logs p) as [l|]; [|injection Hls as <-; constructor].
    open_bind Hls as st Hst. apply strip_detectors_actions in Hst. destruct (is_nil _).
    + injection Hls as <-. by rewrite Hst.
    + open_bind Hls as la Hla. injection Hls as <-. apply all_hide_app; [unfold all_hide; by rewrite Hst|].
      eapply (all_hide_one (AddClassRule log_strip la)); [done|]. by eapply log_strip_hides.
Qed.

(** a policy that passed validation only fails to build if Gaze refuses *)
Lemma validated_builds p :
  validate_policy_file p = Ok tt → is_ok (load_detector Emails) = true → is_ok (ner_steps p) = true →
  ∃ steps, pipeline_steps p = Ok steps.
Proof.
  intros Hv He Hn. unfold validate_policy_file in Hv. open_bind Hv as g Hg. open_bind Hv as actions Hac.
  open_bind Hv as dflt Hdf. unfold pipeline_steps, load. destruct (load_detector Emails); [|done]. cbn [map_err mbind result_bind].
  destruct (ner_steps p); [|done]. cbn [mbind result_bind].
  assert (Hcs : is_ok (column_steps (column_rules p)) = true) by (apply validated_columns; by rewrite Hac).
  destruct (column_steps (column_rules p)); [|done]. cbn [mbind result_bind].
  unfold logs_steps. destruct (logs p) as [l|]; cbn [mbind result_bind].
  - open_bind Hv as steps Hst. rewrite Hst. cbn [mbind result_bind]. destruct (is_nil _).
    + cbn [mbind result_bind]. rewrite Hdf. eauto.
    + open_bind Hv as la Hla. rewrite Hla. cbn [mbind result_bind]. rewrite Hdf. eauto.
  - rewrite Hdf. eauto.
Qed.

(** C29. Remote text is never preserved: if a policy passes validation and the
    remote check for a remote log profile, every action its pipeline can take
    on a detected span, by column, class, log pattern or default, is to
    tokenize or to redact; the default rule is the last step and is there;
    and the only way left for the pipeline not to build is Gaze refusing a
    detector or the build. *)
Theorem remote_pipeline_hides profile p :
  validate_policy_file p = Ok tt →
  enforce_remote_output_policy profile p = Ok tt → source_kind (source profile) = 0 →
  (is_ok (load_detector Emails) = true → is_ok (ner_steps p) = true → ∃ steps, pipeline_steps p = Ok steps) ∧
  ∀ steps, pipeline_steps p = Ok steps →
    Forall hides (omap step_action steps) ∧ ∃ pre a, steps = pre ++ [AddDefaultRule a] ∧ hides a.
Proof.
  intros Hv Hr Hk. split; [by apply validated_builds|]. intros steps. by apply (remote_steps_hide profile).
Qed.
End Facts.

(** ** A concrete policy *)
Definition sample_gaze : GazeBuilder :=
  {| Pipeline := list BuilderStep; pii_custom := Custom; load_detector := fun _ => Ok tt; build_steps := Ok |}.
Definition sample_policy : PolicyFile :=
  mkPolicyFile (mkSessionConfig "Conversation" None) (mkNerSection None None) (Some "redact"%string)
    [mkColumnRule "email" "email" None] (Some (mkLogsPolicy None ["Bob"]%string None)).
Definition sample_remote : Profile :=
  mkProfile "prod" (RemoteMcpLog (mkRemoteConfig "10.0.0.1:9000" "logs" "/ca.pem" "app" (SecretEnv "TOKEN")))
    None None None None None (Some "policy.toml"%string) None None true None Off.

Lemma remote_pipeline_hides_witness :
  @validate_policy_file sample_gaze sample_policy = Ok tt ∧
  ∃ steps, @pipeline_steps sample_gaze sample_policy = Ok steps ∧ length steps = 6%nat ∧
    Forall hides (omap step_action steps).
Proof.
  assert (Hv : @validate_policy_file sample_gaze sample_policy = Ok tt) by (vm_compute; reflexivity).
  split; [exact Hv|].
  assert (He : enforce_remote_output_policy sample_remote sample_policy = Ok tt) by (vm_compute; reflexivity).
  destruct (@remote_pipeline_hides sample_gaze sample_remote sample_policy Hv He eq_refl) as [_ H].
  eexists. split; [vm_compute; reflexivity|]. split; [reflexivity|].
  apply H. vm_compute. reflexivity.
Defined.
