(* ===== verification/Session.v ===== *)
(** * Sessions

    Models src/src/session/mod.rs: which profile a call belongs to, the
    registries of pipelines, column policies and sources, the redaction of a
    source's output under the output caps, and the core call of a tool.

    Gaze is a class of functions (what the pipeline and the session answer);
    a timeout is a missing answer.  A row is its entries in key order, as the
    B-tree yields them.  A mutex-guarded map is its value: every method locks
    once.  The snapshot file is in [Manifest]. *)

From S2P Require Import Prelude Utf8 Str Errors LensValue Profile Policy LogSource Output.

(** ** Gaze, as the session calls it *)
Inductive FieldsDocument := FieldsStructured (fields : list (string * GazeValue)) | FieldsText | FieldsOther.
Class GazeSession := {
  (** [Pipeline::redact] of a text and of structured fields *)
  gz_redact : string → result string CleanDocument;
  gz_redact_fields : list (string * GazeValue) → result string FieldsDocument;
  (** [Session::tokenize] and [format_preserving_fake] *)
  gz_tokenize : PiiClass → string → result string string;
  gz_fake : PiiClass → string → result string string;
  (** the derived serialization of a value that is not bytes *)
  lens_to_value : LensValue → result string json;
}.

Record OutputCaps := mkOutputCaps {
  caps_rows : N; caps_bytes : N; caps_cell_bytes : N; caps_line_bytes : N; caps_timeout : N }.
Definition default_caps : OutputCaps := mkOutputCaps 1000 (1024 * 1024) (32 * 1024) (8 * 1024) (30 * NANOS).

Inductive SourceOutput :=
| OutRows (rows : list (list (string * LensValue)))
| OutText (text : string)
| OutSchemaText (text : string)
| OutTextWithTruncation (text : string) (truncated_at : list TruncatedAt).

(** ** Capping text *)

(** [while !value.is_char_boundary(end) { end -= 1 }] *)
Fixpoint boundary_before (value : bytes) (end_ : nat) : nat :=
  match end_ with
  | O => O
  | S e => if is_char_boundary value end_ then end_ else boundary_before value e
  end.
Definition cap_string (value : string) (max_bytes : N) : string * bool :=
  if slen value <=? max_bytes then (value, false)
  else
    let b := str_bytes value in
    (str_of (take (boundary_before b (N.to_nat max_bytes)) b), true).

(** ** Column actions *)
Definition generalize_column_value (class : PiiClass) : string :=
  match class with
  | Email => "[EMAIL]" | Name => "[NAME]" | Location => "[LOCATION]" | Organization => "[ORGANIZATION]"
  | Custom name => concat_str ["["; to_ascii_uppercase name; "]"]
  end%string.

Section Redaction.
Context `{GazeSession, JsonText}.

(** Gaze may add actions: the code refuses them *)
Definition apply_action_to_text (text : string) (ca : ColumnAction) : result LensError string :=
  match ca_action ca with
  | Tokenize => map_err (gz_tokenize (ca_class ca) text) RedactionFailed
  | Redact => Ok "[REDACTED]"%string
  | FormatPreserve => map_err (gz_fake (ca_class ca) text) RedactionFailed
  | Generalize => Ok (generalize_column_value (ca_class ca))
  | Preserve => Ok text
  end.

Fixpoint apply_column_action_to_json (ca : ColumnAction) (v : json) : result LensError json :=
  match v with
  | JString text => t ← apply_action_to_text text ca; Ok (JString t)
  | JArray values =>
    values ← (fix go l := match l with
      | [] => Ok []
      | v :: l => v ← apply_column_action_to_json ca v; l ← go l; Ok (v :: l)
      end) values;
    Ok (JArray values)
  | JObject values =>
    values ← (fix go l := match l with
      | [] => Ok []
      | (k, v) :: l => v ← apply_column_action_to_json ca v; l ← go l; Ok ((k, v) :: l)
      end) values;
    Ok (JObject values)
  | JNull | JBool _ | JNumber _ => Ok v
  end.

Definition apply_column_action (v : LensValue) (ca : ColumnAction) : result LensError LensValue :=
  match v with
  | LString text => t ← apply_action_to_text text ca; Ok (LString t)
  | LJson j => j ← apply_column_action_to_json ca j; Ok (LJson j)
  | _ => _ ← map_err (lower_for_redaction v) ConvertError; Ok v
  end.

(** ** Cells *)
Definition TRUNCATED_CELL : json := JString "<TRUNCATED:cell_bytes>".
Definition json_size (v : json) : N := slen (json_to_string v).

Definition insert_capped_cell (row : json_map) (key : string) (cell : json) (truncated_at : list TruncatedAt)
    (max_bytes : N) : json_map * list TruncatedAt :=
  if max_bytes <? json_size cell
  then (map_insert key TRUNCATED_CELL row, push_truncation truncated_at TrCellBytes)
  else (map_insert key cell row, truncated_at).

Definition lens_value_to_json (v : LensValue) : result LensError json :=
  match v with
  | LBytes base64 n =>
    Ok (json_object [("type"%string, JString "bytes"); ("base64"%string, JString base64); ("len"%string, json_number n)])
  | v => map_err (lens_to_value v) (fun detail => ConvertError (Decode "json" detail))
  end.

(** ** Rows *)

(** the body of the loop over the fields of a row *)
Definition redact_field (actions : ColumnActionPolicy) (key : string) (v : LensValue)
  : result LensError (LensValue * option GazeValue) :=
  v ← (match action_for actions key with Some ca => apply_column_action v ca | None => Ok v end);
  v ← (match v with
       | LString _ | LJson (JString _) => Ok v
       | _ => redact_with gz_redact v
       end);
  lowered ← map_err (lower_for_redaction v) ConvertError;
  Ok (v, lowered).

(** the redacted row and the fields for the pipeline *)
Fixpoint redact_fields (actions : ColumnActionPolicy) (row : list (string * LensValue))
  : result LensError (list (string * LensValue) * list (string * GazeValue)) :=
  match row with
  | [] => Ok ([], [])
  | (key, v) :: row =>
    '(v, lowered) ← redact_field actions key v;
    '(redacted_row, raw_fields) ← redact_fields actions row;
    Ok ((key, v) :: redacted_row, match lowered with Some g => (key, g) :: raw_fields | None => raw_fields end)
  end.

Definition pipeline_fields (raw_fields : list (string * GazeValue)) : result LensError (list (string * GazeValue)) :=
  redacted ← map_err (gz_redact_fields raw_fields) RedactionFailed;
  match redacted with
  | FieldsStructured fields => Ok fields
  | FieldsText => Err (RedactionFailed "structured rows produced text output")
  | FieldsOther => Err (RedactionFailed "structured rows produced unsupported output")
  end.

(** [redacted_fields.get(&key)] *)
Fixpoint field_of (fields : list (string * GazeValue)) (key : string) : option GazeValue :=
  match fields with
  | [] => None
  | (k, g) :: fields => if String.eqb key k then Some g else field_of fields key
  end.

Definition cell_of (fields : list (string * GazeValue)) (key : string) (v : LensValue) : result LensError json :=
  match field_of fields key with
  | Some redacted => gaze_value_to_json redacted
  | None => lens_value_to_json v
  end.

Fixpoint cells (cell_bytes : N) (fields : list (string * GazeValue)) (row : list (string * LensValue))
    (out : json_map) (truncated_at : list TruncatedAt) : result LensError (json_map * list TruncatedAt) :=
  match row with
  | [] => Ok (out, truncated_at)
  | (key, v) :: row =>
    cell ← cell_of fields key v;
    let '(out, truncated_at) := insert_capped_cell out key cell truncated_at cell_bytes in
    cells cell_bytes fields row out truncated_at
  end.

Definition redact_row (caps : OutputCaps) (actions : ColumnActionPolicy) (row : list (string * LensValue))
    (truncated_at : list TruncatedAt) : result LensError (json_map * list TruncatedAt) :=
  '(redacted_row, raw_fields) ← redact_fields actions row;
  fields ← pipeline_fields raw_fields;
  cells (caps_cell_bytes caps) fields redacted_row [] truncated_at.

(** the loop over the rows; breaking out of it ends it *)
Fixpoint rows_loop (caps : OutputCaps) (actions : ColumnActionPolicy) (rows : list (list (string * LensValue)))
    (clean_rows : list json_map) (total_bytes : N) (truncated_at : list TruncatedAt)
  : result LensError (list json_map * list TruncatedAt) :=
  match rows with
  | [] => Ok (clean_rows, truncated_at)
  | row :: rows =>
    '(out, truncated_at) ← redact_row caps actions row truncated_at;
    let row_bytes := json_size (JObject out) in
    if caps_bytes caps <? saturating_add total_bytes row_bytes
    then Ok (clean_rows, push_truncation truncated_at TrBytes)
    else rows_loop caps actions rows (clean_rows ++ [out]) (total_bytes + row_bytes) truncated_at
  end.

Definition redact_rows (caps : OutputCaps) (actions : ColumnActionPolicy) (rows : list (list (string * LensValue)))
  : result LensError CleanOutput :=
  let truncated_at := if caps_rows caps <? len rows then [TrRows] else [] in
  '(clean_rows, truncated_at) ← rows_loop caps actions (take (N.to_nat (caps_rows caps)) rows) [] 0 truncated_at;
  Ok (CleanRows clean_rows truncated_at).

(** ** Text *)
Definition redact_text_output (caps : OutputCaps) (text : string) (truncated_at : list TruncatedAt)
  : result LensError CleanOutput :=
  let '(capped, truncated) := cap_string text (caps_bytes caps) in
  let truncated_at := if truncated then push_truncation truncated_at TrBytes else truncated_at in
  clean ← map_err (gz_redact capped) RedactionFailed;
  match clean with
  | LensValue.CleanText text => Ok (CleanText text truncated_at)
  | CleanStructured => Err (RedactionFailed "text output produced structured output")
  | CleanOther => Err (RedactionFailed "text output produced unsupported output")
  end.

Definition schema_text_output (caps : OutputCaps) (text : string) (truncated_at : list TruncatedAt)
  : result LensError CleanOutput :=
  let '(text, truncated) := cap_string text (caps_bytes caps) in
  Ok (CleanText text (if truncated then push_truncation truncated_at TrBytes else truncated_at)).

Definition redact_result (caps : OutputCaps) (actions : ColumnActionPolicy) (output : SourceOutput)
  : result LensError CleanOutput :=
  match output with
  | OutRows rows => redact_rows caps actions rows
  | OutText text => redact_text_output caps text []
  | OutSchemaText text => schema_text_output caps text []
  | OutTextWithTruncation text truncated_at => redact_text_output caps text truncated_at
  end.
End Redaction.

(** ** Registries *)
Inductive SourceClass := Database | Log.
#[global] Instance SourceClass_eq_dec : EqDecision SourceClass.
Proof. solve_decision. Defined.
#[global] Instance SourceClass_countable : Countable SourceClass.
Proof.
  refine (inj_countable' (fun c => match c with Database => true | Log => false end)
    (fun b => if b : bool then Database else Log) _). by intros [].
Defined.
Definition class_str (c : SourceClass) : string := match c with Database => "database" | Log => "log" end.
Definition other_class (c : SourceClass) : SourceClass := match c with Database => Log | Log => Database end.
Definition tool_kind (tool : string) : option SourceClass :=
  if String.eqb tool "query" || String.eqb tool "schema" || String.eqb tool "list_tables" then Some Database
  else if String.eqb tool "log_tail" || String.eqb tool "log_grep" then Some Log
  else None.

(** keys of a hash map, collected and sorted *)
Definition sorted_names (l : list string) : list string := fold_left (fun acc n => insert_name n acc) l [].

Section Registries.
(** [Pl]: Gaze's pipelines; [Src]: the sources behind [Arc<dyn Source>]; [B]:
    the closures that build them *)
Context {Pl Src B : Type} `{GazeBuilder}.

Inductive PipelineMode :=
| SinglePipeline (name : string) (pipeline : Pl)
| MultiPipeline (pipelines : gmap string Pl).
Inductive ColumnActionMode :=
| SingleActions (name : string) (policy : ColumnActionPolicy)
| MultiActions (policies : gmap string ColumnActionPolicy).

(** [SourceBuilder]: the closure of [ready], or another; [run] is what the
    other answers when it is called *)
Inductive SourceBuilder := BuildReady (source : Src) | BuildWith (build : B).
Definition run_builder (run : B → result LensError Src) (b : SourceBuilder) : result LensError Src :=
  match b with BuildReady source => Ok source | BuildWith build => run build end.

Record LazySource := mkLazySource { cell : option Src; builder : SourceBuilder }.
Definition lazy_new (builder : SourceBuilder) : LazySource := mkLazySource None builder.
Definition lazy_ready (source : Src) : LazySource := mkLazySource (Some source) (BuildReady source).
(** the cell is set by the first call that succeeds *)
Definition lazy_get (run : B → result LensError Src) (l : LazySource) : result LensError Src * LazySource :=
  match cell l with
  | Some source => (Ok source, l)
  | None =>
    match run_builder run (builder l) with
    | Ok source => (Ok source, mkLazySource (Some source) (builder l))
    | Err e => (Err e, l)
    end
  end.

Record Session := mkSession {
  pipeline_mode : PipelineMode;
  column_action_mode : ColumnActionMode;
  core_summaries : gmap string ResultSummary;
  sources : gmap (SourceClass * string) LazySource;
  legacy_sources : gmap string Src;
  production_profiles : gset string;
  caps : OutputCaps }.

Definition with_pipeline_mode (s : Session) m :=
  mkSession m (column_action_mode s) (core_summaries s) (sources s) (legacy_sources s) (production_profiles s) (caps s).
Definition with_column_action_mode (s : Session) m :=
  mkSession (pipeline_mode s) m (core_summaries s) (sources s) (legacy_sources s) (production_profiles s) (caps s).
Definition with_core_summaries (s : Session) m :=
  mkSession (pipeline_mode s) (column_action_mode s) m (sources s) (legacy_sources s) (production_profiles s) (caps s).
Definition with_sources (s : Session) m :=
  mkSession (pipeline_mode s) (column_action_mode s) (core_summaries s) m (legacy_sources s) (production_profiles s) (caps s).
Definition with_legacy_sources (s : Session) m :=
  mkSession (pipeline_mode s) (column_action_mode s) (core_summaries s) (sources s) m (production_profiles s) (caps s).
Definition with_production_profiles (s : Session) m :=
  mkSession (pipeline_mode s) (column_action_mode s) (core_summaries s) (sources s) (legacy_sources s) m (caps s).

Definition from_parts (pm : PipelineMode) (cm : ColumnActionMode) (caps : OutputCaps) : Session :=
  mkSession pm cm ∅ ∅ ∅ ∅ caps.

Definition record_core_summary (s : Session) (call_id : string) (summary : ResultSummary) : Session :=
  with_core_summaries s (<[call_id := summary]> (core_summaries s)).
Definition register_source (s : Session) (name : string) (source : Src) : Session :=
  with_legacy_sources s (<[name := source]> (legacy_sources s)).
Definition register_source_for_profile (s : Session) (class : SourceClass) (profile_name : string) (source : Src) : Session :=
  with_sources s (<[(class, profile_name) := lazy_ready source]> (sources s)).
(** [FakeSourceAdapter::new]: a source that hands the arguments to another *)
Definition register_fake_source {Fake} (adapter : Fake → Src) (s : Session) (name : string) (source : Fake) : Session :=
  register_source s name (adapter source).
Definition register_fake_source_for_profile {Fake} (adapter : Fake → Src) (s : Session) (class : SourceClass)
    (profile_name : string) (source : Fake) : Session :=
  register_source_for_profile s class profile_name (adapter source).
Definition register_source_lazy (s : Session) (class : SourceClass) (profile_name : string) (builder : SourceBuilder) : Session :=
  with_sources s (<[(class, profile_name) := lazy_new builder]> (sources s)).

Definition register_pipeline (s : Session) (profile_name : string) (pipeline : Pl) : result LensError Session :=
  match pipeline_mode s with
  | SinglePipeline _ _ => Err (Internal "cannot register profile pipeline on single-profile session")
  | MultiPipeline pipelines => Ok (with_pipeline_mode s (MultiPipeline (<[profile_name := pipeline]> pipelines)))
  end.

Definition register_column_action_policy (s : Session) (profile_name : string) (policy : ColumnActionPolicy)
  : result LensError Session :=
  match column_action_mode s with
  | SingleActions name _ =>
    if String.eqb name profile_name then Ok (with_column_action_mode s (SingleActions name policy))
    else Err (Internal "cannot register different profile column policy on single-profile session")
  | MultiActions policies =>
    Ok (with_column_action_mode s (MultiActions (<[profile_name := policy]> policies)))
  end.

Definition unknown_profile (profile : string) (pipelines : gmap string Pl) : LensError :=
  ProfileUnknown profile (sorted_names (elements (dom pipelines))).

Definition ensure_profile_registered (s : Session) (profile_name : string) : result LensError unit :=
  match pipeline_mode s with
  | SinglePipeline name _ =>
    if String.eqb name profile_name then Ok tt
    else Err (ProfileMismatch profile_name "profile metadata" name "different")
  | MultiPipeline pipelines =>
    if decide (is_Some (pipelines !! profile_name)) then Ok tt else Err (unknown_profile profile_name pipelines)
  end.
Definition register_profile_production (s : Session) (profile_name : string) (production : bool)
  : result LensError Session :=
  _ ← ensure_profile_registered s profile_name;
  Ok (with_production_profiles s
        (if production then {[profile_name]} ∪ production_profiles s
         else production_profiles s ∖ {[profile_name]})).
Definition profile_is_production (s : Session) (profile_name : string) : bool :=
  bool_decide (profile_name ∈ production_profiles s).

(** the profile of a call, and its arguments: a single-profile session adds
    its name when there is none *)
Definition extract_profile (s : Session) (tool_name : string) (args : json) : result LensError (string * json) :=
  match args with
  | JObject object =>
    match pipeline_mode s with
    | SinglePipeline name _ =>
      match map_get "profile" object ≫= as_str with
      | Some profile =>
        if String.eqb profile name then Ok (name, args)
        else Err (ProfileMismatch profile tool_name name "different")
      | None => Ok (name, JObject (map_insert "profile" (JString name) object))
      end
    | MultiPipeline pipelines =>
      match map_get "profile" object ≫= as_str with
      | None => Err (Errors.Profile "profile required")
      | Some profile =>
        if String.eqb profile "" then Err (Errors.Profile "profile required")
        else if decide (is_Some (pipelines !! profile)) then Ok (profile, args)
        else Err (unknown_profile profile pipelines)
      end
    end
  | _ => Err (Errors.Profile "args must be a JSON object")
  end.

Definition pipeline_for (s : Session) (profile : string) : result LensError Pl :=
  match pipeline_mode s with
  | SinglePipeline name pipeline =>
    if String.eqb name profile then Ok pipeline else Err (ProfileMismatch profile "unknown" name "different")
  | MultiPipeline pipelines => ok_or (pipelines !! profile) (unknown_profile profile pipelines)
  end.

Definition column_actions_for (s : Session) (profile : string) : result LensError ColumnActionPolicy :=
  match column_action_mode s with
  | SingleActions name policy =>
    if String.eqb name profile then Ok policy else Err (ProfileMismatch profile "unknown" name "different")
  | MultiActions policies => Ok (default ∅ (policies !! profile))
  end.

(** a key of the profile, if not of this class, is of the other one *)
Definition lookup_source (s : Session) (class : SourceClass) (profile_name tool_name : string)
  : result LensError LazySource :=
  match sources s !! (class, profile_name) with
  | Some source => Ok source
  | None =>
    match sources s !! (other_class class, profile_name) with
    | Some _ => Err (ProfileMismatch profile_name tool_name (class_str class) (class_str (other_class class)))
    | None => Err (ProfileUnknown profile_name (sorted_names (snd <$> elements (dom (sources s)))))
    end
  end.

(** [invoke_source]: [run] is what a builder answers, [dispatch] what a source
    answers for the call *)
Definition invoke_source (run : B → result LensError Src)
    (dispatch : Src → string → json → result LensError SourceOutput)
    (s : Session) (tool_name : string) (args : json) (profile_name : string)
  : result LensError SourceOutput * Session :=
  match legacy_sources s !! tool_name with
  | Some source => (dispatch source tool_name args, s)
  | None =>
    match tool_kind tool_name with
    | None => (Err (SourceError tool_name "unknown source" None None), s)
    | Some class =>
      match lookup_source s class profile_name tool_name with
      | Err e => (Err e, s)
      | Ok source =>
        let '(r, source) := lazy_get run source in
        let s := with_sources s (<[(class, profile_name) := source]> (sources s)) in
        (source ← r; dispatch source tool_name args, s)
      end
    end
  end.

Definition operation_timeout (phase operation : string) (timeout : N) : LensError :=
  OperationTimeout phase operation (timeout / NANOS) None.

(** the deadline of the source: met, or missed before or after a source that
    was to be built was *)
Inductive Deadline := Met | MissedBuilding | MissedDispatching.
Definition timed_source (deadline : Deadline) (tool_name : string) (s : Session)
    (invoked : result LensError SourceOutput * Session) : result LensError SourceOutput * Session :=
  let timeout := Err (operation_timeout "source dispatch" tool_name (caps_timeout (caps s))) in
  match deadline with
  | Met => invoked
  | MissedBuilding => (timeout, s)
  | MissedDispatching => (timeout, invoked.2)
  end.

(** [invoke_core_tool]: the redaction's timeout fires or not; the profile's
    pipeline gives the Gaze the redaction uses *)
Definition invoke_core_tool `{JsonText} (gaze : Pl → GazeSession) (run : B → result LensError Src)
    (dispatch : Src → string → json → result LensError SourceOutput) (deadline : Deadline) (redaction_timeout : bool)
    (s : Session) (tool_name call_id : string) (args : json) : result LensError CleanOutput * Session :=
  match extract_profile s tool_name args with
  | Err e => (Err e, s)
  | Ok (profile_name, args) =>
    match pipeline_for s profile_name, column_actions_for s profile_name with
    | Err e, _ => (Err e, s)
    | Ok _, Err e => (Err e, s)
    | Ok pipeline, Ok column_actions =>
      let '(raw_result, s) := timed_source deadline tool_name s
                                (invoke_source run dispatch s tool_name args profile_name) in
      match raw_result with
      | Err e => (Err e, s)
      | Ok raw_result =>
        if redaction_timeout then (Err (operation_timeout "redaction" tool_name (caps_timeout (caps s))), s)
        else
          match @redact_result (gaze pipeline) _ (caps s) column_actions raw_result with
          | Err e => (Err e, s)
          | Ok clean => (Ok clean, record_core_summary s call_id (summary clean))
          end
      end
    end
  end.
End Registries.
Arguments SourceBuilder : clear implicits.
Arguments PipelineMode : clear implicits.
Arguments LazySource : clear implicits.
Arguments Session : clear implicits.
