(* ===== verification/SessionFacts.v ===== *)
(** * What a session shows of a source's output

    Rows come out capped and redacted: no more rows, bytes or cell bytes than
    the caps allow, each row the redaction of its input row, and the
    truncation reasons tell what is missing.  Text is cut at a character. *)

From S2P Require Import Prelude Utf8 Str Errors LensValue Profile Policy LogSource LogFacts Output Session.

(** ** JSON maps *)
Lemma map_get_insert k k' v m : map_get k (map_insert k' v m) = if String.eqb k k' then Some v else map_get k m.
Proof.
  induction m as [|[k0 v0] m IH]; cbn [map_insert map_get]; [done|].
  destruct (String.compare k' k0) eqn:E; cbn [map_get].
  - apply String.compare_eq_iff in E as ->. by destruct (String.eqb k k0).
  - done.
  - rewrite IH. destruct (String.eqb_spec k k0) as [->|]; [|done].
    destruct (String.eqb_spec k0 k') as [->|]; [|done].
    pose proof (String.compare_antisym k' k') as Ha. by rewrite E in Ha.
Qed.

Section Rows.
Context `{GazeSession, JsonText}.
Context (caps : OutputCaps) (actions : ColumnActionPolicy).

(** the fields Gaze is asked about are the fields it answers for *)
Definition KeepsKeys : Prop :=
  ∀ raw fields, gz_redact_fields raw = Ok (FieldsStructured fields) → fields.*1 = raw.*1.

(** what Gaze answered for a field, asked with [g] *)
Definition Answered (key : string) (g g' : GazeValue) : Prop :=
  ∃ raw fields, gz_redact_fields raw = Ok (FieldsStructured fields) ∧ (key, g) ∈ raw ∧ field_of fields key = Some g'.

(** the value after the column's action *)
Definition Acted (key : string) (v v1 : LensValue) : Prop :=
  match action_for actions key with Some ca => apply_column_action v ca = Ok v1 | None => v1 = v end.

(** the cell a value may be shown as *)
Definition Shown (key : string) (v : LensValue) (cell : json) : Prop :=
  ∃ v1, Acted key v v1 ∧
    match v1 with
    | LString s | LJson (JString s) => ∃ g, Answered key (GString s) g ∧ gaze_value_to_json g = Ok cell
    | LI64 n => ∃ g, Answered key (GI64 n) g ∧ gaze_value_to_json g = Ok cell
    | LJson j => ∃ j', lens_value_to_json (LJson j') = Ok cell ∧
        Forall2 (Redacted gz_redact) (json_texts j) (json_texts j')
    | v1 => lens_value_to_json v1 = Ok cell
    end.

Definition capped (cell : json) : json := if caps_cell_bytes caps <? json_size cell then TRUNCATED_CELL else cell.

Definition RowShown (row : list (string * LensValue)) (out : json_map) : Prop :=
  (∀ key v, (key, v) ∈ row → ∃ cell, map_get key out = Some (capped cell) ∧ Shown key v cell) ∧
  (∀ key, key ∉ row.*1 → map_get key out = None).

Definition lowered (e : string * LensValue) : option (string * GazeValue) :=
  match lower_for_redaction e.2 with Ok (Some g) => Some (e.1, g) | _ => None end.

Lemma omap_lowered_cons k v rr :
  omap lowered ((k, v) :: rr) =
  match lower_for_redaction v with Ok (Some g) => (k, g) :: omap lowered rr | _ => omap lowered rr end.
Proof.
  change (omap lowered ((k, v) :: rr)) with
    (match lowered (k, v) with Some x => x :: omap lowered rr | None => omap lowered rr end).
  unfold lowered at 1. cbn [fst snd]. by destruct (lower_for_redaction v) as [[g|]|].
Qed.

Lemma redact_fields_spec row rr raw :
  redact_fields actions row = Ok (rr, raw) →
  rr.*1 = row.*1 ∧ raw = omap lowered rr ∧
  Forall2 (fun a b => ∃ l, redact_field actions a.1 a.2 = Ok (b.2, l)) row rr.
Proof.
  revert rr raw. induction row as [|[k v] row IH]; intros rr raw; cbn [redact_fields].
  - intros [= <- <-]. by repeat constructor.
  - intros E. open_bind E as [v2 l] Hv. open_bind E as [rr' raw'] Hr. injection E as <- <-.
    destruct (IH _ _ Hr) as (E1 & -> & Hf). cbn [fmap list_fmap fst]. split_and!; [by f_equal| |].
    + rewrite omap_lowered_cons. unfold redact_field in Hv. open_bind Hv as w1 Hw1. open_bind Hv as w2 Hw2. open_bind Hv as g Hg.
      injection Hv as -> ->. apply map_err_ok in Hg. rewrite Hg. by destruct l.
    + constructor; [by exists l|done].
Qed.

Lemma field_of_in fields key : key ∈ fields.*1 → ∃ g, field_of fields key = Some g.
Proof.
  induction fields as [|[k g] fields IH]; cbn; [by intros ?%elem_of_nil|].
  destruct (String.eqb_spec key k) as [->|Hk]; [eauto|]. intros [->|Hin]%elem_of_cons; [done|auto].
Qed.
Lemma field_of_not_in fields key : key ∉ fields.*1 → field_of fields key = None.
Proof.
  induction fields as [|[k g] fields IH]; cbn; [done|]. intros Hn.
  destruct (String.eqb_spec key k) as [->|]; [set_solver|]. apply IH. set_solver.
Qed.

Lemma lowered_key rr key : key ∉ rr.*1 → key ∉ (omap lowered rr).*1.
Proof.
  intros Hn Hin. apply Hn. apply list_elem_of_fmap in Hin as ([k g] & -> & Hin). cbn.
  apply list_elem_of_omap in Hin as ([k' v] & Hin & Hl). unfold lowered in Hl. cbn in Hl.
  apply list_elem_of_fmap. exists (k', v). split; [|done]. repeat case_match; by simplify_eq.
Qed.

Lemma lowered_only rr key v :
  NoDup rr.*1 → (key, v) ∈ rr → lowered (key, v) = None → key ∉ (omap lowered rr).*1.
Proof.
  induction rr as [|[k w] rr IH]; [by intros _ ?%elem_of_nil|]. cbn [fmap list_fmap fst].
  intros [Hk Hnd]%NoDup_cons Hin Hl. rewrite omap_lowered_cons.
  apply elem_of_cons in Hin as [[= <- <-]|Hin].
  - unfold lowered in Hl. cbn [fst snd] in Hl.
    destruct (lower_for_redaction v) as [[g|]|]; [done|by apply lowered_key..].
  - assert (Hne : k ≠ key) by (intros ->; apply Hk, list_elem_of_fmap; by exists (key, v)).
    specialize (IH Hnd Hin Hl).
    destruct (lower_for_redaction w) as [[g|]|]; [|done|done]. cbn [fmap list_fmap fst]. set_solver.
Qed.

(** the value a field redacts to, by the value the column's action left *)
Lemma redact_field_spec key v v2 l :
  redact_field actions key v = Ok (v2, l) →
  ∃ v1, Acted key v v1 ∧ lower_for_redaction v2 = Ok l ∧
    match v1 with
    | LString _ | LJson (JString _) => v2 = v1
    | LJson j => ∃ j', v2 = LJson j' ∧ Forall2 (Redacted gz_redact) (json_texts j) (json_texts j') ∧
        json_shape j' = json_shape j
    | _ => v2 = v1
    end.
Proof.
  unfold redact_field. intros E. open_bind E as v1 H1. open_bind E as w H2. open_bind E as g Hg.
  injection E as -> ->. apply map_err_ok in Hg. exists v1. split; [|split; [done|]].
  - unfold Acted. destruct (action_for _ _); [done|congruence].
  - destruct v1 as [| | | | | |s| | | |j]; cbn [redact_with] in H2;
      try (by open_bind H2 as z Hz; injection H2 as <-); [by injection H2 as <-|].
    destruct j as [|b|n|s|jl|jl]; cbn [redact_with] in H2; try (by injection H2 as <-);
      open_bind H2 as j' [Ht Hs]%redact_json_spec; injection H2 as <-; by exists j'.
Qed.

Lemma cell_shown fields rr raw key v v2 l cell :
  KeepsKeys → gz_redact_fields raw = Ok (FieldsStructured fields) → raw = omap lowered rr →
  NoDup rr.*1 → (key, v2) ∈ rr → redact_field actions key v = Ok (v2, l) →
  cell_of fields key v2 = Ok cell → Shown key v cell.
Proof.
  intros Hkeep Hgz Hraw Hnd Hin Hfield Hcell. destruct (redact_field_spec _ _ _ _ Hfield) as (v1 & Ha & Hl & Hv).
  exists v1. split; [exact Ha|].
  assert (Hsome : ∀ g, lower_for_redaction v2 = Ok (Some g) →
    ∃ g', Answered key g g' ∧ gaze_value_to_json g' = Ok cell).
  { intros g Eg. assert (Hr : (key, g) ∈ raw).
    { rewrite Hraw. apply list_elem_of_omap. exists (key, v2). split; [done|]. unfold lowered. cbn. by rewrite Eg. }
    destruct (field_of_in fields key) as (g' & Hg').
    { rewrite (Hkeep _ _ Hgz). apply list_elem_of_fmap. by exists (key, g). }
    exists g'. unfold cell_of in Hcell. rewrite Hg' in Hcell. split; [|done]. exists raw, fields. auto. }
  assert (Hnone : lower_for_redaction v2 = Ok None → lens_value_to_json v2 = Ok cell).
  { intros Eg. unfold cell_of in Hcell. rewrite field_of_not_in in Hcell; [done|].
    rewrite (Hkeep _ _ Hgz), Hraw. apply (lowered_only rr key v2); [done..|]. unfold lowered. cbn. by rewrite Eg. }
  destruct v1 as [| | |n| |d p s|s|b n|s|s|j]; subst; cbn [lower_for_redaction] in *; auto.
  - apply Hnone. by destruct (validate_decimal d).
  - destruct j as [|b|n|s|jl|jl]; subst; cbn [lower_for_redaction] in *; auto;
      destruct Hv as (j' & -> & Ht & Hs); exists j'; (split; [|exact Ht]); apply Hnone;
      destruct j'; by cbn in Hs.
Qed.

Lemma cells_spec fields row out0 tr0 out tr :
  NoDup row.*1 → cells (caps_cell_bytes caps) fields row out0 tr0 = Ok (out, tr) →
  (∀ key v, (key, v) ∈ row → ∃ cell, cell_of fields key v = Ok cell ∧ map_get key out = Some (capped cell)) ∧
  (∀ key, key ∉ row.*1 → map_get key out = map_get key out0) ∧
  (∀ x, x ≠ TrCellBytes → x ∈ tr ↔ x ∈ tr0).
Proof.
  revert out0 tr0. induction row as [|[k v] row IH]; intros out0 tr0 Hnd; cbn [cells].
  - intros [= <- <-]. split_and!; [by intros ? ? ?%elem_of_nil|done|done].
  - cbn [fmap list_fmap fst] in *. apply NoDup_cons in Hnd as [Hk Hnd]. intros E. open_bind E as c Hc.
    destruct (insert_capped_cell _ _ _ _ _) as [out1 tr1] eqn:Ei.
    assert (Ho : out1 = map_insert k (capped c) out0 ∧ ∀ x, x ≠ TrCellBytes → x ∈ tr1 ↔ x ∈ tr0).
    { unfold insert_capped_cell, capped in *. destruct (_ <? _); injection Ei as <- <-; [|done].
      split; [done|]. intros x Hx. rewrite elem_of_push. naive_solver. }
    destruct Ho as [-> Htr]. destruct (IH _ _ Hnd E) as (H1 & H2 & H3). split_and!.
    + intros key v' [[= -> ->]|Hin]%elem_of_cons; [|by apply H1]. exists c. split; [done|].
      by rewrite H2, map_get_insert, String.eqb_refl by done.
    + intros key Hn. rewrite H2, map_get_insert by set_solver.
      destruct (String.eqb_spec key k) as [->|]; [set_solver|done].
    + intros x Hx. by rewrite H3, Htr by done.
Qed.

Lemma redact_row_spec row tr0 out tr :
  KeepsKeys → NoDup row.*1 → redact_row caps actions row tr0 = Ok (out, tr) →
  RowShown row out ∧ ∀ x, x ≠ TrCellBytes → x ∈ tr ↔ x ∈ tr0.
Proof.
  intros Hkeep Hnd E. unfold redact_row in E. open_bind E as [rr raw] Hf. open_bind E as fields Hp.
  destruct (redact_fields_spec _ _ _ Hf) as (Hkeys & Hraw & Hall).
  assert (Hgz : gz_redact_fields raw = Ok (FieldsStructured fields)).
  { unfold pipeline_fields in Hp. open_bind Hp as doc Hd%map_err_ok. by destruct doc; simplify_eq. }
  rewrite <- Hkeys in Hnd. destruct (cells_spec _ _ _ _ _ _ Hnd E) as (H1 & H2 & H3). split; [split|exact H3].
  - intros key v Hin. apply list_elem_of_lookup in Hin as (i & Hi).
    destruct (Forall2_lookup_l _ _ _ _ _ Hall Hi) as ([k' v2] & Hi2 & l & Hfield). cbn [fst snd] in Hfield.
    assert (k' = key) as ->.
    { apply (f_equal (fun l => l !! i)) in Hkeys. rewrite !list_lookup_fmap, Hi, Hi2 in Hkeys. by simplify_eq/=. }
    apply list_elem_of_lookup_2 in Hi2. destruct (H1 _ _ Hi2) as (cell & Hc & Hm). exists cell. split; [exact Hm|].
    by eapply (cell_shown fields rr raw key v v2 l).
  - intros key Hn. rewrite H2; [done|]. by rewrite Hkeys.
Qed.

Definition total_size (rows : list json_map) : N :=
  N.of_nat (sum_list_with (fun r => N.to_nat (json_size (JObject r))) rows).

Lemma rows_loop_spec rows clean total tr0 out tr :
  KeepsKeys → caps_bytes caps < USIZE_MAX → Forall (fun row => NoDup row.*1) rows → total <= caps_bytes caps →
  rows_loop caps actions rows clean total tr0 = Ok (out, tr) →
  ∃ new, out = clean ++ new ∧ Forall2 RowShown (take (length new) rows) new ∧
    total + total_size new <= caps_bytes caps ∧
    (TrBytes ∈ tr ↔ TrBytes ∈ tr0 ∨ (length new < length rows)%nat) ∧ (TrRows ∈ tr ↔ TrRows ∈ tr0).
Proof.
  intros Hkeep Hu Hnd. revert clean total tr0. induction Hnd as [|row rows Hrow _ IH]; intros clean total tr0 Ht; cbn [rows_loop].
  - intros [= <- <-]. exists []. rewrite app_nil_r. split_and!; [done|constructor|unfold total_size; cbn; lia| |done].
    cbn. split; [auto|]. intros [?|?]; [done|lia].
  - intros E. open_bind E as [o tr1] Hr. destruct (redact_row_spec _ _ _ _ Hkeep Hrow Hr) as [Hs Htr].
    destruct (N.ltb_spec (caps_bytes caps) (saturating_add total (json_size (JObject o)))) as [Hlt|Hle].
    + injection E as <- <-. exists []. rewrite app_nil_r.
      split_and!; [done|constructor|unfold total_size; cbn; lia| |].
      * rewrite elem_of_push. cbn. split; [intros _; right; lia|by right].
      * rewrite elem_of_push, Htr by done. naive_solver.
    + unfold saturating_add in Hle. destruct (IH (clean ++ [o]) (total + json_size (JObject o)) tr1) as (new & -> & Hf & Hb & H1 & H2);
        [lia|exact E|].
      exists (o :: new). rewrite <- app_assoc. split_and!.
      * done.
      * cbn [length take]. by constructor.
      * unfold total_size in *. cbn [sum_list_with]. lia.
      * rewrite H1, Htr by done. cbn [length]. split; (intros [?|?]; [by left|right; lia]).
      * by rewrite H2, Htr.
Qed.

(** C3. Rows are shown redacted and within the caps: if Gaze answers for the
    fields it is asked about, what a session shows of a source's rows is a
    prefix of them, no more rows and no more serialized bytes than the caps;
    in each, every text and integer cell is Gaze's answer for that field after
    the column's action, every text inside a JSON cell is Gaze's answer for
    the text it replaces, and an oversized cell is the marker; [Rows] is
    reported exactly when there were more rows than the cap, [Bytes] exactly
    when the byte cap ended the list early. *)
Theorem rows_redacted_and_capped rows out truncated_at :
  KeepsKeys → caps_bytes caps < USIZE_MAX → Forall (fun row => NoDup row.*1) rows →
  redact_rows caps actions rows = Ok (CleanRows out truncated_at) →
  Forall2 RowShown (take (length out) rows) out ∧
  len out <= caps_rows caps ∧ total_size out <= caps_bytes caps ∧
  (TrRows ∈ truncated_at ↔ caps_rows caps < len rows) ∧
  (TrBytes ∈ truncated_at ↔ len out < N.min (caps_rows caps) (len rows)).
Proof.
  intros Hkeep Hu Hnd E. unfold redact_rows in E. open_bind E as [clean tr] Hl. injection E as <- <-.
  destruct (rows_loop_spec _ _ _ _ _ _ Hkeep Hu (Forall_take _ _ _ Hnd) (N.le_0_l _) Hl)
    as (new & -> & Hf & Hb & H1 & H2). cbn [app] in *.
  assert (Hlen : (length new <= length (take (N.to_nat (caps_rows caps)) rows))%nat).
  { apply Forall2_length in Hf. rewrite length_take in Hf. lia. }
  rewrite take_take in Hf. rewrite length_take in Hlen, H1. unfold len.
  split_and!.
  - by replace (length new `min` N.to_nat (caps_rows caps))%nat with (length new) in Hf by lia.
  - lia.
  - exact Hb.
  - rewrite H2. unfold len. destruct (N.ltb_spec (caps_rows caps) (N.of_nat (length rows))); [set_solver|].
    split; [by intros ?%elem_of_nil|lia].
  - rewrite H1. assert (TrBytes ∉ (if caps_rows caps <? len rows then [TrRows] else [])).
    { destruct (_ <? _); [by intros ?%list_elem_of_singleton|by intros ?%elem_of_nil]. }
    split; [intros [?|?]; [done|lia]|intros; right; lia].
Qed.
End Rows.

(** ** Text is cut at a character *)
Lemma next_char_scalar l c l' : next_char l = Some (c, l') → is_scalar c = true.
Proof.
  destruct l as [|a l1]; [done|]. cbn [next_char]. pose proof (code_lt a).
  destruct (N.ltb_spec (code a) 128); [intros [= <- _]; apply is_scalar_spec; lia|].
  destruct l1 as [|b l2]; [done|].
  destruct (in_range 194 223 (code a) && cont b) eqn:E2.
  { intros [= <- _]. unfold cont, low6 in *. to_prop. apply is_scalar_spec. lia. }
  destruct l2 as [|d l3]; [done|].
  destruct (in_range 224 239 (code a) && _ && _ && _ && _) eqn:E3.
  { intros [= <- _]. unfold cont, low6 in *. rewrite !andb_true_iff, !implb_true_iff in E3. to_prop.
    destruct E3 as ((((E3 & E4) & E5) & E6) & E7). apply is_scalar_spec.
    destruct (decide (code a = 237)) as [Hx|]; [specialize (E7 Hx)|]; lia. }
  destruct l3 as [|e l4]; [done|].
  destruct (in_range 240 244 (code a) && _ && _ && _ && _ && _) eqn:E4; [|done].
  intros [= <- _]. unfold cont, low6 in *. rewrite !andb_true_iff, !implb_true_iff in E4. to_prop.
  destruct E4 as (((((F1 & F2) & F3) & F4) & F5) & F6). apply is_scalar_spec.
  destruct (decide (code a = 240)) as [Hx|]; [specialize (F5 Hx)|];
    destruct (decide (code a = 244)) as [Hy|]; try specialize (F6 Hy); lia.
Qed.

Lemma from_utf8_scalars l cs : from_utf8 l = Some cs → Forall (fun c => is_scalar c = true) cs.
Proof.
  revert l. induction cs as [|c cs IH]; intros l; [constructor|]. rewrite from_utf8_step.
  destruct l as [|a l]; [done|]. destruct (next_char (a :: l)) as [[c' l']|] eqn:E; [|done].
  destruct (from_utf8 l') eqn:E'; [|done]. intros [= -> ->].
  constructor; [by eapply next_char_scalar|by eapply IH].
Qed.

Lemma encode_char_shape c : is_scalar c = true →
  ∃ b rest, encode_char c = b :: rest ∧ cont b = false ∧ Forall (fun b => cont b = true) rest.
Proof.
  intros Hc%is_scalar_spec. unfold encode_char, cont.
  destruct (N.ltb_spec c 128); [|destruct (N.ltb_spec c 2048); [|destruct (N.ltb_spec c 65536)]];
  (eexists _, _; split; [reflexivity|]; split; [|repeat constructor]);
  rewrite ?code_byte_of by utf8_arith;
  first [apply in_range_spec; utf8_arith | apply not_true_iff_false; rewrite in_range_spec; utf8_arith].
Qed.

Lemma cut_at_boundary cs n :
  Forall (fun c => is_scalar c = true) cs → (n <= length (to_utf8 cs))%nat →
  is_char_boundary (to_utf8 cs) n = true → ∃ k, take n (to_utf8 cs) = to_utf8 (take k cs).
Proof.
  intros Hcs. revert n. induction Hcs as [|c cs Hc Hcs IH]; intros n Hn Hb; [exists 0%nat; by destruct n|].
  change (to_utf8 (c :: cs)) with (encode_char c ++ to_utf8 cs) in *.
  destruct n as [|n]; [by exists 0%nat|].
  destruct (decide (S n < length (encode_char c))%nat) as [Hlt|Hge].
  - destruct (encode_char_shape c Hc) as (b & rest & E & _ & Hr). rewrite E in *. cbn [length] in Hlt.
    destruct (lookup_lt_is_Some_2 rest n ltac:(lia)) as [x Hx].
    assert (Hl : ((b :: rest) ++ to_utf8 cs) !! S n = Some x) by (rewrite lookup_app_l by (cbn; lia); exact Hx).
    unfold is_char_boundary in Hb. rewrite Hl in Hb.
    rewrite Forall_forall in Hr. rewrite (Hr x) in Hb; [done|by eapply list_elem_of_lookup_2].
  - rewrite length_app in Hn. destruct (IH (S n - length (encode_char c))%nat) as (k & Hk); [lia| |].
    + unfold is_char_boundary in *. rewrite lookup_app_r, length_app in Hb by lia.
      destruct (to_utf8 cs !! _); [done|]. apply Nat.eqb_eq in Hb. apply Nat.eqb_eq. lia.
    + exists (S k). rewrite take_app_ge by lia. cbn [take].
      change (to_utf8 (c :: take k cs)) with (encode_char c ++ to_utf8 (take k cs)). by rewrite Hk.
Qed.

Lemma boundary_before_spec value e :
  is_char_boundary value (boundary_before value e) = true ∧ (boundary_before value e <= e)%nat ∨
  is_char_boundary value 0 = false.
Proof.
  induction e as [|e IH]; cbn [boundary_before].
  - destruct (is_char_boundary value 0); [left; done|by right].
  - destruct (is_char_boundary value (S e)) eqn:E; [left; by rewrite E|].
    destruct IH as [[? ?]|?]; [left; split; [done|lia]|by right].
Qed.

Lemma cap_string_spec value max : utf8_valid (str_bytes value) = true →
  let '(t, cut) := cap_string value max in
  str_bytes t `prefix_of` str_bytes value ∧ slen t <= max ∧ utf8_valid (str_bytes t) = true ∧
  cut = negb (slen value <=? max) ∧ (cut = false → t = value).
Proof.
  intros Hv. unfold cap_string. destruct (N.leb_spec (slen value) max) as [Hle|Hgt].
  { split_and!; done. }
  unfold utf8_valid in Hv. destruct (from_utf8 (str_bytes value)) as [cs|] eqn:E; [|done].
  pose proof (from_utf8_scalars _ _ E) as Hs. apply from_utf8_split in E. rewrite E, bytes_of_str.
  set (e := boundary_before (to_utf8 cs) (N.to_nat max)).
  pose proof (boundary_before_spec (to_utf8 cs) (N.to_nat max)) as Hbs. fold e in Hbs. clearbody e.
  destruct Hbs as [[Hb Hle]|H0].
  2: { exfalso. destruct Hs as [|c cs Hc _]; [done|]. destruct (encode_char_shape c Hc) as (b & rest & Eb & Hb & _).
       change (to_utf8 (c :: cs)) with (encode_char c ++ to_utf8 cs) in H0. rewrite Eb in H0.
       unfold is_char_boundary in H0. cbn in H0. by rewrite Hb in H0. }
  assert (Hlen : N.of_nat (length (to_utf8 cs)) = slen value) by (rewrite <- E; by rewrite str_bytes_length).
  destruct (cut_at_boundary cs e Hs) as (k & Hk); [lia|done|].
  split_and!; try done.
  - exists (drop e (to_utf8 cs)). by rewrite take_drop.
  - rewrite <- len_str_bytes, bytes_of_str. unfold len. rewrite length_take. lia.
  - rewrite Hk. unfold utf8_valid. rewrite from_utf8_encode; [done|by apply Forall_take].
Qed.

(** ** A concrete run *)
Definition sample_session : GazeSession :=
  {| gz_redact := fun s => Ok (LensValue.CleanText s);
     gz_redact_fields := fun raw =>
       Ok (FieldsStructured ((fun e => (e.1, match e.2 with GString _ => GString "<Name_1>" | g => g end)) <$> raw));
     gz_tokenize := fun _ _ => Ok "<Name_1>"%string; gz_fake := fun _ _ => Ok "Jane"%string;
     lens_to_value := fun _ => Ok JNull |}.
Definition sample_json : JsonText :=
  {| json_to_string := fun _ => "{}"%string; json_from_str := fun _ => None |}.
Definition sample_row (name : string) : list (string * LensValue) := [("id"%string, LI64 7); ("name"%string, LString name)].

Lemma sample_keeps : @KeepsKeys sample_session.
Proof.
  intros raw fields [= <-]. induction raw as [|[k g] raw IH]; [done|]. cbn. by f_equal.
Qed.

Lemma rows_redacted_and_capped_witness :
  ∃ out truncated_at,
    @redact_rows sample_session sample_json (mkOutputCaps 2 3 100 100 0) ∅
      [sample_row "Ada"; sample_row "Bob"; sample_row "Eve"] = Ok (CleanRows out truncated_at) ∧
    out = [[("id"%string, JNumber "7"); ("name"%string, JString "<Name_1>")]] ∧
    TrRows ∈ truncated_at ∧ TrBytes ∈ truncated_at.
Proof.
  eexists _, _. split; [vm_compute; reflexivity|]. split; [reflexivity|].
  destruct (@rows_redacted_and_capped sample_session sample_json (mkOutputCaps 2 3 100 100 0) ∅
    [sample_row "Ada"; sample_row "Bob"; sample_row "Eve"]
    [[("id"%string, JNumber "7"); ("name"%string, JString "<Name_1>")]] [TrRows; TrBytes])
    as (_ & _ & _ & Hr & Hb).
  - exact sample_keeps.
  - reflexivity.
  - repeat constructor; cbn; set_solver.
  - vm_compute. reflexivity.
  - split; [apply Hr; reflexivity|apply Hb; reflexivity].
Defined.
