(* ===== verification/Tools.v ===== *)
(** * Tools

    Models src/src/mcp/tools/mod.rs and the rest of src/src/session/mod.rs: how
    a session is built, how a tool is dispatched and its result restored, the
    discovery metadata, and the mapping of errors.  Gaze's envelope, which
    redacts arguments, keeps the audit manifest and calls the tool, is an
    argument of [dispatch_tool]; derived serde code and SHA-256 are classes.
    What a call answers never leaves the profile it names. *)

From stdpp Require Import sorting.
From S2P Require Import Prelude Utf8 Str Errors LensValue Profile Policy LogSource Output Session SessionFacts.

(** ** Building a session *)
Inductive SessionScope := Ephemeral | Conversation.

Section Building.
Context {Src B : Type} `{GazeBuilder}.

Definition default_pipeline_steps : list BuilderStep :=
  [AddDetector Emails; AddClassRule Email Tokenize; AddDefaultRule Preserve].
Definition default_pipeline : result LensError Pipeline :=
  _ ← map_err (load_detector Emails) RedactionFailed;
  map_err (build_steps default_pipeline_steps) RedactionFailed.

(** [gaze]: what [gaze::Session::new] answers *)
Definition build_gaze_session (scope : SessionScope) (gaze : result string unit) : result LensError unit :=
  match scope with
  | Ephemeral => Err (ScopeRejected "ephemeral")
  | Conversation => map_err gaze Internal
  end.

(** [manifest]: what opening the manifest answers *)
Definition new_with_pipeline_for_profile (scope : SessionScope) (gaze : result string unit)
    (manifest : result LensError unit) (pipeline : Pipeline) (profile_name : string)
  : result LensError (Session Pipeline Src B) :=
  _ ← build_gaze_session scope gaze;
  _ ← manifest;
  Ok (from_parts (SinglePipeline profile_name pipeline) (SingleActions profile_name ∅) default_caps).
Definition new_with_pipeline scope gaze manifest pipeline :=
  new_with_pipeline_for_profile scope gaze manifest pipeline "default".
Definition session_new (scope : SessionScope) (gaze : result string unit) (manifest : result LensError unit)
  : result LensError (Session Pipeline Src B) :=
  pipeline ← default_pipeline;
  new_with_pipeline scope gaze manifest pipeline.
Definition new_for_multi_profile (scope : SessionScope) (gaze : result string unit) (manifest : result LensError unit)
  : result LensError (Session Pipeline Src B) :=
  _ ← build_gaze_session scope gaze;
  _ ← manifest;
  Ok (from_parts (MultiPipeline ∅) (MultiActions ∅) default_caps).
End Building.

(** ** Restoring tokens

    [restore]: [restore_with_policy_telemetry] under a policy. *)
Section Restoring.
Variable restore : string → result string string.

Definition restore_text (text : string) : result LensError string := map_err (restore text) RedactionFailed.

(** in place: session/mod.rs *)
Fixpoint restore_gaze_tokens_in_value (v : json) : result LensError json :=
  match v with
  | JString text => t ← restore_text text; Ok (JString t)
  | JArray values =>
    values ← (fix go l := match l with
      | [] => Ok []
      | v :: l => v ← restore_gaze_tokens_in_value v; l ← go l; Ok (v :: l)
      end) values;
    Ok (JArray values)
  | JObject values =>
    values ← (fix go l := match l with
      | [] => Ok []
      | (k, v) :: l => v ← restore_gaze_tokens_in_value v; l ← go l; Ok ((k, v) :: l)
      end) values;
    Ok (JObject values)
  | _ => Ok v
  end.

(** rebuilt: mcp/tools/mod.rs *)
Fixpoint restore_tokens_in_json (v : json) : result LensError json :=
  match v with
  | JString text => t ← restore_text text; Ok (JString t)
  | JArray values =>
    values ← (fix go l := match l with
      | [] => Ok []
      | v :: l => v ← restore_tokens_in_json v; l ← go l; Ok (v :: l)
      end) values;
    Ok (JArray values)
  | JObject values =>
    out ← (fix go l out := match l with
      | [] => Ok out
      | (k, v) :: l => v ← restore_tokens_in_json v; go l (map_insert k v out)
      end) values [];
    Ok (JObject out)
  | other => Ok other
  end.

Fixpoint restore_row (row : json_map) : result LensError json_map :=
  match row with
  | [] => Ok []
  | (k, v) :: row => v ← restore_gaze_tokens_in_value v; row ← restore_row row; Ok ((k, v) :: row)
  end.
Fixpoint restore_rows (rows : list json_map) : result LensError (list json_map) :=
  match rows with
  | [] => Ok []
  | row :: rows => row ← restore_row row; rows ← restore_rows rows; Ok (row :: rows)
  end.
Definition restore_gaze_tokens (clean : CleanOutput) : result LensError CleanOutput :=
  match clean with
  | CleanRows rows truncated_at => rows ← restore_rows rows; Ok (CleanRows rows truncated_at)
  | CleanText text truncated_at => text ← restore_text text; Ok (CleanText text truncated_at)
  end.
End Restoring.

(** ** Errors *)
Definition boxed_error_to_lens_error (err : BoxedError) : LensError :=
  match err with BoxedLens err => err | BoxedOther detail => Internal detail end.
Definition tool_error_to_lens_error (err : ToolError) : LensError :=
  match err with
  | InvalidArgs detail | NotFound detail => Errors.Profile detail
  | ToolInternal err => boxed_error_to_lens_error err
  | ToolOther => Internal "unknown gaze-mcp-core tool error"
  end.

(** [gaze_mcp_core]'s errors, those without a lens error as their text *)
Inductive ManifestError := ManifestBackend (err : BoxedError) | ManifestOther (detail : string).
Inductive DispatchError :=
| DispatchToolError (e : ToolError) | DispatchRedaction (detail : string) | UnknownTool (tool : string)
| SessionIdError (detail : string) | AuthError (detail : string) | DispatchManifest (e : ManifestError)
| ResponseSerialization (detail : string) | DispatchOther.
Definition manifest_error_to_lens_error (err : ManifestError) : LensError :=
  match err with ManifestBackend err => boxed_error_to_lens_error err | ManifestOther detail => Internal detail end.
Definition dispatch_error_to_lens_error (err : DispatchError) : LensError :=
  match err with
  | DispatchToolError err => tool_error_to_lens_error err
  | DispatchRedaction detail => RedactionFailed detail
  | UnknownTool tool => SourceError tool "unknown source" None None
  | SessionIdError detail => Errors.Profile detail
  | AuthError detail => Internal detail
  | DispatchManifest err => manifest_error_to_lens_error err
  | ResponseSerialization detail => Internal detail
  | DispatchOther => Internal "unknown gaze-mcp-core dispatch error"
  end.

(** ** Discovery metadata *)
Record PresentedColumn := mkPresentedColumn { name_token : string; allowed : bool }.
Record PresentedSchema := mkPresentedSchema { table_token : string; columns : list PresentedColumn }.
Record ColumnDiscoveryDescriptor := mkColumnDescriptor { d_column : string; d_allowed : bool }.
Record SchemaDiscoveryDescriptor := mkSchemaDescriptor {
  sd_profile : string; sd_source_class : string; sd_tool : string; sd_table : string;
  sd_columns : list ColumnDiscoveryDescriptor }.
Record ListTablesDiscoveryDescriptor := mkTablesDescriptor {
  td_profile : string; td_source_class : string; td_tool : string; td_tables : list string }.
Record DiscoveryMetadata := mkDiscoveryMetadata {
  dm_profile : string; dm_source_class : string; allowed_columns : option (list string); dm_schema_hash : string }.

(** the derived readers and writers, or their error's text, and SHA-256 in hex *)
Class DiscoverySerde := {
  presented_schema : string → result string PresentedSchema;
  presented_tables : string → result string (list string);
  schema_descriptor_text : SchemaDiscoveryDescriptor → result string string;
  tables_descriptor_text : ListTablesDiscoveryDescriptor → result string string;
  sha256_hex : string → string;
}.

(** [left.column.cmp(&right.column).then_with(|| left.allowed.cmp(&right.allowed))] *)
Definition descriptor_le (l r : ColumnDiscoveryDescriptor) : Prop :=
  match String.compare (d_column l) (d_column r) with
  | Lt => True
  | Eq => implb (d_allowed l) (d_allowed r) = true
  | Gt => False
  end.
#[global] Instance descriptor_le_dec : RelDecision descriptor_le.
Proof.
  intros l r. unfold descriptor_le. destruct (String.compare _ _); [apply bool_eq_dec|left; exact I|right; exact id].
Defined.
(** the order of [str] *)
Definition name_le (a b : string) : Prop := String.compare a b ≠ Gt.
#[global] Instance name_le_dec : RelDecision name_le.
Proof. intros a b. unfold name_le, Decision. destruct (String.compare a b); by (left; discriminate) || (right; auto). Defined.

Definition clean_text (clean : CleanOutput) (tool_name : string) : result LensError string :=
  match clean with
  | CleanText text _ => Ok text
  | CleanRows _ _ => Err (Internal (concat_str [tool_name; " discovery metadata expected text output"]%string))
  end.

Section Discovery.
Context `{DiscoverySerde}.

Definition schema_hash (descriptor : result string string) : result LensError string :=
  bytes ← map_err descriptor (fun err =>
    Internal (concat_str ["failed to serialize discovery descriptor: "; err]%string));
  Ok (sha256_hex bytes).

Definition sorted_descriptors (columns : list PresentedColumn) : list ColumnDiscoveryDescriptor :=
  merge_sort descriptor_le ((fun c => mkColumnDescriptor (name_token c) (allowed c)) <$> columns).

Definition schema_discovery_metadata (profile_name : string) (source_class : SourceClass) (clean : CleanOutput)
  : result LensError DiscoveryMetadata :=
  text ← clean_text clean "schema";
  schema ← map_err (presented_schema text) (fun err =>
    Internal (concat_str ["failed to parse schema discovery metadata: "; err]%string));
  let columns := sorted_descriptors (columns schema) in
  let allowed_columns := d_column <$> filter (fun c => d_allowed c = true) columns in
  let descriptor :=
    mkSchemaDescriptor profile_name (class_str source_class) "schema" (table_token schema) columns in
  hash ← schema_hash (schema_descriptor_text descriptor);
  Ok (mkDiscoveryMetadata profile_name (class_str source_class) (Some allowed_columns) hash).

Definition list_tables_discovery_metadata (profile_name : string) (source_class : SourceClass) (clean : CleanOutput)
  : result LensError DiscoveryMetadata :=
  text ← clean_text clean "list_tables";
  tables ← map_err (presented_tables text) (fun err =>
    Internal (concat_str ["failed to parse list_tables discovery metadata: "; err]%string));
  let tables := merge_sort name_le tables in
  let descriptor := mkTablesDescriptor profile_name (class_str source_class) "list_tables" tables in
  hash ← schema_hash (tables_descriptor_text descriptor);
  Ok (mkDiscoveryMetadata profile_name (class_str source_class) None hash).

Definition discovery_observability_for_clean (tool_name profile_name : string) (clean : CleanOutput)
  : result LensError (option DiscoveryMetadata) :=
  match tool_kind tool_name with
  | None => Ok None
  | Some source_class =>
    if String.eqb tool_name "schema" then Some <$> schema_discovery_metadata profile_name source_class clean
    else if String.eqb tool_name "list_tables" then Some <$> list_tables_discovery_metadata profile_name source_class clean
    else Ok None
  end.

(** ** Dispatch *)
Context {Pl Src B : Type} `{GazeBuilder}.
(** reading the payload, and [to_value] of clean output *)
Variable clean_from_value : json → result string CleanOutput.
Variable clean_to_value : CleanOutput → result string json.

(** what the session's tools do for the envelope *)
Definition clean_output_response (clean : CleanOutput) : result ToolError json :=
  map_err (clean_to_value clean) (fun err => tool_internal (Internal err)).

(** [invoke_session_tool]: [restore] is the lenient one, [core] the session's
    core call on the restored arguments *)
Definition invoke_session_tool (debug_str : string → string) (restore : string → result string string)
    (core : Session Pl Src B → json → result LensError CleanOutput * Session Pl Src B)
    (s : Session Pl Src B) (redacted_args : json) : result ToolError json * Session Pl Src B :=
  match restore_tokens_in_json restore redacted_args with
  | Err e => (Err (tool_internal e), s)
  | Ok args =>
    let '(clean, s) := core s args in
    (clean ← map_err clean (lens_error_to_tool_error debug_str); clean_output_response clean, s)
  end.

(** [dispatch_tool]: [registry] is what registering the tools answers,
    [restore] the strict restoring of a pipeline; the reference of the snapshot
    file is left out of the result *)
Definition dispatch_tool (registry : result string unit)
    (envelope : Session Pl Src B → Pl → string → json → option string → result DispatchError json * Session Pl Src B)
    (restore : Pl → string → result string string)
    (s : Session Pl Src B) (tool_name : string) (args : json)
  : result LensError (CleanOutput * option DiscoveryMetadata) * Session Pl Src B :=
  match extract_profile s tool_name args with
  | Err e => (Err e, s)
  | Ok (profile_name, args) =>
    match pipeline_for s profile_name, map_err registry Internal with
    | Err e, _ => (Err e, s)
    | Ok _, Err e => (Err e, s)
    | Ok pipeline, Ok _ =>
      let raw_log_grep_pattern := json_get args "pattern" ≫= as_str in
      let '(response, s) := envelope s pipeline tool_name args raw_log_grep_pattern in
      (payload ← map_err response dispatch_error_to_lens_error;
       clean ← map_err (clean_from_value payload) Internal;
       clean ← (if String.eqb tool_name "schema" || String.eqb tool_name "list_tables"
                then restore_gaze_tokens (restore pipeline) clean else Ok clean);
       observability ← discovery_observability_for_clean tool_name profile_name clean;
       Ok (clean, observability), s)
    end
  end.
End Discovery.

(** ** The order of texts *)
Lemma compare_trans_lt a b c : String.compare a b = Lt → String.compare b c = Lt → String.compare a c = Lt.
Proof.
  revert b c. induction a as [|x a IH]; intros [|y b] [|z c]; cbn; try done.
  unfold Ascii.compare. destruct (N.compare_spec (N_of_ascii x) (N_of_ascii y)) as [E|?|?]; [| |done].
  - rewrite E. destruct (N.compare_spec (N_of_ascii y) (N_of_ascii z)); [apply IH|done|done].
  - intros _. destruct (N.compare_spec (N_of_ascii y) (N_of_ascii z)) as [<-|?|?]; [| |done]; intros _;
      destruct (N.compare_spec (N_of_ascii x) (N_of_ascii y)), (N.compare_spec (N_of_ascii x) (N_of_ascii z)); done || lia.
Qed.

Lemma compare_refl a : String.compare a a = Eq.
Proof. induction a as [|x a IH]; [done|]. cbn. unfold Ascii.compare. by rewrite N.compare_refl. Qed.

Lemma compare_flip a b : String.compare a b = Gt ↔ String.compare b a = Lt.
Proof. rewrite (String.compare_antisym a b). by destruct (String.compare b a). Qed.

#[global] Instance descriptor_le_trans : Transitive descriptor_le.
Proof.
  intros [a p] [b q] [c r]. unfold descriptor_le. cbn.
  destruct (String.compare a b) eqn:E1; [apply String.compare_eq_iff in E1 as ->| |done];
    (destruct (String.compare b c) eqn:E2; [apply String.compare_eq_iff in E2 as <-| |done]).
  - by destruct p, q, r.
  - done.
  - by rewrite E1.
  - by rewrite (compare_trans_lt _ _ _ E1 E2).
Qed.
#[global] Instance descriptor_le_total : Total descriptor_le.
Proof.
  intros [a p] [b q]. unfold descriptor_le. cbn. rewrite (String.compare_antisym a b).
  destruct (String.compare b a); cbn; [destruct p, q; auto|auto|auto].
Qed.
#[global] Instance descriptor_le_antisymm : AntiSymm (=) descriptor_le.
Proof.
  intros [a p] [b q]. unfold descriptor_le. cbn. rewrite (String.compare_antisym a b).
  destruct (String.compare b a) eqn:E; cbn; [|done|done].
  apply String.compare_eq_iff in E as ->. by destruct p, q.
Qed.
#[global] Instance name_le_trans : Transitive name_le.
Proof.
  intros a b c. unfold name_le. intros H1 H2 H3. apply compare_flip in H3.
  destruct (String.compare a b) eqn:E; [apply String.compare_eq_iff in E as ->; by apply compare_flip in H3| |done].
  apply H2, compare_flip. by eapply compare_trans_lt.
Qed.
#[global] Instance name_le_total : Total name_le.
Proof.
  intros a b. unfold name_le. rewrite (String.compare_antisym a b). destruct (String.compare b a); cbn; auto.
Qed.
#[global] Instance name_le_antisymm : AntiSymm (=) name_le.
Proof.
  intros a b. unfold name_le. rewrite (String.compare_antisym a b). destruct (String.compare b a) eqn:E; cbn; [|done|done].
  apply String.compare_eq_iff in E. done.
Qed.

(** a sort does not see the order of its input *)
Lemma merge_sort_canonical {A} (R : relation A) `{!RelDecision R, !Transitive R, !Total R, !AntiSymm (=) R} l k :
  l ≡ₚ k → merge_sort R l = merge_sort R k.
Proof.
  intros H. apply (StronglySorted_unique R); try by apply StronglySorted_merge_sort.
  by rewrite !merge_sort_Permutation.
Qed.

(** ** Discovery metadata do not depend on the order a source lists things in *)
Section DiscoveryFacts.
Context `{DiscoverySerde}.

(** the metadata of a schema are a function of its table and the set of its
    columns: a source that lists them in another order gets the same hash; and
    the allowed columns are those marked, in order of their names *)
Lemma schema_metadata_canonical profile class t t' tr tr' sc sc' :
  presented_schema t = Ok sc → presented_schema t' = Ok sc' →
  table_token sc = table_token sc' → columns sc ≡ₚ columns sc' →
  schema_discovery_metadata profile class (CleanText t tr) = schema_discovery_metadata profile class (CleanText t' tr').
Proof.
  intros E E' Ht Hc. unfold schema_discovery_metadata. cbn. rewrite E, E'. cbn.
  assert (Hs : sorted_descriptors (columns sc) = sorted_descriptors (columns sc'))
    by (apply merge_sort_canonical; [apply _..|by rewrite Hc]).
  by rewrite Ht, Hs.
Qed.

Lemma tables_metadata_canonical profile class t t' tr tr' l l' :
  presented_tables t = Ok l → presented_tables t' = Ok l' → l ≡ₚ l' →
  list_tables_discovery_metadata profile class (CleanText t tr) = list_tables_discovery_metadata profile class (CleanText t' tr').
Proof.
  intros E E' Hl. unfold list_tables_discovery_metadata. cbn. rewrite E, E'. cbn.
  by rewrite (merge_sort_canonical name_le l l' Hl).
Qed.

Lemma allowed_columns_are_marked profile class t tr sc m :
  presented_schema t = Ok sc → schema_discovery_metadata profile class (CleanText t tr) = Ok m →
  ∃ cs, allowed_columns m = Some cs ∧
    cs ≡ₚ name_token <$> filter (fun c => allowed c = true) (columns sc).
Proof.
  intros E. unfold schema_discovery_metadata. cbn. rewrite E. cbn. intros Hm. open_bind Hm as h Hh.
  injection Hm as <-. eexists. split; [done|]. unfold sorted_descriptors.
  rewrite merge_sort_Permutation. clear. induction (columns sc) as [|[n b] cs IH]; [done|].
  rewrite fmap_cons, !filter_cons. cbn [allowed d_allowed name_token]. destruct b.
  - rewrite decide_True, decide_True, !fmap_cons by done. by rewrite IH.
  - by rewrite decide_False, decide_False.
Qed.
End DiscoveryFacts.

(** ** A call stays in its profile *)
Section Isolation.
Context {Pl Src B : Type} `{JsonText}.
Context (gaze : Pl → GazeSession) (run : B → result LensError Src).
Context (answer : Src → string → json → result LensError SourceOutput).
Implicit Types s : Session Pl Src B.

(** the profile the arguments of a call name *)
Definition named_profile (args : json) : option string := json_get args "profile" ≫= as_str.
(** the profile of a call: the one it names, or the only one *)
Definition ProfileOf s (args : json) (profile : string) : Prop :=
  named_profile args = Some profile ∨
  named_profile args = None ∧ ∃ p, pipeline_mode s = SinglePipeline profile p.

Definition HasPipeline s (profile : string) (pipeline : Pl) : Prop :=
  match pipeline_mode s with
  | SinglePipeline name p => profile = name ∧ pipeline = p
  | MultiPipeline ps => ps !! profile = Some pipeline
  end.

(** the source a call of a tool goes to under a profile *)
Definition Serves s (tool profile : string) (source : Src) : Prop :=
  legacy_sources s !! tool = Some source ∨
  legacy_sources s !! tool = None ∧ ∃ class l, tool_kind tool = Some class ∧
    sources s !! (class, profile) = Some l ∧ (lazy_get run l).1 = Ok source.

Lemma extract_profile_spec s tool args profile args' :
  extract_profile s tool args = Ok (profile, args') →
  ProfileOf s args profile ∧ named_profile args' = Some profile ∧
  ∀ k, k ≠ "profile"%string → json_get args' k = json_get args k.
Proof.
  unfold extract_profile, ProfileOf. destruct args as [| | | | |object]; try done.
  assert (Hn : named_profile (JObject object) = map_get "profile" object ≫= as_str) by done.
  destruct (pipeline_mode s) as [n p|ps]; destruct (map_get "profile" object ≫= as_str) as [q|] eqn:E; try done.
  - destruct (String.eqb_spec q n) as [->|]; [|done]. intros [= <- <-]. rewrite Hn. auto.
  - intros [= <- <-]. rewrite Hn. unfold named_profile. cbn [json_get]. rewrite map_get_insert. split_and!; eauto.
    intros k Hk. cbn [json_get]. rewrite map_get_insert. by apply String.eqb_neq in Hk as ->.
  - destruct (String.eqb q ""); [done|]. destruct (decide _); [|done]. intros [= <- <-]. rewrite Hn. auto.
Qed.

Lemma pipeline_for_spec s profile pipeline : pipeline_for s profile = Ok pipeline → HasPipeline s profile pipeline.
Proof.
  unfold pipeline_for, HasPipeline. destruct (pipeline_mode s) as [n p|ps].
  - destruct (String.eqb_spec n profile); [|done]. by intros [= <-].
  - by destruct (ps !! profile); [intros [= <-]|].
Qed.

(** what a source registered for a class and a profile answers is kept there *)
Lemma invoke_source_spec s tool args profile output s' :
  invoke_source run answer s tool args profile = (Ok output, s') →
  (∃ source, Serves s tool profile source ∧ answer source tool args = Ok output) ∧
  ∃ m, s' = with_sources s m ∧ ∀ class other, other ≠ profile → m !! (class, other) = sources s !! (class, other).
Proof.
  unfold invoke_source, Serves. destruct (legacy_sources s !! tool) as [source|] eqn:El.
  { intros [= Ho <-]. split; [eauto|]. exists (sources s). by destruct s. }
  destruct (tool_kind tool) as [class|] eqn:Ek; [|done].
  destruct (lookup_source s class profile tool) as [l|] eqn:Es; [|done].
  assert (Hl : sources s !! (class, profile) = Some l).
  { revert Es. unfold lookup_source. destruct (sources s !! (class, profile)); [by intros [= ->]|]. by case_match. }
  destruct (lazy_get run l) as [r l'] eqn:Er. intros [= Ho <-]. split.
  - destruct r as [source|]; [|done]. exists source. split; [|done]. right. split; [done|]. exists class, l.
    by rewrite Er.
  - eexists. split; [done|]. intros class' other Ho'. apply lookup_insert_ne. congruence.
Qed.

(** A call stays in its profile: whatever a tool call answers comes from a
    source registered for the profile the call names (the only one, when a
    single-profile session is given none; a tool's own source, when one was
    registered for the tool), was asked for that profile with otherwise the
    call's own arguments, and is the redaction of its output by the pipeline
    and under the column actions of that very profile; nothing the session
    keeps for another profile changes. *)
Lemma call_stays_in_its_profile deadline late s tool id args clean s' :
  invoke_core_tool gaze run answer deadline late s tool id args = (Ok clean, s') →
  ∃ profile pipeline actions source args' output,
    ProfileOf s args profile ∧
    named_profile args' = Some profile ∧ (∀ k, k ≠ "profile"%string → json_get args' k = json_get args k) ∧
    HasPipeline s profile pipeline ∧ column_actions_for s profile = Ok actions ∧
    Serves s tool profile source ∧ answer source tool args' = Ok output ∧
    @redact_result (gaze pipeline) _ (caps s) actions output = Ok clean ∧
    pipeline_mode s' = pipeline_mode s ∧ column_action_mode s' = column_action_mode s ∧
    core_summaries s' = <[id := summary clean]> (core_summaries s) ∧
    ∀ class other, other ≠ profile → sources s' !! (class, other) = sources s !! (class, other).
Proof.
  unfold invoke_core_tool. destruct (extract_profile s tool args) as [[profile args']|] eqn:Ep; [|done].
  destruct (pipeline_for s profile) as [pipeline|] eqn:Epl; [|done].
  destruct (column_actions_for s profile) as [actions|] eqn:Ea; [|done].
  destruct deadline; [|done|done]. cbn [timed_source].
  destruct (invoke_source run answer s tool args' profile) as [[output|] s1] eqn:Es; [|done].
  destruct late; [done|].
  destruct (@redact_result (gaze pipeline) _ _ _ _) as [c|] eqn:Er; [|done]. intros [= -> <-].
  apply extract_profile_spec in Ep as (Hp & Hn & Hk). apply pipeline_for_spec in Epl.
  apply invoke_source_spec in Es as [(source & Hs & Ho) (m & -> & Hm)].
  exists profile, pipeline, actions, source, args', output. by split_and!.
Qed.
End Isolation.

(** ** A concrete call *)
Definition sample_registry : Session unit string string :=
  with_sources (from_parts (MultiPipeline {["crm"%string := tt; "logs"%string := tt]}) (MultiActions ∅) default_caps)
    {[(Database, "crm"%string) := lazy_new (BuildWith "crm-db"%string);
      (Log, "logs"%string) := lazy_ready "app-log"%string]}.
Definition sample_answer (source tool : string) (args : json) : result LensError SourceOutput :=
  Ok (OutText (concat_str [source; " "; tool]%string)).
Definition sample_call : json := JObject [("profile"%string, JString "crm")].

Definition sample_run : result LensError CleanOutput * Session unit string string :=
  @invoke_core_tool unit string string sample_json (fun _ => sample_session) Ok sample_answer
    Met false sample_registry "query" "call-1" sample_call.

Lemma call_stays_in_its_profile_witness :
  sample_run.1 = Ok (CleanText "crm-db query" []) ∧
  sources sample_run.2 !! (Log, "logs"%string) = sources sample_registry !! (Log, "logs"%string).
Proof.
  assert (E : sample_run.1 = Ok (CleanText "crm-db query" [])) by (vm_compute; reflexivity).
  split; [exact E|].
  destruct (@call_stays_in_its_profile unit string string sample_json (fun _ => sample_session) Ok sample_answer
    Met false sample_registry "query" "call-1" sample_call (CleanText "crm-db query" []) sample_run.2)
    as (profile & ? & ? & ? & ? & ? & Hp & _ & _ & _ & _ & _ & _ & _ & _ & _ & _ & Hs).
  - rewrite <- E. apply surjective_pairing.
  - apply Hs. destruct Hp as [Hp|[Hp _]]; [injection Hp as <-; discriminate|discriminate Hp].
Defined.
