(* ===== verification/RemoteWire.v ===== *)
(** * The wire of a remote log source

    Models src/src/source/remote/wire.rs, which the client and the service of a
    remote log share: the fixed control messages, the call and its response
    with their validation, JSON without duplicate keys, and the frames.

    A connection is the state [Io]: what the [BufReader] holds, the arrivals
    still to come, the outcomes of the writes still to come, and what was
    written.  serde_json and the derived readers are the class [RemoteJson]; an
    event tree is what the deserializer reports, keys in order and possibly
    repeated. *)

From S2P Require Import Prelude Utf8 Str Errors LensValue LogSource Output Session.

Definition failure : LensError := SourceError "remote log" "remote operation rejected" None None.
Abbreviation Remote := (result LensError).
(** [if bad { return Err(failure()) }] *)
Definition reject (bad : bool) : Remote unit := if bad then Err failure else Ok tt.

Definition VERSION : string := "2025-11-25".
Definition FRAME_BYTES : N := 1024 * 1024.
Definition RESULT_BYTES : N := 128 * 1024.
Definition LINE_BYTES : N := 8192.
Definition MAX_LINES : N := 1000.
Definition SCAN_BYTES : N := 1024 * 1024.

(** ** Values *)
Fixpoint json_eqb (v w : json) : bool :=
  match v, w with
  | JNull, JNull => true
  | JBool b, JBool c => Bool.eqb b c
  | JNumber n, JNumber m => String.eqb n m
  | JString s, JString t => String.eqb s t
  | JArray l, JArray k =>
    (fix go l k := match l, k with
      | [], [] => true
      | v :: l, w :: k => json_eqb v w && go l k
      | _, _ => false
      end) l k
  | JObject l, JObject k =>
    (fix go l k := match l, k with
      | [], [] => true
      | (a, v) :: l, (b, w) :: k => String.eqb a b && json_eqb v w && go l k
      | _, _ => false
      end) l k
  | _, _ => false
  end.

(** the visitor of [Unique]: a value whose objects repeat no key *)
Fixpoint unique (v : json) : option json :=
  match v with
  | JArray l =>
    l ← (fix go l := match l with
      | [] => Some []
      | x :: l => x ← unique x; l ← go l; Some (x :: l)
      end) l;
    Some (JArray l)
  | JObject l =>
    m ← (fix go l m := match l with
      | [] => Some m
      | (k, x) :: l =>
        match map_get k m with
        | Some _ => None
        | None => x ← unique x; go l (map_insert k x m)
        end
      end) l [];
    Some (JObject m)
  | v => Some v
  end.

(** ** Control messages *)
Definition jn (n : N) : json := JNumber (num n).
Definition js (s : string) : json := JString s.
(** the [json!] of an object: by key *)
Definition obj : json_map → json := json_object.

Definition initialize : json :=
  obj [("jsonrpc", js "2.0"); ("id", jn 1); ("method", js "initialize");
       ("params", obj [("protocolVersion", js VERSION); ("capabilities", obj []);
          ("clientInfo", obj [("name", js "gaze-lens"); ("version", js "1")])])]%string.
Definition initialized : json :=
  obj [("jsonrpc", js "2.0"); ("method", js "notifications/initialized")]%string.
Definition ready : json :=
  obj [("jsonrpc", js "2.0"); ("id", jn 1);
       ("result", obj [("protocolVersion", js VERSION); ("capabilities", obj [("tools", obj [])]);
          ("serverInfo", obj [("name", js "gaze-lens-log-service"); ("version", js "1")])])]%string.
Definition list_ : json :=
  obj [("jsonrpc", js "2.0"); ("id", jn 2); ("method", js "tools/list"); ("params", obj [])]%string.
Definition tools : json :=
  obj [("jsonrpc", js "2.0"); ("id", jn 2);
       ("result", obj [("tools", JArray [obj [
          ("name", js "log_tail"); ("description", js "Read a bounded configured log resource");
          ("inputSchema", obj [("type", js "object");
             ("properties", obj [("resource", obj [("type", js "string")]);
                ("lines", obj [("type", js "integer"); ("minimum", jn 1); ("maximum", jn MAX_LINES)])]);
             ("required", JArray [js "resource"; js "lines"]); ("additionalProperties", JBool false)])]])])]%string.

(** ** The call *)
Record Authentication := mkAuthentication { m_token : string }.
Record CallArguments := mkArguments { a_resource : string; a_lines : N }.
Record Params := mkParams { p_name : string; p_arguments : CallArguments; p_meta : Authentication }.
Record Call := mkCall { c_jsonrpc : string; c_id : N; c_method : string; c_params : Params }.

Definition call (resource : string) (lines : N) (token : string) : json :=
  obj [("jsonrpc", js "2.0"); ("id", jn 3); ("method", js "tools/call");
       ("params", obj [("name", js "log_tail");
          ("arguments", obj [("resource", js resource); ("lines", jn lines)]);
          ("_meta", obj [("gaze-lens/token", js token)])])]%string.

Definition valid_name (s : string) : bool :=
  negb (slen s =? 0) && (slen s <=? 64) &&
  forallb (fun b => is_ascii_alphanumeric (code b) || beq b "_" || beq b "-") (str_bytes s).
Definition valid_token (s : string) : bool :=
  (slen s =? 64) && forallb (fun b => is_ascii_hexdigit (code b)) (str_bytes s).

(** ** The response *)
Inductive Truncation := TBytes | TLines | TLineBytes.
#[global] Instance Truncation_eq_dec : EqDecision Truncation.
Proof. solve_decision. Defined.
Record LogBody := mkLogBody { b_lines : list string; b_truncated : list Truncation }.
Record CallResult := mkCallResult { r_content : list json; r_structured : LogBody; r_is_error : bool }.
Record Response := mkResponse { r_jsonrpc : string; r_id : N; r_result : CallResult }.

Definition truncation_name (t : Truncation) : string :=
  match t with TBytes => "bytes" | TLines => "lines" | TLineBytes => "line_bytes" end.
(** [to_value] of a body *)
Definition body_json (b : LogBody) : json :=
  obj [("lines", JArray (JString <$> b_lines b));
       ("truncated", JArray (JString ∘ truncation_name <$> b_truncated b))]%string.
Definition response (body : LogBody) : json :=
  obj [("jsonrpc", js "2.0"); ("id", jn 3);
       ("result", obj [("content", JArray []); ("structuredContent", body_json body); ("isError", JBool false)])]%string.

Class RemoteJson := {
  (** the events of [from_slice] on one JSON value, and [to_vec] *)
  events : bytes → option json;
  to_vec : json → option bytes;
  (** the derived readers, unknown fields refused *)
  call_of : json → option Call;
  response_of : json → option Response;
}.

Section Codec.
Context `{RemoteJson}.

Definition parse (b : bytes) : Remote json :=
  v ← ok_or (events b) failure;
  ok_or (unique v) failure.

Definition decode_call (value : json) : Remote Call :=
  c ← ok_or (call_of value) failure;
  let a := p_arguments (c_params c) in
  _ ← reject (negb (String.eqb (c_jsonrpc c) "2.0") || negb (c_id c =? 3) ||
              negb (String.eqb (c_method c) "tools/call") || negb (String.eqb (p_name (c_params c)) "log_tail") ||
              negb (in_range 1 MAX_LINES (a_lines a)) || negb (valid_name (a_resource a)) ||
              negb (valid_token (m_token (p_meta (c_params c)))));
  Ok c.

(** the loop of [UpstreamText::validate] over the lines *)
Definition has_line_break (line : bytes) : bool := existsb (fun b => beq b LF || beq b CR || (code b =? 0)) line.
Fixpoint check_lines (total : N) (ls : list string) : Remote unit :=
  match ls with
  | [] => Ok tt
  | line :: ls =>
    total ← ok_or (checked_add total (slen line + 1)) failure;
    _ ← reject ((LINE_BYTES <? slen line) || has_line_break (str_bytes line) || (RESULT_BYTES <? total));
    check_lines total ls
  end.
(** some reason was [seen] before *)
Definition repeats (l : list Truncation) : bool := negb (bool_decide (NoDup l)).

Definition validate (body : LogBody) (requested : N) : Remote LogBody :=
  _ ← reject ((requested <? len (b_lines body)) || (MAX_LINES <? len (b_lines body)) || repeats (b_truncated body));
  _ ← check_lines 0 (b_lines body);
  Ok body.

Definition reason (t : Truncation) : TruncatedAt :=
  match t with TBytes => TrBytes | TLines => TrRows | TLineBytes => TrLineBytes end.
(** [lines.join("\n")] *)
Definition join (ls : list string) : string := String.concat (str_of [LF]) ls.
Definition into_output (body : LogBody) : SourceOutput :=
  OutTextWithTruncation (join (b_lines body)) (reason <$> b_truncated body).

Definition decode_response (value : json) (requested : N) : Remote LogBody :=
  r ← ok_or (response_of value) failure;
  _ ← reject (negb (String.eqb (r_jsonrpc r) "2.0") || negb (r_id r =? 3) || r_is_error (r_result r) ||
              negb (is_nil (r_content (r_result r))));
  validate (r_structured (r_result r)) requested.
End Codec.

(** ** Input and output *)

(** what a read of the stream meets: bytes (none of them is the end of the
    stream), an error, or nothing until the deadline *)
Inductive Arrival := Data (b : bytes) | Broken | Silence.

Record Io := mkIo {
  io_buf : bytes;
  io_in : list Arrival;
  (** the outcome of the writes, flushes and shutdowns to come: done, or failed
      after some bytes; when none is listed, done *)
  io_faults : list (option nat);
  io_out : bytes;
  io_shut : bool }.

Definition M (A : Type) : Type := Io → Remote A * Io.
#[export] Instance M_ret : MRet M := fun A a io => (Ok a, io).
#[export] Instance M_bind : MBind M := fun A B f m io =>
  match m io with (Ok a, io) => f a io | (Err e, io) => (Err e, io) end.
Definition lift {A} (r : Remote A) : M A := fun io => (r, io).

(** [fill_buf] *)
Definition fill_buf : M bytes := fun io =>
  match io_buf io with
  | _ :: _ => (Ok (io_buf io), io)
  | [] =>
    match io_in io with
    | [] => (Ok [], io)
    | Data b :: arrivals => (Ok b, mkIo b arrivals (io_faults io) (io_out io) (io_shut io))
    | (Broken | Silence) :: arrivals => (Err failure, mkIo [] arrivals (io_faults io) (io_out io) (io_shut io))
    end
  end.

(** one turn of the loop of [read_frame] on a non-empty buffer: the frame and
    what is left of the buffer, or the bytes so far *)
Definition line_end (buf : bytes) : nat :=
  match list_find (fun b => b = LF) buf with Some (i, _) => S i | None => length buf end.
Definition take_line (acc buf : bytes) : Remote (bytes * bytes + bytes) :=
  let n := line_end buf in
  _ ← reject (FRAME_BYTES <? len acc + N.of_nat n);
  Ok (match buf !! (n - 1)%nat with
      | Some b => if beq b LF then inl (acc ++ take n buf, drop n buf) else inr (acc ++ take n buf)
      | None => inr (acc ++ take n buf)
      end).

(** the loop, once the buffer is empty *)
Fixpoint read_more (acc : bytes) (arrivals : list Arrival) : Remote (bytes * bytes) * list Arrival :=
  match arrivals with
  | [] => (Err failure, [])
  | (Broken | Silence | Data []) :: arrivals => (Err failure, arrivals)
  | Data buf :: arrivals =>
    match take_line acc buf with
    | Err e => (Err e, arrivals)
    | Ok (inl frame) => (Ok frame, arrivals)
    | Ok (inr acc) => read_more acc arrivals
    end
  end.
Definition read_frame : M bytes := fun io =>
  let '(r, arrivals) :=
    match io_buf io with
    | [] => read_more [] (io_in io)
    | buf =>
      match take_line [] buf with
      | Err e => (Err e, io_in io)
      | Ok (inl frame) => (Ok frame, io_in io)
      | Ok (inr acc) => read_more acc (io_in io)
      end
    end in
  match r with
  | Ok (frame, rest) => (Ok frame, mkIo rest arrivals (io_faults io) (io_out io) (io_shut io))
  | Err e => (Err e, mkIo [] arrivals (io_faults io) (io_out io) (io_shut io))
  end.

(** an operation on the sending side, which puts [b] out *)
Definition put (b : bytes) : M unit := fun io =>
  match io_faults io with
  | Some n :: faults => (Err failure, mkIo (io_buf io) (io_in io) faults (io_out io ++ take n b) (io_shut io))
  | None :: faults => (Ok tt, mkIo (io_buf io) (io_in io) faults (io_out io ++ b) (io_shut io))
  | [] => (Ok tt, mkIo (io_buf io) (io_in io) [] (io_out io ++ b) (io_shut io))
  end.
(** [shutdown]: authenticated end of what this side sends *)
Definition closed : M unit := fun io => (Ok tt, mkIo (io_buf io) (io_in io) (io_faults io) (io_out io) true).
Definition shutdown : M unit := _ ← put []; closed.

Section Frames.
Context `{RemoteJson}.

Definition read : M json := b ← read_frame; lift (parse b).

Definition write (value : json) : M unit :=
  b ← lift (ok_or (to_vec value) failure);
  _ ← lift (reject (FRAME_BYTES <=? len b));
  _ ← put (b ++ [LF]);
  put [].

Definition expect (value : json) : M unit :=
  got ← read;
  lift (reject (negb (json_eqb got value))).
End Frames.
