(* ===== verification/RemoteService.v ===== *)
(** * The remote log service

    Models src/src/source/remote/service.rs and [bounded_file] of
    src/src/source/remote/mod.rs: the grants file and its check, the tail of a
    log file, one connection, and the admission of connections.

    An opened file is what its calls answer; the readings of the grants file
    and of the clock, made once before and once after the log is read, are
    arguments, as are the derived readers of the grants ([GrantsLibs]) and
    SHA-256.  TLS acceptance is a given outcome. *)

From S2P Require Import Prelude Utf8 Str Errors LensValue LogSource Output Profile Session RemoteWire.

(** ** Files *)

(** an opened file: what [metadata] answers (is it a regular file, its length),
    whether a seek works, and what reading at most [n] bytes from a position
    to their end yields *)
Record RawFile := mkRawFile {
  rf_meta : option (bool * N);
  rf_seek : bool;
  rf_read : N → N → option bytes }.

Definition read_up_to (f : RawFile) (pos n : N) : Remote bytes :=
  b ← ok_or (rf_read f pos n) failure;
  Ok (take (N.to_nat n) b).

(** [opened]: the result of the open without following links *)
Definition bounded_file (opened : option RawFile) (cap : N) : Remote bytes :=
  f ← ok_or opened failure;
  '(is_file, _) ← ok_or (rf_meta f) failure;
  _ ← reject (negb is_file);
  b ← read_up_to f 0 (cap + 1);
  _ ← reject (cap <? len b);
  Ok b.

(** ** Grants *)
Record Grant := mkGrant { g_sha256 : string; g_enabled : bool; g_expires_unix : N; g_operation : string; g_resource : string }.

Class GrantsLibs := {
  (** the derived reader of [Grants] *)
  grants_of : json → option (list Grant);
  sha256 : bytes → bytes;
}.

(** [u8::from_str_radix(_, 16)] on two bytes *)
Definition hex_value (b : ascii) : option N :=
  let c := code b in
  if is_ascii_digit c then Some (c - 48)
  else if in_range 97 102 c then Some (c - 87)
  else if in_range 65 70 c then Some (c - 55)
  else None.
Fixpoint hex_bytes (s : bytes) : option bytes :=
  match s with
  | [] => Some []
  | a :: b :: s =>
    a ← hex_value a; b ← hex_value b; rest ← hex_bytes s; Some (ascii_of_N (16 * a + b) :: rest)
  | _ => None
  end.

Definition GRANTS_BYTES : N := 64 * 1024.
Definition MAX_GRANTS : N := 128.

Section Service.
Context `{RemoteJson, GrantsLibs}.

(** the loop over the grants: the digests seen, and whether one allows *)
Fixpoint allow (digest : bytes) (now : N) (resource : string) (seen : list bytes) (allowed : bool) (gs : list Grant)
  : Remote bool :=
  match gs with
  | [] => Ok allowed
  | g :: gs =>
    _ ← reject (negb (valid_token (g_sha256 g)) || negb (valid_name (g_resource g)) ||
                negb (String.eqb (g_operation g) "log_tail"));
    expected ← ok_or (hex_bytes (str_bytes (g_sha256 g))) failure;
    _ ← reject (bool_decide (expected ∈ seen));
    let matches := bool_decide (digest = expected) in
    allow digest now resource (expected :: seen)
      (allowed || (matches && g_enabled g && (now <? g_expires_unix g) && String.eqb (g_resource g) resource)) gs
  end.

(** what is read when authority is checked: the grants file and the clock in
    seconds ([None] before the epoch) *)
Record Authority := mkAuthority { au_file : option RawFile; au_now : option N }.

Definition authorize (au : Authority) (token resource : string) : Remote unit :=
  b ← bounded_file (au_file au) GRANTS_BYTES;
  v ← parse b;
  gs ← ok_or (grants_of v) failure;
  _ ← reject (MAX_GRANTS <? len gs);
  let digest := sha256 (str_bytes token) in
  now ← ok_or (au_now au) failure;
  allowed ← allow digest now resource [] false gs;
  reject (negb allowed).

(** ** The tail *)
Definition note (t : Truncation) (l : list Truncation) : list Truncation :=
  if bool_decide (t ∈ l) then l else l ++ [t].

(** the index after the first, and after the last, newline *)
Definition after_first_lf (b : bytes) : nat :=
  match list_find (fun c => c = LF) b with Some (i, _) => S i | None => length b end.
Fixpoint after_last_lf (b : bytes) : nat :=
  match b with
  | [] => O
  | c :: b =>
    match after_last_lf b with
    | O => if beq c LF then 1%nat else O
    | S n => S (S n)
    end
  end.

(** the loop over the lines from the last; the answer's lines are in reverse *)
Fixpoint tail_loop (limit : N) (rev_lines : list bytes) (output : list bytes) (total : N) (truncated : list Truncation)
  : Remote (list bytes * list Truncation) :=
  match rev_lines with
  | [] => Ok (output, truncated)
  | line :: rest =>
    if len output =? limit then Ok (output, note TLines truncated)
    else if LINE_BYTES <? len line then tail_loop limit rest output total (note TLineBytes truncated)
    else
      _ ← reject (existsb (fun b => beq b CR || (code b =? 0)) line);
      if RESULT_BYTES <? total + len line + 1 then Ok (output, note TBytes truncated)
      else tail_loop limit rest (line :: output) (total + len line + 1) truncated
  end.

Definition finish_tail (b : bytes) (start lines : N) : Remote LogBody :=
  let '(b, truncated) := if 0 <? start then (drop (after_first_lf b) b, [TBytes]) else (b, []) in
  let end_ := after_last_lf b in
  let '(b, truncated) := if (end_ <? length b)%nat then (take end_ b, note TBytes truncated) else (b, truncated) in
  _ ← reject (negb (utf8_valid b));
  '(output, truncated) ← tail_loop lines (reverse (str_lines b)) [] 0 truncated;
  Ok (mkLogBody (str_of <$> output) truncated).

Definition tail (opened : option RawFile) (lines : N) : Remote LogBody :=
  f ← ok_or opened failure;
  '(is_file, length_) ← ok_or (rf_meta f) failure;
  _ ← reject (negb is_file);
  let start := length_ - SCAN_BYTES in
  _ ← reject (negb (rf_seek f));
  b ← read_up_to f start (length_ - start);
  finish_tail b start lines.

(** ** One request *)
Record ServiceConfig := mkServiceConfig {
  listen : string; certificate : string; private_key : string; grants : string; resources : gmap string string }.

(** the checks of [run] on the resources it serves *)
Definition check_resources (config : ServiceConfig) : Remote unit :=
  reject (bool_decide (resources config = ∅) || (128 <? N.of_nat (size (resources config))) ||
          existsb (fun k => negb (valid_name k)) (elements (dom (resources config)))).

(** [before] and [after]: the authority as read around the log; [read]: the
    reading of a path *)
Definition authorized_tail (config : ServiceConfig) (token : string) (args : CallArguments)
    (before after : Authority) (read : string → N → Remote LogBody) : Remote LogBody :=
  _ ← authorize before token (a_resource args);
  path ← ok_or (resources config !! a_resource args) failure;
  body ← read path (a_lines args);
  _ ← authorize after token (a_resource args);
  Ok body.

(** ** A connection

    [accepted]: TLS was accepted in time; [joined]: the worker did not panic. *)
Definition connection (config : ServiceConfig) (accepted joined : bool) (before after : Authority)
    (files : string → option RawFile) : M unit :=
  _ ← lift (reject (negb accepted));
  _ ← expect initialize;
  _ ← write ready;
  _ ← expect initialized;
  _ ← expect list_;
  _ ← write tools;
  v ← read;
  c ← lift (decode_call v);
  more ← fill_buf;
  _ ← lift (reject (negb (is_nil more)));
  _ ← lift (reject (negb joined));
  body ← lift (authorized_tail config (m_token (p_meta (c_params c))) (p_arguments (c_params c)) before after
                 (fun path lines => tail (files path) lines));
  _ ← write (response body);
  shutdown.
End Service.

(** ** Admission: eight permits, each held by a connection or by the worker a
    connection started, whichever ends last *)
Record Permits := mkPermits { connections : N; working : N; detached : N }.
Definition SERVICE_PERMITS : N := 8.
Definition held (p : Permits) : N := connections p + working p + detached p.
Inductive serve_step : Permits → Permits → Prop :=
| serve_admit c w d : c + w + d < SERVICE_PERMITS → serve_step (mkPermits c w d) (mkPermits (c + 1) w d)
| serve_drop c w d : SERVICE_PERMITS <= c + w + d → serve_step (mkPermits c w d) (mkPermits c w d)
(** a connection without a worker ends, or hands its permit to a worker *)
| serve_end c w d : 0 < c → serve_step (mkPermits c w d) (mkPermits (c - 1) w d)
| serve_work c w d : 0 < c → serve_step (mkPermits c w d) (mkPermits (c - 1) (w + 1) d)
(** the worker gives the permit back to its connection with the result, or
    fails with it *)
| serve_done c w d : 0 < w → serve_step (mkPermits c w d) (mkPermits (c + 1) (w - 1) d)
| serve_failed c w d : 0 < w → serve_step (mkPermits c w d) (mkPermits c (w - 1) d)
(** the connection times out while its worker runs: the worker keeps the permit *)
| serve_cancel c w d : 0 < w → serve_step (mkPermits c w d) (mkPermits c (w - 1) (d + 1))
| serve_reap c w d : 0 < d → serve_step (mkPermits c w d) (mkPermits c w (d - 1)).
Definition serve_init : Permits := mkPermits 0 0 0.

(** ** The remote log source

    Models src/src/source/remote/mod.rs, the client of a remote log service:
    the settings and their check, the credential, one exchange, and the
    dispatch of [log_tail].

    The parsers of addresses and of server names, the environment, the keyring
    and the derived reader of the arguments are the class [RemoteEnv]; whether
    the trust root's certificates make a usable TLS configuration, and what
    becomes of connecting, are given outcomes, like the deadlines. *)

Record TailArgs := mkTailArgs { ta_profile : string; ta_lines : option N }.

Class RemoteEnv := {
  (** [parse::<SocketAddr>] and [ServerName::try_from] succeed *)
  socket_addr_ok : string → bool;
  server_name_ok : string → bool;
  env_var : string → option string;
  (** what the keyring answers *)
  keyring_password : string → string → option string;
  (** the derived reader of the arguments of [dispatch] *)
  tail_args_of : json → option TailArgs;
}.

(** ** The budget of the blocking jobs: one permit that never queues *)
Inductive budget_event := BudgetRequest | BudgetExit.
(** the jobs running and the requests that were granted *)
Definition budget_step (running : N) (ev : budget_event) : Remote N :=
  match ev with
  | BudgetRequest => if running =? 0 then Ok 1 else Err failure
  | BudgetExit => Ok 0
  end.

Section Client.
Context `{RemoteJson, RemoteEnv}.

Definition remote_validate (c : RemoteConfig) : Remote unit :=
  reject (negb (socket_addr_ok (endpoint c)) || negb (server_name_ok (server_name c)) ||
          String.eqb (trust_root c) "" || negb (valid_name (Profile.resource c))).

(** [granted]: whether the blocking budget was free *)
Definition local_blocking {A} (granted : bool) (work : Remote A) : Remote A :=
  _ ← reject (negb granted); work.

Definition remote_token (granted : bool) (c : RemoteConfig) : Remote string :=
  token ← (match secret c with
           | SecretEnv var => ok_or (env_var var) failure
           | SecretKeyring service account => local_blocking granted (ok_or (keyring_password service account) failure)
           end);
  _ ← reject (negb (valid_token token));
  Ok token.

(** what the surroundings of an exchange answer, in order: the budget of each
    blocking job, the trust root, whether it yields a TLS configuration, and
    the connection *)
Record Surroundings := mkSurroundings {
  su_budget_token : bool;
  su_budget_root : bool;
  su_root : option RawFile;
  su_tls : bytes → bool;
  su_connected : bool }.

Definition TRUST_ROOT_BYTES : N := 64 * 1024.

Definition exchange (c : RemoteConfig) (su : Surroundings) (lines : N) : M SourceOutput :=
  token ← lift (remote_token (su_budget_token su) c);
  root ← lift (local_blocking (su_budget_root su) (bounded_file (su_root su) TRUST_ROOT_BYTES));
  _ ← lift (reject (negb (su_tls su root)));
  _ ← lift (reject (negb (server_name_ok (server_name c))));
  _ ← lift (reject (negb (su_connected su)));
  _ ← write initialize;
  _ ← expect ready;
  _ ← write initialized;
  _ ← write list_;
  _ ← expect tools;
  _ ← write (call (Profile.resource c) lines token);
  _ ← shutdown;
  v ← read;
  output ← lift (decode_response v lines);
  more ← fill_buf;
  _ ← lift (reject (negb (is_nil more)));
  _ ← shutdown;
  mret (into_output output).

(** [late]: the thirty seconds of the exchange elapsed first *)
Definition remote_tail (c : RemoteConfig) (su : Surroundings) (late : bool) (lines : N) : M SourceOutput := fun io =>
  if negb (in_range 1 MAX_LINES lines) then (Err failure, io)
  else
    let '(r, io) := exchange c su lines io in
    (if late then Err failure else r, io).

Definition remote_new (c : RemoteConfig) : Remote RemoteConfig := _ ← remote_validate c; Ok c.

Definition DEFAULT_TAIL : N := 100.
Definition remote_dispatch (c : RemoteConfig) (su : Surroundings) (late : bool) (tool_name : string) (args : json)
  : M SourceOutput :=
  _ ← lift (reject (negb (String.eqb tool_name "log_tail")));
  a ← lift (ok_or (tail_args_of args) failure);
  _ ← lift (map_err (validate_profile_name (ta_profile a)) (fun _ => failure));
  remote_tail c su late (default DEFAULT_TAIL (ta_lines a)).
End Client.
