(* ===== verification/RemoteFacts.v ===== *)
(** * What a remote log shows

    The service's tail is the end of the log's complete lines; its grants
    decide exactly who may read; client and service together, over any
    chunking of the bytes between them, answer what the service's tail
    answers to an authorized reader. *)

From S2P Require Import Prelude Utf8 Str Errors SshArgs LensValue Profile LogSource LogFacts Output Session RemoteWire RemoteService.

(** ** Lines *)
Lemma strip_suffix_default c l b : b ∈ default l (strip_suffix c l) → b ∈ l.
Proof.
  destruct (strip_suffix c l) as [r|] eqn:E; [|done]. apply strip_suffix_some in E as ->. cbn. set_solver.
Qed.

(** no line holds a newline *)
Lemma str_lines_no_lf s : Forall (fun l => LF ∉ l) (str_lines s).
Proof.
  unfold str_lines. apply Forall_forall. intros l (i & p & -> & Hp)%elem_of_lookup_imap.
  assert (Hin : p ∈ split LF s).
  { apply list_elem_of_lookup_2 in Hp. revert Hp. destruct (last (split LF s)) as [[|]|]; [|done|done].
    intros Hp. by eapply elem_of_take in Hp as (? & Hp%list_elem_of_lookup_2 & _). }
  pose proof (proj1 (Forall_forall _ _) (split_pieces LF s) _ Hin) as Hno. cbn in Hno.
  destruct (decide _); [done|]. intros Hl%strip_suffix_default. done.
Qed.

(** ** The tail of the service *)
Definition short (l : bytes) : Prop := len l <= LINE_BYTES.
#[global] Instance short_dec l : Decision (short l) := _.
Definition plain (l : bytes) : Prop := CR ∉ l ∧ byte_of 0 ∉ l.
(** what lines take with their newlines *)
Definition weight (ls : list bytes) : N := foldr (fun l n => len l + 1 + n) 0 ls.

(** [out] and [tr] are the end of [ls], at most [limit] lines, longer ones left
    out, as much as fits: [bytes] says whether the window was cut already *)
Record TailOf (limit : N) (ls : list bytes) (cut : bool) (out : list bytes) (tr : list Truncation) : Prop := {
  to_split : ∃ pre suf, ls = pre ++ suf ∧ out = filter short suf ∧
    (pre = [] ∨ len out = limit ∨
     ∃ pre' l, pre = pre' ++ [l] ∧ short l ∧ RESULT_BYTES < weight out + len l + 1) ∧
    (TLineBytes ∈ tr ↔ ∃ l, l ∈ suf ∧ ¬ short l) ∧
    (TLines ∈ tr ↔ pre ≠ [] ∧ len out = limit) ∧
    (TBytes ∈ tr ↔ cut = true ∨ (pre ≠ [] ∧ len out ≠ limit));
  to_limit : len out <= limit;
  to_weight : weight out <= RESULT_BYTES;
  to_plain : Forall plain out;
  to_reasons : NoDup tr }.

Lemma note_in t u l : t ∈ note u l ↔ t = u ∨ t ∈ l.
Proof. unfold note. case_bool_decide; set_solver. Qed.
Lemma note_nodup t l : NoDup l → NoDup (note t l).
Proof.
  unfold note. case_bool_decide as Hin; [done|]. intros Hl. apply NoDup_app. split_and!; [done|set_solver|].
  apply NoDup_singleton.
Qed.

Lemma existsb_none {A} (p : A → bool) l : existsb p l = false ↔ ∀ x, x ∈ l → p x = false.
Proof.
  induction l as [|y l IH]; cbn [existsb]; [set_solver|]. rewrite orb_false_iff, IH. set_solver.
Qed.

Lemma plain_spec l : existsb (fun b => beq b CR || (code b =? 0)) l = false ↔ plain l.
Proof.
  rewrite existsb_none. unfold plain. split.
  - intros Hl. split; intros Hin; apply Hl in Hin; [|done].
    apply orb_false_iff in Hin as [Hin _]. by apply beq_false in Hin.
  - intros [Hc H0] b Hb. apply orb_false_iff. rewrite beq_false, N.eqb_neq. split; [set_solver|].
    intros E. apply H0. replace (byte_of 0) with b; [done|]. apply code_inj. by rewrite E.
Qed.

Lemma reject_ok b u : reject b = Ok u ↔ b = false.
Proof. destruct b, u; naive_solver. Qed.

Lemma tail_loop_spec limit rls suf out total tr cut ls' tr' :
  out = filter short suf → total = weight out → Forall plain out → len out <= limit → total <= RESULT_BYTES →
  NoDup tr → (TLineBytes ∈ tr ↔ ∃ l, l ∈ suf ∧ ¬ short l) → TLines ∉ tr → (TBytes ∈ tr ↔ cut = true) →
  tail_loop limit rls out total tr = Ok (ls', tr') →
  TailOf limit (reverse rls ++ suf) cut ls' tr'.
Proof.
  revert suf out total tr. induction rls as [|line rls IH]; intros suf out total tr Ho Ht Hp Hlim Hres Hn Hlb Hl Hb;
    cbn [tail_loop].
  { intros [= <- <-]. split; try done; [|by subst]. exists [], suf. split_and!; naive_solver. }
  rewrite reverse_cons, <- app_assoc. cbn [app].
  destruct (N.eqb_spec (len out) limit) as [E|E].
  { intros [= <- <-]. split; try done; [|by subst|by apply note_nodup].
    exists (reverse rls ++ [line]), suf. rewrite !note_in, <- app_assoc.
    assert (reverse rls ++ [line] ≠ []) by by destruct (reverse rls). split_and!; naive_solver. }
  destruct (N.ltb_spec LINE_BYTES (len line)) as [Hlong|Hshort].
  { apply IH; try done; [|by apply note_nodup|..]; rewrite ?note_in.
    - rewrite filter_cons, decide_False; [done|]. unfold short. lia.
    - split; [|by left]. intros _. exists line. split; [by left|unfold short; lia].
    - naive_solver.
    - naive_solver. }
  intros Hr. apply check_then in Hr as [Hc%reject_ok Hr]. apply plain_spec in Hc.
  assert (Hf : filter short (line :: suf) = line :: out) by (subst out; by rewrite filter_cons, decide_True).
  destruct (N.ltb_spec RESULT_BYTES (total + len line + 1)) as [Hbig|Hfit].
  { injection Hr as <- <-. split; try done; [|by subst|by apply note_nodup].
    exists (reverse rls ++ [line]), suf. rewrite !note_in, <- app_assoc.
    assert (reverse rls ++ [line] ≠ []) by by destruct (reverse rls).
    split_and!; [done..| | | |]; [|naive_solver..].
    right. right. exists (reverse rls), line. split_and!; [done|done|by subst]. }
  revert Hr. apply IH; try done.
  - subst total. cbn [weight foldr]. fold (weight out). lia.
  - by constructor.
  - rewrite len_cons. lia.
  - rewrite Hlb. split; intros (l & Hin & Hs); exists l; (split; [|done]); [by right|].
    apply elem_of_cons in Hin as [->|]; [by destruct Hs|done].
Qed.

Lemma tail_loop_err limit rls out total tr e :
  tail_loop limit rls out total tr = Err e → ∃ l, l ∈ rls ∧ ¬ plain l.
Proof.
  revert out total tr. induction rls as [|line rls IH]; intros out total tr; cbn [tail_loop]; [done|].
  destruct (_ =? _); [done|]. destruct (_ <? _).
  { intros (l & ? & ?)%IH. exists l. set_solver. }
  rewrite bind_err. unfold reject. intros [E|(u & Hu & E)].
  - destruct (existsb _ line) eqn:Hx; [|done]. exists line. split; [by left|]. rewrite <- plain_spec. congruence.
  - destruct (_ <? _); [done|]. apply IH in E as (l & ? & ?). exists l. set_solver.
Qed.

Lemma tail_loop_failure limit rls out total tr e : tail_loop limit rls out total tr = Err e → e = failure.
Proof.
  revert out total tr. induction rls as [|line rls IH]; intros out total tr; cbn [tail_loop]; [done|].
  destruct (_ =? _); [done|]. destruct (_ <? _); [apply IH|]. rewrite bind_err. unfold reject.
  intros [E|(u & _ & E)]; [by destruct (existsb _ _); simplify_eq|]. destruct (_ <? _); [done|by eapply IH].
Qed.

Lemma after_last_lf_spec b :
  LF ∉ drop (after_last_lf b) b ∧ open_line (take (after_last_lf b) b) = false ∧ (after_last_lf b <= length b)%nat.
Proof.
  induction b as [|c b (Hd & Ho & Hl)]; [split_and!; [set_solver|done|cbn; lia]|]. cbn [after_last_lf].
  destruct (after_last_lf b) as [|n] eqn:E.
  - destruct (beq c LF) eqn:Hc; cbn [drop take length].
    + apply beq_true in Hc as ->. split_and!; [done|done|lia].
    + apply beq_false in Hc. split_and!; [set_solver|done|lia].
  - cbn [drop take length] in *. split_and!; [done| |lia]. revert Ho. unfold open_line.
    destruct b as [|c' b]; [done|]. cbn [take]. by rewrite last_cons_cons.
Qed.

Lemma after_first_lf_spec b :
  (after_first_lf b <= length b)%nat ∧
  (open_line (take (after_first_lf b) b) = false ∨ drop (after_first_lf b) b = [] ∧ LF ∉ b).
Proof.
  unfold after_first_lf. destruct (list_find _ b) as [[i c]|] eqn:E.
  - apply list_find_Some in E as (Hi & -> & _). pose proof (lookup_lt_Some _ _ _ Hi). split; [lia|left].
    rewrite (take_S_r _ _ _ Hi). unfold open_line. by rewrite last_snoc.
  - split; [lia|right]. rewrite drop_all. split; [done|]. apply list_find_None in E.
    intros Hin. by apply (proj1 (Forall_forall _ _) E LF).
Qed.

(** the part of a window that is whole lines, what is before and after it *)
Definition window_parts (b : bytes) (start : N) : bytes * bytes * bytes :=
  let n := if 0 <? start then after_first_lf b else O in
  let rest := drop n b in
  (take n b, take (after_last_lf rest) rest, drop (after_last_lf rest) rest).

Lemma window_parts_spec b start frag text post :
  window_parts b start = (frag, text, post) →
  b = frag ++ text ++ post ∧ LF ∉ post ∧ open_line text = false ∧
  (start = 0 → frag = []) ∧ (open_line frag = false ∨ text = [] ∧ post = []) ∧
  (start ≠ 0 → b ≠ [] → frag ≠ []).
Proof.
  intros [= <- <- <-]. set (n := if 0 <? start then _ else _). set (rest := drop n b).
  pose proof (after_last_lf_spec rest) as (Hd & Ho & _).
  split_and!; [by rewrite take_drop; unfold rest; rewrite take_drop|done|done| | |].
  - intros ->. done.
  - unfold rest, n. destruct (0 <? start); [|by left].
    destruct (after_first_lf_spec b) as [_ [H|[-> _]]]; [by left|by right].
  - intros Hs Hb. unfold n. destruct (N.ltb_spec 0 start); [|lia]. unfold after_first_lf.
    destruct b as [|c b]; [done|]. by destruct (list_find _ _) as [[[|i] ?]|].
Qed.

Lemma finish_tail_parts b start limit frag text post :
  window_parts b start = (frag, text, post) →
  finish_tail b start limit =
  (_ ← reject (negb (utf8_valid text));
   '(output, truncated) ← tail_loop limit (reverse (str_lines text)) [] 0
      (if (0 <? start) || negb (is_nil post) then [TBytes] else []);
   Ok (mkLogBody (str_of <$> output) truncated)).
Proof.
  unfold window_parts, finish_tail. intros [= _ <- <-].
  destruct (0 <? start); cbn [orb]; rewrite ?drop_0; [set (rest := drop _ b)|set (rest := b)].
  all: destruct (Nat.ltb_spec (after_last_lf rest) (length rest)) as [Hl|Hl].
  all: try (rewrite (take_ge rest) by lia). all: try done.
  - destruct (drop (after_last_lf rest) rest) eqn:E; [|done].
    apply (f_equal length) in E. rewrite length_drop in E. cbn in E. lia.
  - by rewrite (drop_ge rest) by lia.
Qed.

(** a regular file whose content does not change while it is read *)
Definition static_log (content : bytes) : RawFile :=
  mkRawFile (Some (true, len content)) true (fun pos n => Some (take (N.to_nat n) (drop (N.to_nat pos) content))).

(** what the tail of a log may show: the log is [pre ++ text ++ post] where
    [text] is whole lines of its last [SCAN_BYTES] *)
Definition TailShown (content : bytes) (limit : N) (body : LogBody) : Prop :=
  ∃ pre text post out, content = pre ++ text ++ post ∧
    open_line text = false ∧ LF ∉ post ∧ len (text ++ post) <= SCAN_BYTES ∧
    (pre ≠ [] → SCAN_BYTES < len content) ∧ (open_line pre = false ∨ text = [] ∧ post = []) ∧
    utf8_valid text = true ∧ b_lines body = str_of <$> out ∧
    TailOf limit (str_lines text) (negb (is_nil (pre ++ post))) out (b_truncated body).

Lemma open_line_app_right s t : t ≠ [] → open_line (s ++ t) = open_line t.
Proof.
  intros Ht. destruct (exists_last Ht) as (u & x & ->). unfold open_line. by rewrite app_assoc, !last_snoc.
Qed.

Lemma static_tail content limit :
  let start := len content - SCAN_BYTES in
  tail (Some (static_log content)) limit = finish_tail (drop (N.to_nat start) content) start limit.
Proof.
  intros start. unfold tail, static_log. cbn [ok_or mbind result_bind rf_meta rf_seek rf_read reject negb].
  fold start. unfold read_up_to. cbn [ok_or mbind result_bind rf_read]. rewrite take_take, Nat.min_id, take_ge; [done|].
  rewrite length_drop. unfold len. lia.
Qed.

(** what is before the whole lines, and that it is empty exactly when the window
    is the whole log *)
Lemma window_before content frag text post :
  let start := len content - SCAN_BYTES in
  window_parts (drop (N.to_nat start) content) start = (frag, text, post) →
  let pre := take (N.to_nat start) content ++ frag in
  content = pre ++ text ++ post ∧ len (text ++ post) <= SCAN_BYTES ∧
  (0 <? start) = negb (is_nil pre) ∧ (pre ≠ [] → SCAN_BYTES < len content) ∧
  (open_line pre = false ∨ text = [] ∧ post = []).
Proof.
  intros start Hw pre. set (window := drop _ content) in Hw.
  apply window_parts_spec in Hw as (Hsplit & Hpost & Ho & Hfrag & Hopen & Hne).
  assert (Hlw : len window <= SCAN_BYTES ∧ (start ≠ 0 → window ≠ [])).
  { unfold window. split; [unfold start, len; rewrite length_drop; lia|].
    intros Hs E%(f_equal length). rewrite length_drop in E. cbn in E. unfold start, len, SCAN_BYTES in *. lia. }
  destruct Hlw as [Hlw Hwn]. split_and!.
  - unfold pre. rewrite <- app_assoc, <- Hsplit. unfold window. by rewrite take_drop.
  - assert (len window = len frag + len (text ++ post)) by (rewrite Hsplit; apply len_app). lia.
  - destruct (N.ltb_spec 0 start) as [Hs|Hs].
    + unfold pre. specialize (Hne ltac:(lia) ltac:(apply Hwn; lia)). destruct (take _ _), frag; done.
    + unfold pre. assert (start = 0) as E by lia. by rewrite E, (Hfrag E).
  - intros Hp. apply N.nle_gt. intros Hle. apply Hp. unfold pre. assert (start = 0) as E by (unfold start; lia).
    by rewrite E, (Hfrag E).
  - destruct Hopen as [Hopen|?]; [left|by right]. unfold pre. destruct (N.eq_dec start 0) as [E|E].
    + by rewrite E, (Hfrag E).
    + by rewrite open_line_app_right by (apply Hne; [done|by apply Hwn]).
Qed.

(** The service's tail is the end of the log: for a regular file that does
    not change while it is read, the answer is made of the whole lines of its
    last [SCAN_BYTES], the last of them, at most as many as asked for and at
    most [RESULT_BYTES], lines past [LINE_BYTES] left out, with one reason for
    each thing that was left out; and the only files it refuses are those whose
    whole lines are not UTF-8 or hold a carriage return or a zero byte. *)
Theorem service_tail_shows_last_lines content limit :
  match tail (Some (static_log content)) limit with
  | Ok body => TailShown content limit body
  | Err e => e = failure ∧ ∃ pre text post, content = pre ++ text ++ post ∧ open_line text = false ∧
      (utf8_valid text = false ∨ ∃ l, l ∈ str_lines text ∧ ¬ plain l)
  end.
Proof.
  rewrite static_tail. set (start := len content - SCAN_BYTES). set (window := drop _ content).
  destruct (window_parts window start) as [[frag text] post] eqn:Hw.
  rewrite (finish_tail_parts _ _ _ _ _ _ Hw).
  pose proof (window_before content frag text post Hw) as (Hc & Hlen & Hpre & Hbig & Hopen). fold start in Hc, Hpre, Hbig, Hopen.
  apply window_parts_spec in Hw as (_ & Hpost & Ho & _). set (pre := take _ content ++ frag) in *.
  destruct (utf8_valid text) eqn:Hu; cbn [negb reject mbind result_bind]; [|split; [done|exists pre, text, post; auto]].
  destruct (tail_loop _ _ _ _ _) as [[out tr]|e] eqn:Ht.
  - exists pre, text, post, out. split_and!; try done.
    rewrite <- (reverse_involutive (str_lines text)), <- (app_nil_r (reverse (reverse _))).
    refine (tail_loop_spec _ _ [] _ _ _ _ _ _ eq_refl eq_refl _ _ _ _ _ _ _ Ht); rewrite ?Hpre.
    all: assert (Hn : is_nil (pre ++ post) = is_nil pre && is_nil post) by by destruct pre.
    all: rewrite ?Hn; try done; try apply N.le_0_l; destruct (is_nil pre), (is_nil post); cbn [negb orb andb];
      try apply NoDup_singleton; try apply NoDup_nil_2; try done; set_solver.
  - destruct (tail_loop_err _ _ _ _ _ _ Ht) as (l & Hl & Hp). rewrite elem_of_reverse in Hl. split; [by eapply tail_loop_failure|].
    exists pre, text, post. split_and!; [done|done|right; by exists l].
Qed.

(** ** What the client admits of it *)
Lemma finish_tail_ok b start limit body :
  finish_tail b start limit = Ok body →
  ∃ text cut out, TailOf limit (str_lines text) cut out (b_truncated body) ∧ b_lines body = str_of <$> out.
Proof.
  destruct (window_parts b start) as [[frag text] post] eqn:Hw. rewrite (finish_tail_parts _ _ _ _ _ _ Hw).
  intros Hr. apply check_then in Hr as [_ Hr]. open_bind Hr as [out tr] Ht. injection Hr as <-. cbn.
  exists text, ((0 <? start) || negb (is_nil post)), out. split; [|done].
  rewrite <- (reverse_involutive (str_lines text)), <- (app_nil_r (reverse (reverse _))).
  refine (tail_loop_spec _ _ [] _ _ _ _ _ _ eq_refl eq_refl _ _ _ _ _ _ _ Ht);
    destruct (_ || _); try done; try set_solver; try apply NoDup_singleton; try apply NoDup_nil_2; try apply N.le_0_l.
Qed.

Lemma check_lines_ok total out :
  total + weight out <= RESULT_BYTES → Forall (fun l => short l ∧ LF ∉ l ∧ plain l) out →
  check_lines total (str_of <$> out) = Ok tt.
Proof.
  revert total. induction out as [|l out IH]; intros total Hw Hf; [done|]. apply Forall_cons in Hf as [(Hs & Hlf & Hp) Hf].
  cbn [weight foldr fmap list_fmap check_lines] in *. fold (weight out) in Hw.
  assert (Hsl : slen (str_of l) = len l) by by rewrite <- len_str_bytes, bytes_of_str. rewrite Hsl, bytes_of_str.
  assert (Hca : checked_add total (len l + 1) = Some (total + (len l + 1)))
    by (apply checked_add_some; unfold RESULT_BYTES, USIZE_MAX, U64_MAX in *; lia).
  rewrite Hca. cbn [ok_or mbind result_bind].
  assert (Hb : has_line_break l = false).
  { unfold has_line_break. apply existsb_none. intros b Hb. rewrite <- orb_assoc. apply orb_false_iff.
    apply plain_spec in Hp. rewrite existsb_none in Hp. split; [|by apply Hp]. apply beq_false. set_solver. }
  rewrite Hb. unfold short in Hs. destruct (N.ltb_spec LINE_BYTES (len l)); [lia|].
  destruct (N.ltb_spec RESULT_BYTES (total + (len l + 1))); [lia|]. cbn. apply IH; [lia|done].
Qed.

Lemma tail_of_short limit ls cut out tr : TailOf limit ls cut out tr → Forall short out ∧ ∀ l, l ∈ out → l ∈ ls.
Proof.
  intros [(pre & suf & -> & -> & _) _ _ _ _]. split.
  - apply Forall_forall. intros l Hl. by apply list_elem_of_filter in Hl as [? _].
  - intros l Hl. apply list_elem_of_filter in Hl as [_ ?]. set_solver.
Qed.

(** the client refuses nothing the service's tail answers *)
Lemma finish_tail_validates b start limit body :
  limit <= MAX_LINES → finish_tail b start limit = Ok body → validate body limit = Ok body.
Proof.
  intros Hm (text & cut & out & Ht & Hb)%finish_tail_ok. pose proof (tail_of_short _ _ _ _ _ Ht) as [Hs Hin].
  pose proof (to_limit _ _ _ _ _ Ht). unfold validate. rewrite Hb. unfold len in *. rewrite length_fmap.
  destruct (N.ltb_spec limit (N.of_nat (length out))); [lia|].
  destruct (N.ltb_spec MAX_LINES (N.of_nat (length out))); [lia|].
  assert (Hn : repeats (b_truncated body) = false)
    by (unfold repeats; rewrite bool_decide_eq_true_2; [done|apply (to_reasons _ _ _ _ _ Ht)]).
  rewrite Hn. cbn [orb reject mbind result_bind]. rewrite check_lines_ok; [done|apply (to_weight _ _ _ _ _ Ht)|].
  pose proof (str_lines_no_lf text) as Hlf. rewrite Forall_forall in Hlf, Hs.
  pose proof (to_plain _ _ _ _ _ Ht) as Hp. rewrite Forall_forall in Hp. apply Forall_forall.
  intros l Hl. split_and!; [by apply Hs|by apply Hlf, Hin|by apply Hp].
Qed.

(** ** Grants *)
Section Grants.
Context `{RemoteJson, GrantsLibs}.

Definition WellFormedGrant (g : Grant) : Prop :=
  valid_token (g_sha256 g) = true ∧ valid_name (g_resource g) = true ∧ g_operation g = "log_tail"%string.
(** the digest a grant spells *)
Definition spelled (g : Grant) : option bytes := hex_bytes (str_bytes (g_sha256 g)).
Definition Allows (digest : bytes) (now : N) (resource : string) (g : Grant) : Prop :=
  spelled g = Some digest ∧ g_enabled g = true ∧ now < g_expires_unix g ∧ g_resource g = resource.

Lemma hex_value_hexdigit b : is_ascii_hexdigit (code b) = true → ∃ v, hex_value b = Some v.
Proof.
  unfold is_ascii_hexdigit, hex_value. destruct (is_ascii_digit _); [eauto|].
  destruct (in_range 97 102 _); [eauto|]. destruct (in_range 65 70 _); [eauto|done].
Qed.

Lemma hex_bytes_even n s : length s = (2 * n)%nat → Forall (fun b => is_ascii_hexdigit (code b) = true) s →
  ∃ d, hex_bytes s = Some d.
Proof.
  revert s. induction n as [|n IH]; intros [|a [|b s]] Hl Hf; cbn in Hl; try lia; [by exists []|].
  apply Forall_cons in Hf as [(va & Ha)%hex_value_hexdigit [(vb & Hb)%hex_value_hexdigit Hf]%Forall_cons].
  destruct (IH s ltac:(lia) Hf) as (d & Hd). cbn [hex_bytes]. rewrite Ha, Hb, Hd. eauto.
Qed.

Lemma valid_token_spelled g : valid_token (g_sha256 g) = true → ∃ d, spelled g = Some d.
Proof.
  unfold valid_token. rewrite andb_true_iff, N.eqb_eq, forallb_Forall. intros [Hl Hf].
  apply (hex_bytes_even 32); [|done]. rewrite str_bytes_length. unfold slen in Hl. lia.
Qed.

Lemma digest_some (digest d : bytes) : digest = d ↔ Some d = Some digest.
Proof. naive_solver. Qed.

Lemma allow_spec digest now resource gs seen allowed0 allowed :
  allow digest now resource seen allowed0 gs = Ok allowed ↔
  Forall WellFormedGrant gs ∧
  NoDup (omap spelled gs) ∧ (∀ d, d ∈ omap spelled gs → d ∉ seen) ∧
  (allowed = true ↔ allowed0 = true ∨ Exists (Allows digest now resource) gs).
Proof.
  revert seen allowed0. induction gs as [|g gs IH]; intros seen allowed0; cbn [allow].
  { split.
    - intros [= <-]. split_and!; [constructor|constructor|set_solver|]. rewrite Exists_nil. naive_solver.
    - intros (_ & _ & _ & Ha). f_equal. rewrite Exists_nil in Ha. destruct allowed0, allowed; naive_solver. }
  rewrite check_then, reject_ok, !orb_false_iff, !negb_false_iff, String.eqb_eq, Forall_cons, Exists_cons.
  change (omap spelled (g :: gs)) with (match spelled g with Some d => d :: omap spelled gs | None => omap spelled gs end).
  split.
  - intros [[[Ht Hn] Ho] Hr]. open_bind Hr as d Hd%ok_or_ok. fold (spelled g) in Hd. rewrite Hd.
    apply check_then in Hr as [Hseen%reject_ok Hr]. apply bool_decide_eq_false in Hseen.
    apply IH in Hr as (Hf & Hnd & Hd' & Ha). split_and!; [done|done| | |].
    + constructor; [|done]. intros Hin. apply Hd' in Hin. set_solver.
    + intros d' [->|Hin]%elem_of_cons; [done|]. apply Hd' in Hin. set_solver.
    + rewrite Ha, orb_true_iff, !andb_true_iff, bool_decide_eq_true, N.ltb_lt, String.eqb_eq. unfold Allows.
      rewrite Hd, (digest_some digest d). tauto.
  - intros ((Hg & Hf) & Hnd & Hd' & Ha). destruct Hg as (Ht & Hn & Ho). split; [done|].
    destruct (valid_token_spelled g Ht) as (d & Hd). rewrite Hd in Hnd, Hd'. unfold spelled in Hd. rewrite Hd.
    cbn [ok_or mbind result_bind]. apply NoDup_cons in Hnd as [Hnin Hnd].
    rewrite (bool_decide_eq_false_2 (d ∈ seen)) by (apply Hd'; set_solver). cbn [reject mbind result_bind].
    apply IH. split_and!; [done|done|set_solver|].
    rewrite Ha, orb_true_iff, !andb_true_iff, bool_decide_eq_true, N.ltb_lt, String.eqb_eq. unfold Allows, spelled.
    rewrite Hd, (digest_some digest d). tauto.
Qed.

(** what the grants file holds, when it can be read and parsed *)
Definition GrantsRead (au : Authority) (gs : list Grant) : Prop :=
  ∃ b v, bounded_file (au_file au) GRANTS_BYTES = Ok b ∧ parse b = Ok v ∧ grants_of v = Some gs.

(** the policy of the grants: every grant is well formed, no digest is granted
    twice, and one of them allows the digest of the token *)
Definition Authorized (au : Authority) (token resource : string) : Prop :=
  ∃ gs now, GrantsRead au gs ∧ au_now au = Some now ∧ len gs <= MAX_GRANTS ∧
    Forall WellFormedGrant gs ∧ NoDup (omap spelled gs) ∧
    Exists (Allows (sha256 (str_bytes token)) now resource) gs.

Lemma authorize_decides au token resource :
  authorize au token resource = Ok tt ↔ Authorized au token resource.
Proof.
  unfold authorize, Authorized, GrantsRead. split.
  - intros Hr. open_bind Hr as b Hb. open_bind Hr as v Hv. open_bind Hr as gs Hgs%ok_or_ok.
    apply check_then in Hr as [Hl%reject_ok Hr]. apply N.ltb_ge in Hl. open_bind Hr as now Hn%ok_or_ok.
    open_bind Hr as allowed Ha. apply reject_ok, negb_false_iff in Hr as ->.
    apply allow_spec in Ha as (Hf & Hd & _ & Ha). exists gs, now. split_and!; try done; [by exists b, v|]. naive_solver.
  - intros (gs & now & (b & v & Hb & Hv & Hgs) & Hn & Hl & Hf & Hd & He). rewrite Hb. cbn [mbind result_bind].
    rewrite Hv. cbn. rewrite Hgs. cbn. apply N.ltb_ge in Hl as ->. cbn. rewrite Hn. cbn.
    assert (Ha : allow (sha256 (str_bytes token)) now resource [] false gs = Ok true)
      by (apply allow_spec; split_and!; [done|done|set_solver|naive_solver]).
    rewrite Ha. done.
Qed.
End Grants.
