(* ===== verification/RemoteExchange.v ===== *)
(** * Client and service of a remote log, together

    The two programs of [Remote] and [RemoteService] run against each other:
    what one writes is what the other reads, however it is cut into reads.
    Their exchange refines the plain specification of a remote log: an
    authorized reader gets the tail of the configured file, everyone else the
    one fixed failure. *)

From stdpp Require Import sorting.
From S2P Require Import Prelude Utf8 Str Errors SshArgs LensValue Profile LogSource Output Session SessionFacts RemoteWire RemoteService RemoteFacts.

(** ** JSON values *)
Lemma json_eqb_eq v w : json_eqb v w = true ↔ v = w.
Proof.
  revert w. induction v as [v Hv|l IH|l IH] using json_ind'; intros w.
  - destruct v, w; try done; cbn [json_eqb]; rewrite ?Bool.eqb_true_iff, ?String.eqb_eq; naive_solver.
  - destruct w as [| | | |k|]; try done. cbn [json_eqb]. transitivity (l = k); [|naive_solver].
    revert k. induction IH as [|v l Hv _ IHl]; intros [|w k]; try done. rewrite andb_true_iff, Hv, IHl. naive_solver.
  - destruct w as [| | | | |k]; try done. cbn [json_eqb]. transitivity (l = k); [|naive_solver].
    revert k. induction IH as [|[a v] l Hv _ IHl]; intros [|[b w] k]; try done. cbn [snd] in Hv.
    rewrite !andb_true_iff, Hv, IHl, String.eqb_eq. naive_solver.
Qed.

(** a value [unique] accepts as it is *)
Definition Canonical (v : json) : Prop := unique v = Some v.
Definition keys_increase (m : json_map) : Prop := StronglySorted (fun a b => String.compare a.1 b.1 = Lt) m.

Lemma map_insert_last k v m :
  Forall (fun e => String.compare e.1 k = Lt) m → map_insert k v m = m ++ [(k, v)] ∧ map_get k m = None.
Proof.
  induction 1 as [|[k' v'] m Hk _ [IHi IHg]]; [done|]. cbn [fst] in Hk. cbn [map_insert map_get app].
  assert (E : String.compare k k' = Gt) by by rewrite String.compare_antisym, Hk.
  rewrite E, IHi. destruct (String.eqb_spec k k') as [->|]; [|done].
  assert (String.compare k' k' = Eq) by (by destruct (String.compare k' k') eqn:Ec;
    pose proof (String.compare_antisym k' k') as Ha; rewrite Ec in Ha). congruence.
Qed.

Lemma canonical_array l : Forall Canonical l → Canonical (JArray l).
Proof.
  intros Hl. unfold Canonical. cbn [unique].
  enough (Hgo : (fix go (l : list json) : option (list json) :=
    match l with [] => Some [] | x :: l => x ← unique x; l ← go l; Some (x :: l) end) l = Some l) by by rewrite Hgo.
  induction Hl as [|v l Hv _ IH]; [done|]. by rewrite Hv, IH.
Qed.

Lemma canonical_object m : keys_increase m → Forall (fun e => Canonical e.2) m → Canonical (JObject m).
Proof.
  intros Hs Hm. unfold Canonical. cbn [unique].
  enough (Hgo : ∀ acc, keys_increase (acc ++ m) →
    (fix go (l : list (string * json)) (m : json_map) : option json_map :=
       match l with
       | [] => Some m
       | (k, x) :: l =>
         match map_get k m with Some _ => None | None => x ← unique x; go l (map_insert k x m) end
       end) m acc = Some (acc ++ m)) by by rewrite Hgo.
  clear Hs. induction Hm as [|[k v] m Hv _ IH]; intros acc Hs; [by rewrite app_nil_r|]. cbn [snd] in Hv.
  assert (Hlt : Forall (fun e => String.compare e.1 k = Lt) acc).
  { apply Forall_forall. intros e He. unfold keys_increase in Hs. apply StronglySorted_app_1_elem_of with (x1 := e) (x2 := (k, v)) in Hs; set_solver. }
  destruct (map_insert_last k v acc Hlt) as [Hi Hg]. cbv beta iota fix. rewrite Hg, Hv. cbn [mbind option_bind]. rewrite Hi.
  by rewrite IH, <- app_assoc by by rewrite <- app_assoc.
Qed.

Lemma canonical_strings {A} (f : A → string) l : Canonical (JArray (JString ∘ f <$> l)).
Proof. apply canonical_array, Forall_forall. intros v (a & -> & _)%list_elem_of_fmap. done. Qed.

(** the messages of the protocol are canonical *)
Ltac canonical :=
  repeat (first
    [ exact eq_refl
    | apply canonical_object; [repeat constructor|]
    | apply canonical_strings
    | apply canonical_array
    | constructor ]; cbn [snd]).

Lemma call_canonical r l t : Canonical (call r l t).
Proof. change (call r l t) with (JObject [("id", jn 3); ("jsonrpc", js "2.0"); ("method", js "tools/call");
    ("params", JObject [("_meta", JObject [("gaze-lens/token", js t)]);
       ("arguments", JObject [("lines", jn l); ("resource", js r)]); ("name", js "log_tail")])]%string). canonical. Qed.

Lemma response_canonical b : Canonical (response b).
Proof.
  change (response b) with (JObject [("id", jn 3); ("jsonrpc", js "2.0");
    ("result", JObject [("content", JArray []); ("isError", JBool false);
       ("structuredContent", JObject [("lines", JArray (JString ∘ id <$> b_lines b));
          ("truncated", JArray (JString ∘ truncation_name <$> b_truncated b))])])]%string).
  canonical.
Qed.

(** ** A reliable connection *)

(** arrivals that are the bytes [b], cut in some way *)
Definition Feeds (arrivals : list Arrival) (b : bytes) : Prop :=
  ∃ chunks, arrivals = Data <$> chunks ∧ Forall (λ c, c ≠ []) chunks ∧ concat chunks = b.

(** a connection whose peer will send [inp] and which has sent [out] *)
Definition Conn (io : Io) (inp out : bytes) : Prop :=
  io_faults io = [] ∧ io_out io = out ∧ ∃ later, Feeds (io_in io) later ∧ inp = io_buf io ++ later.

Lemma line_end_found line rest : LF ∉ line → line_end (line ++ LF :: rest) = S (length line).
Proof.
  intros Hl. unfold line_end. assert (E : list_find (fun b => b = LF) (line ++ LF :: rest) = Some (length line, LF)).
  { apply list_find_Some. split_and!; [by rewrite lookup_app_r, Nat.sub_diag|done|].
    intros j y Hy Hj ->. rewrite lookup_app_l in Hy by done. by apply Hl, (list_elem_of_lookup_2 _ j). }
  by rewrite E.
Qed.

Lemma line_end_none buf : LF ∉ buf → line_end buf = length buf.
Proof.
  intros Hl. unfold line_end. destruct (list_find _ buf) as [[i b]|] eqn:E; [|done].
  apply list_find_Some in E as (Hi & -> & _). by apply list_elem_of_lookup_2 in Hi.
Qed.

(** one buffer: either the line ends in it, or all of it is taken *)
Lemma take_line_spec acc buf line rest more :
  buf ≠ [] → LF ∉ line → buf ++ more = line ++ LF :: rest → len acc + len line + 1 <= FRAME_BYTES →
  (∃ rest', buf = line ++ LF :: rest' ∧ rest = rest' ++ more ∧
     take_line acc buf = Ok (inl (acc ++ line ++ [LF], rest'))) ∨
  (∃ line', line = buf ++ line' ∧ more = line' ++ LF :: rest ∧ take_line acc buf = Ok (inr (acc ++ buf))).
Proof.
  intros Hb Hl E Hlen. unfold take_line.
  assert (Hcap : ∀ n, (n <= S (length line))%nat → (FRAME_BYTES <? len acc + N.of_nat n) = false).
  { intros n Hn. apply N.ltb_ge. unfold len in *. lia. }
  apply app_eq_app in E as (k & [[-> E]|[-> ->]]).
  - destruct k as [|c k]; cbn [app] in E.
    + right. exists []. subst more. rewrite !app_nil_r in *. split_and!; [done|done|].
      rewrite line_end_none, Hcap by (done || lia). cbn [reject mbind result_bind].
      rewrite firstn_all. destruct (line !! _) as [b|] eqn:Hb'; [|done].
      apply list_elem_of_lookup_2 in Hb'. destruct (beq b LF) eqn:Hbl; [|done]. apply beq_true in Hbl as ->. done.
    + left. injection E as <- ->. exists k. split_and!; [done|done|].
      rewrite line_end_found, Hcap by (done || lia). cbn [reject mbind result_bind].
      replace (S (length line) - 1)%nat with (length line) by lia.
      rewrite lookup_app_r, Nat.sub_diag by lia. cbn. change (beq LF LF) with true. cbn.
      change (line ++ LF :: k) with (line ++ [LF] ++ k). rewrite app_assoc.
      rewrite take_app_length' by (rewrite length_app; cbn; lia).
      by rewrite drop_app_length' by (rewrite length_app; cbn; lia).
  - right. exists k. assert (LF ∉ buf) by set_solver. rewrite length_app in Hcap. split_and!; [done|done|].
    rewrite line_end_none, Hcap by (done || lia). cbn [reject mbind result_bind].
    rewrite firstn_all. destruct (buf !! _) as [b|] eqn:Hb'; [|done].
    apply list_elem_of_lookup_2 in Hb'. destruct (beq b LF) eqn:Hbl; [|done]. apply beq_true in Hbl as ->. done.
Qed.

Lemma read_more_spec acc arrivals line rest :
  Feeds arrivals (line ++ LF :: rest) → LF ∉ line → len acc + len line + 1 <= FRAME_BYTES →
  ∃ rest' arrivals' later, read_more acc arrivals = (Ok (acc ++ line ++ [LF], rest'), arrivals') ∧
    Feeds arrivals' later ∧ rest = rest' ++ later.
Proof.
  intros (chunks & -> & Hne & Hc) Hl. revert acc line Hc Hl.
  induction Hne as [|c chunks Hc0 Hne IH]; intros acc line Hc Hl Hlen; [by destruct line|].
  cbn [fmap list_fmap read_more]. destruct c as [|b c]; [done|]. cbn [concat] in Hc.
  destruct (take_line_spec acc (b :: c) line rest (concat chunks)) as [(r' & _ & -> & E)|(line' & -> & Hm & E)];
    [done..| |].
  - rewrite E. exists r', (Data <$> chunks), (concat chunks). split_and!; [done|by exists chunks|done].
  - rewrite E. destruct (IH (acc ++ b :: c) line' Hm) as (r' & arr & later & Hr & Hf & ->); [set_solver| |].
    + unfold len in *. rewrite !length_app in *. lia.
    + exists r', arr, later. rewrite <- !app_assoc in *. by split_and!.
Qed.

(** a line of the peer is read whole, whatever the cuts *)
Lemma read_frame_conn io inp out line rest :
  Conn io inp out → inp = line ++ LF :: rest → LF ∉ line → len line + 1 <= FRAME_BYTES →
  ∃ io', read_frame io = (Ok (line ++ [LF]), io') ∧ Conn io' rest out.
Proof.
  intros (Hfa & Ho & later & Hf & ->) E Hl Hlen. unfold read_frame. destruct io as [buf arr faults o sh]. cbn in *.
  destruct buf as [|b buf].
  - cbn [app] in E. subst later. destruct (read_more_spec [] arr line rest Hf Hl) as (r' & arr' & later' & -> & Hf' & ->);
      [done|]. eexists. split; [done|]. split_and!; [done|done|by exists later'].
  - destruct (take_line_spec [] (b :: buf) line rest later) as [(r' & _ & -> & Et)|(line' & -> & Hm & Et)]; [done..| |].
    + rewrite Et. eexists. split; [done|]. split_and!; [done|done|by exists later].
    + rewrite Et. subst later. destruct (read_more_spec (b :: buf) arr line' rest Hf) as (r' & arr' & later' & Hr & Hf' & ->);
        [set_solver|unfold len in *; rewrite length_app in Hlen; lia|].
      cbn [app] in *. rewrite Hr. eexists. split; [by rewrite <- app_assoc|]. split_and!; [done|done|by exists later'].
Qed.

Lemma feeds_nil arr : Feeds arr [] → arr = [].
Proof. intros ([|c chunks] & -> & Hne & Hc); [done|]. apply Forall_cons in Hne as [Hc0 _]. by destruct c. Qed.

Lemma conn_end io out : Conn io [] out → io_buf io = [] ∧ io_in io = [].
Proof.
  intros (_ & _ & later & Hf & E). destruct (io_buf io); [|done]. cbn in E. subst later. by apply feeds_nil in Hf.
Qed.

Section Frames.
Context `{RemoteJson}.

(** serde_json carries a message: it writes it on one line within the ceiling,
    and reads that line back *)
Definition Carries (v : json) : Prop :=
  ∃ t, to_vec v = Some t ∧ LF ∉ t ∧ len t + 1 <= FRAME_BYTES ∧ events (t ++ [LF]) = Some v.
Definition wire (v : json) : bytes := default [] (to_vec v) ++ [LF].

Lemma read_conn io v rest out :
  Carries v → Canonical v → Conn io (wire v ++ rest) out → ∃ io', read io = (Ok v, io') ∧ Conn io' rest out.
Proof.
  intros (t & Ht & Hl & Hlen & He) Hc Hio. unfold wire in Hio. rewrite Ht in Hio. cbn [default from_option id] in Hio.
  destruct (read_frame_conn io _ out t rest Hio) as (io' & Hr & Hio'); [by rewrite <- app_assoc|done|done|].
  exists io'. split; [|done]. unfold read, mbind, M_bind. rewrite Hr. unfold lift, parse. rewrite He. cbn.
  unfold Canonical in Hc. by rewrite Hc.
Qed.

(** at the end of what the peer sends there is no frame *)
Lemma read_end io out : Conn io [] out → ∃ io', read io = (Err failure, io') ∧ io_out io' = out.
Proof.
  intros Hio. pose proof (conn_end _ _ Hio) as [Hb Hi]. destruct Hio as (_ & Ho & _).
  unfold read, mbind, M_bind, read_frame. rewrite Hb, Hi. cbn. eexists. by split.
Qed.

Lemma expect_conn io v rest out :
  Carries v → Canonical v → Conn io (wire v ++ rest) out → ∃ io', expect v io = (Ok tt, io') ∧ Conn io' rest out.
Proof.
  intros Hv Hc Hio. destruct (read_conn io v rest out Hv Hc Hio) as (io' & Hr & Hio'). exists io'. split; [|done].
  unfold expect, mbind, M_bind. rewrite Hr. unfold lift. assert (json_eqb v v = true) as -> by by apply json_eqb_eq. done.
Qed.

Lemma put_conn io inp out b : Conn io inp out → ∃ io', put b io = (Ok tt, io') ∧ Conn io' inp (out ++ b).
Proof.
  intros (Hfa & <- & later & Hf & ->). unfold put. rewrite Hfa. eexists. split; [done|].
  split_and!; [done|done|by exists later].
Qed.

Lemma write_conn io inp out v :
  Carries v → Conn io inp out → ∃ io', write v io = (Ok tt, io') ∧ Conn io' inp (out ++ wire v).
Proof.
  intros (t & Ht & Hl & Hlen & _) Hio. unfold write, wire, mbind, M_bind. rewrite Ht. cbn [ok_or lift default from_option id].
  assert (Hc : (FRAME_BYTES <=? len t) = false) by (apply N.leb_gt; lia). rewrite Hc. cbn [reject lift].
  destruct (put_conn io inp out (t ++ [LF]) Hio) as (io1 & -> & Hio1).
  destruct (put_conn io1 inp _ [] Hio1) as (io2 & -> & Hio2). exists io2. split; [done|]. by rewrite app_nil_r in Hio2.
Qed.

Lemma shutdown_conn io inp out : Conn io inp out → ∃ io', shutdown io = (Ok tt, io') ∧ Conn io' inp out.
Proof.
  intros Hio. unfold shutdown, mbind, M_bind. destruct (put_conn io inp out [] Hio) as (io1 & -> & Hio1).
  rewrite app_nil_r in Hio1. eexists. split; [done|]. destruct Hio1 as (? & ? & later & ? & ?). split_and!; [done|done|].
  by exists later.
Qed.

Lemma fill_buf_end io out : Conn io [] out → ∃ io', fill_buf io = (Ok [], io') ∧ Conn io' [] out.
Proof.
  intros Hio. pose proof (conn_end _ _ Hio) as [Hb Hi]. exists io. split; [|done]. unfold fill_buf. by rewrite Hb, Hi.
Qed.

(** ** What has been sent stays sent *)
Definition Grows {A} (m : M A) : Prop := ∀ io, io_out io `prefix_of` io_out (m io).2.

Lemma grows_bind {A B} (m : M A) (f : A → M B) : Grows m → (∀ a, Grows (f a)) → Grows (m ≫= f).
Proof.
  intros Hm Hf io. specialize (Hm io). unfold mbind, M_bind. destruct (m io) as [[a|e] io']; [|exact Hm].
  cbn in Hm. etransitivity; [exact Hm|apply Hf].
Qed.
Lemma grows_lift {A} (r : Remote A) : Grows (lift r).
Proof. intros io. reflexivity. Qed.
Lemma grows_put b : Grows (put b).
Proof. intros io. unfold put. destruct (io_faults io) as [|[n|] faults]; cbn; by eexists. Qed.
Lemma grows_closed : Grows closed.
Proof. intros io. reflexivity. Qed.
Lemma grows_read_frame : Grows read_frame.
Proof.
  intros io. unfold read_frame. destruct (io_buf io) as [|b buf].
  - destruct (read_more [] (io_in io)) as [[[]|] ?]; reflexivity.
  - destruct (take_line [] (b :: buf)) as [[[]|acc]|]; [reflexivity| |reflexivity].
    destruct (read_more acc (io_in io)) as [[[]|] ?]; reflexivity.
Qed.
Lemma grows_fill_buf : Grows fill_buf.
Proof. intros io. unfold fill_buf. destruct (io_buf io), (io_in io) as [|[] ?]; reflexivity. Qed.
End Frames.

Create HintDb grows.
#[export] Hint Resolve grows_bind grows_lift grows_put grows_closed grows_read_frame grows_fill_buf : grows.

Section Growing.
Context `{RemoteJson}.
Lemma grows_shutdown : Grows shutdown.
Proof. unfold shutdown. auto with grows. Qed.
Lemma grows_read : Grows read.
Proof. unfold read. auto with grows. Qed.
Lemma grows_write v : Grows (write v).
Proof. unfold write. auto 6 with grows. Qed.
Lemma grows_expect v : Grows (expect v).
Proof. unfold expect, read. auto 6 with grows. Qed.
End Growing.
#[export] Hint Resolve grows_shutdown grows_read grows_write grows_expect : grows.

(** ** The exchange *)
Lemma bind_step {A B} (m : M A) (f : A → M B) io a io' : m io = (Ok a, io') → (m ≫= f) io = f a io'.
Proof. intros E. unfold mbind, M_bind. by rewrite E. Qed.
Lemma bind_fail {A B} (m : M A) (f : A → M B) io e io' : m io = (Err e, io') → (m ≫= f) io = (Err e, io').
Proof. intros E. unfold mbind, M_bind. by rewrite E. Qed.

(** the next operation of a program succeeds, by a lemma on connections *)
Ltac advance lem Hio :=
  let io' := fresh "io" in let E := fresh "E" in let Hio' := fresh "Hio" in
  edestruct lem as (io' & E & Hio'); [..|rewrite (bind_step _ _ _ _ _ E); clear E; clear Hio; rename Hio' into Hio]; [solve [eauto]..|].

(** programs that send nothing *)
Definition Quiet {A} (m : M A) : Prop := ∀ io, io_out (m io).2 = io_out io.
Lemma quiet_bind {A B} (m : M A) (f : A → M B) : Quiet m → (∀ a, Quiet (f a)) → Quiet (m ≫= f).
Proof.
  intros Hm Hf io. specialize (Hm io). unfold mbind, M_bind. destruct (m io) as [[a|e] io']; [|exact Hm].
  cbn in Hm. rewrite <- Hm. apply Hf.
Qed.
Lemma quiet_lift {A} (r : Remote A) : Quiet (lift r).
Proof. done. Qed.
Lemma quiet_ret {A} (a : A) : Quiet (mret a).
Proof. done. Qed.
Lemma quiet_read `{RemoteJson} : Quiet read.
Proof.
  apply quiet_bind; [|by intros]. intros io. unfold read_frame. destruct (io_buf io) as [|b buf].
  - by destruct (read_more [] (io_in io)) as [[[]|] ?].
  - destruct (take_line [] (b :: buf)) as [[[]|acc]|]; [done| |done].
    by destruct (read_more acc (io_in io)) as [[[]|] ?].
Qed.
Lemma quiet_fill_buf : Quiet fill_buf.
Proof. intros io. unfold fill_buf. by destruct (io_buf io), (io_in io) as [|[] ?]. Qed.
Lemma quiet_shutdown : Quiet shutdown.
Proof.
  apply quiet_bind; [|done]. intros io. unfold put.
  destruct (io_faults io) as [|[n|] faults]; cbn; rewrite ?take_nil; apply app_nil_r.
Qed.
Create HintDb quiet.
#[local] Hint Resolve quiet_bind quiet_lift quiet_ret quiet_read quiet_fill_buf quiet_shutdown : quiet.

Section Exchange.
Context `{RemoteJson, GrantsLibs, RemoteEnv}.
Context (c : RemoteConfig) (su : Surroundings) (lines : N) (token : string).
Context (config : ServiceConfig) (joined : bool) (before after : Authority) (files : string → option RawFile).

(** what the client needs before it connects, and a connection *)
Record Prepared : Prop := {
  pr_valid : remote_validate c = Ok tt;
  pr_token : remote_token (su_budget_token su) c = Ok token;
  pr_root : ∃ root, local_blocking (su_budget_root su) (bounded_file (su_root su) TRUST_ROOT_BYTES) = Ok root ∧
    su_tls su root = true;
  pr_connected : su_connected su = true;
  pr_lines : in_range 1 MAX_LINES lines = true }.

Definition the_call : json := call (Profile.resource c) lines token.
Definition the_arguments : CallArguments := mkArguments (Profile.resource c) lines.
Definition the_service : M unit := connection config true joined before after files.

(** what the service has to say *)
Definition answer : Remote LogBody :=
  _ ← reject (negb joined);
  authorized_tail config token the_arguments before after (fun path n => tail (files path) n).

(** serde_json carries the messages of the exchange, and the derived readers
    read back the call and the response *)
Record Carried : Prop := {
  ca_fixed : Forall Carries [initialize; ready; initialized; list_; tools];
  ca_call : Carries the_call;
  ca_call_of : call_of the_call =
    Some (mkCall "2.0" 3 "tools/call" (mkParams "log_tail" the_arguments (mkAuthentication token)));
  ca_response : ∀ body, answer = Ok body → Carries (response body) ∧
    response_of (response body) = Some (mkResponse "2.0" 3 (mkCallResult [] body false)) }.

Definition client_talk : M SourceOutput :=
  _ ← write initialize;
  _ ← expect ready;
  _ ← write initialized;
  _ ← write list_;
  _ ← expect tools;
  _ ← write the_call;
  _ ← shutdown;
  v ← read;
  output ← lift (decode_response v lines);
  more ← fill_buf;
  _ ← lift (reject (negb (is_nil more)));
  _ ← shutdown;
  mret (into_output output).
Definition client_hears : M SourceOutput :=
  v ← read;
  output ← lift (decode_response v lines);
  more ← fill_buf;
  _ ← lift (reject (negb (is_nil more)));
  _ ← shutdown;
  mret (into_output output).
Definition service_answers : M unit :=
  body ← lift (authorized_tail config token the_arguments before after (fun path n => tail (files path) n));
  _ ← write (response body);
  shutdown.

Lemma validate_name : remote_validate c = Ok tt → server_name_ok (server_name c) = true ∧ valid_name (Profile.resource c) = true.
Proof. unfold remote_validate. rewrite reject_ok, !orb_false_iff, !negb_false_iff. naive_solver. Qed.

Lemma token_valid b t : remote_token b c = Ok t → valid_token t = true.
Proof.
  unfold remote_token. intros Hr. open_bind Hr as t' _. apply check_then in Hr as [Ht%reject_ok Hr]. injection Hr as <-.
  by apply negb_false_iff in Ht.
Qed.

Lemma exchange_prepared io : Prepared → exchange c su lines io = client_talk io.
Proof.
  intros [Hv Ht (root & Hr & Htls) Hc Hl]. apply validate_name in Hv as [Hs _]. unfold exchange.
  rewrite (bind_step _ _ _ token io) by by unfold lift; rewrite Ht.
  rewrite (bind_step _ _ _ root io) by by unfold lift; rewrite Hr.
  rewrite Htls, Hs, Hc. done.
Qed.

Lemma decode_the_call : Prepared → Carried →
  decode_call the_call = Ok (mkCall "2.0" 3 "tools/call" (mkParams "log_tail" the_arguments (mkAuthentication token))).
Proof.
  intros [Hv Ht _ _ Hl] Hc. unfold decode_call. rewrite (ca_call_of Hc). cbn [ok_or mbind result_bind].
  cbn [p_arguments c_params c_jsonrpc c_id c_method p_name p_meta m_token a_lines a_resource the_arguments].
  apply validate_name in Hv as [_ Hn]. apply token_valid in Ht. by rewrite Hl, Hn, Ht.
Qed.

Lemma answer_validates body : Prepared → answer = Ok body → validate body lines = Ok body.
Proof.
  intros [_ _ _ _ Hl]. unfold answer. intros Ha. apply check_then in Ha as [_ Ha]. unfold authorized_tail in Ha.
  apply check_then in Ha as [_ Ha]. open_bind Ha as path _. open_bind Ha as b Hb. apply check_then in Ha as [_ Ha].
  injection Ha as <-. cbn [a_lines the_arguments] in Hb. unfold tail in Hb. open_bind Hb as f _.
  open_bind Hb as [reg len_] _. apply check_then in Hb as [_ Hb]. apply check_then in Hb as [_ Hb].
  open_bind Hb as bs _. eapply finish_tail_validates; [|exact Hb]. apply in_range_spec in Hl. lia.
Qed.

Lemma quiet_client_hears : Quiet client_hears.
Proof. unfold client_hears. auto 20 with quiet. Qed.
Lemma grows_service_answers : Grows service_answers.
Proof. unfold service_answers. auto 12 with grows. Qed.

(** the client hears the end of the service's messages *)
Lemma client_hears_spec io out :
  Prepared → Carried → Conn io (match answer with Ok body => wire (response body) | Err _ => [] end) out →
  ∃ io', client_hears io = (match answer with Ok body => Ok (into_output body) | Err _ => Err failure end, io') ∧
    io_out io' = out.
Proof.
  intros Hp Hc Hio. unfold client_hears. destruct answer as [body|e] eqn:Ha.
  - destruct (ca_response Hc body Ha) as [Hw Hr]. rewrite <- (app_nil_r (wire _)) in Hio.
    pose proof (response_canonical body) as Hcan.
    advance read_conn Hio.
    assert (Hd : decode_response (response body) lines = Ok body).
    { unfold decode_response. rewrite Hr. cbn. by apply answer_validates. }
    rewrite (bind_step _ _ _ body io0) by by unfold lift; rewrite Hd.
    advance fill_buf_end Hio. rewrite (bind_step _ _ _ tt io1) by done.
    destruct (shutdown_conn _ _ _ Hio) as (io2 & E & Hio2). rewrite (bind_step _ _ _ _ _ E).
    exists io2. split; [done|]. by destruct Hio2 as (_ & ? & _).
  - destruct (read_end _ _ Hio) as (io' & E & Ho). rewrite (bind_fail _ _ _ _ _ E). eauto.
Qed.

(** one side writes, or reads what it expects, in the equation of its run *)
Ltac step_write E H C :=
  let io := fresh "io" in let Ew := fresh "Ew" in let C' := fresh "C" in
  destruct (write_conn _ _ _ _ H C) as (io & Ew & C'); rewrite (bind_step _ _ _ _ _ Ew) in E; clear Ew C; rename C' into C.
Ltac step_expect E H C :=
  let io := fresh "io" in let Ew := fresh "Ew" in let C' := fresh "C" in
  destruct (expect_conn _ _ _ _ H eq_refl C) as (io & Ew & C'); rewrite (bind_step _ _ _ _ _ Ew) in E; clear Ew C; rename C' into C.
Lemma sent_before {A} (m : M A) io inp out : Grows m → Conn io inp out → ∃ more, io_out (m io).2 = out ++ more.
Proof. intros Hm (_ & <- & _). destruct (Hm io) as [more Hmore]. by exists more. Qed.
(** what one side has sent is the beginning of all it will have sent *)
Ltac sent E C X HX :=
  match type of E with
  | _ = ?m ?io => destruct (sent_before m io _ _ ltac:(auto 20 with grows) C) as [X HX]; rewrite <- E in HX
  end.

(** after the exchange of the control messages: the rest of the two programs,
    and the bytes that are still to come on either side *)
Lemma handshake ca sa :
  let client := client_talk (mkIo [] ca [] [] false) in
  let service := the_service (mkIo [] sa [] [] false) in
  Prepared → Carried → Feeds ca (io_out service.2) → Feeds sa (io_out client.2) →
  ∃ ioc ios more, client = client_hears ioc ∧
    service = (_ ← lift (reject (negb joined)); service_answers) ios ∧
    Conn ioc more (io_out ioc) ∧ Conn ios [] (io_out ios) ∧ io_out service.2 = io_out ios ++ more.
Proof.
  intros client service Hp Hc Hca Hsa. pose proof (ca_fixed Hc) as Hfixed. rewrite !Forall_cons in Hfixed.
  destruct Hfixed as (Hinit & Hready & Hinited & Hlist & Htools & _). pose proof (ca_call Hc) as Hcall.
  assert (Cc : Conn (mkIo [] ca [] [] false) (io_out service.2) []) by by split_and!; [..|eexists].
  assert (Cs : Conn (mkIo [] sa [] [] false) (io_out client.2) []) by by split_and!; [..|eexists].
  pose proof (eq_refl client) as Ec. unfold client at 2, client_talk in Ec.
  pose proof (eq_refl service) as Es. unfold service at 2, the_service, connection in Es.
  clearbody client service. clear Hca Hsa.
  (* initialize, ready *)
  step_write Ec Hinit Cc. sent Ec Cc X1 HX1. rewrite HX1 in Cs. cbn [app] in Cs.
  rewrite (bind_step _ _ _ tt _) in Es by done.
  step_expect Es Hinit Cs. step_write Es Hready Cs. sent Es Cs Y1 HY1. rewrite HY1 in Cc. cbn [app] in Cc.
  (* initialized, the list of tools *)
  step_expect Ec Hready Cc. step_write Ec Hinited Cc. step_write Ec Hlist Cc. sent Ec Cc X2 HX2.
  rewrite HX1, <- !app_assoc in HX2. cbn [app] in HX2. apply app_inv_head in HX2 as ->. rewrite <- ?app_assoc in Cs.
  step_expect Es Hinited Cs. step_expect Es Hlist Cs. step_write Es Htools Cs. sent Es Cs Y2 HY2.
  rewrite HY1, <- !app_assoc in HY2. cbn [app] in HY2. apply app_inv_head in HY2 as ->.
  (* the call *)
  step_expect Ec Htools Cc. step_write Ec Hcall Cc.
  destruct (shutdown_conn _ _ _ Cc) as (ioc & Ew & Cc'). rewrite (bind_step _ _ _ _ _ Ew) in Ec.
  fold client_hears in Ec. clear Ew Cc.
  assert (Hout : io_out client.2 = io_out ioc) by (rewrite Ec; apply quiet_client_hears).
  assert (Hioc : io_out ioc = wire initialize ++ wire initialized ++ wire list_ ++ wire the_call)
    by (destruct Cc' as (_ & -> & _); by rewrite <- !app_assoc).
  rewrite HX1, Hioc in Hout. cbn [app] in Hout. repeat apply app_inv_head in Hout. subst X2. clear HX1.
  rewrite <- (app_nil_r (wire the_call)) in Cs.
  destruct (read_conn _ _ _ _ Hcall (call_canonical _ _ _) Cs) as (ios & Er & Cs1).
  rewrite (bind_step _ _ _ _ _ Er) in Es. clear Cs Er.
  rewrite (bind_step _ _ _ _ ios (f_equal (fun r => (r, ios)) (decode_the_call Hp Hc))) in Es.
  destruct (fill_buf_end _ _ Cs1) as (ios1 & Ef & Cs2). rewrite (bind_step _ _ _ _ _ Ef) in Es.
  rewrite (bind_step _ _ _ tt ios1) in Es by done.
  exists ioc, ios1, Y2. split_and!; [done|exact Es|by destruct Cc' as (? & ? & ?)| |].
  - destruct Cs2 as (? & ? & ?). by split_and!.
  - destruct Cs2 as (_ & -> & _). rewrite HY1. by rewrite <- !app_assoc.
Qed.

(** the specification of a remote log: what an authorized reader is answered *)
Definition RemoteLog (out : SourceOutput) : Prop :=
  ∃ path body, Authorized before token (Profile.resource c) ∧ Authorized after token (Profile.resource c) ∧
    resources config !! Profile.resource c = Some path ∧ tail (files path) lines = Ok body ∧ out = into_output body.

Lemma answer_spec out :
  (∃ body, answer = Ok body ∧ out = into_output body) ↔ joined = true ∧ RemoteLog out.
Proof.
  unfold answer, authorized_tail, RemoteLog. cbn [the_arguments a_resource a_lines]. split.
  - intros (body & Ha & ->). apply check_then in Ha as [Hj%reject_ok Ha]. apply negb_false_iff in Hj.
    apply check_then in Ha as [Hb%authorize_decides Ha]. open_bind Ha as path Hpath%ok_or_ok.
    open_bind Ha as b Ht. apply check_then in Ha as [Haf%authorize_decides Ha]. injection Ha as ->. split; [done|].
    by exists path, body.
  - intros [-> (path & body & Hb%authorize_decides & Haf%authorize_decides & Hpath & Ht & ->)]. exists body.
    split; [|done]. cbn [negb reject mbind result_bind]. rewrite Hb. cbn [mbind result_bind]. rewrite Hpath.
    cbn [ok_or mbind result_bind]. rewrite Ht. cbn [mbind result_bind]. by rewrite Haf.
Qed.

(** C10. Client and service together refine the specification of a remote log.
    Whatever way the bytes they send each other are cut into reads, the client
    of a prepared exchange answers [out] exactly if the service's worker did
    not die, the grants allowed the credential's resource when they were read
    before and when they were read after the log was, and [out] is the tail of
    the file configured for that resource; in every other case it answers the
    one fixed failure, whatever went wrong. *)
Theorem exchange_refines_tail ca sa :
  let client := exchange c su lines (mkIo [] ca [] [] false) in
  let service := connection config true joined before after files (mkIo [] sa [] [] false) in
  Prepared → Carried → Feeds ca (io_out service.2) → Feeds sa (io_out client.2) →
  (∀ out, client.1 = Ok out ↔ joined = true ∧ RemoteLog out) ∧ (∀ e, client.1 = Err e → e = failure).
Proof.
  intros client service Hp Hc. unfold client. rewrite (exchange_prepared _ Hp). intros Hca Hsa.
  destruct (handshake ca sa Hp Hc Hca Hsa) as (ioc & ios & more & -> & Es & Cc & Cs & Hout).
  assert (Hmore : more = match answer with Ok body => wire (response body) | Err _ => [] end).
  { change service with (the_service (mkIo [] sa [] [] false)) in *. rewrite Es in Hout. clear Es Hca Hsa.
    unfold answer. destruct (reject (negb joined)) as [[]|e] eqn:Ej.
    - rewrite (bind_step _ _ _ tt ios) in Hout by done. unfold service_answers in Hout.
      destruct (authorized_tail _ _ _ _ _ _) as [body|e] eqn:Ea; cbn [mbind result_bind].
      + rewrite (bind_step _ _ _ body ios) in Hout by done.
        assert (Ha : answer = Ok body) by by unfold answer; rewrite Ej.
        destruct (ca_response Hc body Ha) as [Hw _].
        destruct (write_conn _ _ _ _ Hw Cs) as (ios1 & Ew & Cs1). rewrite (bind_step _ _ _ _ _ Ew), quiet_shutdown in Hout.
        destruct Cs1 as (_ & Ho & _). rewrite Ho in Hout. by apply app_inv_head in Hout.
      + rewrite (bind_fail _ _ ios e ios) in Hout by done. cbn in Hout. symmetry; apply (app_inv_head (io_out ios)); by rewrite app_nil_r.
    - rewrite (bind_fail _ _ ios e ios) in Hout by done. cbn in Hout. symmetry; apply (app_inv_head (io_out ios)); by rewrite app_nil_r. }
  subst more. destruct (client_hears_spec _ _ Hp Hc Cc) as (io' & -> & _). cbn [fst]. split.
  - intros out. rewrite <- answer_spec. destruct answer as [body|e]; naive_solver.
  - destruct answer; naive_solver.
Qed.
End Exchange.

(** ** A run: two lines asked of a log of three *)
Module Run.
Definition a_token : string := "aaaaaaaaaaaaaaaaaaaaaaaaaaaaaaaaaaaaaaaaaaaaaaaaaaaaaaaaaaaaaaaa".
Definition a_client : RemoteConfig := mkRemoteConfig "127.0.0.1:9443" "logs.test" "/etc/root.pem" "app" (SecretEnv "LOG_TOKEN").
Definition a_body : LogBody := mkLogBody ["b"; "c"] [TLines].
Definition some_grants : json := js "grants".
(** the texts of the messages, and of the grants file *)
Definition texts : list (json * string) :=
  [(initialize, "initialize"); (ready, "ready"); (initialized, "initialized"); (list_, "list"); (tools, "tools");
   (call "app" 2 a_token, "call"); (response a_body, "response")].
#[local] Instance some_json : RemoteJson := {|
  events b := if bool_decide (b = str_bytes "grants") then Some some_grants
              else fst <$> List.find (fun e => bool_decide (str_bytes e.2 ++ [LF] = b)) texts;
  to_vec v := (fun e => str_bytes e.2) <$> List.find (fun e => json_eqb v e.1) texts;
  call_of v := if json_eqb v (call "app" 2 a_token)
               then Some (mkCall "2.0" 3 "tools/call" (mkParams "log_tail" (mkArguments "app" 2) (mkAuthentication a_token)))
               else None;
  response_of v := if json_eqb v (response a_body) then Some (mkResponse "2.0" 3 (mkCallResult [] a_body false)) else None |}.
#[local] Instance some_libs : GrantsLibs := {|
  grants_of v := if json_eqb v some_grants
    then Some [mkGrant "6161616161616161616161616161616161616161616161616161616161616161" true 2000 "log_tail" "app"]
    else None;
  sha256 b := take 32 b |}.
#[local] Instance some_env : RemoteEnv := {|
  socket_addr_ok s := String.eqb s "127.0.0.1:9443";
  server_name_ok s := String.eqb s "logs.test";
  env_var s := if String.eqb s "LOG_TOKEN" then Some a_token else None;
  keyring_password _ _ := None;
  tail_args_of _ := None |}.
Definition a_service : ServiceConfig := mkServiceConfig "127.0.0.1:9443" "c.pem" "k.pem" "grants.json" {["app" := "/var/log/app.log"]}.
Definition some_files (path : string) : option RawFile :=
  if String.eqb path "/var/log/app.log" then Some (static_log [byte_of 97; LF; byte_of 98; LF; byte_of 99; LF]) else None.
Definition an_authority : Authority := mkAuthority (Some (static_log (str_bytes "grants"))) (Some 1000).
Definition some_surroundings : Surroundings :=
  mkSurroundings true true (Some (static_log (str_bytes "root"))) (fun _ => true) true.

(** bytes cut into pieces of three *)
Fixpoint pieces (b : bytes) : list bytes :=
  match b with
  | x :: y :: z :: b => [x; y; z] :: pieces b
  | [] => []
  | b => [b]
  end.
Definition to_client : list Arrival := Data <$> pieces (wire ready ++ wire tools ++ wire (response a_body)).
Definition to_service : list Arrival :=
  Data <$> pieces (wire initialize ++ wire initialized ++ wire list_ ++ wire (call "app" 2 a_token)).

Ltac decided := apply (bool_decide_unpack _); vm_compute; exact I.
Ltac carried := eexists; split_and!; [vm_compute; reflexivity|decided|vm_compute; discriminate|vm_compute; reflexivity].

Lemma exchange_refines_tail_witness :
  (exchange a_client some_surroundings 2 (mkIo [] to_client [] [] false)).1 =
    Ok (OutTextWithTruncation (join ["b"; "c"]%string) [TrRows]).
Proof.
  refine (proj2 (proj1 (exchange_refines_tail a_client some_surroundings 2 a_token a_service true an_authority an_authority
    some_files to_client to_service _ _ _ _) _) _).
  - split; try (vm_compute; reflexivity). eexists. split; vm_compute; reflexivity.
  - split.
    + repeat constructor; carried.
    + carried.
    + vm_compute. reflexivity.
    + intros body Ha. vm_compute in Ha. injection Ha as <-. split; [carried|vm_compute; reflexivity].
  - eexists. split_and!; [reflexivity|decided|vm_compute; reflexivity].
  - eexists. split_and!; [reflexivity|decided|vm_compute; reflexivity].
  - split; [reflexivity|]. exists "/var/log/app.log"%string, a_body. split_and!; try (vm_compute; reflexivity).
    + apply authorize_decides. vm_compute. reflexivity.
    + apply authorize_decides. vm_compute. reflexivity.
Defined.
End Run.
