(* ===== verification/Watchdog.v ===== *)
(** * The privacy deadline

    Models src/src/source/remote/watchdog.rs: one supervised admission at a
    time for the whole process, which its own thread terminates when the
    deadline of an admission passes before it completes.

    A critical section of the mutex is one operation.  The process is the
    [World]: the clock, the state behind the mutex, what the worker thread
    waits for and the admissions held; [None] once it has exited.  A panic
    exits it too, so the mutex is never poisoned.  Time is in milliseconds. *)

From S2P Require Import Prelude Errors RemoteWire.

(** ** The critical sections *)
Inductive State := Idle | Running (deadline : N) | Expired.

Definition ADMISSION_TIMEOUT : N := 90 * 1000.

(** [supervisor]: the state, when the watchdog is enabled *)
Definition admit_for (timeout now : N) (supervisor : option State) : Remote (option N) * option State :=
  match supervisor with
  | None => (Ok None, None)
  | Some Idle => (Ok (Some (now + timeout)), Some (Running (now + timeout)))
  | Some state => (Err failure, Some state)
  end.
Definition admit_now (now : N) (supervisor : option State) : Remote (option N) * option State :=
  admit_for ADMISSION_TIMEOUT now supervisor.

(** [None]: the process exits *)
Definition complete (deadline now : N) (state : State) : option State :=
  if (deadline <=? now) || negb (match state with Running d => d =? deadline | _ => false end) then None
  else Some Idle.

(** one turn of the worker's loop: what it waits for next, a notification and
    at most a moment; [None]: the process exits *)
Inductive Waiting := Forever | Until (due : N).
Definition worker_turn (now : N) (state : State) : option Waiting :=
  match state with
  | Idle => Some Forever
  | Expired => None
  | Running deadline => if deadline <=? now then None else Some (Until deadline)
  end.

(** ** The process *)
Record World := mkWorld {
  w_now : N;
  w_state : State;
  (** what the worker waits for; [Until] the time it was notified, then *)
  w_worker : Waiting;
  (** the deadlines of the [Admission]s held *)
  w_held : list N }.

Inductive event :=
| Pass (to : N)
| Admit (timeout : N)
| Complete (deadline : N)
| Drop (deadline : N)
| Wake
| Panic.

(** the worker runs at the latest [latency] after it is due *)
Definition due (w : Waiting) (t : N) : Prop := match w with Forever => False | Until u => u = t end.
Definition notify (now : N) (w : Waiting) : Waiting :=
  match w with Forever => Until now | Until u => Until (N.min u now) end.

Inductive step (latency : N) : World → event → option World → Prop :=
| step_pass w t :
    w_now w <= t → (∀ u, due (w_worker w) u → t <= u + latency) →
    step latency w (Pass t) (Some (mkWorld t (w_state w) (w_worker w) (w_held w)))
| step_admit w timeout deadline state :
    admit_for timeout (w_now w) (Some (w_state w)) = (Ok (Some deadline), Some state) →
    step latency w (Admit timeout) (Some (mkWorld (w_now w) state (notify (w_now w) (w_worker w)) (deadline :: w_held w)))
| step_refused w timeout e supervisor :
    admit_for timeout (w_now w) (Some (w_state w)) = (Err e, supervisor) →
    step latency w (Admit timeout) (Some w)
| step_complete w before deadline after :
    w_held w = before ++ deadline :: after →
    step latency w (Complete deadline)
      ((fun s => mkWorld (w_now w) s (notify (w_now w) (w_worker w)) (before ++ after)) <$>
         complete deadline (w_now w) (w_state w))
(** no [Drop] implementation: the admission is forgotten, the state stays *)
| step_drop w before deadline after :
    w_held w = before ++ deadline :: after →
    step latency w (Drop deadline) (Some (mkWorld (w_now w) (w_state w) (w_worker w) (before ++ after)))
| step_wake w :
    step latency w Wake
      ((fun wt => mkWorld (w_now w) (w_state w) wt (w_held w)) <$> worker_turn (w_now w) (w_state w))
| step_panic w : step latency w Panic None.

Inductive run (latency : N) : World → list event → option World → Prop :=
| run_nil w : run latency w [] (Some w)
| run_cons w ev w' evs last :
    step latency w ev (Some w') → run latency w' evs last → run latency w (ev :: evs) last
| run_exit w ev : step latency w ev None → run latency w [ev] None.

(** the worker's first turn is due at once *)
Definition enabled (now : N) : World := mkWorld now Idle (Until now) [].

(** ** Its invariant *)
Record Supervised (latency : N) (w : World) : Prop := {
  su_alive : w_state w ≠ Expired;
  su_held : w_held w = [] ∨ ∃ d, w_state w = Running d ∧ w_held w = [d];
  su_due : ∀ d, w_state w = Running d → ∃ u, w_worker w = Until u ∧ u <= d;
  su_now : ∀ u, due (w_worker w) u → w_now w <= u + latency }.

Lemma enabled_supervised latency now : Supervised latency (enabled now).
Proof. split; cbn; [done|by left|done|intros u <-; lia]. Qed.

Lemma admit_granted timeout now s d s' :
  admit_for timeout now (Some s) = (Ok (Some d), Some s') → s = Idle ∧ d = now + timeout ∧ s' = Running d.
Proof. destruct s; cbn; naive_solver. Qed.

Lemma complete_some d now s s' : complete d now s = Some s' ↔ s' = Idle ∧ now < d ∧ s = Running d.
Proof.
  unfold complete. destruct (N.leb_spec d now) as [Hd|Hd]; cbn [orb].
  { split; [done|]. intros (_ & Hl & _). lia. }
  destruct s as [|d'|]; cbn [negb]; [naive_solver| |naive_solver].
  destruct (N.eqb_spec d' d) as [->|]; cbn [negb]; naive_solver.
Qed.

Lemma notify_due now w u :
  due (notify now w) u → w = Forever ∧ u = now ∨ ∃ u', w = Until u' ∧ u <= u' ∧ (u = u' ∨ u = now).
Proof. destruct w as [|u']; cbn; intros <-; [by left|]. right. exists u'. split; [done|lia]. Qed.

Lemma notify_until now w : ∃ u, notify now w = Until u ∧ u <= now.
Proof. destruct w as [|u]; cbn; [exists now|exists (N.min u now)]; (split; [done|lia]). Qed.

Lemma notify_now latency now w :
  (∀ u, due w u → now <= u + latency) → ∀ u, due (notify now w) u → now <= u + latency.
Proof.
  intros Hw u [[_ ->]|(u' & -> & _ & [->| ->])]%notify_due; [lia|by apply Hw|lia].
Qed.

Lemma step_supervised latency w ev w' : Supervised latency w → step latency w ev (Some w') → Supervised latency w'.
Proof.
  intros [Ha Hh Hd Hn] Hs. inversion Hs; subst; clear Hs; [|pose proof admit_granted| | | |].
  - by split.
  - match goal with E : admit_for _ _ _ = _ |- _ => apply admit_granted in E as (Hi & -> & ->) end.
    destruct Hh as [Hh|(d & Hr & _)]; [|congruence]. split; cbn; [done| | |by apply notify_now].
    + right. rewrite Hh. by eexists.
    + intros d [= <-]. destruct (notify_until (w_now w) (w_worker w)) as (u & -> & Hu). exists u. split; [done|lia].
  - by split.
  - destruct (complete _ _ _) as [s|] eqn:Ec; [|done]. apply complete_some in Ec as (-> & _ & Er).
    match goal with E : _ <$> _ = Some _ |- _ => injection E as <- end. split; cbn; [done| |done|by apply notify_now].
    left. destruct Hh as [Hh|(d & _ & Hh)]; rewrite Hh in *; destruct before as [|? []]; naive_solver.
  - split; cbn; [done| |done|done].
    left. destruct Hh as [Hh|(d & _ & Hh)]; rewrite Hh in *; destruct before as [|? []]; naive_solver.
  - destruct (worker_turn _ _) as [wt|] eqn:Et; [|done].
    match goal with E : _ <$> _ = Some _ |- _ => injection E as <- end.
    unfold worker_turn in Et. destruct (w_state w) as [|d|] eqn:Es; [| |done].
    + injection Et as <-. split; cbn; rewrite ?Es; naive_solver.
    + destruct (N.leb_spec d (w_now w)); [done|]. injection Et as <-. split; cbn; rewrite ?Es; [done|done| |].
      * intros d' [= <-]. by exists d.
      * intros u <-. lia.
Qed.

Lemma run_supervised latency w evs w' : Supervised latency w → run latency w evs (Some w') → Supervised latency w'.
Proof.
  intros Hw Hr. remember (Some w') as last eqn:E. revert Hw w' E.
  induction Hr as [w|w ev w1 evs last Hs Hr IH|]; intros Hw w' E; [by injection E as <-| |done].
  eapply IH; [|done]. by eapply step_supervised.
Qed.

Lemma run_app latency w evs w' evs' last :
  run latency w evs (Some w') → run latency w' evs' last → run latency w (evs ++ evs') last.
Proof.
  intros Hr Hr'. remember (Some w') as mid eqn:E.
  induction Hr; [by injection E as ->|econstructor; eauto|done].
Qed.

(** while an admission runs, only its completion in time ends it *)
Lemma step_running latency d w ev w' :
  w_state w = Running d → step latency w ev (Some w') →
  (w_state w' = Running d ∧ (w_held w = [] → w_held w' = [])) ∨
  (ev = Complete d ∧ w_now w < d ∧ d ∈ w_held w).
Proof.
  intros Hr Hs. inversion Hs; subst; clear Hs.
  - by left.
  - match goal with E : admit_for _ _ _ = _ |- _ => apply admit_granted in E as (Hi & _ & _) end. congruence.
  - by left.
  - destruct (complete _ _ _) as [s|] eqn:Ec; [|done]. apply complete_some in Ec as (_ & Hd & Er). right.
    assert (deadline = d) as -> by congruence. split_and!; [done|done|].
    match goal with E : w_held w = _ |- _ => rewrite E end. apply elem_of_app. right. by left.
  - left. split; [done|]. intros Hh. cbn. rewrite Hh in *. by destruct before.
  - left. destruct (worker_turn _ _); [|done].
    match goal with E : _ <$> _ = Some _ |- _ => by injection E as <- end.
Qed.

Lemma run_running latency d w evs w' :
  w_state w = Running d → run latency w evs (Some w') →
  (w_state w' = Running d ∧ (w_held w = [] → w_held w' = [])) ∨
  (w_held w ≠ [] ∧ ∃ e1 e2 w1, evs = e1 ++ Complete d :: e2 ∧ run latency w e1 (Some w1) ∧ w_now w1 < d).
Proof.
  intros Hd Hr. remember (Some w') as last eqn:E. revert Hd w' E.
  induction Hr as [w|w ev w1 evs last Hs Hr IH|]; intros Hd w' E; [injection E as <-; by left| |done].
  destruct (step_running _ _ _ _ _ Hd Hs) as [[Hd1 Hh1]|(-> & Hlt & Hin)].
  - destruct (IH Hd1 w' E) as [[Hd' Hh']|(Hne & e1 & e2 & w2 & -> & Hr2 & Hlt)]; [left; by auto|right].
    split; [by auto|]. exists (ev :: e1), e2, w2. split_and!; [done|by econstructor|done].
  - right. split; [intros Hh; rewrite Hh in Hin; set_solver|].
    exists [], evs, w. split_and!; [done|constructor|done].
Qed.

(** time is never held up: the worker can always be run when it is due *)
Definition Reaches (latency horizon : N) (w : World) : Prop :=
  ∃ evs last, run latency w evs last ∧ ∀ w', last = Some w' → horizon <= w_now w'.

Lemma reaches_step latency horizon w ev w' : step latency w ev (Some w') → Reaches latency horizon w' → Reaches latency horizon w.
Proof. intros Hs (evs & last & Hr & Hl). exists (ev :: evs), last. split; [by econstructor|done]. Qed.
Lemma reaches_exit latency horizon w ev : step latency w ev None → Reaches latency horizon w.
Proof. intros Hs. exists [ev], None. split; [by constructor|done]. Qed.

(** the clock may go on to when the worker is due, or to any time *)
Definition pass_to (w : World) (t : N) : World := mkWorld (N.max (w_now w) t) (w_state w) (w_worker w) (w_held w).
Lemma step_due latency w u :
  Supervised latency w → w_worker w = Until u → step latency w (Pass (N.max (w_now w) u)) (Some (pass_to w u)).
Proof.
  intros [_ _ _ Hn] Hv. rewrite Hv in Hn. specialize (Hn u eq_refl). constructor; [lia|]. rewrite Hv. intros ? <-. lia.
Qed.
Lemma reaches_forever latency horizon w : w_worker w = Forever → Reaches latency horizon w.
Proof.
  intros Hv. exists [Pass (N.max (w_now w) horizon)], (Some (pass_to w horizon)). split.
  - econstructor; [|constructor]. constructor; [lia|]. rewrite Hv. by intros.
  - intros w' [= <-]. cbn. lia.
Qed.

(** a turn of the worker: it exits, waits for a notification, or for a deadline to come *)
Lemma reaches_wake latency horizon w :
  (∀ d, w_state w = Running d → w_now w < d →
    Reaches latency horizon (mkWorld (w_now w) (w_state w) (Until d) (w_held w))) →
  Reaches latency horizon w.
Proof.
  intros Hrun. pose proof (step_wake latency w) as Hs. unfold worker_turn in Hs. destruct (w_state w) as [|d|] eqn:Es.
  - by eapply reaches_step, reaches_forever.
  - destruct (N.leb_spec d (w_now w)); [by eapply reaches_exit|]. eapply reaches_step; [exact Hs|].
    by apply Hrun.
  - by eapply reaches_exit.
Qed.

Lemma time_passes latency w horizon : Supervised latency w → Reaches latency horizon w.
Proof.
  intros Hw. destruct (w_worker w) as [|u] eqn:Eu; [by apply reaches_forever|].
  pose proof (step_due _ _ _ Hw Eu) as Hs. eapply reaches_step; [exact Hs|].
  pose proof (step_supervised _ _ _ _ Hw Hs) as Hw1. apply reaches_wake. intros d Hd Hlt.
  set (w1 := pass_to w u) in *. set (w2 := mkWorld _ _ _ _).
  assert (Hw2 : Supervised latency w2).
  { eapply step_supervised; [exact Hw1|]. pose proof (step_wake latency w1) as Hs1. unfold worker_turn in Hs1.
    rewrite Hd in Hs1. apply N.leb_gt in Hlt. rewrite Hlt in Hs1. cbn in Hs1. unfold w2. by rewrite Hd. }
  eapply reaches_step; [exact (step_due _ _ d Hw2 eq_refl)|]. apply reaches_wake. intros d' Hd' Hlt'.
  change (w_state w1 = Running d') in Hd'. cbn in Hlt'. assert (d' = d) as -> by congruence. lia.
Qed.

(** C27. The privacy deadline holds. Whatever the process does, and if the worker
    thread runs at most [latency] after it is due: an admission with deadline
    [d] that is running is completed before [d], or the process has exited by
    [d + latency]; one that was dropped without completion is never
    completed, so the process exits; no second admission is granted meanwhile;
    and time can always go on, to any horizon or to the exit. *)
Theorem deadline_enforced latency start pre w d :
  run latency (enabled start) pre (Some w) → w_state w = Running d →
  (∀ evs w', run latency w evs (Some w') → d + latency < w_now w' →
     ∃ e1 e2 w1, evs = e1 ++ Complete d :: e2 ∧ run latency w e1 (Some w1) ∧ w_now w1 < d) ∧
  (w_held w = [] → ∀ evs w', run latency w evs (Some w') → w_now w' <= d + latency) ∧
  (∀ timeout, (admit_for timeout (w_now w) (Some (w_state w))).1 = Err failure) ∧
  (∀ horizon, Reaches latency horizon w).
Proof.
  intros Hpre Hd. pose proof (run_supervised _ _ _ _ (enabled_supervised latency start) Hpre) as Hw.
  assert (Hlate : ∀ evs w', run latency w evs (Some w') → w_state w' = Running d → w_now w' <= d + latency).
  { intros evs w' Hr Hd'. pose proof (run_supervised _ _ _ _ Hw Hr) as [_ _ Hdue Hn].
    destruct (Hdue d Hd') as (u & Hu & Hle). specialize (Hn u ltac:(by rewrite Hu)). lia. }
  split_and!.
  - intros evs w' Hr Hlt. destruct (run_running _ _ _ _ _ Hd Hr) as [[Hd' _]|[_ ?]]; [|done].
    specialize (Hlate _ _ Hr Hd'). lia.
  - intros Hh evs w' Hr. destruct (run_running _ _ _ _ _ Hd Hr) as [[Hd' _]|[? _]]; [by eapply Hlate|done].
  - intros timeout. by rewrite Hd.
  - intros horizon. by apply time_passes.
Qed.

(** an admission at 10 for 90 seconds, checked by the worker at 12 *)
Lemma deadline_enforced_witness :
  let w := mkWorld 12 (Running 90010) (Until 90010) [90010] in
  run 5 (enabled 10) [Admit ADMISSION_TIMEOUT; Pass 12; Wake] (Some w) ∧
  ∀ evs w', run 5 w evs (Some w') → 90015 < w_now w' → Complete 90010 ∈ evs.
Proof.
  intros w.
  assert (Hr : run 5 (enabled 10) [Admit ADMISSION_TIMEOUT; Pass 12; Wake] (Some w)).
  { apply (run_cons 5 _ _ (mkWorld 10 (Running 90010) (Until 10) [90010])); [by apply (step_admit 5 (enabled 10))|].
    apply (run_cons 5 _ _ (mkWorld 12 (Running 90010) (Until 10) [90010])).
    { apply (step_pass 5 (mkWorld 10 (Running 90010) (Until 10) [90010]) 12); [done|by intros u <-]. }
    apply (run_cons 5 _ _ w); [|constructor]. exact (step_wake 5 (mkWorld 12 (Running 90010) (Until 10) [90010])). }
  split; [exact Hr|]. intros evs w' Hrun Hlt.
  destruct (proj1 (deadline_enforced 5 10 _ w 90010 Hr eq_refl) evs w' Hrun Hlt) as (e1 & e2 & _ & -> & _).
  set_solver.
Defined.
