(* ===== verification/Text.v ===== *)
(** * Searching in text

    [strip_prefix], [strip_suffix], [find], [split_once], [matches], [replace]
    and [ends_with] of Rust's strings for a pattern that is a string, on bytes. *)

From S2P Require Import Prelude Str.

Fixpoint strip_prefix_text (pat s : bytes) : option bytes :=
  match pat, s with
  | [], s => Some s
  | a :: pat, b :: s => if beq a b then strip_prefix_text pat s else None
  | _ :: _, [] => None
  end.
Definition starts_with_text (pat s : bytes) : bool := match strip_prefix_text pat s with Some _ => true | None => false end.
Definition strip_suffix_text (pat s : bytes) : option bytes := reverse <$> strip_prefix_text (reverse pat) (reverse s).
Definition ends_with_text (pat s : bytes) : bool := match strip_suffix_text pat s with Some _ => true | None => false end.

(** the text before and after the first occurrence *)
Fixpoint split_once_text (pat s : bytes) : option (bytes * bytes) :=
  match strip_prefix_text pat s with
  | Some rest => Some ([], rest)
  | None => match s with
            | [] => None
            | b :: s => '(before, after) ← split_once_text pat s; Some (b :: before, after)
            end
  end.
Definition find_text (pat s : bytes) : option nat := (fun p => length p.1) <$> split_once_text pat s.
Definition contains_text (pat s : bytes) : bool := match split_once_text pat s with Some _ => true | None => false end.

(** [split(pat)] for a non-empty pattern: occurrences do not overlap *)
Fixpoint split_fuel (fuel : nat) (pat s : bytes) : list bytes :=
  match fuel, split_once_text pat s with
  | S fuel, Some (before, after) => before :: split_fuel fuel pat after
  | _, _ => [s]
  end.
Definition split_text (pat s : bytes) : list bytes := split_fuel (length s) pat s.
(** [matches(pat).count()] *)
Definition count_text (pat s : bytes) : N := len (split_text pat s) - 1.
Fixpoint intercalate (sep : bytes) (l : list bytes) : bytes :=
  match l with [] => [] | [p] => p | p :: l => p ++ sep ++ intercalate sep l end.
Definition replace_text (pat to s : bytes) : bytes := intercalate to (split_text pat s).

(** ** Lemmas *)
Lemma strip_prefix_text_some pat s r : strip_prefix_text pat s = Some r ↔ s = pat ++ r.
Proof.
  revert s. induction pat as [|a pat IH]; intros [|b s]; cbn; [naive_solver|naive_solver|naive_solver|].
  destruct (beq a b) eqn:E; [apply beq_true in E as ->; rewrite IH; naive_solver|].
  apply beq_false in E. naive_solver.
Qed.
Lemma strip_prefix_text_app pat r : strip_prefix_text pat (pat ++ r) = Some r.
Proof. by apply strip_prefix_text_some. Qed.

Lemma strip_suffix_text_some pat s r : strip_suffix_text pat s = Some r ↔ s = r ++ pat.
Proof.
  unfold strip_suffix_text. rewrite fmap_Some. split.
  - intros (x & Hx & ->). apply strip_prefix_text_some in Hx. apply (f_equal reverse) in Hx.
    by rewrite reverse_involutive, reverse_app, reverse_involutive in Hx.
  - intros ->. exists (reverse r). rewrite reverse_app, reverse_involutive. split; [|done]. by apply strip_prefix_text_some.
Qed.

Lemma starts_with_text_true pat s : starts_with_text pat s = true ↔ ∃ r, s = pat ++ r.
Proof.
  unfold starts_with_text. destruct (strip_prefix_text pat s) as [r|] eqn:E.
  - apply strip_prefix_text_some in E. naive_solver.
  - split; [done|]. intros [r Hr]. apply strip_prefix_text_some in Hr. congruence.
Qed.

Definition Occurs (pat s : bytes) : Prop := ∃ a b, s = a ++ pat ++ b.

Lemma prefix_none_shift pat c s a b :
  strip_prefix_text pat (c :: s) = None → c :: s = a ++ pat ++ b → ∃ a', a = c :: a' ∧ s = a' ++ pat ++ b.
Proof.
  intros Hn E. destruct a as [|x a]; [|injection E as <- ->; by exists a].
  cbn in E. apply strip_prefix_text_some in E. congruence.
Qed.

Lemma split_once_text_none pat s : split_once_text pat s = None ↔ ¬ Occurs pat s.
Proof.
  induction s as [|c s IH]; cbn [split_once_text]; destruct (strip_prefix_text pat _) as [rest|] eqn:E.
  1,3: split; [done|]; intros Ho; destruct Ho; apply strip_prefix_text_some in E; by exists [], rest.
  - split; [|done]. intros _ (a & b & Hab). symmetry in Hab. apply app_nil in Hab as [-> Hab]. apply app_nil in Hab as [-> ->]. done.
  - transitivity (split_once_text pat s = None).
    { destruct (split_once_text pat s) as [[]|]; done. }
    rewrite IH. split; intros Hn Ho; apply Hn; destruct Ho as (a & b & Hab).
    + destruct (prefix_none_shift _ _ _ _ _ E Hab) as (a' & _ & Hs). by exists a', b.
    + exists (c :: a), b. by rewrite Hab.
Qed.

(** the first occurrence: none starts before it *)
Lemma split_once_text_first pat s a b :
  split_once_text pat s = Some (a, b) →
  s = a ++ pat ++ b ∧ ∀ a' b', s = a' ++ pat ++ b' → (length a <= length a')%nat.
Proof.
  revert a. induction s as [|c s IH]; intros a; cbn [split_once_text];
    destruct (strip_prefix_text pat _) as [rest|] eqn:E.
  1,3: intros [= <- <-]; apply strip_prefix_text_some in E; split; [done|cbn; lia].
  - done.
  - destruct (split_once_text pat s) as [[a0 b0]|]; [|done]. cbn. intros [= <- <-].
    destruct (IH a0 eq_refl) as [-> Hmin]. split; [done|]. intros a' b' Hab.
    destruct (prefix_none_shift _ _ _ _ _ E Hab) as (a'' & -> & Hs). apply Hmin in Hs. cbn. lia.
Qed.

Lemma split_once_text_at pat a b :
  (∀ a' b', a ++ pat ++ b = a' ++ pat ++ b' → (length a <= length a')%nat) → split_once_text pat (a ++ pat ++ b) = Some (a, b).
Proof.
  intros Hmin. destruct (split_once_text pat (a ++ pat ++ b)) as [[a0 b0]|] eqn:E.
  - apply split_once_text_first in E as [E Hmin0]. specialize (Hmin0 a b eq_refl).
    assert (Hl : length a = length a0) by (specialize (Hmin _ _ E); lia).
    apply app_inj_1 in E as [-> E]; [|done]. apply app_inv_head in E as ->. done.
  - apply split_once_text_none in E. destruct E. by exists a, b.
Qed.

(** a first byte that does not occur before *)
Lemma split_once_text_head c pat a b : c ∉ a → split_once_text (c :: pat) (a ++ (c :: pat) ++ b) = Some (a, b).
Proof.
  intros Hc. apply split_once_text_at. intros a' b' E.
  destruct (decide (length a <= length a')%nat) as [|Hlt]; [done|]. exfalso. apply Hc.
  assert (Hl : (a ++ (c :: pat) ++ b) !! length a' = Some c) by by rewrite E, lookup_app_r, Nat.sub_diag.
  rewrite lookup_app_l in Hl by lia. by apply list_elem_of_lookup_2 in Hl.
Qed.

(** ** Occurrences across a cut *)
Lemma occurs_app pat x y z : Occurs pat y → Occurs pat (x ++ y ++ z).
Proof. intros (a & b & ->). exists (x ++ a), (b ++ z). by rewrite <- !app_assoc. Qed.
Lemma occurs_app_l pat x y : Occurs pat x → Occurs pat (x ++ y).
Proof. apply (occurs_app pat [] x y). Qed.
Lemma occurs_app_r pat x y : Occurs pat y → Occurs pat (x ++ y).
Proof. intros Ho. pose proof (occurs_app pat x y [] Ho) as Hn. by rewrite app_nil_r in Hn. Qed.

(** an occurrence that starts before a byte it holds at most as its first one ends before it *)
Lemma occurrence_before_cut (pat : bytes) d (x y a b : bytes) :
  x ++ d :: y = a ++ pat ++ b → d ∉ tail pat → (length a < length x)%nat → (length a + length pat <= length x)%nat.
Proof.
  intros E Hd Hlt. destruct (decide (length a + length pat <= length x)%nat) as [|Hgt]; [done|]. exfalso. apply Hd.
  assert (Hl : (a ++ pat ++ b) !! length x = Some d) by (rewrite <- E; by apply list_lookup_middle).
  rewrite lookup_app_r, lookup_app_l in Hl by lia. destruct pat as [|c pat]; [done|].
  destruct (length x - length a)%nat as [|k] eqn:Ek; [lia|]. cbn in Hl |- *. by apply list_elem_of_lookup_2 in Hl.
Qed.

Lemma occurs_cut pat d x y : d ∉ tail pat → Occurs pat (x ++ d :: y) → Occurs pat x ∨ Occurs pat (d :: y).
Proof.
  intros Hd (a & b & E). destruct (decide (length a < length x)%nat) as [Hlt|Hge].
  - left. pose proof (occurrence_before_cut _ _ _ _ _ _ E Hd Hlt) as Hle.
    exists a, (take (length x - length a - length pat) b).
    apply (f_equal (take (length x))) in E. rewrite take_app_length in E.
    by rewrite !take_app_ge in E by lia.
  - right. exists (drop (length x) a), b. apply (f_equal (drop (length x))) in E. rewrite drop_app_length in E.
    by rewrite E, drop_app_le by lia.
Qed.

Lemma occurs_cons pat d y : pat ≠ [] → head pat ≠ Some d → Occurs pat (d :: y) → Occurs pat y.
Proof.
  intros Hn Hd ([|c a] & b & E); [|injection E as _ ->; by exists a, b].
  destruct pat as [|c pat]; [done|]. injection E as -> _. done.
Qed.

(** a byte the pattern does not hold cuts every occurrence off *)
Lemma occurs_sep pat d x y : pat ≠ [] → d ∉ pat → Occurs pat (x ++ d :: y) → Occurs pat x ∨ Occurs pat y.
Proof.
  intros Hn Hd Ho. destruct pat as [|c pat]; [done|].
  apply not_elem_of_cons in Hd as [Hc Hd]. destruct (occurs_cut (c :: pat) d x y Hd Ho) as [?|Hy]; [by left|right].
  apply occurs_cons in Hy; [done|done|]. cbn. congruence.
Qed.

(** ** Splitting and counting *)
Lemma split_fuel_more pat n m s :
  pat ≠ [] → (length s <= n)%nat → (length s <= m)%nat → split_fuel n pat s = split_fuel m pat s.
Proof.
  intros Hp. revert m s. induction n as [|n IH]; intros [|m] s Hn Hm; cbn [split_fuel].
  1: done.
  1,2: assert (s = []) as -> by (by destruct s; [|cbn in *; lia]); by destruct pat.
  destruct (split_once_text pat s) as [[a b]|] eqn:E; [|done]. f_equal.
  apply split_once_text_first in E as [-> _]. rewrite !length_app in *. destruct pat; [done|]. cbn in *. apply IH; lia.
Qed.

Lemma split_text_some pat s a b : pat ≠ [] → split_once_text pat s = Some (a, b) → split_text pat s = a :: split_text pat b.
Proof.
  intros Hp E. unfold split_text. assert (Hl : (length b < length s)%nat).
  { apply split_once_text_first in E as [-> _]. rewrite !length_app. destruct pat; [done|]. cbn. lia. }
  destruct (length s) as [|n] eqn:En; [lia|]. cbn [split_fuel]. rewrite E. f_equal. apply split_fuel_more; [done|lia|lia].
Qed.
Lemma split_text_none pat s : ¬ Occurs pat s → split_text pat s = [s].
Proof.
  intros Hn%split_once_text_none. unfold split_text. destruct (length s); cbn [split_fuel]; [done|]. by rewrite Hn.
Qed.

Lemma split_text_not_nil pat s : split_text pat s ≠ [].
Proof. unfold split_text. destruct (length s); cbn [split_fuel]; [done|]. by destruct (split_once_text pat s) as [[]|]. Qed.

Lemma count_text_none pat s : ¬ Occurs pat s → count_text pat s = 0.
Proof. intros Hn. unfold count_text. by rewrite split_text_none. Qed.
Lemma count_text_some pat s a b : pat ≠ [] → split_once_text pat s = Some (a, b) → count_text pat s = 1 + count_text pat b.
Proof.
  intros Hp E. unfold count_text. rewrite (split_text_some _ _ _ _ Hp E). unfold len.
  pose proof (split_text_not_nil pat b). destruct (split_text pat b); [done|]. cbn [length]. lia.
Qed.
Lemma count_text_zero pat s : pat ≠ [] → count_text pat s = 0 → ¬ Occurs pat s.
Proof.
  intros Hp Hc. apply split_once_text_none. destruct (split_once_text pat s) as [[a b]|] eqn:E; [|done].
  rewrite (count_text_some _ _ _ _ Hp E) in Hc. lia.
Qed.
Lemma count_text_one pat s :
  pat ≠ [] → count_text pat s = 1 → ∃ a b, split_once_text pat s = Some (a, b) ∧ ¬ Occurs pat b.
Proof.
  intros Hp Hc. destruct (split_once_text pat s) as [[a b]|] eqn:E.
  - exists a, b. split; [done|]. rewrite (count_text_some _ _ _ _ Hp E) in Hc. apply count_text_zero; [done|lia].
  - apply split_once_text_none in E. rewrite count_text_none in Hc by done. lia.
Qed.

(** nothing before the first occurrence *)
Lemma split_once_text_before pat s a b : pat ≠ [] → split_once_text pat s = Some (a, b) → ¬ Occurs pat a.
Proof.
  intros Hp E (x & y & ->). apply split_once_text_first in E as [-> Hmin].
  specialize (Hmin x (y ++ pat ++ b)). rewrite <- !app_assoc in Hmin. specialize (Hmin eq_refl).
  rewrite !length_app in Hmin. destruct pat; [done|]. cbn in Hmin. lia.
Qed.
(** a pattern whose first byte does not come again in it *)
Lemma split_once_text_fresh c p a b : c ∉ p → ¬ Occurs (c :: p) a → split_once_text (c :: p) (a ++ (c :: p) ++ b) = Some (a, b).
Proof.
  intros Hc Ha. apply split_once_text_at. intros a' b' E. destruct (decide (length a <= length a')%nat) as [|Hlt]; [done|].
  destruct Ha. pose proof (occurrence_before_cut (c :: p) c a _ a' b' E Hc ltac:(lia)) as Hle.
  exists a', (take (length a - length a' - length (c :: p)) b').
  apply (f_equal (take (length a))) in E. rewrite take_app_length in E. by rewrite !take_app_ge in E by lia.
Qed.
