(* ===== verification/Disk.v ===== *)
(** * Files as the program leaves them

    The file system that the code's writers change: nodes by path, and the fate
    of each call to come, which may succeed, fail or be the last one before the
    process halts, part of its bytes written.  Then src/src/cli/init/atomic.rs:
    the atomic write, and the comparison and directory helpers around it.

    A path is its text, without trailing or doubled slashes; symbolic links are
    followed at its end only.  [D] is what else outlives the process: the
    database of [Manifest]. *)

From S2P Require Import Prelude Str Errors.

(** ** Paths *)
Definition SLASH : ascii := "/".
Definition parent (p : string) : option string :=
  if String.eqb p "" || String.eqb p "/" then None
  else match rfind_byte SLASH (str_bytes p) with
       | None => Some ""%string
       | Some O => Some "/"%string
       | Some i => Some (str_of (take i (str_bytes p)))
       end.
Definition file_name (p : string) : option string :=
  if String.eqb p "" || String.eqb p "/" then None
  else let name := match rfind_byte SLASH (str_bytes p) with
                   | None => p
                   | Some i => str_of (drop (S i) (str_bytes p))
                   end in
       if String.eqb name ".." then None else Some name.
(** [dir.join(name)], for a relative name *)
Definition join_path (dir name : string) : string :=
  if String.eqb dir "" then name
  else match last (str_bytes dir) with
       | Some c => if beq c SLASH then String.append dir name else concat_str [dir; "/"; name]%string
       | None => name
       end.
Fixpoint ancestors (fuel : nat) (p : string) : list string :=
  match fuel, parent p with
  | S fuel, Some q => if String.eqb q "" then [p] else ancestors fuel q ++ [p]
  | _, _ => [p]
  end.

(** ** Nodes and fates *)
Inductive Node := FileNode (content : bytes) (mode : N) | DirNode (mode : N) | LinkNode (target : string).
Abbreviation Nodes := (gmap string Node).

Inductive IoError := NotFound | IoOther (detail : string).
Definition io_text (e : IoError) : string :=
  match e with NotFound => "No such file or directory (os error 2)" | IoOther detail => detail end.

(** [n]: how far the call got *)
Inductive Fate := Goes | Fails (n : nat) (detail : string) | Halts (n : nat).

Record World (D : Type) := mkWorld { nodes : Nodes; store : D; fates : list Fate }.
Arguments mkWorld {D}.
Arguments nodes {D}.
Arguments store {D}.
Arguments fates {D}.

(** [None]: the process halted *)
Definition IO (D E A : Type) : Type := World D → option (result E A) * World D.

Section Monad.
Context {D : Type}.

#[export] Instance IO_ret {E} : MRet (IO D E) := fun A a w => (Some (Ok a), w).
#[export] Instance IO_bind {E} : MBind (IO D E) := fun A B f m w =>
  match m w with
  | (Some (Ok a), w) => f a w
  | (Some (Err e), w) => (Some (Err e), w)
  | (None, w) => (None, w)
  end.
Definition of_result {E A} (r : result E A) : IO D E A := fun w => (Some r, w).
(** the result of a call as a value *)
Definition outcome {E F A} (m : IO D E A) : IO D F (result E A) := fun w =>
  match m w with
  | (Some r, w) => (Some (Ok r), w)
  | (None, w) => (None, w)
  end.
Definition io_err {E F A} (m : IO D E A) (f : E → F) : IO D F A :=
  r ← outcome m; of_result (map_err r f).
Definition get_store {E} : IO D E D := fun w => (Some (Ok (store w)), w).

(** one call: what it does to the nodes, and what it has done when it stops
    after [n] *)
Definition call_with {E A} (fail : string → E) (act : Nodes → D → result E A * (Nodes * D))
    (partial : nat → Nodes → Nodes) : IO D E A := fun w =>
  match fates w with
  | Fails n detail :: fs => (Some (Err (fail detail)), mkWorld (partial n (nodes w)) (store w) fs)
  | Halts n :: fs => (None, mkWorld (partial n (nodes w)) (store w) fs)
  | fs =>
    let '(r, (ns, d)) := act (nodes w) (store w) in
    (Some r, mkWorld ns d (match fs with _ :: fs => fs | [] => [] end))
  end.
Definition file_call {A} (act : Nodes → result IoError A * Nodes) (partial : nat → Nodes → Nodes) : IO D IoError A :=
  call_with IoOther (fun ns d => let '(r, ns) := act ns in (r, (ns, d))) partial.
Definition whole (n : nat) (ns : Nodes) : Nodes := ns.

(** ** Calls *)
Fixpoint resolve (links : nat) (ns : Nodes) (p : string) : option string :=
  match ns !! p with
  | Some (LinkNode target) => match links with O => None | S links => resolve links ns target end
  | _ => Some p
  end.
Definition MAX_LINKS : nat := 40.
(** the node a path leads to *)
Definition follow (ns : Nodes) (p : string) : result IoError (string * Node) :=
  match resolve MAX_LINKS ns p with
  | None => Err (IoOther "Too many levels of symbolic links (os error 40)")
  | Some q => n ← ok_or (ns !! q) NotFound; Ok (q, n)
  end.
Definition is_directory (n : Node) : bool := match n with DirNode _ => true | _ => false end.
Definition IS_A_DIRECTORY : IoError := IoOther "Is a directory (os error 21)".

Definition exists_ (p : string) : IO D IoError bool :=
  r ← outcome (file_call (fun ns => (follow ns p, ns)) whole); mret (is_ok r).
Definition symlink_metadata (p : string) : IO D IoError Node :=
  file_call (fun ns => (ok_or (ns !! p) NotFound, ns)) whole.
Definition metadata (p : string) : IO D IoError Node :=
  file_call (fun ns => (snd <$> follow ns p, ns)) whole.
Definition set_mode (mode : N) (n : Node) : Node :=
  match n with FileNode c _ => FileNode c mode | DirNode _ => DirNode mode | LinkNode t => LinkNode t end.
Definition set_permissions (p : string) (mode : N) : IO D IoError unit :=
  file_call (fun ns => match follow ns p with
    | Ok (q, n) => (Ok tt, <[q := set_mode mode n]> ns)
    | Err e => (Err e, ns)
    end) whole.
Definition read_node (ns : Nodes) (p : string) : result IoError bytes :=
  match follow ns p with
  | Ok (_, FileNode c _) => Ok c
  | Ok (_, DirNode _) => Err IS_A_DIRECTORY
  | Ok (_, LinkNode _) => Err NotFound
  | Err e => Err e
  end.
Definition read_file (p : string) : IO D IoError bytes := file_call (fun ns => (read_node ns p, ns)) whole.
Definition remove_file (p : string) : IO D IoError unit :=
  file_call (fun ns => match ns !! p with
    | None => (Err NotFound, ns)
    | Some (DirNode _) => (Err IS_A_DIRECTORY, ns)
    | Some _ => (Ok tt, delete p ns)
    end) whole.

(** may a file be created at [p] *)
Definition parent_is_dir (ns : Nodes) (p : string) : bool :=
  match parent p with
  | Some q => match follow ns q with Ok (_, DirNode _) => true | _ => false end
  | None => false
  end.
(** [OpenOptions] with [create] and [truncate]: the path written to *)
Definition open_truncate (p : string) (mode : N) : IO D IoError string :=
  file_call (fun ns => match resolve MAX_LINKS ns p with
    | None => (Err (IoOther "Too many levels of symbolic links (os error 40)"), ns)
    | Some q =>
      match ns !! q with
      | Some (FileNode _ m) => (Ok q, <[q := FileNode [] m]> ns)
      | Some _ => (Err IS_A_DIRECTORY, ns)
      | None => if parent_is_dir ns q then (Ok q, <[q := FileNode [] mode]> ns) else (Err NotFound, ns)
      end
    end) whole.
(** [create_new]: the path must be free *)
Definition open_new (p : string) (mode : N) : IO D IoError string :=
  file_call (fun ns => match ns !! p with
    | Some _ => (Err (IoOther "File exists (os error 17)"), ns)
    | None => if parent_is_dir ns p then (Ok p, <[p := FileNode [] mode]> ns) else (Err NotFound, ns)
    end) whole.
Definition append_to (p : string) (b : bytes) (ns : Nodes) : Nodes :=
  match ns !! p with Some (FileNode c m) => <[p := FileNode (c ++ b) m]> ns | _ => ns end.
Definition write_all (p : string) (b : bytes) : IO D IoError unit :=
  file_call (fun ns => (Ok tt, append_to p b ns)) (fun n => append_to p (take n b)).
(** [flush] and [sync_all] *)
Definition sync : IO D IoError unit := file_call (fun ns => (Ok tt, ns)) whole.
Definition open_dir (p : string) : IO D IoError unit :=
  file_call (fun ns => (_ ← follow ns p; Ok tt, ns)) whole.
Definition rename (from to : string) : IO D IoError unit :=
  file_call (fun ns => match ns !! from, ns !! to with
    | None, _ => (Err NotFound, ns)
    | Some _, Some (DirNode _) => (Err IS_A_DIRECTORY, ns)
    | Some n, _ => (Ok tt, <[to := n]> (delete from ns))
    end) whole.

(** a temporary file is removed when its handle is dropped, which an error does *)
Definition or_removed {E A} (tmp : string) (m : IO D E A) : IO D E A :=
  r ← outcome m;
  match r with
  | Ok a => mret a
  | Err e => _ ← outcome (remove_file tmp); of_result (Err e)
  end.

(** a missing directory is created, an existing one left as it is *)
Definition make_dir (mode : N) (r : result IoError Nodes) (p : string) : result IoError Nodes :=
  ns ← r;
  match ns !! p, follow ns p with
  | None, _ => Ok (<[p := DirNode mode]> ns)
  | Some _, Ok (_, DirNode _) => Ok ns
  | Some _, _ => Err (IoOther "File exists (os error 17)")
  end.
Definition make_dirs (mode : N) (ps : list string) (ns : Nodes) : result IoError Nodes :=
  fold_left (make_dir mode) ps (Ok ns).
Definition create_dir_all (mode : N) (p : string) : IO D IoError unit :=
  let ps := ancestors (String.length p) p in
  file_call (fun ns => match make_dirs mode ps ns with Ok ns => (Ok tt, ns) | Err e => (Err e, ns) end)
    (fun n ns => match make_dirs mode (take n ps) ns with Ok ns => ns | Err _ => ns end).
(** the mode a directory gets without a mode of its own, under the usual umask *)
Definition DEFAULT_DIR_MODE : N := 493.

(** ** src/src/cli/init/atomic.rs *)
Definition PRIVATE_FILE : N := 384.
Definition PRIVATE_DIR : N := 448.

Definition staged (pid : N) (parent file_name : string) : string :=
  join_path parent (concat_str [file_name; ".tmp."; num pid]).

Definition atomic_write (pid : N) (dest : string) (contents : bytes) : IO D LensError unit :=
  parent ← of_result (ok_or (parent dest) (Errors.Profile (concat_str ["dest has no parent: "; dest])));
  name ← of_result (ok_or (file_name dest) (Errors.Profile (concat_str ["dest has no file name: "; dest])));
  let tmp := staged pid parent name in
  write_result ← outcome (
    f ← open_truncate tmp PRIVATE_FILE;
    _ ← write_all f contents;
    _ ← sync;
    sync);
  match write_result with
  | Err err =>
    _ ← outcome (remove_file tmp);
    of_result (Err (Errors.Profile (concat_str ["failed to stage "; tmp; ": "; io_text err])))
  | Ok _ =>
    renamed ← outcome (rename tmp dest);
    match renamed with
    | Err err =>
      _ ← outcome (remove_file tmp);
      of_result (Err (Errors.Profile (concat_str ["failed to rename "; tmp; " -> "; dest; ": "; io_text err])))
    | Ok _ =>
      _ ← outcome (_ ← open_dir parent; sync);
      mret tt
    end
  end.

Definition would_write (dest : string) (new : bytes) : IO D LensError bool :=
  r ← outcome (read_file dest);
  match r with
  | Ok existing => mret (bool_decide (existing ≠ new))
  | Err NotFound => mret true
  | Err err =>
    of_result (Err (Errors.Profile
      (concat_str ["failed to read existing destination "; dest; " before atomic write: "; io_text err])))
  end.

Definition create_dir_0700_if_missing (dir : string) : IO D LensError unit :=
  there ← io_err (exists_ dir) (fun err => Errors.Profile (io_text err));
  if there : bool then mret tt
  else
    _ ← io_err (create_dir_all DEFAULT_DIR_MODE dir)
          (fun err => Errors.Profile (concat_str ["failed to create "; dir; ": "; io_text err]));
    io_err (set_permissions dir PRIVATE_DIR)
      (fun err => Errors.Profile (concat_str ["failed to chmod 0700 "; dir; ": "; io_text err])).

(** read only: the warning about other modes is not modelled *)
Definition assert_dir_0700_or_warn (dir : string) : IO D LensError unit :=
  _ ← io_err (metadata dir) (fun err => Errors.Profile (concat_str ["failed to stat "; dir; ": "; io_text err]));
  mret tt.
End Monad.
