(* ===== verification/DiskFacts.v ===== *)
(** * Crash safety of the writers

    Triples over [IO] with a condition for a halt at any call, and the
    atomicity of [atomic_write]: whatever fails and wherever the process
    halts, the destination holds its old content or all of the new one. *)

From S2P Require Import Prelude Str Errors Disk.

(** ** Triples: [Q] of the result when the program returns, [C] when it halts *)
Section Triples.
Context {D : Type}.
Definition spec {E A} (P : Nodes → D → Prop) (m : IO D E A) (Q : result E A → Nodes → D → Prop) (C : Nodes → D → Prop) : Prop :=
  ∀ w, P (nodes w) (store w) →
    match m w with
    | (Some r, w') => Q r (nodes w') (store w')
    | (None, w') => C (nodes w') (store w')
    end.

Lemma spec_conseq {E A} (P P' : Nodes → D → Prop) (m : IO D E A) (Q Q' : result E A → Nodes → D → Prop) (C C' : Nodes → D → Prop) :
  spec P m Q C → (∀ ns d, P' ns d → P ns d) → (∀ r ns d, Q r ns d → Q' r ns d) → (∀ ns d, C ns d → C' ns d) → spec P' m Q' C'.
Proof.
  intros Hm HP HQ HC w Hw. specialize (Hm w (HP _ _ Hw)). destruct (m w) as [[r|] w']; auto.
Qed.

Lemma spec_bind {E A B} (P : Nodes → D → Prop) (m : IO D E A) (f : A → IO D E B) (R : A → Nodes → D → Prop) Q C :
  spec P m (fun r ns d => match r with Ok a => R a ns d | Err e => Q (Err e) ns d end) C →
  (∀ a, spec (R a) (f a) Q C) → spec P (m ≫= f) Q C.
Proof.
  intros Hm Hf w Hw. specialize (Hm w Hw). unfold mbind, IO_bind. destruct (m w) as [[[a|e]|] w']; [|done|done].
  by apply Hf.
Qed.

Lemma spec_ret {E A} (a : A) (P : Nodes → D → Prop) (Q : result E A → Nodes → D → Prop) (C : Nodes → D → Prop) :
  (∀ ns d, P ns d → Q (Ok a) ns d) → spec P (mret a) Q C.
Proof. intros HQ w Hw. by apply HQ. Qed.

Lemma spec_result {E A} (r : result E A) (P : Nodes → D → Prop) Q (C : Nodes → D → Prop) :
  (∀ ns d, P ns d → Q r ns d) → spec P (of_result r) Q C.
Proof. intros HQ w Hw. by apply HQ. Qed.

Lemma spec_pure {E A B} (a : A) (f : A → IO D E B) P Q C : spec P (f a) Q C → spec P (of_result (Ok a) ≫= f) Q C.
Proof. done. Qed.

Lemma spec_stop {E A B} (e : E) (f : A → IO D E B) (P : Nodes → D → Prop) Q (C : Nodes → D → Prop) :
  (∀ ns d, P ns d → Q (Err e) ns d) → spec P (of_result (Err e) ≫= f) Q C.
Proof. intros HQ w Hw. by apply HQ. Qed.

Lemma spec_outcome {E F A} (P : Nodes → D → Prop) (m : IO D E A) (Q : result F (result E A) → Nodes → D → Prop) C :
  spec P m (fun r => Q (Ok r)) C → spec P (outcome m) Q C.
Proof.
  intros Hm w Hw. specialize (Hm w Hw). unfold outcome. by destruct (m w) as [[r|] w'].
Qed.

Lemma spec_io_err {E F A} (P : Nodes → D → Prop) (m : IO D E A) (f : E → F) Q C :
  spec P m (fun r => Q (map_err r f)) C → spec P (io_err m f) Q C.
Proof.
  intros Hm. eapply spec_bind; [apply spec_outcome, (spec_conseq _ _ _ _ _ _ _ Hm)|].
  - done.
  - intros r ns d HQ. exact HQ.
  - done.
  - intros r. apply spec_result. done.
Qed.

Lemma spec_get_store {E} (P : Nodes → D → Prop) (Q : result E D → Nodes → D → Prop) (C : Nodes → D → Prop) :
  (∀ ns d, P ns d → Q (Ok d) ns d) → spec P get_store Q C.
Proof. intros HQ w Hw. by apply HQ. Qed.

Lemma spec_call {E A} (P : Nodes → D → Prop) (fail : string → E) act partial (Q : result E A → Nodes → D → Prop) (C : Nodes → D → Prop) :
  (∀ ns d, P ns d → Q (act ns d).1 (act ns d).2.1 (act ns d).2.2) →
  (∀ n detail ns d, P ns d → Q (Err (fail detail)) (partial n ns) d) →
  (∀ n ns d, P ns d → C (partial n ns) d) →
  spec P (call_with fail act partial) Q C.
Proof.
  intros Ha Hf Hh w Hw. unfold call_with. specialize (Ha _ _ Hw).
  destruct (fates w) as [|[|n detail|n] fs]; [| |by apply Hf|by apply Hh];
    destruct (act (nodes w) (store w)) as [r [ns d]]; exact Ha.
Qed.

Lemma spec_file_call {A} (P : Nodes → D → Prop) (act : Nodes → result IoError A * Nodes) partial Q (C : Nodes → D → Prop) :
  (∀ ns d, P ns d → Q (act ns).1 (act ns).2 d) →
  (∀ n detail ns d, P ns d → Q (Err (IoOther detail)) (partial n ns) d) →
  (∀ n ns d, P ns d → C (partial n ns) d) →
  spec P (file_call act partial) Q C.
Proof.
  intros Ha Hf Hh. apply spec_call; [|done|done]. intros ns d Hp. specialize (Ha _ _ Hp). by destruct (act ns).
Qed.

(** a call that changes nothing *)
Lemma spec_quiet {A} (P C : Nodes → D → Prop) (act : Nodes → result IoError A * Nodes) (Q : result IoError A → Nodes → D → Prop) :
  (∀ ns, (act ns).2 = ns) → (∀ r ns d, P ns d → Q r ns d) → (∀ ns d, P ns d → C ns d) →
  spec P (file_call act whole) Q C.
Proof.
  intros Ha HQ HC. apply spec_file_call; [|intros; by apply HQ|intros; by apply HC].
  intros ns d Hp. rewrite Ha. by apply HQ.
Qed.
End Triples.

(** ** Runs that return a value *)
Section Runs.
Context {D : Type}.
Lemma io_bind_ok {E A B} (m : IO D E A) (f : A → IO D E B) w b w' :
  (m ≫= f) w = (Some (Ok b), w') → ∃ a w1, m w = (Some (Ok a), w1) ∧ f a w1 = (Some (Ok b), w').
Proof. unfold mbind, IO_bind. destruct (m w) as [[[a|e]|] w1]; [|done|done]. intros E1. by exists a, w1. Qed.
Lemma io_result_ok {E A} (r : result E A) (w w' : World D) a : of_result r w = (Some (Ok a), w') → r = Ok a ∧ w' = w.
Proof. unfold of_result. intros [= -> ->]. done. Qed.
Lemma io_err_ok {E F A} (m : IO D E A) (f : E → F) w a w' :
  io_err m f w = (Some (Ok a), w') → m w = (Some (Ok a), w').
Proof.
  intros H. unfold io_err in H. apply io_bind_ok in H as (r & w1 & Hr & H). apply io_result_ok in H as [Ha ->].
  unfold outcome in Hr. destruct (m w) as [[r'|] w2]; [|done]. injection Hr as -> ->. by apply map_err_ok in Ha as ->.
Qed.
(** a call that only looks at the nodes answers from them *)
Lemma io_look_ok {A} (f : Nodes → result IoError A) (w w' : World D) a :
  file_call (fun ns => (f ns, ns)) whole w = (Some (Ok a), w') → f (nodes w) = Ok a ∧ nodes w' = nodes w.
Proof. unfold file_call, call_with. destruct (fates w) as [|[] fs]; cbn; intros E; by simplify_eq/=. Qed.
End Runs.
(** open one step of a run that returned a value *)
Ltac io_open H a w Ha := apply io_bind_ok in H as (a & w & Ha & H).

(** ** Files that stay: programs whose changes spare the files at [ps], which
    hold contents of [G] *)
Section FilesHeld.
Context {D : Type} {G : bytes → Prop}.

Definition FilesHeld (ps : string → Prop) (ns : Nodes) : Prop :=
  ∀ p, ps p → ∃ c m, ns !! p = Some (FileNode c m) ∧ G c.

Lemma held_insert ps ns p n : FilesHeld ps ns → (∀ c m, ns !! p = Some (FileNode c m) → ps p → ∃ c' m', n = FileNode c' m' ∧ G c') →
  FilesHeld ps (<[p := n]> ns).
Proof.
  intros Hh Hn q Hq. destruct (Hh q Hq) as (c & m & Hc & Hg). destruct (decide (p = q)) as [->|Hpq].
  - destruct (Hn c m Hc Hq) as (c' & m' & -> & Hg'). exists c', m'. by rewrite lookup_insert_eq.
  - exists c, m. by rewrite lookup_insert_ne.
Qed.
Lemma held_delete ps ns p : FilesHeld ps ns → ¬ ps p → FilesHeld ps (delete p ns).
Proof.
  intros Hh Hp q Hq. destruct (Hh q Hq) as (c & m & Hc & Hg). exists c, m.
  rewrite lookup_delete_ne; [done|]. by intros ->.
Qed.
Lemma held_append ps ns p b : FilesHeld ps ns → ¬ ps p → FilesHeld ps (append_to p b ns).
Proof.
  intros Hh Hp. unfold append_to. destruct (ns !! p) as [[c m| |]|]; try done. by apply held_insert.
Qed.

Lemma held_make_dirs ps mode l ns ns' : FilesHeld ps ns → make_dirs mode l ns = Ok ns' → FilesHeld ps ns'.
Proof.
  unfold make_dirs. intros Hh. revert ns'. induction l as [|p l IH] using rev_ind; intros ns'; [by intros [= <-]|].
  rewrite fold_left_app. cbn [fold_left]. unfold make_dir at 1. intros Hr. open_bind Hr as ns1 H1. apply IH in H1.
  destruct (ns1 !! p) as [n|] eqn:Ep; [by destruct (follow ns1 p) as [[? []]|]; inversion Hr; subst|].
  injection Hr as <-. apply held_insert; [done|]. intros c m Hc. congruence.
Qed.

(** for a given rest of the world *)
Definition OnFiles (ps : string → Prop) (d0 : D) (ns : Nodes) (d : D) : Prop := FilesHeld ps ns ∧ d = d0.

Context {ps : string → Prop} {d0 : D}.
Abbreviation P := (OnFiles ps d0).

Lemma held_quiet {A} (act : Nodes → result IoError A * Nodes) (Q : Nodes → D → Prop) :
  (∀ ns, (act ns).2 = ns) → (∀ ns d, Q ns d → P ns d) → spec Q (file_call act whole) (fun _ => Q) P.
Proof. intros Ha HQ. by apply spec_quiet. Qed.

Lemma held_create_dir mode p : spec P (create_dir_all mode p) (fun _ => P) P.
Proof.
  apply spec_file_call.
  - intros ns d [Hh ->]. destruct (make_dirs _ _ ns) as [ns'|e] eqn:E; [|done].
    split; [|done]. by eapply held_make_dirs.
  - intros n detail ns d [Hh ->]. destruct (make_dirs _ _ ns) as [ns'|e] eqn:E; [|done].
    split; [|done]. by eapply held_make_dirs.
  - intros n ns d [Hh ->]. destruct (make_dirs _ _ ns) as [ns'|e] eqn:E; [|done].
    split; [|done]. by eapply held_make_dirs.
Qed.

Lemma held_set_permissions p mode : spec P (set_permissions p mode) (fun _ => P) P.
Proof.
  apply spec_file_call; [|done|done]. intros ns d [Hh ->]. destruct (follow ns p) as [[q n]|e] eqn:E; [|done].
  split; [|done]. apply held_insert; [done|]. intros c m Hc Hq. unfold follow in E.
  destruct (resolve _ _ _) as [q'|]; [|done]. open_bind E as n' Hn%ok_or_ok. injection E as -> ->.
  assert (n = FileNode c m) as -> by congruence. destruct (Hh q Hq) as (c' & m' & Hc' & Hg).
  assert (c' = c) as -> by congruence. by exists c, mode.
Qed.

(** the temporary file is none of the files that must stay *)
Definition Temp (file : string) (c : option bytes) (ns : Nodes) (d : D) : Prop :=
  P ns d ∧ ¬ ps file ∧ (∀ b, c = Some b → ns !! file = Some (FileNode b PRIVATE_FILE)).

Lemma held_open_new file :
  spec P (open_new file PRIVATE_FILE) (fun r ns d => match r with Ok f => f = file ∧ Temp file (Some []) ns d | Err _ => P ns d end) P.
Proof.
  apply spec_file_call; [|done|done]. intros ns d [Hh ->]. destruct (ns !! file) as [n|] eqn:E; [done|].
  destruct (parent_is_dir ns file); [|done]. cbn. split; [done|].
  assert (Hf : ¬ ps file) by (intros Hf; destruct (Hh file Hf) as (? & ? & ? & _); congruence).
  split_and!; [|done|intros b [= <-]; by rewrite lookup_insert_eq].
  split; [|done]. by apply held_insert.
Qed.

Lemma held_write_more file b0 b :
  spec (Temp file (Some b0)) (write_all file b)
    (fun r => match r with Ok _ => Temp file (Some (b0 ++ b)) | Err _ => Temp file None end) P.
Proof.
  apply spec_file_call; cbn [fst snd].
  - intros ns d ([Hh ->] & Hf & Hc). split_and!; [split; [by apply held_append|done]|done|].
    intros b' [= <-]. unfold append_to. rewrite (Hc b0 eq_refl). by rewrite lookup_insert_eq.
  - intros n detail ns d ([Hh ->] & Hf & Hc). split_and!; [split; [by apply held_append|done]|done|done].
  - intros n ns d ([Hh ->] & Hf & Hc). split; [by apply held_append|done].
Qed.
Lemma held_write file b :
  spec (Temp file (Some [])) (write_all file b)
    (fun r => match r with Ok _ => Temp file (Some b) | Err _ => Temp file None end) P.
Proof. apply (held_write_more file []). Qed.

Lemma held_remove file c : spec (Temp file c) (remove_file file) (fun _ => P) P.
Proof.
  apply spec_file_call; [|by intros ???? [? _]|by intros ??? [? _]]. intros ns d ([Hh ->] & Hf & _).
  destruct (ns !! file) as [[]|]; cbn; try done; (split; [by apply held_delete|done]).
Qed.

(** an operation that removes the temporary file when it fails *)
Lemma held_or_removed {E A} file (c : option bytes) (m : IO D E A) (R : A → Nodes → D → Prop) (Q : Nodes → D → Prop) :
  spec Q m (fun r => match r with Ok a => R a | Err _ => Temp file c end) P →
  spec Q (or_removed file m) (fun r => match r with Ok a => R a | Err _ => P end) P.
Proof.
  intros Hm. eapply (spec_bind _ _ _ (fun r => match r with Ok a => R a | Err _ => Temp file c end)).
  { apply spec_outcome. exact Hm. }
  intros [a|e]; [by apply spec_ret|].
  eapply (spec_bind _ _ _ (fun _ => P)); [apply spec_outcome, held_remove|]. intros _. by apply spec_result.
Qed.
End FilesHeld.
Arguments FilesHeld G ps ns : clear implicits.
Arguments OnFiles {D} G ps d0 ns d.
Arguments Temp {D} G ps d0 file c ns d.

(** ** Paths *)
Lemma find_byte_bound c s i : find_byte c s = Some i → (i < length s)%nat.
Proof.
  revert i. induction s as [|b s IH]; intros i; cbn [find_byte]; [done|].
  destruct (beq b c); [intros [= <-]; cbn; lia|]. intros (j & Hj & ->)%fmap_Some. apply IH in Hj. cbn. lia.
Qed.

Lemma slen_str_of b : String.length (str_of b) = length b.
Proof. rewrite <- str_bytes_length. by rewrite bytes_of_str. Qed.

Lemma split_length p q n : parent p = Some q → file_name p = Some n → (String.length p <= String.length q + 1 + String.length n)%nat.
Proof.
  unfold parent, file_name. destruct (_ || _); [done|]. destruct (rfind_byte _ _) as [i|] eqn:Ei.
  - intros Hq Hn. assert (Hl : length (str_bytes p) = String.length p) by apply str_bytes_length.
    destruct (String.eqb _ ".."); [done|]. injection Hn as <-. rewrite slen_str_of, length_drop.
    destruct i as [|i]; injection Hq as <-; [cbn; lia|]. rewrite slen_str_of, length_take. lia.
  - destruct (String.eqb p ".."); [done|]. intros [= <-] [= <-]. cbn. lia.
Qed.

Lemma append_length a b : String.length (String.append a b) = (String.length a + String.length b)%nat.
Proof. induction a as [|c a IH]; [done|]. change (S (String.length (String.append a b)) = S (String.length a + String.length b)). by rewrite IH. Qed.

Lemma join_length dir name : (String.length dir + String.length name <= String.length (join_path dir name))%nat.
Proof.
  unfold join_path. destruct (String.eqb_spec dir ""%string) as [->|Hne]; [done|].
  destruct (last (str_bytes dir)) as [c|] eqn:El.
  - destruct (beq c SLASH); cbn [concat_str]; rewrite ?append_length; cbn [String.length]; lia.
  - apply last_None in El. exfalso. apply Hne. by destruct dir.
Qed.

Lemma staged_ne pid p q n : parent p = Some q → file_name p = Some n → staged pid q n ≠ p.
Proof.
  intros Hq Hn E%(f_equal String.length). pose proof (split_length _ _ _ Hq Hn).
  pose proof (join_length q (concat_str [n; ".tmp."; num pid])) as Hj. unfold staged in E.
  cbn [concat_str] in *. rewrite !append_length in Hj. cbn [String.length] in Hj. lia.
Qed.

(** ** The atomic write *)
Section AtomicWrite.
Context {D : Type}.
Implicit Types (ns : Nodes) (d : D).

(** nothing but [tmp] has changed, which is absent or a private file *)
Definition Free (ns : Nodes) (tmp : string) : Prop := ∀ n, ns !! tmp = Some n → ∃ c, n = FileNode c PRIVATE_FILE.
Definition Apart (ns0 ns : Nodes) (tmp : string) : Prop := (∀ q, q ≠ tmp → ns !! q = ns0 !! q) ∧ Free ns tmp.

Lemma apart_refl ns tmp : Free ns tmp → Apart ns ns tmp.
Proof. done. Qed.
Lemma apart_insert ns0 ns tmp c : Apart ns0 ns tmp → Apart ns0 (<[tmp := FileNode c PRIVATE_FILE]> ns) tmp.
Proof.
  intros [Ha Hf]. split; [intros q Hq; rewrite lookup_insert_ne by done; by apply Ha|].
  intros n. rewrite lookup_insert_eq. intros [= <-]. eauto.
Qed.
Lemma apart_delete ns0 ns tmp : Apart ns0 ns tmp → Apart ns0 (delete tmp ns) tmp.
Proof.
  intros [Ha Hf]. split; [intros q Hq; rewrite lookup_delete_ne by done; by apply Ha|].
  intros n. by rewrite lookup_delete_eq.
Qed.
Lemma apart_append ns0 ns tmp b : Apart ns0 ns tmp → Apart ns0 (append_to tmp b ns) tmp.
Proof.
  intros Ha. unfold append_to. destruct (ns !! tmp) as [n|] eqn:E; [|done].
  destruct (proj2 Ha n E) as (c & ->). by apply apart_insert.
Qed.
Lemma free_resolve ns tmp : Free ns tmp → resolve MAX_LINKS ns tmp = Some tmp.
Proof.
  intros Hf. unfold MAX_LINKS. cbn [resolve]. destruct (ns !! tmp) as [n|] eqn:E; [|done].
  by destruct (Hf n E) as (c & ->).
Qed.
(** the file with its new content in place, and nothing else changed *)
Definition Replaced (ns0 : Nodes) (tmp dest : string) (contents : bytes) : Nodes :=
  <[dest := FileNode contents PRIVATE_FILE]> (delete tmp ns0).

Lemma apart_rename ns0 ns tmp dest c :
  Apart ns0 ns tmp → ns !! tmp = Some (FileNode c PRIVATE_FILE) →
  <[dest := FileNode c PRIVATE_FILE]> (delete tmp ns) = Replaced ns0 tmp dest c.
Proof.
  intros [Ha _] _. unfold Replaced. f_equal. apply map_eq. intros q. destruct (decide (q = tmp)) as [->|Hq].
  - by rewrite !lookup_delete_eq.
  - rewrite !lookup_delete_ne by done. by apply Ha.
Qed.

(** staging: on success [tmp] holds [contents], and only [tmp] ever changes *)
Lemma spec_stage ns0 d0 tmp contents :
  spec (fun ns d => Apart ns0 ns tmp ∧ d = d0)
    (f ← open_truncate tmp PRIVATE_FILE; _ ← write_all f contents; _ ← sync; sync)
    (fun r ns d => Apart ns0 ns tmp ∧ d = d0 ∧ (is_ok r = true → ns !! tmp = Some (FileNode contents PRIVATE_FILE)))
    (fun ns d => Apart ns0 ns tmp ∧ d = d0).
Proof.
  eapply (spec_bind _ _ _ (fun f ns d => f = tmp ∧ Apart ns0 ns tmp ∧ d = d0 ∧ ns !! tmp = Some (FileNode [] PRIVATE_FILE))).
  { apply spec_file_call; [|by intros ???? [? ->]|done]. intros ns d [Ha ->].
    rewrite (free_resolve _ _ (proj2 Ha)). destruct (ns !! tmp) as [n|] eqn:E.
    - destruct (proj2 Ha n E) as (c & ->). cbn. split_and!; [done|by apply apart_insert|done|by rewrite lookup_insert_eq].
    - destruct (parent_is_dir ns tmp); cbn; [|done]. split_and!; [done|by apply apart_insert|done|by rewrite lookup_insert_eq]. }
  intros f. eapply (spec_bind _ _ _ (fun _ ns d => Apart ns0 ns tmp ∧ d = d0 ∧ ns !! tmp = Some (FileNode contents PRIVATE_FILE))).
  { apply spec_file_call; cbn [fst snd].
    - intros ns d (-> & Ha & -> & E). split_and!; [by apply apart_append|done|]. unfold append_to. rewrite E. cbn.
      by rewrite lookup_insert_eq.
    - intros n detail ns d (-> & Ha & -> & E). split_and!; [by apply apart_append|done|done].
    - intros n ns d (-> & Ha & -> & E). split; [by apply apart_append|done]. }
  intros _. eapply (spec_bind _ _ _ (fun _ ns d => Apart ns0 ns tmp ∧ d = d0 ∧ ns !! tmp = Some (FileNode contents PRIVATE_FILE))).
  { apply spec_quiet; [done|intros [[]|] ns d (? & -> & ?); by split_and!|by intros ns d (? & -> & ?)]. }
  intros _. apply spec_quiet; [done|by intros r ns d (? & -> & ?)|by intros ns d (? & -> & ?)].
Qed.

Lemma spec_remove ns0 d0 tmp :
  spec (fun ns d => Apart ns0 ns tmp ∧ d = d0) (remove_file tmp)
    (fun r ns d => Apart ns0 ns tmp ∧ d = d0 ∧ (is_ok r = true → ns !! tmp = None)) (fun ns d => Apart ns0 ns tmp ∧ d = d0).
Proof.
  apply spec_file_call; [|by intros ???? [? ->]|done]. intros ns d [Ha ->].
  destruct (ns !! tmp) as [n|] eqn:E; [|done]. destruct (proj2 Ha n E) as (c & ->). cbn.
  split_and!; [by apply apart_delete|done|]. intros _. apply lookup_delete_eq.
Qed.

(** Whatever calls fail, and at whatever call the
    process halts with whatever part of its bytes written: every path other
    than the destination and the staging file stays as it was; when the write
    reports success the destination is a private file with exactly the new
    contents and the staging file is gone; when it reports an error the
    destination is as it was; and after a halt it is one or the other. *)
Lemma spec_atomic_write pid dest contents ns0 d0 q n :
  parent dest = Some q → file_name dest = Some n → Free ns0 (staged pid q n) →
  let tmp := staged pid q n in
  spec (fun ns d => ns = ns0 ∧ d = d0) (atomic_write pid dest contents)
    (fun r ns d => d = d0 ∧ match r with
       | Ok _ => ns = Replaced ns0 tmp dest contents
       | Err _ => Apart ns0 ns tmp ∧ ns !! dest = ns0 !! dest
       end)
    (fun ns d => d = d0 ∧ (Apart ns0 ns tmp ∨ ns = Replaced ns0 tmp dest contents)).
Proof.
  intros Hq Hn Hfree tmp. pose proof (staged_ne pid dest q n Hq Hn) as Hne. fold tmp in Hne, Hfree.
  unfold atomic_write. rewrite Hq, Hn. cbn [ok_or]. set (Old ns d := Apart ns0 ns tmp ∧ d = d0).
  assert (Hold : ∀ A (e : LensError), spec Old (_ ← outcome (remove_file tmp); of_result (Err e))
    (fun (r : result LensError A) ns d => d = d0 ∧ match r with
       | Ok _ => ns = Replaced ns0 tmp dest contents
       | Err _ => Apart ns0 ns tmp ∧ ns !! dest = ns0 !! dest
       end) (fun ns d => d = d0 ∧ (Apart ns0 ns tmp ∨ ns = Replaced ns0 tmp dest contents))).
  { intros A e. eapply (spec_bind _ _ _ (fun _ => Old)).
    - apply spec_outcome. eapply spec_conseq; [apply (spec_remove ns0 d0)|done|by intros r ns d (? & ? & _)|].
      intros ns d [? ?]. by split; [|left].
    - intros _. apply spec_result. intros ns d [Ha ->]. split_and!; [done|done|]. by apply (proj1 Ha). }
  apply spec_pure, spec_pure. fold tmp.
  eapply (spec_bind _ _ _ (fun r ns d => Old ns d ∧ (is_ok r = true → ns !! tmp = Some (FileNode contents PRIVATE_FILE)))).
  { apply spec_outcome. eapply spec_conseq; [apply (spec_stage ns0 d0 tmp contents)|..].
    - by intros ns d [-> ->].
    - intros r ns d (? & ? & ?). by split_and!.
    - intros ns d [? ?]. by split; [|left]. }
  intros [f|err]; [|eapply spec_conseq; [apply Hold|by intros ns d [? _]|done|done]].
  eapply (spec_bind _ _ _ (fun r ns d => match r with Ok _ => ns = Replaced ns0 tmp dest contents ∧ d = d0 | Err _ => Old ns d end)).
  { apply spec_outcome, spec_file_call; [|by intros ???? [? _]|intros m ns d [[? ?] _]; by split; [|left]].
    intros ns d [[Ha ->] Ht]. rewrite Ht by done.
    pose proof (apart_rename _ _ _ dest _ Ha (Ht eq_refl)) as E. destruct (ns !! dest) as [[]|]; cbn; try done; by rewrite E. }
  intros [[]|err]; [|apply Hold].
  eapply (spec_bind _ _ _ (fun _ ns d => ns = Replaced ns0 tmp dest contents ∧ d = d0)); [|by intros _; apply spec_ret; intros ns d [? ?]].
  apply spec_outcome. eapply (spec_bind _ _ _ (fun _ ns d => ns = Replaced ns0 tmp dest contents ∧ d = d0)).
  - apply spec_quiet; [done|by intros [] ??|intros ns d [? ?]; by split; [|right]].
  - intros _. apply spec_quiet; [done|done|intros ns d [? ?]; by split; [|right]].
Qed.
End AtomicWrite.
