(* ===== verification/Manifest.v ===== *)
(** * The audit manifest

    Models src/src/session/manifest.rs, the snapshot file of
    src/src/session/mod.rs and src/src/manifest/gaze_mcp_adapter.rs: the
    database of sessions and calls with the statements run on it, the private
    snapshot of a session's tokens, and the adapter that Gaze drives when a
    call begins, finishes or fails.

    The database is SQLite's: a statement of the code is a function on the
    tables, which happens whole or, when the call fails or the process halts
    ([Disk]), not at all.  The rows of a table are in the order of their
    insertion.  The JSON of the arguments and of a summary is the class
    [ManifestText]; what the Gaze session exports is an argument. *)

From S2P Require Import Prelude Str Text Errors LensValue Output Disk.

(** ** Tables *)
Record SessionRow := mkSessionRow { session_id : string; audit_id : string; created_at_ms : Z }.
Record CallRow := mkCallRow {
  row_id : string;
  row_session : string;
  row_tool : string;
  row_args : string;
  row_status : string;
  row_summary : option string;
  row_snapshot : option string;
  row_started : Z;
  row_finished : option Z;
  row_purged : option Z }.
Record CallTable := mkCallTable { columns : list string; call_rows : list CallRow }.
Record Db := mkDb { user_version : Z; session_rows : option (list SessionRow); call_table : option CallTable }.

Definition CALL_COLUMNS : list string :=
  ["call_id"; "lens_session_id"; "tool_name"; "redacted_args_json"; "status"; "result_summary"; "snapshot_ref";
   "started_at_ms"; "finished_at_ms"; "purged_at_ms"]%string.
Definition PURGED : string := "purged_at_ms".

(** a statement, and a read of what a query answers *)
Definition statement {A} (act : Db → result string A * Db) : IO Db string A :=
  call_with (fun detail => detail) (fun ns d => let '(r, d) := act d in (r, (ns, d))) whole.
Definition query {A} (answer : Db → result string A) : IO Db string A := statement (fun d => (answer d, d)).

Definition with_calls (d : Db) (t : CallTable) : Db := mkDb (user_version d) (session_rows d) (Some t).
Definition no_table {A} (name : string) : result string A := Err (String.append "no such table: " name).
(** a statement that names columns of [calls] *)
Definition on_calls {A} (named : list string) (act : list CallRow → result string A * list CallRow) (d : Db)
  : result string A * Db :=
  match call_table d with
  | None => (no_table "calls", d)
  | Some t =>
    match List.find (fun c => negb (bool_decide (c ∈ columns t))) named with
    | Some c => (Err (String.append "no such column: " c), d)
    | None => let '(r, rows) := act (call_rows t) in (r, with_calls d (mkCallTable (columns t) rows))
    end
  end.

(** ** The schema *)
Definition create_sessions (d : Db) : result string unit * Db :=
  (Ok tt, match session_rows d with Some _ => d | None => mkDb (user_version d) (Some []) (call_table d) end).
Definition create_calls (d : Db) : result string unit * Db :=
  (Ok tt, match call_table d with Some _ => d | None => with_calls d (mkCallTable CALL_COLUMNS []) end).
Definition column_exists (column : string) (d : Db) : result string bool :=
  Ok (match call_table d with Some t => bool_decide (column ∈ columns t) | None => false end).
Definition add_column (column : string) (d : Db) : result string unit * Db :=
  match call_table d with
  | None => (no_table "calls", d)
  | Some t =>
    if bool_decide (column ∈ columns t) then (Err (String.append "duplicate column name: " column), d)
    else (Ok tt, with_calls d (mkCallTable (columns t ++ [column]) (call_rows t)))
  end.
Definition set_user_version (v : Z) (d : Db) : result string unit * Db :=
  (Ok tt, mkDb v (session_rows d) (call_table d)).

Definition initialize_schema : IO Db string unit :=
  _ ← statement create_sessions;
  _ ← statement create_calls;
  v ← query (fun d => Ok (user_version d));
  if (v <? 3)%Z then
    has_column ← query (column_exists PURGED);
    _ ← (if has_column : bool then mret tt else statement (add_column PURGED));
    statement (set_user_version 3)
  else mret tt.

(** ** The writer *)
Record ToolCall := mkToolCall { tc_call_id : string; tc_tool_name : string }.
Record SnapshotRef := mkSnapshotRef { snap_path : string }.
Record ManifestWriter := mkWriter { mw_path : string; mw_session : string }.

Class ManifestText := {
  (** serde_json on [RedactedToolArgs] and on [ResultSummary] *)
  args_to_text : string → result string string;
  args_of_text : string → result string string;
  summary_to_text : ResultSummary → result string string;
}.

Definition current_epoch_ms (clock : option N) : Z :=
  match clock with Some ms => Z.min (Z.of_N ms) I64_MAX | None => 0%Z end.

Definition begin_failed (call_id path detail : string) : LensError := ManifestBeginFailed call_id detail (Some path).
Definition finish_failed (call_id path detail : string) : LensError := ManifestFinishFailed call_id detail (Some path).

Definition insert_session (row : SessionRow) (d : Db) : result string unit * Db :=
  match session_rows d with
  | None => (no_table "sessions", d)
  | Some rows =>
    (Ok tt, if existsb (fun r => String.eqb (session_id r) (session_id row)) rows then d
            else mkDb (user_version d) (Some (rows ++ [row])) (call_table d))
  end.
Definition insert_call (row : CallRow) : Db → result string unit * Db :=
  on_calls ["call_id"; "lens_session_id"; "tool_name"; "redacted_args_json"; "status"; "started_at_ms"]%string
    (fun rows => if existsb (fun r => String.eqb (row_id r) (row_id row)) rows
                 then (Err "UNIQUE constraint failed: calls.call_id"%string, rows)
                 else (Ok tt, rows ++ [row])).
(** the number of rows updated *)
Definition update_call (named : list string) (call_id : string) (f : CallRow → CallRow) : Db → result string N * Db :=
  on_calls ("call_id"%string :: named) (fun rows =>
    (Ok (len (filter (fun r => row_id r = call_id) rows)),
     (fun r => if String.eqb (row_id r) call_id then f r else r) <$> rows)).

Definition finished_row (summary path : string) (now : Z) (r : CallRow) : CallRow :=
  mkCallRow (row_id r) (row_session r) (row_tool r) (row_args r) "ok" (Some summary) (Some path) (row_started r)
    (Some now) (row_purged r).
Definition failed_row (safe : string) (now : Z) (r : CallRow) : CallRow :=
  mkCallRow (row_id r) (row_session r) (row_tool r) (row_args r) "error" (Some safe) (row_snapshot r) (row_started r)
    (Some now) (row_purged r).

Section Writer.
Context `{ManifestText} (debug_str : string → string).

(** [clock]: what the system's clock answers *)
Definition manifest_new (path lens_session_id gaze_audit_session_id : string) (clock : option N)
  : IO Db LensError ManifestWriter :=
  _ ← (match parent path with
       | Some dir => io_err (create_dir_all DEFAULT_DIR_MODE dir) (fun err => begin_failed "session" path (io_text err))
       | None => mret tt
       end);
  _ ← io_err (query (fun _ => Ok tt)) (begin_failed "session" path);
  _ ← io_err initialize_schema (begin_failed "session" path);
  _ ← io_err (statement (insert_session (mkSessionRow lens_session_id gaze_audit_session_id (current_epoch_ms clock))))
        (begin_failed "session" path);
  mret (mkWriter path lens_session_id).

Definition begin_call (w : ManifestWriter) (call : ToolCall) (redacted_args : string) (clock : option N)
  : IO Db LensError unit :=
  redacted_args_json ← of_result (map_err (args_to_text redacted_args) (begin_failed (tc_call_id call) (mw_path w)));
  io_err (statement (insert_call (mkCallRow (tc_call_id call) (mw_session w) (tc_tool_name call) redacted_args_json
            "in-progress" None None (current_epoch_ms clock) None None)))
    (begin_failed (tc_call_id call) (mw_path w)).

Definition finish_call (w : ManifestWriter) (call_id : string) (summary : ResultSummary) (snapshot_ref : SnapshotRef)
    (clock : option N) : IO Db LensError unit :=
  summary_json ← of_result (map_err (summary_to_text summary) (finish_failed call_id (mw_path w)));
  updated ← io_err (statement (update_call ["status"; "result_summary"; "snapshot_ref"; "finished_at_ms"]%string call_id
                      (finished_row summary_json (snap_path snapshot_ref) (current_epoch_ms clock))))
              (finish_failed call_id (mw_path w));
  if updated =? 1 then mret tt
  else of_result (Err (finish_failed call_id (mw_path w) "call not found")).

Definition fail_call (w : ManifestWriter) (call_id : string) (err : LensError) (clock : option N) : IO Db LensError unit :=
  let safe := sanitize_error debug_str err in
  _ ← io_err (statement (update_call ["status"; "result_summary"; "finished_at_ms"]%string call_id
                (failed_row safe (current_epoch_ms clock))))
        (finish_failed call_id (mw_path w));
  mret tt.
End Writer.

(** ** The snapshot *)
Definition snapshot_error (path : string) : LensError :=
  ManifestFinishFailed "snapshot" "snapshot persistence failed" (Some path).
Definition snapshot_failed (path detail : string) : LensError := ManifestFinishFailed "snapshot" detail (Some path).

Section Snapshot.
Context {D : Type}.

Definition set_dir_private (path : string) : IO D LensError unit :=
  meta ← io_err (symlink_metadata path) (fun _ => snapshot_error path);
  if negb (is_directory meta) then of_result (Err (snapshot_error path))
  else io_err (set_permissions path PRIVATE_DIR) (fun err => snapshot_failed path (io_text err)).

(** [rnd]: the random part of the name of the temporary file *)
Definition temporary (rnd parent : string) : string := join_path parent (concat_str [".snapshot-"; rnd; ".tmp"]).
Definition prepare_private_file (rnd path : string) (b : bytes) : IO D LensError string :=
  parent ← of_result (ok_or (parent path) (snapshot_error path));
  file ← io_err (open_new (temporary rnd parent) PRIVATE_FILE) (fun _ => snapshot_error path);
  or_removed file (
    _ ← io_err (write_all file b) (fun _ => snapshot_error path);
    _ ← io_err sync (fun _ => snapshot_error path);
    mret file).
Definition write_private_file (rnd path : string) (b : bytes) : IO D LensError unit :=
  file ← prepare_private_file rnd path b;
  _ ← or_removed file (io_err (rename file path) (fun _ => snapshot_error path));
  parent ← of_result (ok_or (parent path) (snapshot_error path));
  io_err (_ ← open_dir parent; sync) (fun _ => snapshot_error path).

Definition snapshot_path (snapshot_dir lens_session_id : string) : string :=
  join_path snapshot_dir (String.append lens_session_id ".snap").
(** [locked]: the lock is not poisoned; [exported]: what the session exports
    while it is held *)
Definition persist_snapshot (rnd snapshot_dir lens_session_id : string) (locked : bool) (exported : result string bytes)
  : IO D LensError SnapshotRef :=
  _ ← of_result (if locked then Ok tt else Err (snapshot_error snapshot_dir));
  _ ← io_err (create_dir_all PRIVATE_DIR snapshot_dir) (fun err => snapshot_failed snapshot_dir (io_text err));
  _ ← set_dir_private snapshot_dir;
  let path := snapshot_path snapshot_dir lens_session_id in
  b ← of_result (map_err exported (snapshot_failed path));
  _ ← write_private_file rnd path b;
  mret (mkSnapshotRef path).
End Snapshot.

(** ** The adapter *)
Inductive FailureReason :=
| ToolFailure (class message : string)
| AuthDenied (reason : string)
| RedactionFailure (message : string)
| OtherFailure (message : string)
| UnknownFailure.

Definition PHASES : list string :=
  ["source dispatch"; "redaction"; "ssh connect"; "ssh log command/read"; "local log read"]%string.
Definition OPERATIONS : list string := ["query"; "schema"; "list_tables"; "log_tail"; "log_grep"]%string.
Definition TIMEOUT_PREFIX : bytes := str_bytes "tool internal error: timeout during ".

Definition operation_timeout_from_message (message : string) : option LensError :=
  timeout ← strip_prefix_text TIMEOUT_PREFIX (str_bytes message);
  '(phase, rest) ← split_once_text (str_bytes " for ") timeout;
  if negb (bool_decide (str_of phase ∈ PHASES)) then None
  else
    '(operation, duration) ← split_once_text (str_bytes " after ") rest;
    if negb (bool_decide (str_of operation ∈ OPERATIONS)) then None
    else
      digits ← strip_suffix "s" duration;
      if is_nil digits || negb (forallb digit digits) then None
      else
        timeout_secs ← parse_unsigned U64_MAX digits;
        Some (OperationTimeout (str_of phase) (str_of operation) timeout_secs None).

Definition lens_error_from_failure (reason : FailureReason) : LensError :=
  match reason with
  | ToolFailure class message =>
    if String.eqb class "internal" then
      if String.eqb message "output truncated at Timeout" ||
         String.eqb message "tool internal error: output truncated at Timeout"
      then Truncated TrTimeout
      else match operation_timeout_from_message message with
           | Some timeout => timeout
           | None => Internal "gaze-mcp-core tool failure"
           end
    else Internal "gaze-mcp-core tool failure"
  | AuthDenied reason => Internal (String.append "auth denied: " reason)
  | RedactionFailure message => RedactionFailed message
  | OtherFailure message => Internal message
  | UnknownFailure => Internal "unknown gaze-mcp-core failure"
  end.

(** an operation of the adapter answers its result and leaves its state.
    What the adapter holds besides the writer: where the session's snapshot is
    written, and the summaries of the calls under way *)
Record Adapter := mkAdapter { ad_writer : ManifestWriter; ad_dir : string; ad_summaries : gmap string ResultSummary }.
Definition with_summaries (a : Adapter) m := mkAdapter (ad_writer a) (ad_dir a) m.

Section Adapter.
Context `{ManifestText, JsonText} (debug_str : string → string).

(** the redacted arguments are serialized twice: as the JSON they are, and
    inside [RedactedToolArgs] *)
Definition adapter_begin (a : Adapter) (call : ToolCall) (redacted_args : json) (clock : option N) : IO Db LensError unit :=
  begin_call (ad_writer a) call (json_to_string redacted_args) clock.

(** [joined]: the blocking task did not panic; [byte_len]: the length Gaze reports *)
Definition adapter_finish (a : Adapter) (rnd call_id : string) (locked joined : bool) (exported : result string bytes)
    (byte_len : N) (clock : option N) : IO Db LensError (result LensError unit * Adapter) :=
  written ← outcome (persist_snapshot rnd (ad_dir a) (mw_session (ad_writer a)) locked exported);
  match (if joined then written else Err (Internal "snapshot task failed")) with
  | Err e => mret (Err e, a)
  | Ok snapshot_ref =>
    let summary := default (mkResultSummary 0 byte_len []) (ad_summaries a !! call_id) in
    let a := with_summaries a (delete call_id (ad_summaries a)) in
    r ← outcome (finish_call (ad_writer a) call_id summary snapshot_ref clock);
    mret (r, a)
  end.

Definition adapter_fail (a : Adapter) (call_id : string) (reason : FailureReason) (clock : option N)
  : IO Db LensError (result LensError unit * Adapter) :=
  let err := lens_error_from_failure reason in
  let a := with_summaries a (delete call_id (ad_summaries a)) in
  r ← outcome (fail_call debug_str (ad_writer a) call_id err clock);
  mret (r, a).
End Adapter.
