(* ===== verification/Retention.v ===== *)
(** * Retention and replay

    Models src/src/session/maintenance.rs (the sweep of expired snapshots),
    src/src/session/restore.rs (the replay of a session's calls) and the
    commands that start them, src/src/cli/retention.rs and
    src/src/cli/replay.rs.

    ULIDs, RFC 3339 and Gaze's restoring are the classes [Ulids], [Times] and
    [GazeRestore].  A row of a query is one call on the database, which can
    fail like any other.  What goes to the terminal and the log is not
    modelled, except the text of the daily warning. *)

From stdpp Require Import sorting.
From S2P Require Import Prelude Utf8 Str Errors LensValue Profile Output Disk Manifest.

Definition MS_PER_DAY : Z := 86400000.
Definition WARN_SUPPRESSION_MS : Z := 24 * 3600000.
Definition WARN_STATE_FILENAME : string := ".last_retention_warn".

Class Ulids := {
  (** [Ulid::from_string(_).timestamp_ms()] *)
  ulid_timestamp_ms : string → option N;
}.

(** [i64::saturating_sub] and [saturating_mul] *)
Definition saturating_sub (a b : Z) : Z := sat_i64 (a - b).
Definition saturating_mul (a b : Z) : Z := sat_i64 (a * b).

(** ** Reports *)
Record ExpiredEntry := mkExpired { ex_call : string; ex_session : string; ex_path : string; ex_ulid_ms : Z; ex_age_days : N }.
Record PurgedEntry := mkPurged { pu_call : string; pu_session : string; pu_path : string; pu_purged_at : Z }.
Record FailedEntry := mkFailed { fa_call : string; fa_session : string; fa_path : string; fa_detail : string }.
Record SweepReport := mkReport {
  would_purge : list ExpiredEntry; purged : list PurgedEntry; failed : list FailedEntry; warning_emitted : bool }.
Definition empty_report : SweepReport := mkReport [] [] [] false.
Definition report_is_empty (r : SweepReport) : bool := is_nil (would_purge r) && is_nil (purged r) && is_nil (failed r).

(** [min_by_key]: the first of the smallest *)
Definition older (best e : ExpiredEntry) : ExpiredEntry := if (ex_ulid_ms e <? ex_ulid_ms best)%Z then e else best.
Definition oldest_would_purge (r : SweepReport) : option ExpiredEntry :=
  match would_purge r with [] => None | e :: es => Some (fold_left older es e) end.

(** ** The sweep *)

(** [present]: the manifest existed when it was opened *)
Record ManifestMaintenance := mkMaintenance { mm_path : string; mm_warn_state : string; mm_present : bool }.
Definition default_warn_state_path (manifest_path : string) : string :=
  match parent manifest_path with Some p => join_path p WARN_STATE_FILENAME | None => WARN_STATE_FILENAME end.

Definition open_maintenance (manifest_path : string) : IO Db LensError ManifestMaintenance :=
  let warn_state_path := default_warn_state_path manifest_path in
  present ← io_err (exists_ manifest_path) (fun err => Internal (io_text err));
  if negb present then mret (mkMaintenance manifest_path warn_state_path false)
  else
    _ ← io_err (query (fun _ => Ok tt))
          (fun err => Internal (concat_str ["manifest maintenance open failed for "; manifest_path; ": "; err]));
    _ ← io_err initialize_schema
          (fun err => Internal (concat_str ["manifest maintenance schema init failed for "; manifest_path; ": "; err]));
    mret (mkMaintenance manifest_path warn_state_path true).

Section Sweep.
Context `{Ulids}.

Definition parse_ulid_ms (s : string) : option Z :=
  ms ← ulid_timestamp_ms s;
  if (I64_MAX <? Z.of_N ms)%Z then None else Some (Z.of_N ms).

(** the rows a sweep looks at *)
Definition sweep_candidate (r : CallRow) : bool :=
  String.eqb (row_status r) "ok" && bool_decide (is_Some (row_snapshot r)) && bool_decide (row_purged r = None).
Definition select_candidates (d : Db) : result string (list CallRow) :=
  (on_calls ["call_id"; "lens_session_id"; "snapshot_ref"; "status"; "purged_at_ms"]%string
     (fun rows => (Ok (List.filter sweep_candidate rows), rows)) d).1.

Definition expired (now_ms retention_ms ulid_ms : Z) : bool := negb (saturating_sub now_ms ulid_ms <=? retention_ms)%Z.
Definition age_days (now_ms ulid_ms : Z) : N :=
  Z.to_N (Z.max (Z.quot (saturating_sub now_ms ulid_ms) MS_PER_DAY) 0) mod 2 ^ 32.

Definition tombstone (now : Z) (r : CallRow) : CallRow :=
  mkCallRow (row_id r) (row_session r) (row_tool r) (row_args r) (row_status r) (row_summary r) None (row_started r)
    (row_finished r) (Some now).

(** the file is removed, then the row is marked; [clock]: what the clock
    answers after the file of a call is gone *)
Definition purge (clock : string → option N) (e : ExpiredEntry) (report : SweepReport) : IO Db LensError SweepReport :=
  removed ← outcome (remove_file (ex_path e));
  match removed with
  | Err (IoOther detail) =>
    mret (mkReport (would_purge report) (purged report)
      (failed report ++ [mkFailed (ex_call e) (ex_session e) (ex_path e) detail]) (warning_emitted report))
  | Ok _ | Err NotFound =>
    let purged_at_ms := current_epoch_ms (clock (ex_call e)) in
    _ ← io_err (statement (update_call ["purged_at_ms"; "snapshot_ref"]%string (ex_call e) (tombstone purged_at_ms)))
          (fun err => Internal (String.append "manifest tombstone UPDATE failed: " err));
    mret (mkReport (would_purge report)
      (purged report ++ [mkPurged (ex_call e) (ex_session e) (ex_path e) purged_at_ms]) (failed report) (warning_emitted report))
  end.

(** one row *)
Definition sweep_row (mode : AutoPurge) (now_ms retention_ms : Z) (clock : string → option N) (r : CallRow)
    (report : SweepReport) : IO Db LensError SweepReport :=
  match parse_ulid_ms (row_session r), row_snapshot r with
  | Some ulid_ms, Some snapshot_ref =>
    if negb (expired now_ms retention_ms ulid_ms) then mret report
    else
      let entry := mkExpired (row_id r) (row_session r) snapshot_ref ulid_ms (age_days now_ms ulid_ms) in
      match mode with
      | Warn => mret (mkReport (would_purge report ++ [entry]) (purged report) (failed report) (warning_emitted report))
      | Purge => purge clock entry report
      | Off => mret report
      end
  | _, _ => mret report
  end.
Definition next_row : IO Db LensError unit :=
  io_err (query (fun _ => Ok tt)) (fun err => Internal (String.append "manifest sweep iter failed: " err)).
Fixpoint sweep_rows (mode : AutoPurge) (now_ms retention_ms : Z) (clock : string → option N) (rows : list CallRow)
    (report : SweepReport) : IO Db LensError SweepReport :=
  _ ← next_row;
  match rows with
  | [] => mret report
  | r :: rows =>
    report ← sweep_row mode now_ms retention_ms clock r report;
    sweep_rows mode now_ms retention_ms clock rows report
  end.

(** ** The daily warning *)
Definition read_last_warn_ms (path : string) : IO Db LensError (option Z) :=
  r ← outcome (read_file path);
  mret (match r with
        | Ok b => cs ← from_utf8 b; parse_i64 (to_utf8 (trim cs))
        | Err _ => None
        end).
Definition FILE_MODE : N := 420.
Definition write_last_warn_ms (path : string) (now_ms : Z) : IO Db LensError unit :=
  _ ← (match parent path with
       | Some dir => _ ← outcome (create_dir_all DEFAULT_DIR_MODE dir); mret tt
       | None => mret tt
       end);
  _ ← outcome (f ← open_truncate path FILE_MODE; write_all f (print_i64 now_ms));
  mret tt.

Definition warning_text (report : SweepReport) (retention_days : N) : string :=
  let oldest := match oldest_would_purge report with
                | Some e => concat_str [ex_session e; " (age "; num (ex_age_days e); " days)"]
                | None => "<unknown>"
                end in
  concat_str ["gaze-lens: warning — "; num (len (would_purge report)); " snapshot(s) older than "; num retention_days;
    " days are eligible for purge but auto_purge = warn (no destructive action taken). Oldest: "; oldest;
    quoted ". Set `auto_purge = 'purge'` in the project profile to enable destructive cleanup."]%string.
(** whether the warning was printed *)
Definition maybe_emit_warning (m : ManifestMaintenance) (now_ms : Z) : IO Db LensError bool :=
  last_ms ← read_last_warn_ms (mm_warn_state m);
  if (match last_ms with Some last => saturating_sub now_ms last <? WARN_SUPPRESSION_MS | None => false end)%Z
  then mret false
  else _ ← write_last_warn_ms (mm_warn_state m) now_ms; mret true.

Definition sweep_expired_snapshots (m : ManifestMaintenance) (retention_days : N) (mode : AutoPurge) (now : option N)
    (clock : string → option N) : IO Db LensError SweepReport :=
  if (match mode with Off => true | _ => false end) || negb (mm_present m) then mret empty_report
  else
    let now_ms := current_epoch_ms now in
    let retention_ms := saturating_mul (Z.of_N retention_days) MS_PER_DAY in
    _ ← io_err (query (fun _ => Ok tt)) (fun err => Internal (String.append "manifest sweep prepare failed: " err));
    rows ← io_err (query select_candidates) (fun err => Internal (String.append "manifest sweep query failed: " err));
    report ← sweep_rows mode now_ms retention_ms clock rows empty_report;
    match mode with
    | Warn =>
      if is_nil (would_purge report) then mret report
      else
        emitted ← maybe_emit_warning m now_ms;
        mret (mkReport (would_purge report) (purged report) (failed report) emitted)
    | _ => mret report
    end.

(** src/src/cli/retention.rs *)
Definition apply_retention_policy (profile : Profile) (manifest_path : string) (now : option N) (clock : string → option N)
  : IO Db LensError unit :=
  match snapshot_retention_days profile with
  | None => mret tt
  | Some retention_days =>
    match auto_purge profile with
    | Off => mret tt
    | mode =>
      maintenance ← open_maintenance manifest_path;
      _ ← sweep_expired_snapshots maintenance retention_days mode now clock;
      mret tt
    end
  end.
End Sweep.

(** ** Replay *)
Inductive RestoreDecision := DecisionSuccess | DecisionPartial | DecisionFailed | DecisionOther.
Record RestoreTelemetry := mkTelemetry {
  restore_decision : RestoreDecision; unknown_token_count : N; manifest_bypass_count : N; fresh_pii_detected_count : N }.
Record TelemetrySummary := mkTelemetrySummary {
  success_calls : N; partial_calls : N; failed_calls : N; sum_unknown : N; sum_bypass : N; sum_fresh : N }.
Definition no_telemetry : TelemetrySummary := mkTelemetrySummary 0 0 0 0 0 0.

(** [+=] on u64, in a release build *)
Definition add_u64 (a b : N) : N := (a + b) mod 2 ^ 64.
Definition record (s : TelemetrySummary) (t : RestoreTelemetry) : TelemetrySummary :=
  let '(ok, partial, failed) := match restore_decision t with
    | DecisionSuccess => (1, 0, 0)
    | DecisionPartial => (0, 1, 0)
    | DecisionFailed | DecisionOther => (0, 0, 1)
    end in
  mkTelemetrySummary (add_u64 (success_calls s) ok) (add_u64 (partial_calls s) partial) (add_u64 (failed_calls s) failed)
    (add_u64 (sum_unknown s) (unknown_token_count t)) (add_u64 (sum_bypass s) (manifest_bypass_count t))
    (add_u64 (sum_fresh s) (fresh_pii_detected_count t)).

Record RestoredCall := mkRestoredCall {
  rc_call : string; rc_tool : string; rc_redacted_args : string; rc_restored_args : string; rc_snapshot : string;
  rc_telemetry : RestoreTelemetry }.
Record RestoredSession := mkRestored { rs_session : string; rs_calls : list RestoredCall; rs_summary : TelemetrySummary }.

Class Times := {
  (** the RFC 3339 text of a moment, for the years the library knows *)
  rfc3339 : Z → N → option string;
}.
Class GazeRestore := {
  GazeSnapshot : Type;
  gz_import : bytes → result string GazeSnapshot;
  (** [restore_with_policy_telemetry] under the strict policy *)
  gz_restore : GazeSnapshot → string → result string (string * RestoreTelemetry);
  (** the order in which SQLite reads rows, and in which it leaves those that
      [ORDER BY] does not tell apart *)
  scan_order : list CallRow → list CallRow;
}.
(** [ORDER BY started_at_ms ASC] *)
Definition StartedBefore (r r' : CallRow) : Prop := (row_started r <= row_started r')%Z.
#[export] Instance StartedBefore_dec r r' : Decision (StartedBefore r r').
Proof. unfold StartedBefore. apply _. Defined.
Definition by_started `{GazeRestore} (rows : list CallRow) : list CallRow := merge_sort StartedBefore (scan_order rows).

Definition format_iso8601_ms `{Times} (ms : Z) : string :=
  let secs := (ms / 1000)%Z in
  let nanos := Z.to_N (ms mod 1000) * 1000000 in
  default (String.append "epoch_ms=" (str_of (print_i64 ms))) (rfc3339 secs nanos).

Section Restore.
Context `{ManifestText, Times, GazeRestore} (lens_session_id : string).

Definition unavailable (detail : string) : LensError := ReplayUnavailable lens_session_id detail.

Definition select_calls (d : Db) : result string (list CallRow) :=
  (on_calls ["call_id"; "tool_name"; "redacted_args_json"; "snapshot_ref"; "purged_at_ms"; "lens_session_id"; "status";
             "started_at_ms"]%string
     (fun rows => (Ok (by_started (List.filter (fun r =>
        String.eqb (row_session r) lens_session_id && String.eqb (row_status r) "ok") rows)), rows)) d).1.

Definition restore_tokens (gaze_session : GazeSnapshot) (input : string) : result LensError (string * RestoreTelemetry) :=
  map_err (gz_restore gaze_session input) unavailable.

Definition restore_row (retention_days : N) (r : CallRow) : IO Db LensError RestoredCall :=
  match row_purged r with
  | Some purged_at_ms =>
    of_result (Err (SnapshotPurged lens_session_id purged_at_ms (format_iso8601_ms purged_at_ms) retention_days))
  | None =>
    snapshot_ref ← of_result (ok_or (row_snapshot r)
      (unavailable (concat_str ["call "; row_id r; " has no snapshot_ref and no purged_at_ms tombstone"])));
    snapshot_bytes ← io_err (read_file snapshot_ref) (fun err => unavailable (io_text err));
    gaze_session ← of_result (map_err (gz_import snapshot_bytes) unavailable);
    redacted_args ← of_result (map_err (args_of_text (row_args r)) unavailable);
    '(restored_args_json, telemetry) ← of_result (restore_tokens gaze_session redacted_args);
    mret (mkRestoredCall (row_id r) (row_tool r) (row_args r) restored_args_json snapshot_ref telemetry)
  end.
Fixpoint restore_rows (retention_days : N) (rows : list CallRow) (calls : list RestoredCall) (s : TelemetrySummary)
  : IO Db LensError (list RestoredCall * TelemetrySummary) :=
  match rows with
  | [] => mret (calls, s)
  | r :: rows =>
    _ ← io_err (query (fun _ => Ok tt)) unavailable;
    c ← restore_row retention_days r;
    restore_rows retention_days rows (calls ++ [c]) (record s (rc_telemetry c))
  end.

(** [pipeline]: whether the default pipeline can be built *)
Definition restore_whole_session (pipeline : result LensError unit) (retention_days : N) : IO Db LensError RestoredSession :=
  _ ← io_err (query (fun _ => Ok tt)) unavailable;
  _ ← io_err (query (fun _ => Ok tt)) unavailable;
  rows ← io_err (query select_calls) unavailable;
  _ ← of_result pipeline;
  '(calls, s) ← restore_rows retention_days rows [] no_telemetry;
  mret (mkRestored lens_session_id calls s).
End Restore.

(** src/src/cli/replay.rs: what is printed, by the serializer [print] *)
Record ReplayArgs := mkReplayArgs { ra_session : string; ra_profile : string; ra_manifest : string; ra_call_id : option string }.
Definition replay_run `{ManifestText, Times, GazeRestore} (expand : string → result string string)
    (print : RestoredSession → result string string) (pipeline : result LensError unit)
    (user project : result LensError (list Profile)) (args : ReplayArgs) : IO Db LensError string :=
  if bool_decide (is_Some (ra_call_id args))
  then of_result (Err (FeatureDeferred "per-call replay is not in v1; tracked as v1.x candidate"))
  else
    _ ← of_result (map_err (expand (ra_manifest args)) Errors.Profile);
    let retention_days := match load_profile (ra_profile args) user project with
                          | Ok p => default 0 (snapshot_retention_days p)
                          | Err _ => 0
                          end in
    restored ← restore_whole_session (ra_session args) pipeline retention_days;
    of_result (map_err (print restored) Internal).
