(* ===== verification/ManifestFacts.v ===== *)
(** * What the manifest keeps

    The record of calls is append-only under every operation, whatever fails
    and wherever the process halts, and a schema migration keeps it.  Of a
    failure that reaches the record as text only the timeouts without context
    are recovered. *)

From S2P Require Import Prelude Str Errors LensValue LogSource Output Session Profile Text Disk DiskFacts Manifest Retention.

(** ** Rows *)
Definition rows_of (d : Db) : list CallRow := match call_table d with Some t => call_rows t | None => [] end.
(** what is said of a call when it begins *)
Definition identity (r : CallRow) : string * string * string * string * Z :=
  (row_id r, row_session r, row_tool r, row_args r, row_started r).

Lemma row_ids (l : list CallRow) :
  row_id <$> l = (λ i : string * string * string * string * Z, i.1.1.1.1) <$> (identity <$> l).
Proof. rewrite <- list_fmap_compose. by apply list_fmap_ext. Qed.

(** no call is recorded twice, and every record of [before] is still there, in
    its place, with the session, tool, arguments and moment it was made with *)
Record Audit (before : list CallRow) (d : Db) : Prop := {
  au_unique : NoDup (row_id <$> rows_of d);
  au_kept : (identity <$> before) `prefix_of` (identity <$> rows_of d) }.

Lemma audit_refl d : NoDup (row_id <$> rows_of d) → Audit (rows_of d) d.
Proof. done. Qed.

(** a statement on the columns of [calls] *)
Lemma on_calls_rows {A} named act d (r : result string A) d' :
  on_calls named act d = (r, d') →
  (d' = d ∧ ∃ e, r = Err e) ∨
  ∃ t, call_table d = Some t ∧ (∀ c, c ∈ named → c ∈ columns t) ∧ r = (act (call_rows t)).1 ∧
    d' = with_calls d (mkCallTable (columns t) (act (call_rows t)).2).
Proof.
  unfold on_calls. destruct (call_table d) as [t|] eqn:Et; [|intros [= <- <-]; left; eauto].
  destruct (List.find _ named) as [c|] eqn:Ef; [intros [= <- <-]; left; eauto|].
  destruct (act (call_rows t)) as [r0 rows] eqn:Ea. intros [= <- <-]. right. exists t. rewrite Ea. split_and!; [done| |done|done].
  intros c Hc. pose proof (find_none _ _ Ef c) as Hn. rewrite <- list_elem_of_In in Hn. specialize (Hn Hc).
  by apply negb_false_iff, bool_decide_eq_true in Hn.
Qed.

Lemma update_keeps before named call_id f d :
  (∀ r, identity (f r) = identity r) → Audit before d → Audit before (update_call named call_id f d).2.
Proof.
  intros Hf [Hu Hk]. unfold update_call. destruct (on_calls _ _ d) as [res d'] eqn:E.
  apply on_calls_rows in E as [[-> _]|(t & Et & _ & _ & ->)]; [done|]. cbn [snd].
  assert (Hid : identity <$> (((λ r, if String.eqb (row_id r) call_id then f r else r) <$> call_rows t)) =
    identity <$> call_rows t).
  { rewrite <- list_fmap_compose. apply list_fmap_ext. intros i x _. cbn. by destruct (String.eqb _ _). }
  assert (Hr : rows_of d = call_rows t) by (unfold rows_of; by rewrite Et). rewrite Hr in *.
  split; unfold rows_of; cbn [call_table with_calls call_rows].
  - by rewrite row_ids, Hid, <- row_ids.
  - by rewrite Hid.
Qed.

Lemma insert_keeps before row d : Audit before d → Audit before (insert_call row d).2.
Proof.
  intros [Hu Hk]. unfold insert_call. destruct (on_calls _ _ d) as [res d'] eqn:E.
  apply on_calls_rows in E as [[-> _]|(t & Et & _ & _ & ->)]; [done|]. cbn [snd].
  assert (Hr : rows_of d = call_rows t) by (unfold rows_of; by rewrite Et). rewrite Hr in *.
  destruct (existsb _ _) eqn:Ex; cbn [snd]; split; unfold rows_of; cbn [call_table with_calls call_rows]; [done|done| |].
  - rewrite fmap_app. apply NoDup_app. split_and!; [done| |apply NoDup_singleton].
    intros i (x & -> & Hx)%list_elem_of_fmap Hin. apply list_elem_of_singleton in Hin. 
    assert (Hex : existsb (λ r0 : CallRow, String.eqb (row_id r0) (row_id row)) (call_rows t) = true).
    { apply existsb_exists. exists x. split; [by apply list_elem_of_In|by apply String.eqb_eq]. }
    congruence.
  - rewrite fmap_app. by apply prefix_app_r.
Qed.

(** ** What every statement of the code keeps *)
Class Stable (I : Db → Prop) : Prop := {
  st_insert row d : I d → I (insert_call row d).2;
  st_update named call_id f d : (∀ r, identity (f r) = identity r) → I d → I (update_call named call_id f d).2;
  st_session row d : I d → I (insert_session row d).2;
  st_create_sessions d : I d → I (create_sessions d).2;
  st_create_calls d : I d → I (create_calls d).2;
  st_add_column c d : I d → I (add_column c d).2;
  st_version v d : I d → I (set_user_version v d).2;
}.

#[export] Instance audit_stable before : Stable (Audit before).
Proof.
  split.
  - apply insert_keeps.
  - apply update_keeps.
  - intros row d [Hu Hk]. unfold insert_session. destruct (session_rows d); [|done]. by destruct (existsb _ _).
  - intros d [Hu Hk]. unfold create_sessions. by destruct (session_rows d).
  - intros d [Hu Hk]. unfold create_calls. unfold rows_of in *. destruct (call_table d) as [t|] eqn:E; cbn; [by split; unfold rows_of; rewrite E|].
    done.
  - intros c d [Hu Hk]. unfold add_column. destruct (call_table d) as [t|] eqn:E; [|done].
    destruct (bool_decide _); [done|]. unfold rows_of in *. rewrite E in *. done.
  - intros v d [Hu Hk]. done.
Qed.

(** ** Specifications of the operations

    [I]: what every statement keeps. *)
Section Keeping.
Context (I : Db → Prop) `{!Stable I}.
Definition Keeping (ns : Nodes) (d : Db) : Prop := I d.
Definition Keeps {E A} (m : IO Db E A) : Prop := spec Keeping m (fun _ => Keeping) Keeping.

Lemma keeps_ret {E A} (a : A) : Keeps (E := E) (mret a).
Proof. by apply spec_ret. Qed.
Lemma keeps_result {E A} (r : result E A) : Keeps (of_result r).
Proof. by apply spec_result. Qed.
Lemma keeps_bind {E A B} (m : IO Db E A) (f : A → IO Db E B) : Keeps m → (∀ a, Keeps (f a)) → Keeps (m ≫= f).
Proof.
  intros Hm Hf. eapply (spec_bind _ _ _ (fun _ => Keeping)); [|exact Hf].
  eapply spec_conseq; [exact Hm|done| |done]. by intros [a|e].
Qed.
Lemma keeps_outcome {E F A} (m : IO Db E A) : Keeps m → Keeps (E := F) (outcome m).
Proof. intros Hm. apply spec_outcome. exact Hm. Qed.
Lemma keeps_io_err {E F A} (m : IO Db E A) (f : E → F) : Keeps m → Keeps (io_err m f).
Proof. intros Hm. apply spec_io_err. exact Hm. Qed.
Lemma keeps_statement {A} (act : Db → result string A * Db) : (∀ d, I d → I (act d).2) → Keeps (statement act).
Proof.
  intros Ha. apply spec_call; [|done|done]. intros ns d Hd. specialize (Ha d Hd).
  unfold Keeping in *. by destruct (act d).
Qed.
Lemma keeps_query {A} (answer : Db → result string A) : Keeps (query answer).
Proof. by apply keeps_statement. Qed.
Lemma keeps_file_call {A} (act : Nodes → result IoError A * Nodes) partial : Keeps (file_call act partial).
Proof. apply spec_file_call; by unfold Keeping. Qed.
Lemma keeps_if {E A} (b : bool) (m m' : IO Db E A) : Keeps m → Keeps m' → Keeps (if b then m else m').
Proof. by destruct b. Qed.
End Keeping.

Create HintDb keeps.
(** the calls on files are [file_call]s *)
#[export] Hint Unfold exists_ symlink_metadata metadata set_permissions read_file remove_file open_truncate open_new
  write_all sync open_dir rename create_dir_all : keeps.

(** a program made of such statements *)
Ltac keeps_step :=
  match goal with
  | |- Keeps _ (match ?x with _ => _ end) => destruct x
  | |- Keeps _ (let '(_, _) := ?x in _) => destruct x
  | |- Keeps _ (_ ≫= _) => apply keeps_bind; [|intros ?]
  | |- Keeps _ (mret _) => apply keeps_ret
  | |- Keeps _ (of_result _) => apply keeps_result
  | |- Keeps _ (outcome _) => apply keeps_outcome
  | |- Keeps _ (io_err _ _) => apply keeps_io_err
  | |- Keeps _ (query _) => apply keeps_query
  | |- Keeps _ (file_call _ _) => apply keeps_file_call
  | |- Keeps _ (statement _) => apply keeps_statement; intros ?d ?Hd
  | |- _ (update_call _ _ _ _).2 => apply st_update
  | |- _ (_ _).2 => first [apply st_insert|apply st_session|apply st_create_sessions|apply st_create_calls|
                           apply st_add_column|apply st_version]
  | |- Keeps _ _ => solve [auto with keeps]
  | |- ∀ _, identity _ = _ => by intros ?
  | |- _ => assumption
  end.
Ltac keeps := repeat (keeps_step || (progress autounfold with keeps)).

Section Operations.
Context (I : Db → Prop) `{!Stable I, ManifestText, JsonText, Ulids, Times, GazeRestore}.

Lemma keeps_schema : Keeps I initialize_schema.
Proof. unfold initialize_schema. keeps. Qed.
Lemma keeps_new path s a clock : Keeps I (manifest_new path s a clock).
Proof. unfold manifest_new. pose proof keeps_schema. keeps. Qed.
Lemma keeps_begin w call args clock : Keeps I (begin_call w call args clock).
Proof. unfold begin_call. keeps. Qed.
Lemma keeps_finish w call_id summary ref clock : Keeps I (finish_call w call_id summary ref clock).
Proof. unfold finish_call. keeps. Qed.
Lemma keeps_fail debug_str w call_id err clock : Keeps I (fail_call debug_str w call_id err clock).
Proof. unfold fail_call. keeps. Qed.
Lemma keeps_persist rnd dir s locked exported : Keeps I (persist_snapshot rnd dir s locked exported).
Proof. unfold persist_snapshot, set_dir_private, write_private_file, prepare_private_file, or_removed. keeps. Qed.
Lemma keeps_adapter_begin a call args clock : Keeps I (adapter_begin a call args clock).
Proof. apply keeps_begin. Qed.
Lemma keeps_adapter_finish a rnd call_id locked joined exported byte_len clock :
  Keeps I (adapter_finish a rnd call_id locked joined exported byte_len clock).
Proof.
  unfold adapter_finish. pose proof keeps_persist. pose proof keeps_finish. keeps.
Qed.
Lemma keeps_adapter_fail debug_str a call_id reason clock : Keeps I (adapter_fail debug_str a call_id reason clock).
Proof. unfold adapter_fail. pose proof keeps_fail. keeps. Qed.

Lemma keeps_sweep_rows mode now_ms retention_ms clock rows report :
  Keeps I (sweep_rows mode now_ms retention_ms clock rows report).
Proof.
  revert report. induction rows as [|r rows IH]; intros report; cbn [sweep_rows]; unfold next_row, sweep_row, purge; keeps.
Qed.
Lemma keeps_sweep m retention_days mode now clock : Keeps I (sweep_expired_snapshots m retention_days mode now clock).
Proof.
  unfold sweep_expired_snapshots, maybe_emit_warning, read_last_warn_ms, write_last_warn_ms.
  pose proof keeps_sweep_rows. keeps.
Qed.
Lemma keeps_retention p path now clock : Keeps I (apply_retention_policy p path now clock).
Proof. unfold apply_retention_policy, open_maintenance. pose proof keeps_sweep. pose proof keeps_schema. keeps. Qed.
Lemma keeps_restore_rows s days rows calls t : Keeps I (restore_rows s days rows calls t).
Proof.
  revert calls t. induction rows as [|r rows IH]; intros calls t; cbn [restore_rows]; unfold restore_row; keeps.
Qed.
Lemma keeps_restore s pipeline days : Keeps I (restore_whole_session s pipeline days).
Proof. unfold restore_whole_session. pose proof keeps_restore_rows. keeps. Qed.
End Operations.

(** ** Histories of the manifest

    One operation of the program at a time, each with the fates of its calls:
    an operation that halts is the end of a process, and the next operation is
    another process's. *)
Inductive Operation :=
| OpSession (path lens_session_id gaze_audit_session_id : string) (clock : option N)
| OpBegin (a : Adapter) (call : ToolCall) (redacted_args : json) (clock : option N)
| OpFinish (a : Adapter) (rnd call_id : string) (locked joined : bool) (exported : result string bytes) (byte_len : N)
    (clock : option N)
| OpFail (a : Adapter) (call_id : string) (reason : FailureReason) (clock : option N)
| OpRetention (p : Profile) (path : string) (now : option N) (clock : string → option N)
| OpReplay (lens_session_id : string) (pipeline : result LensError unit) (retention_days : N).

Section Histories.
Context `{ManifestText, JsonText, Ulids, Times, GazeRestore} (debug_str : string → string).

Definition exec (o : Operation) : IO Db LensError unit :=
  match o with
  | OpSession path s a clock => _ ← manifest_new path s a clock; mret tt
  | OpBegin a call args clock => adapter_begin a call args clock
  | OpFinish a rnd call_id locked joined exported byte_len clock =>
    _ ← adapter_finish a rnd call_id locked joined exported byte_len clock; mret tt
  | OpFail a call_id reason clock => _ ← adapter_fail debug_str a call_id reason clock; mret tt
  | OpRetention p path now clock => apply_retention_policy p path now clock
  | OpReplay s pipeline days => _ ← restore_whole_session s pipeline days; mret tt
  end.
Fixpoint history (os : list (Operation * list Fate)) (ns : Nodes) (d : Db) : Nodes * Db :=
  match os with
  | [] => (ns, d)
  | (o, fs) :: os => let w := (exec o (mkWorld ns d fs)).2 in history os (nodes w) (store w)
  end.

Lemma keeps_exec I `{!Stable I} o : Keeps I (exec o).
Proof.
  destruct o; cbn [exec].
  - apply keeps_bind; [by apply keeps_new|intros; apply keeps_ret].
  - by apply keeps_adapter_begin.
  - apply keeps_bind; [by apply keeps_adapter_finish|intros; apply keeps_ret].
  - apply keeps_bind; [by apply keeps_adapter_fail|intros; apply keeps_ret].
  - by apply keeps_retention.
  - apply keeps_bind; [by apply keeps_restore|intros; apply keeps_ret].
Qed.

(** a property of the stores that every operation keeps *)
Lemma history_keeps (P : Nodes → Db → Prop) (ok : Operation → Prop) os ns d :
  (∀ o, ok o → spec P (exec o) (fun _ => P) P) → Forall (fun o => ok o.1) os → P ns d →
  P (history os ns d).1 (history os ns d).2.
Proof.
  intros Hop Hos. revert ns d. induction Hos as [|[o fs] os Ho _ IH]; intros ns d Hp; [done|]. cbn [history].
  apply IH. specialize (Hop o Ho (mkWorld ns d fs) Hp). by destruct (exec o _) as [[r|] w].
Qed.

(** C17. The audit record is append-only. Over any sequence of openings, calls
    begun, finished and failed, retention sweeps and replays, whatever calls on
    the database and the files fail and wherever processes halt: no row is ever
    removed, moved or given another call, session, tool, arguments or moment
    of its beginning, and no call is recorded twice. *)
Theorem record_is_append_only os ns d :
  NoDup (row_id <$> rows_of d) → Audit (rows_of d) (history os ns d).2.
Proof.
  intros Hd. apply (history_keeps (fun _ => Audit (rows_of d)) (fun _ => True)); [|by apply Forall_forall|by apply audit_refl].
  intros o _. apply (keeps_exec (Audit (rows_of d))).
Qed.
End Histories.

(** ** The schema *)

(** a database this program, or the version before it, has written *)
Definition Migratable (d : Db) : Prop :=
  match call_table d with
  | None => True
  | Some t => (∀ c, c ∈ CALL_COLUMNS → c ≠ PURGED → c ∈ columns t) ∧ (PURGED ∈ columns t ∨ (user_version d < 3)%Z)
  end.
(** one that every statement of the program can run on *)
Definition Ready (d : Db) : Prop :=
  is_Some (session_rows d) ∧ ∃ t, call_table d = Some t ∧ ∀ c, c ∈ CALL_COLUMNS → c ∈ columns t.

Lemma create_calls_migratable d : Migratable d → Migratable (create_calls d).2 ∧
  rows_of (create_calls d).2 = rows_of d ∧ session_rows (create_calls d).2 = session_rows d ∧ is_Some (call_table (create_calls d).2).
Proof.
  unfold create_calls, Migratable, rows_of. destruct (call_table d) as [t|] eqn:E; cbn; [by rewrite E|].
  intros _. split_and!; [done|left; unfold PURGED; set_solver|done|done|done].
Qed.

(** Opening a manifest migrates it. Whatever fails and wherever the process
    halts, the recorded calls stay as they are and a later opening can go on
    from there; and when the opening succeeds every column the program names
    exists, whether the manifest was new, of this version or of the one before. *)
Theorem schema_migrates rows :
  spec (fun _ d => Migratable d ∧ rows_of d = rows) initialize_schema
    (fun r _ d => Migratable d ∧ rows_of d = rows ∧ (r = Ok tt → Ready d))
    (fun _ d => Migratable d ∧ rows_of d = rows).
Proof.
  unfold initialize_schema.
  set (Tables d := Migratable d ∧ rows_of d = rows ∧ is_Some (session_rows d) ∧ is_Some (call_table d)).
  eapply (spec_bind _ _ _ (fun _ _ d => Migratable d ∧ rows_of d = rows ∧ is_Some (session_rows d))).
  { apply spec_call; [|by intros n e ns d [? ?]|done]. intros ns d [Hm Hr]. unfold create_sessions.
    destruct (session_rows d) as [l|] eqn:E; cbn; [by rewrite E|done]. }
  intros _. eapply (spec_bind _ _ _ (fun _ _ => Tables)).
  { apply spec_call; [|by intros n e ns d (? & ? & ?)|by intros n ns d (? & ? & ?)]. intros ns d (Hm & Hr & Hs).
    destruct (create_calls_migratable d Hm) as (Hm' & Hr' & Hs' & Ht'). unfold create_calls in *. cbn [fst snd] in *.
    split_and!; [done|by rewrite Hr'|by rewrite Hs'|done]. }
  intros _. eapply (spec_bind _ _ _ (fun v _ d => Tables d ∧ v = user_version d)).
  { apply spec_call; [|by intros n e ns d (? & ? & ?)|by intros n ns d (? & ? & ?)]. by intros ns d Ht. }
  intros v. destruct (Z.ltb_spec v 3) as [Hv|Hv].
  2:{ apply spec_ret. intros ns d [(Hm & Hr & Hs & [t Ht]) ->]. split_and!; [done|done|]. intros _. split; [done|].
      exists t. split; [done|]. unfold Migratable in Hm. rewrite Ht in Hm. destruct Hm as [Hc [Hp|?]]; [|lia].
      intros c Hin. destruct (decide (c = PURGED)) as [->|]; auto. }
  eapply (spec_bind _ _ _ (fun b _ d => Tables d ∧ (user_version d < 3)%Z ∧ ∀ t, call_table d = Some t → b = bool_decide (PURGED ∈ columns t))).
  { apply spec_call; [|by intros n e ns d ((? & ? & ?) & _)|by intros n ns d ((? & ? & ?) & _)].
    intros ns d [Ht ->]. cbn. split_and!; [done|done|]. intros t ->. done. }
  intros b. eapply (spec_bind _ _ _ (fun _ _ d => Tables d ∧ ∀ t, call_table d = Some t → PURGED ∈ columns t)).
  { destruct b.
    - apply spec_ret. intros ns d (Ht & _ & Hb). split; [done|]. intros t Et. specialize (Hb t Et). symmetry in Hb.
      by apply bool_decide_eq_true in Hb.
    - apply spec_call; [|by intros n e ns d ((? & ? & ?) & _)|by intros n ns d ((? & ? & ?) & _)].
      intros ns d ((Hm & Hr & Hs & [t Et]) & Hv' & Hb). specialize (Hb t Et). unfold add_column. rewrite Et.
      unfold Migratable, rows_of in *. rewrite Et in *. rewrite <- Hb. cbn. split; [split_and!; [|done|done|done]|].
      + unfold Migratable. cbn. split; [|right; done]. intros c Hin Hne. apply elem_of_app. left. by apply Hm.
      + intros t' [= <-]. cbn. apply elem_of_app. right. by apply list_elem_of_singleton. }
  intros _. apply spec_call.
  - intros ns d ((Hm & Hr & Hs & [t Et]) & Hp). specialize (Hp t Et). unfold Migratable, rows_of in *. cbn. rewrite Et in *.
    destruct Hm as [Hc _]. split_and!; [done|by left|done|]. intros _. split; [done|]. exists t. split; [done|].
    intros c Hin. destruct (decide (c = PURGED)) as [->|]; auto.
  - by intros n e ns d ((? & ? & ?) & _).
  - by intros n ns d ((? & ? & ?) & _).
Qed.

(** a manifest is opened, and a call begun, by processes whose next call halts *)
Module Run.
#[local] Instance some_text : ManifestText := {| args_to_text := Ok; args_of_text := Ok; summary_to_text _ := Ok "{}"%string |}.
#[local] Instance some_json : JsonText := {| json_to_string _ := "{}"%string; json_from_str _ := None |}.
#[local] Instance some_ulids : Ulids := {| ulid_timestamp_ms _ := None |}.
#[local] Instance some_times : Times := {| rfc3339 _ _ := None |}.
#[local] Instance some_gaze : GazeRestore := {|
  GazeSnapshot := bytes; gz_import := Ok; gz_restore _ _ := Err "no token"%string; scan_order l := l |}.
Definition some_adapter : Adapter := mkAdapter (mkWriter "/m/manifest.sqlite" "01S") "/m/snap" ∅.
Definition some_operations : list (Operation * list Fate) :=
  [(OpSession "/m/manifest.sqlite" "01S" "g" (Some 5), []);
   (OpBegin some_adapter (mkToolCall "c1" "log_tail") JNull (Some 6), []);
   (OpBegin some_adapter (mkToolCall "c1" "log_tail") JNull (Some 7), []);
   (OpFinish some_adapter "x" "c1" true true (Ok []) 0 (Some 8), [Goes; Halts 0])].
Lemma record_is_append_only_witness :
  let d := mkDb 0 None None in
  NoDup (row_id <$> rows_of d) ∧ NoDup (row_id <$> rows_of (history (fun s => s) some_operations ∅ d).2) ∧
  (row_id <$> rows_of (history (fun s => s) some_operations ∅ d).2) = ["c1"%string].
Proof.
  intros d. split; [constructor|]. split; [|vm_compute; reflexivity].
  exact (au_unique _ _ (record_is_append_only (fun s => s) some_operations ∅ d (NoDup_nil_2 (A := string)))).
Defined.
End Run.

(** ** Errors that come back from Gaze as text

    A tool's failure reaches the adapter as a class and a text.  Only the
    timeouts this program words itself are recovered from it, and no other part
    of the text survives. *)

Lemma split_for phase rest : str_of phase ∈ PHASES →
  split_once_text (str_bytes " for ") (phase ++ str_bytes " for " ++ rest) = Some (phase, rest).
Proof.
  rewrite <- (bytes_of_str phase) at 2 3. generalize (str_of phase). intros p Hp. unfold PHASES in Hp.
  repeat (apply elem_of_cons in Hp as [->|Hp]; [reflexivity|]). by apply elem_of_nil in Hp.
Qed.
Lemma split_after operation rest : str_of operation ∈ OPERATIONS →
  split_once_text (str_bytes " after ") (operation ++ str_bytes " after " ++ rest) = Some (operation, rest).
Proof.
  rewrite <- (bytes_of_str operation) at 2 3. generalize (str_of operation). intros p Hp. unfold OPERATIONS in Hp.
  repeat (apply elem_of_cons in Hp as [->|Hp]; [reflexivity|]). by apply elem_of_nil in Hp.
Qed.

Lemma timeout_from_message message e :
  operation_timeout_from_message message = Some e ↔
  ∃ phase operation digits secs,
    str_bytes message =
      TIMEOUT_PREFIX ++ phase ++ str_bytes " for " ++ operation ++ str_bytes " after " ++ digits ++ ["s"%char] ∧
    str_of phase ∈ PHASES ∧ str_of operation ∈ OPERATIONS ∧
    digits ≠ [] ∧ forallb digit digits = true ∧ parse_unsigned U64_MAX digits = Some secs ∧
    e = OperationTimeout (str_of phase) (str_of operation) secs None.
Proof.
  unfold operation_timeout_from_message. split.
  - destruct (strip_prefix_text TIMEOUT_PREFIX _) as [t|] eqn:Et; [|done]. apply strip_prefix_text_some in Et.
    cbn [mbind option_bind]. destruct (split_once_text _ t) as [[phase rest]|] eqn:Ef; [|done].
    apply split_once_text_first in Ef as [-> _]. cbn [mbind option_bind]. case_bool_decide as Hp; cbn [negb]; [|done].
    destruct (split_once_text _ rest) as [[operation duration]|] eqn:Ea; [|done].
    apply split_once_text_first in Ea as [-> _]. cbn [mbind option_bind]. case_bool_decide as Ho; cbn [negb]; [|done].
    destruct (strip_suffix _ duration) as [digits|] eqn:Es; [|done]. apply strip_suffix_some in Es as ->.
    cbn [mbind option_bind]. destruct (is_nil digits || negb (forallb digit digits)) eqn:Ed; [done|].
    apply orb_false_iff in Ed as [Hn Hd%negb_false_iff].
    destruct (parse_unsigned U64_MAX digits) as [secs|] eqn:Eu; [|done]. intros [= <-].
    exists phase, operation, digits, secs. split_and!; try done. by destruct digits.
  - intros (phase & operation & digits & secs & -> & Hp & Ho & Hn & Hd & Hu & ->).
    rewrite strip_prefix_text_app. cbn [mbind option_bind]. rewrite split_for by done. cbn [mbind option_bind].
    rewrite bool_decide_eq_true_2 by done. cbn [negb]. rewrite split_after by done. cbn [mbind option_bind].
    rewrite bool_decide_eq_true_2 by done. cbn [negb].
    assert (strip_suffix "s" (digits ++ ["s"%char]) = Some digits) as -> by by apply strip_suffix_some.
    cbn [mbind option_bind]. rewrite Hd, Hu. by destruct digits.
Qed.

(** The only errors the adapter makes of a tool's failure: two fixed texts, and
    the timeouts of five phases of five tools with a number of seconds *)
Definition WordedByUs (e : LensError) : Prop :=
  e = Truncated TrTimeout ∨ e = Internal "gaze-mcp-core tool failure" ∨
  ∃ phase operation secs,
    phase ∈ ["source dispatch"; "redaction"; "ssh connect"; "ssh log command/read"; "local log read"]%string ∧
    operation ∈ ["query"; "schema"; "list_tables"; "log_tail"; "log_grep"]%string ∧ secs <= U64_MAX ∧
    e = OperationTimeout phase operation secs None.

Lemma print_u64_digits n : forallb digit (print_u64 n) = true ∧ print_u64 n ≠ [].
Proof.
  pose proof (parse_digits_print n) as Hp. unfold parse_digits in Hp. destruct (negb _ && _) eqn:Ed in Hp; [|done].
  apply andb_true_iff in Ed as [Hl Hd]. split; [done|]. intros E. by rewrite E in Hl.
Qed.

(** how Gaze reports an error of a tool: in a class, with its [Display] *)
Definition gaze_report (debug_list : list string → string) (e : LensError) : FailureReason :=
  ToolFailure "internal" (String.append "tool internal error: " (lens_error_display debug_list e)).

Lemma str_bytes_append a b : str_bytes (String.append a b) = str_bytes a ++ str_bytes b.
Proof.
  induction a as [|c a IH]; [done|].
  change (c :: str_bytes (String.append a b) = c :: (str_bytes a ++ str_bytes b)). by rewrite IH.
Qed.

Lemma report_bytes debug_list phase operation secs context :
  str_bytes (String.append "tool internal error: " (lens_error_display debug_list (OperationTimeout phase operation secs context))) =
  TIMEOUT_PREFIX ++ str_bytes phase ++ str_bytes " for " ++ str_bytes operation ++ str_bytes " after " ++ print_u64 secs ++
    "s"%char :: match context with Some c => str_bytes " (" ++ str_bytes c ++ [")"%char] | None => [] end.
Proof.
  cbn [lens_error_display concat_str]. rewrite !str_bytes_append. unfold num. rewrite bytes_of_str.
  unfold TIMEOUT_PREFIX. change (str_bytes "tool internal error: timeout during ")
    with (str_bytes "tool internal error: " ++ str_bytes "timeout during "). rewrite <- !app_assoc. repeat f_equal.
  destruct context; [|done]. rewrite !str_bytes_append. cbn. by rewrite app_nil_r.
Qed.

(** the two other texts an internal failure is recognised by end in a letter
    that no timeout ends in *)
Lemma not_legacy message l c : str_bytes message = l ++ [c] → c ≠ "t"%char →
  String.eqb message "output truncated at Timeout" ||
  String.eqb message "tool internal error: output truncated at Timeout" = false.
Proof.
  intros Hm Hc. apply orb_false_iff. split; apply String.eqb_neq; intros ->; vm_compute in Hm;
    match type of Hm with ?x = _ => assert (H : last x = Some c) by (rewrite Hm; apply last_snoc) end; by vm_compute in H; simplify_eq.
Qed.

Lemma erased_timeout debug_list phase operation secs :
  phase ∈ PHASES → operation ∈ OPERATIONS → secs <= U64_MAX →
  lens_error_from_failure (gaze_report debug_list (OperationTimeout phase operation secs None)) =
  OperationTimeout phase operation secs None.
Proof.
  intros Hp Ho Hs. pose proof (report_bytes debug_list phase operation secs None) as Hm.
  unfold gaze_report, lens_error_from_failure. cbn [String.eqb Ascii.eqb Bool.eqb]. set (message := String.append _ _) in *.
  rewrite (not_legacy message (TIMEOUT_PREFIX ++ str_bytes phase ++ str_bytes " for " ++ str_bytes operation ++ str_bytes " after " ++ print_u64 secs) "s");
    [|rewrite Hm; by rewrite <- !app_assoc|done].
  assert (operation_timeout_from_message message = Some (OperationTimeout phase operation secs None)) as ->; [|done].
  apply timeout_from_message. exists (str_bytes phase), (str_bytes operation), (print_u64 secs), secs.
  rewrite !str_of_bytes. destruct (print_u64_digits secs). split_and!; try done. by apply parse_print_u64.
Qed.

Lemma erased_context debug_list phase operation secs context :
  lens_error_from_failure (gaze_report debug_list (OperationTimeout phase operation secs (Some context))) =
  Internal "gaze-mcp-core tool failure".
Proof.
  pose proof (report_bytes debug_list phase operation secs (Some context)) as Hm.
  assert (Hl : ∃ l, TIMEOUT_PREFIX ++ str_bytes phase ++ str_bytes " for " ++ str_bytes operation ++ str_bytes " after " ++
    print_u64 secs ++ "s"%char :: str_bytes " (" ++ str_bytes context ++ [")"%char] = l ++ [")"%char]).
  { eexists. rewrite !app_assoc. change (?x :: ?y ++ ?z) with ([x] ++ y ++ z). by rewrite !app_assoc. }
  destruct Hl as [l Hl]. apply (fun H => eq_trans H Hl) in Hm. clear Hl.
  unfold gaze_report, lens_error_from_failure. cbn [String.eqb Ascii.eqb Bool.eqb]. set (message := String.append _ _) in *.
  rewrite (not_legacy message l ")") by done.
  destruct (operation_timeout_from_message message) as [e|] eqn:E; [|done].
  apply timeout_from_message in E as (p & o & digits & n & E & _). rewrite Hm in E.
  apply (f_equal last) in E. rewrite last_snoc, !app_assoc, last_snoc in E. discriminate E.
Qed.

(** C40. A timeout without context survives the erasure of its type, and
    nothing else does.  For every phase and tool this program names and every
    number of seconds, what Gaze reports of the timeout's [Display] gives the
    same timeout back, so those of the session itself are recorded as they
    are; a timeout with a context, as every one of a log source has, is
    recorded as the fixed failure; and whatever the class and the text of a
    tool's failure are, what is recorded of it is such a timeout without
    context, or one of two fixed texts. *)
Theorem timeout_survives_erasure debug_list :
  (∀ phase operation secs,
     phase ∈ ["source dispatch"; "redaction"; "ssh connect"; "ssh log command/read"; "local log read"]%string →
     operation ∈ ["query"; "schema"; "list_tables"; "log_tail"; "log_grep"]%string → secs <= U64_MAX →
     lens_error_from_failure (gaze_report debug_list (OperationTimeout phase operation secs None)) =
     OperationTimeout phase operation secs None) ∧
  (∀ phase operation timeout,
     phase ∈ ["source dispatch"; "redaction"]%string →
     operation ∈ ["query"; "schema"; "list_tables"; "log_tail"; "log_grep"]%string → timeout / NANOS <= U64_MAX →
     lens_error_from_failure (gaze_report debug_list (operation_timeout phase operation timeout)) =
     operation_timeout phase operation timeout) ∧
  (∀ profile_name phase operation host path timeout,
     lens_error_from_failure (gaze_report debug_list (Ssh.timeout_error profile_name phase operation host path timeout)) =
     Internal "gaze-mcp-core tool failure") ∧
  (∀ s operation lines e, Local.tail_for_operation s operation None lines = Err e →
     lens_error_from_failure (gaze_report debug_list e) = Internal "gaze-mcp-core tool failure") ∧
  (∀ class message, WordedByUs (lens_error_from_failure (ToolFailure class message))).
Proof.
  split_and!.
  - apply erased_timeout.
  - intros phase operation timeout Hp Ho Ht. apply erased_timeout; [|done|done]. unfold PHASES. set_solver.
  - intros. apply erased_context.
  - intros s operation lines e [= <-]. apply erased_context.
  - intros class message. unfold lens_error_from_failure, WordedByUs. destruct (String.eqb class "internal"); [|auto].
    destruct (_ || _); [auto|]. destruct (operation_timeout_from_message message) as [e|] eqn:E; [|auto].
    apply timeout_from_message in E as (phase & operation & digits & secs & _ & Hp & Ho & _ & _ & Hu & ->).
    right. right. exists (str_of phase), (str_of operation), secs. split_and!; try done. by apply parse_unsigned_le in Hu.
Qed.

Lemma timeout_survives_erasure_witness :
  lens_error_from_failure (ToolFailure "internal" "tool internal error: timeout during redaction for log_grep after 30s") =
    OperationTimeout "redaction" "log_grep" 30 None ∧
  lens_error_from_failure (gaze_report (fun _ => ""%string) (Ssh.timeout_error "app" "ssh connect" "log_tail" "app01" "/var/log/app.log" (10 * NANOS))) =
    Internal "gaze-mcp-core tool failure".
Proof.
  destruct (timeout_survives_erasure (fun _ => ""%string)) as (Hkept & _ & Hssh & _). split; [|apply Hssh].
  apply (Hkept "redaction"%string "log_grep"%string 30);
    [apply (bool_decide_unpack _); vm_compute; exact I..|vm_compute; discriminate].
Defined.
