(* ===== verification/SnapshotFacts.v ===== *)
(** * The snapshots that replay rests on

    Persisting a snapshot is atomic in what matters: the file a recorded call
    names is a whole export, the old one or the new one.  Over any history
    without a sweep, every call recorded as answered keeps its snapshot. *)

From S2P Require Import Prelude Str Text Errors LensValue Profile Output Disk DiskFacts Manifest Retention ManifestFacts.

(** ** The snapshots that answered calls rest on *)
Section Held.
(** [G]: what is known of every export of a session; [Ar]: of the recorded text
    of arguments *)
Context (G : bytes → Prop) (Ar : string → Prop).

Abbreviation FilesHeld := (DiskFacts.FilesHeld G).
Abbreviation OnFiles := (DiskFacts.OnFiles (D := Db) G).
(** the snapshots that answered calls refer to *)
Definition referred (d : Db) (p : string) : Prop :=
  ∃ r, r ∈ rows_of d ∧ row_status r = "ok"%string ∧ row_purged r = None ∧ row_snapshot r = Some p.
(** every call recorded as answered, and not purged, has its snapshot *)
Definition Held (ns : Nodes) (d : Db) : Prop :=
  (∀ r, r ∈ rows_of d → row_status r = "ok"%string → row_purged r = None → is_Some (row_snapshot r)) ∧
  FilesHeld (referred d) ns ∧ (∀ r, r ∈ rows_of d → Ar (row_args r)).

Section Files.
Context (ps : string → Prop) (d0 : Db).
Abbreviation P := (OnFiles ps d0).
Abbreviation Temp := (DiskFacts.Temp G ps d0).

Lemma held_prepare rnd path b :
  spec P (prepare_private_file rnd path b)
    (fun r ns d => match r with Ok f => Temp f (Some b) ns d | Err _ => P ns d end) P.
Proof.
  unfold prepare_private_file. destruct (parent path) as [q|]; [|by apply spec_stop].
  apply spec_pure. eapply (spec_bind _ _ _ (fun f ns d => Temp f (Some []) ns d)).
  { apply spec_io_err. eapply spec_conseq; [apply (held_open_new (G := G) (ps := ps) (d0 := d0))|done| |done]. by intros [f|e] ns d; [intros [-> ?]|]. }
  intros f. eapply spec_conseq; [apply (held_or_removed (G := G) (ps := ps) (d0 := d0) f None _ (fun f' => Temp f' (Some b)))|done|by intros [f'|e]|done].
  eapply (spec_bind _ _ _ (fun _ => Temp f (Some b))).
  { apply spec_io_err. eapply spec_conseq; [apply (held_write (G := G) (ps := ps) (d0 := d0))|done| |done]. by intros [[]|e]. }
  intros _. eapply (spec_bind _ _ _ (fun _ => Temp f (Some b))).
  - apply spec_io_err. eapply spec_conseq; [apply (held_quiet (G := G) (ps := ps) (d0 := d0) _ (Temp f (Some b))); [done|by intros ns d [? _]]|done| |done].
    intros [[]|e] ns d Ht; [done|]. destruct Ht as (? & ? & _). by split_and!.
  - intros _. by apply spec_ret.
Qed.

Lemma held_write_private rnd path b :
  G b → spec P (write_private_file rnd path b)
    (fun r ns d => P ns d ∧ (is_ok r = true → ns !! path = Some (FileNode b PRIVATE_FILE))) P.
Proof.
  intros Hb. unfold write_private_file.
  set (R ns d := P ns d ∧ ns !! path = Some (FileNode b PRIVATE_FILE)).
  eapply (spec_bind _ _ _ (fun f ns d => Temp f (Some b) ns d)).
  { eapply spec_conseq; [apply held_prepare|done| |done]. by intros [f|e]. }
  intros f. eapply (spec_bind _ _ _ (fun _ => R)).
  { eapply spec_conseq; [apply (held_or_removed (G := G) (ps := ps) (d0 := d0) f (Some b) _ (fun _ => R))|done| |done].
    - apply spec_io_err, spec_file_call; [|done|by intros ??? [? _]]. intros ns d ([Hh ->] & Hf & Hc).
      rewrite (Hc b eq_refl).
      assert (Hin : FilesHeld ps (<[path := FileNode b PRIVATE_FILE]> (delete f ns))).
      { apply held_insert; [by apply held_delete|]. intros _ _ _ _. by exists b, PRIVATE_FILE. }
      destruct (ns !! path) as [[]|]; cbn; try (split; [by split|by rewrite lookup_insert_eq]).
      split_and!; [by split|done|]. intros b' [= <-]. by apply Hc.
    - by intros [[]|e]. }
  intros _. eapply (spec_bind _ _ _ (fun _ => R)).
  { apply spec_result. intros ns d [? ?]. by destruct (parent path). }
  intros q. apply spec_io_err. eapply (spec_bind _ _ _ (fun _ => R)).
  - eapply spec_conseq; [apply (held_quiet (G := G) (ps := ps) (d0 := d0) _ R); [done|by intros ns d [? _]]|done| |done].
    intros [[]|e] ns d Hr; [done|]. by destruct Hr.
  - intros _. eapply spec_conseq; [apply (held_quiet (G := G) (ps := ps) (d0 := d0) _ R); [done|by intros ns d [? _]]|done| |done].
    intros r ns d [? ?]. split; [done|]. by destruct r.
Qed.

Lemma held_persist rnd dir s locked exported :
  (∀ b, exported = Ok b → G b) →
  spec P (persist_snapshot rnd dir s locked exported)
    (fun r ns d => P ns d ∧ ∀ ref, r = Ok ref → snap_path ref = snapshot_path dir s ∧
       ∃ b, exported = Ok b ∧ ns !! snapshot_path dir s = Some (FileNode b PRIVATE_FILE)) P.
Proof.
  intros Hg. unfold persist_snapshot.
  assert (Hstep : ∀ {A B} (m : IO Db LensError A) (f : A → IO Db LensError B) Q,
    spec P m (fun _ => P) P → (∀ a, spec P (f a) (fun r ns d => P ns d ∧ ∀ b : B, r = Ok b → Q b ns d) P) →
    spec P (m ≫= f) (fun r ns d => P ns d ∧ ∀ b : B, r = Ok b → Q b ns d) P).
  { intros A B m f Q Hm Hf. eapply (spec_bind _ _ _ (fun _ => P)); [|exact Hf].
    eapply spec_conseq; [exact Hm|done| |done]. by intros [a|e]. }
  apply Hstep; [by apply spec_result|intros _].
  apply Hstep; [apply spec_io_err, (held_create_dir (G := G) (ps := ps) (d0 := d0))|intros _].
  apply Hstep.
  { unfold set_dir_private. eapply (spec_bind _ _ _ (fun _ => P)).
    - apply spec_io_err. eapply spec_conseq; [apply (held_quiet (G := G) (ps := ps) (d0 := d0) _ P); done|done| |done]. by intros [a|e].
    - intros n. destruct (negb _); [by apply spec_result|]. apply spec_io_err, (held_set_permissions (G := G) (ps := ps) (d0 := d0)). }
  intros _. destruct exported as [b|e]; [apply spec_pure|by apply spec_stop].
  eapply (spec_bind _ _ _ (fun _ ns d => P ns d ∧ ns !! snapshot_path dir s = Some (FileNode b PRIVATE_FILE))).
  - eapply spec_conseq; [by apply held_write_private, Hg|done| |done]. intros [[]|e'] ns d [Hp Hf]; [by split; [|apply Hf]|done].
  - intros _. apply spec_ret. intros ns d [Hp Hf]. split; [done|]. intros ref [= <-]. split; [done|]. by exists b.
Qed.
End Files.

(** ** Operations that keep every snapshot *)
Definition HoldsOn {E A} (m : IO Db E A) : Prop := spec Held m (fun _ => Held) Held.

Lemma holds_ret {E A} (a : A) : HoldsOn (E := E) (mret a).
Proof. by apply spec_ret. Qed.
Lemma holds_result {E A} (r : result E A) : HoldsOn (of_result r).
Proof. by apply spec_result. Qed.
Lemma holds_bind {E A B} (m : IO Db E A) (f : A → IO Db E B) : HoldsOn m → (∀ a, HoldsOn (f a)) → HoldsOn (m ≫= f).
Proof.
  intros Hm Hf. eapply (spec_bind _ _ _ (fun _ => Held)); [|exact Hf].
  eapply spec_conseq; [exact Hm|done| |done]. by intros [a|e].
Qed.
Lemma holds_outcome {E F A} (m : IO Db E A) : HoldsOn m → HoldsOn (E := F) (outcome m).
Proof. intros Hm. apply spec_outcome. exact Hm. Qed.
Lemma holds_io_err {E F A} (m : IO Db E A) (f : E → F) : HoldsOn m → HoldsOn (io_err m f).
Proof. intros Hm. apply spec_io_err. exact Hm. Qed.

(** a program on files only, whatever the database refers to *)
Lemma spec_on_files {E A} (m : IO Db E A) (Q : result E A → Nodes → Db → Prop) :
  (∀ ps d0, spec (OnFiles ps d0) m (fun r ns d => OnFiles ps d0 ns d ∧ Q r ns d) (OnFiles ps d0)) →
  spec Held m (fun r ns d => Held ns d ∧ Q r ns d) Held.
Proof.
  intros Hm w (Hs & Hh & Hargs). specialize (Hm (referred (store w)) (store w) w (conj Hh eq_refl)).
  destruct (m w) as [[r|] w']; [destruct Hm as [[Hh' Ed] HQ]|destruct Hm as [Hh' Ed]]; unfold Held; rewrite Ed in *; by auto.
Qed.
Lemma holds_on_files {E A} (m : IO Db E A) :
  (∀ ps d0, spec (OnFiles ps d0) m (fun _ => OnFiles ps d0) (OnFiles ps d0)) → HoldsOn m.
Proof.
  intros Hm. eapply spec_conseq; [apply (spec_on_files m (fun _ _ _ => True))|done|by intros r ns d [? _]|done].
  intros ps d0. eapply spec_conseq; [apply Hm|done|by auto|done].
Qed.
Lemma holds_read {A} (act : Nodes → result IoError A * Nodes) : (∀ ns, (act ns).2 = ns) → HoldsOn (file_call act whole).
Proof. intros Ha. by apply spec_quiet. Qed.

(** a statement after which every answered call's snapshot is one that was
    referred to, or a file known to be an export, and the arguments are as they
    were *)
Lemma held_rows ns d d' :
  Held ns d → (∀ r', r' ∈ rows_of d' → Ar (row_args r')) →
  (∀ r', r' ∈ rows_of d' → row_status r' = "ok"%string → row_purged r' = None →
     r' ∈ rows_of d ∨ ∃ p, row_snapshot r' = Some p ∧ ∃ c m, ns !! p = Some (FileNode c m) ∧ G c) →
  Held ns d'.
Proof.
  intros (Hs & Hh & _) Ha Hr. split_and!; [| |done].
  - intros r' Hin Ho Hp. destruct (Hr r' Hin Ho Hp) as [?|(p & -> & _)]; [by apply Hs|done].
  - intros p (r' & Hin & Ho & Hp & Hsn). destruct (Hr r' Hin Ho Hp) as [?|(p' & Hsn' & Hf)].
    + apply Hh. by exists r'.
    + assert (p' = p) as -> by congruence. exact Hf.
Qed.
Lemma holds_statement {A} (act : Db → result string A * Db) :
  (∀ d r, r ∈ rows_of (act d).2 → r ∈ rows_of d ∨ row_status r ≠ "ok"%string ∧ ((∃ r', r' ∈ rows_of d ∧ row_args r = row_args r') ∨ Ar (row_args r))) →
  HoldsOn (statement act).
Proof.
  intros Ha. apply spec_call; [|done|done]. intros ns d Hd. specialize (Ha d). destruct (act d) as [r d'].
  cbn in *. eapply held_rows; [exact Hd| |].
  - intros r' Hin. destruct Hd as (_ & _ & Hd). destruct (Ha r' Hin) as [?|(_ & [(r0 & Hr0 & ->)|?])]; auto.
  - intros r' Hin Ho _. left. by destruct (Ha r' Hin) as [?|(? & _)].
Qed.
Lemma holds_query {B} (answer : Db → result string B) : HoldsOn (query answer).
Proof. apply holds_statement. by left. Qed.

Lemma holds_no_row {B} (act : Db → result string B * Db) :
  (∀ d r, r ∈ rows_of (act d).2 → r ∈ rows_of d) → HoldsOn (statement act).
Proof. intros Ha. apply holds_statement. intros d r Hin. left. by apply Ha. Qed.

Lemma rows_on_calls {A} named act d r :
  r ∈ rows_of (on_calls (A := A) named act d).2 → r ∈ rows_of d ∨ ∃ t, call_table d = Some t ∧ r ∈ (act (call_rows t)).2.
Proof.
  destruct (on_calls named act d) as [res d'] eqn:E. apply on_calls_rows in E as [[-> _]|(t & Et & _ & _ & ->)]; [by left|].
  cbn. intros Hin. right. by exists t.
Qed.

Lemma holds_schema : HoldsOn initialize_schema.
Proof.
  unfold initialize_schema.
  apply holds_bind; [apply holds_no_row|intros _].
  { intros d r. unfold create_sessions. by destruct (session_rows d). }
  apply holds_bind; [apply holds_no_row|intros _].
  { intros d r. unfold create_calls, rows_of. destruct (call_table d) as [t|] eqn:E; cbn; [by rewrite E|set_solver]. }
  apply holds_bind; [apply holds_query|intros v]. destruct (v <? 3)%Z; [|apply holds_ret].
  apply holds_bind; [apply holds_query|intros b]. apply holds_bind.
  - destruct b; [apply holds_ret|apply holds_no_row]. intros d r. unfold add_column, rows_of.
    destruct (call_table d) as [t|] eqn:E; [destruct (bool_decide _)|]; cbn; rewrite ?E; done.
  - intros _. apply holds_no_row. by intros d r.
Qed.

Section HeldOperations.
Context `{ManifestText, JsonText, Ulids, Times, GazeRestore} (debug_str : string → string).

Lemma holds_new path s a clock : HoldsOn (manifest_new path s a clock).
Proof.
  unfold manifest_new. apply holds_bind.
  { destruct (parent path); [apply holds_io_err, holds_on_files; intros; apply held_create_dir|apply holds_ret]. }
  intros _. apply holds_bind; [apply holds_io_err, holds_query|intros _].
  apply holds_bind; [apply holds_io_err, holds_schema|intros _].
  apply holds_bind; [|intros; apply holds_ret]. apply holds_io_err, holds_no_row.
  intros d r. unfold insert_session, rows_of. destruct (session_rows d); [|done]. by destruct (existsb _ _).
Qed.

Lemma holds_begin w call args clock :
  (∀ t, args_to_text args = Ok t → Ar t) → HoldsOn (begin_call w call args clock).
Proof.
  intros Hargs. unfold begin_call. destruct (args_to_text args) as [t|e]; [apply spec_pure|by apply spec_stop].
  apply holds_io_err, holds_statement. intros d r Hin. apply rows_on_calls in Hin as [?|(tb & Et & Hin)]; [by left|].
  revert Hin. destruct (existsb _ _); cbn; unfold rows_of; rewrite Et; [by left|].
  intros [?| ->%list_elem_of_singleton]%elem_of_app; [by left|]. right. split; [done|]. right. by apply Hargs.
Qed.

Lemma holds_fail w call_id err clock : HoldsOn (fail_call debug_str w call_id err clock).
Proof.
  unfold fail_call. apply holds_bind; [|intros; apply holds_ret]. apply holds_io_err, holds_statement.
  intros d r Hin. apply rows_on_calls in Hin as [?|(tb & Et & Hin)]; [by left|]. cbn in Hin.
  apply list_elem_of_fmap in Hin as (x & -> & Hx). unfold rows_of. rewrite Et.
  destruct (String.eqb _ _); [|by left]. right. split; [done|]. left. by exists x.
Qed.

(** the row of a finished call refers to the snapshot that was just persisted *)
Lemma holds_finish w call_id summary ref clock :
  spec (fun ns d => Held ns d ∧ ∃ b m, ns !! snap_path ref = Some (FileNode b m) ∧ G b)
    (finish_call w call_id summary ref clock) (fun _ => Held) Held.
Proof.
  unfold finish_call. eapply (spec_bind _ _ _ (fun _ ns d => Held ns d ∧ ∃ b m, ns !! snap_path ref = Some (FileNode b m) ∧ G b)).
  { apply spec_result. intros ns d Hp. destruct (summary_to_text summary); [done|by destruct Hp]. }
  intros t. eapply (spec_bind _ _ _ (fun _ => Held)).
  - apply spec_io_err, spec_call; [|by intros n e ns d [? _]|by intros n ns d [? _]].
    intros ns d [Hh (b & m & Hf & Hg)]. destruct (update_call _ _ _ d) as [res d'] eqn:E. cbn [fst snd].
    enough (Held ns d') by by destruct res.
    assert (Hd' : d' = (update_call ["status"; "result_summary"; "snapshot_ref"; "finished_at_ms"]%string call_id
      (finished_row t (snap_path ref) (current_epoch_ms clock)) d).2) by by rewrite E.
    assert (Hrow : ∀ r', r' ∈ rows_of d' → r' ∈ rows_of d ∨
      ∃ x, x ∈ rows_of d ∧ r' = finished_row t (snap_path ref) (current_epoch_ms clock) x).
    { intros r' Hin. rewrite Hd' in Hin. apply rows_on_calls in Hin as [?|(tb & Et & Hin)]; [by left|]. cbn in Hin.
      apply list_elem_of_fmap in Hin as (x & -> & Hx). unfold rows_of. rewrite Et.
      destruct (String.eqb _ _); [right; by exists x|by left]. }
    eapply held_rows; [exact Hh| |].
    + intros r' Hin. destruct Hh as (_ & _ & Hh). destruct (Hrow r' Hin) as [?|(x & Hx & ->)]; [by apply Hh|]. by apply (Hh x).
    + intros r' Hin _ _. destruct (Hrow r' Hin) as [?|(x & Hx & ->)]; [by left|]. right.
      exists (snap_path ref). split; [done|]. by exists b, m.
  - intros n. destruct (n =? 1); [by apply spec_ret|by apply spec_result].
Qed.

Lemma holds_adapter_finish a rnd call_id locked joined exported byte_len clock :
  (∀ b, exported = Ok b → G b) →
  HoldsOn (adapter_finish a rnd call_id locked joined exported byte_len clock).
Proof.
  intros Hg. unfold adapter_finish.
  eapply (spec_bind _ _ _ (fun written ns d => Held ns d ∧ ∀ ref, written = Ok ref →
    ∃ b m, ns !! snap_path ref = Some (FileNode b m) ∧ G b)).
  { apply spec_outcome. eapply spec_conseq; [apply spec_on_files; intros ps d0; by apply held_persist|done| |done].
    intros r ns d [Hh Hr]. split; [done|]. intros ref Eref. destruct (Hr ref Eref) as (-> & b & Hb & Hf).
    exists b, PRIVATE_FILE. split; [done|by apply Hg]. }
  intros written. destruct (if joined then written else _) as [ref|e] eqn:E; [|by apply spec_ret; intros ns d [? _]].
  assert (written = Ok ref) as -> by by destruct joined.
  eapply (spec_bind _ _ _ (fun _ => Held)); [|intros r; by apply spec_ret].
  apply spec_outcome. eapply spec_conseq; [apply holds_finish| |done|done].
  intros ns d [Hh Hf]. split; [done|]. by apply Hf.
Qed.

Lemma holds_restore_rows s days rows calls t : HoldsOn (restore_rows s days rows calls t).
Proof.
  revert calls t. induction rows as [|r rows IH]; intros calls t; cbn [restore_rows]; [apply holds_ret|].
  apply holds_bind; [apply holds_io_err, holds_query|intros _]. apply holds_bind; [|intros; apply IH].
  unfold restore_row. destruct (row_purged r); [apply holds_result|].
  repeat (apply holds_bind; [first [apply holds_result|apply holds_io_err, holds_read; done]|intros ?]).
  match goal with |- HoldsOn (let '(_, _) := ?x in _) => destruct x end. apply holds_ret.
Qed.
Lemma holds_restore s pipeline days : HoldsOn (restore_whole_session s pipeline days).
Proof.
  unfold restore_whole_session. do 3 (apply holds_bind; [apply holds_io_err, holds_query|intros ?]).
  apply holds_bind; [apply holds_result|intros _]. apply holds_bind; [apply holds_restore_rows|intros [? ?]].
  apply holds_ret.
Qed.
End HeldOperations.
End Held.

(** operations without a sweep: what is known of exports and of the arguments' text *)
Definition Recording `{ManifestText, JsonText} (G : bytes → Prop) (Ar : string → Prop) (o : Operation) : Prop :=
  match o with
  | OpBegin _ _ args _ => ∀ t, args_to_text (json_to_string args) = Ok t → Ar t
  | OpFinish _ _ _ _ _ exported _ _ => ∀ b, exported = Ok b → G b
  | OpRetention _ _ _ _ => False
  | _ => True
  end.

Section Recordings.
Context `{ManifestText, JsonText, Ulids, Times, GazeRestore} (debug_str : string → string).
Context (G : bytes → Prop) (Ar : string → Prop).

(** Over any sequence of openings, calls begun, finished and failed, and
    replays, whatever fails and wherever processes halt: every call recorded as
    answered and not purged names a snapshot, and the file of that name is a
    whole export of a session. *)
Lemma recordings_held os ns d :
  Forall (fun o => Recording G Ar o.1) os → Held G Ar ns d →
  Held G Ar (history debug_str os ns d).1 (history debug_str os ns d).2.
Proof.
  intros Hos Hd. apply (history_keeps debug_str (Held G Ar) (Recording G Ar)); [|done|done].
  intros o Ho. destruct o; cbn [exec] in *.
  - apply holds_bind; [apply holds_new|intros; apply holds_ret].
  - by apply holds_begin.
  - apply holds_bind; [by apply holds_adapter_finish|intros; apply holds_ret].
  - apply holds_bind; [|intros; apply holds_ret]. unfold adapter_fail.
    apply holds_bind; [apply holds_outcome, holds_fail|intros; apply holds_ret].
  - done.
  - apply holds_bind; [apply holds_restore|intros; apply holds_ret].
Qed.
End Recordings.
