(* ===== verification/RetentionFacts.v ===== *)
(** * What a sweep removes and what a replay shows *)

From S2P Require Import Prelude Str Text Errors LensValue Profile Output Disk DiskFacts Manifest Retention ManifestFacts.

(** ** Runs in which no call fails for reasons of its own *)
Section Going.
Context {D : Type}.
Lemma go_bind {E A B} (m : IO D E A) (f : A → IO D E B) w a w' : m w = (Some (Ok a), w') → (m ≫= f) w = f a w'.
Proof. intros Hm. unfold mbind, IO_bind. by rewrite Hm. Qed.
Lemma go_stop {E A B} (m : IO D E A) (f : A → IO D E B) w e w' : m w = (Some (Err e), w') → (m ≫= f) w = (Some (Err e), w').
Proof. intros Hm. unfold mbind, IO_bind. by rewrite Hm. Qed.
Lemma go_outcome {E F A} (m : IO D E A) w r w' : m w = (Some r, w') → outcome (F := F) m w = (Some (Ok r), w').
Proof. intros Hm. unfold outcome. by rewrite Hm. Qed.
Lemma go_err {E F A} (m : IO D E A) (f : E → F) w r w' : m w = (Some r, w') → io_err m f w = (Some (map_err r f), w').
Proof. intros Hm. unfold io_err. by rewrite (go_bind _ _ _ _ _ (go_outcome _ _ _ _ Hm)). Qed.
End Going.

Abbreviation calm ns d := (mkWorld ns d []).
Lemma go_query {A} (answer : Db → result string A) ns d : query answer (calm ns d) = (Some (answer d), calm ns d).
Proof. done. Qed.
Lemma go_statement {A} (act : Db → result string A * Db) ns d :
  statement act (calm ns d) = (Some (act d).1, calm ns (act d).2).
Proof. unfold statement, call_with. cbn. by destruct (act d). Qed.
Lemma go_query_ok {F A} (answer : Db → result string A) (f : string → F) ns d a :
  answer d = Ok a → io_err (query answer) f (calm ns d) = (Some (Ok a), calm ns d).
Proof. intros Ha. rewrite (go_err _ _ _ _ _ (go_query answer ns d)). by rewrite Ha. Qed.

(** ** Statements on a database that is ready *)
Lemma ready_calls {A} named act d :
  Ready d → (∀ c, c ∈ named → c ∈ CALL_COLUMNS) →
  (on_calls (A := A) named act d).1 = (act (rows_of d)).1 ∧
  rows_of (on_calls (A := A) named act d).2 = (act (rows_of d)).2 ∧ Ready (on_calls (A := A) named act d).2.
Proof.
  intros (Hs & t & Et & Hc) Hn. unfold on_calls, rows_of. rewrite Et.
  destruct (List.find _ named) as [c|] eqn:Ef.
  - apply find_some in Ef as [Hin Hb]. apply list_elem_of_In in Hin. rewrite bool_decide_eq_true_2 in Hb by auto. done.
  - destruct (act (call_rows t)) as [r rows]. cbn. split_and!; [done|done|]. split; [done|]. by eexists.
Qed.

Lemma ready_update named id f d :
  Ready d → (∀ c, c ∈ "call_id"%string :: named → c ∈ CALL_COLUMNS) →
  is_ok (update_call named id f d).1 = true ∧
  rows_of (update_call named id f d).2 = (λ r, if String.eqb (row_id r) id then f r else r) <$> rows_of d ∧
  Ready (update_call named id f d).2.
Proof.
  intros Hd Hn. destruct (ready_calls ("call_id"%string :: named) (λ rows,
    (Ok (len (filter (λ r, row_id r = id) rows)), (λ r, if String.eqb (row_id r) id then f r else r) <$> rows)) d Hd Hn)
    as (E1 & E2 & E3). unfold update_call. split_and!; [by rewrite E1|done|done].
Qed.

(** ** The sweep *)
Section Sweep.
Context `{Ulids} (now_ms retention_ms : Z) (clock : string → option N).

(** the policy: a call was answered, its snapshot is still named, and the
    session is older than the retention allows *)
Definition due_path (r : CallRow) : option string :=
  if sweep_candidate r then
    ms ← parse_ulid_ms (row_session r);
    if expired now_ms retention_ms ms then row_snapshot r else None
  else None.
Definition in_the_way (ns : Nodes) (p : string) : bool := match ns !! p with Some (DirNode _) => true | _ => false end.
(** the sweep purges a row if its snapshot is due and not a directory *)
Definition purges (ns : Nodes) (r : CallRow) : bool :=
  match due_path r with Some p => negb (in_the_way ns p) | None => false end.
Definition fails (ns : Nodes) (r : CallRow) : bool :=
  match due_path r with Some p => in_the_way ns p | None => false end.
Definition purged_at (id : string) : Z := current_epoch_ms (clock id).
Definition after (l : list CallRow) (ns : Nodes) (r : CallRow) : CallRow :=
  if existsb (fun x => purges ns x && String.eqb (row_id x) (row_id r)) l then tombstone (purged_at (row_id r)) r else r.

Lemma in_the_way_delete ns p q : in_the_way (delete p ns) q = if decide (p = q) then false else in_the_way ns q.
Proof.
  unfold in_the_way. destruct (decide (p = q)) as [->|Hne]; [by rewrite lookup_delete_eq|by rewrite lookup_delete_ne].
Qed.

Lemma go_remove ns (d : Db) p :
  remove_file p (calm ns d) =
    (Some (match ns !! p with None => Err NotFound | Some (DirNode _) => Err IS_A_DIRECTORY | Some _ => Ok tt end),
     calm (if in_the_way ns p then ns else delete p ns) d).
Proof.
  unfold remove_file, file_call, call_with, in_the_way. cbn. destruct (ns !! p) as [[]|] eqn:E; cbn; try done.
  by rewrite delete_id.
Qed.

Definition purged_entry (r : CallRow) (p : string) : PurgedEntry := mkPurged (row_id r) (row_session r) p (purged_at (row_id r)).
Definition failed_entry (r : CallRow) (p : string) : FailedEntry := mkFailed (row_id r) (row_session r) p (io_text IS_A_DIRECTORY).

(** one row, of the candidates *)
Lemma sweep_row_due r report :
  sweep_candidate r = true →
  match due_path r with
  | None => sweep_row Purge now_ms retention_ms clock r report = mret report
  | Some p => ∃ e, ex_call e = row_id r ∧ ex_session e = row_session r ∧ ex_path e = p ∧
      sweep_row Purge now_ms retention_ms clock r report = purge clock e report
  end.
Proof.
  intros Hc. unfold sweep_row, due_path. rewrite Hc.
  destruct (parse_ulid_ms (row_session r)) as [ms|]; cbn [mbind option_bind]; [|done].
  assert (Hsn : ∃ p, row_snapshot r = Some p).
  { unfold sweep_candidate in Hc. rewrite !andb_true_iff, bool_decide_eq_true in Hc. by destruct Hc as [[_ [p Hp]] _]; exists p. }
  destruct Hsn as [p Hp]. rewrite Hp. destruct (expired now_ms retention_ms ms); cbn [negb]; [|done].
  eexists. split_and!; [| | |reflexivity]; done.
Qed.

Definition reported (ns : Nodes) (r : CallRow) (report : SweepReport) : SweepReport :=
  match due_path r with
  | None => report
  | Some p =>
    if in_the_way ns p
    then mkReport (would_purge report) (purged report) (failed report ++ [failed_entry r p]) (warning_emitted report)
    else mkReport (would_purge report) (purged report ++ [purged_entry r p]) (failed report) (warning_emitted report)
  end.
Definition files_after (r : CallRow) (ns : Nodes) : Nodes :=
  match due_path r with Some p => if in_the_way ns p then ns else delete p ns | None => ns end.

Definition mark (e : ExpiredEntry) (report : SweepReport) : IO Db LensError SweepReport :=
  _ ← io_err (statement (update_call ["purged_at_ms"; "snapshot_ref"]%string (ex_call e) (tombstone (purged_at (ex_call e)))))
        (λ err : string, Internal (String.append "manifest tombstone UPDATE failed: " err));
  mret report.
Lemma go_mark ns d e report :
  Ready d →
  ∃ d', mark e report (calm ns d) = (Some (Ok report), calm ns d') ∧ Ready d' ∧
    rows_of d' = (λ x, if String.eqb (ex_call e) (row_id x) then tombstone (purged_at (row_id x)) x else x) <$> rows_of d.
Proof.
  intros Hd. unfold mark. set (act := update_call _ (ex_call e) _).
  destruct (ready_update ["purged_at_ms"; "snapshot_ref"]%string (ex_call e) (tombstone (purged_at (ex_call e))) d Hd)
    as (Hok & Hrows & Hr); [unfold CALL_COLUMNS; set_solver|]. fold act in Hok, Hrows, Hr.
  apply is_ok_true in Hok as [n Hn]. exists (act d).2.
  pose proof (go_err (statement act) (λ err : string, Internal (String.append "manifest tombstone UPDATE failed: " err)) _ _ _
    (go_statement act ns d)) as Es. rewrite Hn in Es. cbn [map_err] in Es.
  rewrite (go_bind _ _ _ _ _ Es). split_and!; [done|done|]. rewrite Hrows. apply list_fmap_ext. intros i x _.
  rewrite String.eqb_sym. by destruct (String.eqb_spec (ex_call e) (row_id x)) as [->|].
Qed.

Lemma go_row ns d r report :
  Ready d → sweep_candidate r = true →
  ∃ d', sweep_row Purge now_ms retention_ms clock r report (calm ns d) =
      (Some (Ok (reported ns r report)), calm (files_after r ns) d') ∧
    Ready d' ∧ rows_of d' = after [r] ns <$> rows_of d.
Proof.
  intros Hd Hc. pose proof (sweep_row_due r report Hc) as Hdue. unfold reported, files_after, after, purges.
  cbn [existsb]. destruct (due_path r) as [p|] eqn:Edue.
  2:{ rewrite Hdue. exists d. split_and!; [done|done|]. cbn [andb orb]. symmetry. apply list_fmap_id. }
  destruct Hdue as (e & Hid & Hs & Hp & ->). unfold purge.
  rewrite (go_bind _ _ _ _ _ (go_outcome _ _ _ _ (go_remove ns d (ex_path e)))). rewrite Hp.
  assert (Hmark : ∀ d' : Db, rows_of d' = (λ x, if String.eqb (ex_call e) (row_id x) then tombstone (purged_at (row_id x)) x else x) <$> rows_of d →
    rows_of d' = (λ x, if true && String.eqb (row_id r) (row_id x) || false then tombstone (purged_at (row_id x)) x else x) <$> rows_of d).
  { intros d' ->. apply list_fmap_ext. intros i x _. by rewrite Hid, orb_false_r. }
  unfold in_the_way. destruct (ns !! p) as [[]|] eqn:E; cbn [negb].
  1,3,4: destruct (go_mark (delete p ns) d e (mkReport (would_purge report) (purged report ++ [purged_entry r p])
      (failed report) (warning_emitted report)) Hd) as (d' & Ek & Hr & Hrows);
    exists d'; (split; [|split; [done|by apply Hmark]]); rewrite <- Ek; unfold mark, purged_entry, purged_at; by rewrite Hid, Hs.
  exists d. split_and!; [|done|].
  - unfold failed_entry. by rewrite Hid, Hs.
  - cbn [andb orb]. symmetry. apply list_fmap_id.
Qed.

(** all rows *)
Definition purged_of (ns : Nodes) (l : list CallRow) : list PurgedEntry :=
  omap (fun r => p ← due_path r; if in_the_way ns p then None else Some (purged_entry r p)) l.
Definition failed_of (ns : Nodes) (l : list CallRow) : list FailedEntry :=
  omap (fun r => p ← due_path r; if in_the_way ns p then Some (failed_entry r p) else None) l.
Definition removed (ns : Nodes) (l : list CallRow) (q : string) : bool :=
  existsb (fun r => purges ns r && bool_decide (due_path r = Some q)) l.

Lemma in_the_way_after r ns q : in_the_way (files_after r ns) q = in_the_way ns q.
Proof.
  unfold files_after. destruct (due_path r) as [p|]; [|done]. destruct (in_the_way ns p) eqn:E; [done|].
  rewrite in_the_way_delete. destruct (decide (p = q)) as [<-|]; [by rewrite E|done].
Qed.
Lemma purges_after r ns x : purges (files_after r ns) x = purges ns x.
Proof. unfold purges. destruct (due_path x); [by rewrite in_the_way_after|done]. Qed.

Lemma after_id l ns x : row_id (after l ns x) = row_id x.
Proof. unfold after. by destruct (existsb _ _). Qed.
Lemma after_cons r l ns x : after (r :: l) ns x = after l ns (after [r] ns x).
Proof.
  unfold after at 2. rewrite (after_id [r]). unfold after. cbn [existsb]. rewrite orb_false_r.
  by destruct (purges ns r && _), (existsb _ l).
Qed.
Lemma removed_cons r l ns q :
  (if removed ns (r :: l) q then None else ns !! q) = (if removed ns l q then None else files_after r ns !! q).
Proof.
  unfold removed, files_after. cbn [existsb]. unfold purges at 1. destruct (due_path r) as [p|]; [|done].
  destruct (in_the_way ns p); cbn [negb andb orb]; [done|]. destruct (existsb _ l); [by rewrite orb_true_r|].
  rewrite orb_false_r. case_bool_decide as E.
  - injection E as ->. by rewrite lookup_delete_eq.
  - rewrite lookup_delete_ne; [done|]. by intros ->.
Qed.
Lemma removed_after r l ns q : removed (files_after r ns) l q = removed ns l q.
Proof. unfold removed. induction l as [|x l IH]; cbn; [done|]. by rewrite purges_after, IH. Qed.
Lemma after_after r l ns x : after l (files_after r ns) x = after l ns x.
Proof.
  unfold after. assert (E : ∀ i, existsb (λ x0, purges (files_after r ns) x0 && String.eqb (row_id x0) i) l =
    existsb (λ x0, purges ns x0 && String.eqb (row_id x0) i) l).
  { intros i. induction l as [|y l IH]; cbn; [done|]. by rewrite purges_after, IH. }
  by rewrite E.
Qed.
Lemma reports_after r l ns : purged_of (files_after r ns) l = purged_of ns l ∧ failed_of (files_after r ns) l = failed_of ns l.
Proof.
  unfold purged_of, failed_of. split; apply list_omap_ext, Forall2_same_length_lookup_2; try done;
    intros i x y Hx Hy; assert (x = y) as -> by congruence; destruct (due_path y); cbn; by rewrite ?in_the_way_after.
Qed.
Lemma reported_report r ns report :
  purged (reported ns r report) = purged report ++ purged_of ns [r] ∧
  failed (reported ns r report) = failed report ++ failed_of ns [r] ∧
  would_purge (reported ns r report) = would_purge report ∧ warning_emitted (reported ns r report) = warning_emitted report.
Proof.
  unfold reported, purged_of, failed_of. cbn. destruct (due_path r) as [p|]; cbn; [|by rewrite !app_nil_r].
  destruct (in_the_way ns p); cbn; by rewrite ?app_nil_r.
Qed.
Lemma omap_cons_app {A B} (f : A → option B) x l : omap f (x :: l) = omap f [x] ++ omap f l.
Proof. cbn. by destruct (f x). Qed.

Lemma go_next ns d : next_row (calm ns d) = (Some (Ok tt), calm ns d).
Proof. done. Qed.

Lemma go_rows l ns d report :
  Ready d → Forall (fun r => sweep_candidate r = true) l →
  ∃ ns' d' report', sweep_rows Purge now_ms retention_ms clock l report (calm ns d) = (Some (Ok report'), calm ns' d') ∧
    Ready d' ∧ rows_of d' = after l ns <$> rows_of d ∧ (∀ q, ns' !! q = if removed ns l q then None else ns !! q) ∧
    report' = mkReport (would_purge report) (purged report ++ purged_of ns l) (failed report ++ failed_of ns l)
      (warning_emitted report).
Proof.
  intros Hd Hl. revert ns d report Hd. induction Hl as [|r l Hr _ IH]; intros ns d report Hd; cbn [sweep_rows].
  - rewrite (go_bind _ _ _ _ _ (go_next ns d)). exists ns, d, report. split_and!; [done|done| |done|].
    + symmetry. apply list_fmap_id.
    + destruct report. cbn. by rewrite !app_nil_r.
  - rewrite (go_bind _ _ _ _ _ (go_next ns d)).
    destruct (go_row ns d r report Hd Hr) as (d1 & E1 & Hd1 & Hrows1). rewrite (go_bind _ _ _ _ _ E1).
    destruct (IH (files_after r ns) d1 (reported ns r report) Hd1) as (ns' & d' & report' & E & Hd' & Hrows & Hns & ->).
    rewrite E. eexists ns', d', _. split_and!; [done|done| | |].
    + rewrite Hrows, Hrows1, <- list_fmap_compose. apply list_fmap_ext. intros i x _. cbn.
      by rewrite after_after, <- after_cons.
    + intros q. rewrite Hns, removed_after. by rewrite removed_cons.
    + destruct (reported_report r ns report) as (-> & -> & -> & ->). destruct (reports_after r l ns) as [-> ->].
      rewrite <- !app_assoc. unfold purged_of, failed_of. by rewrite (omap_cons_app _ r l), (omap_cons_app _ r l).
Qed.
End Sweep.

Lemma nodup_key {A K} (f : A → K) l x y : NoDup (f <$> l) → x ∈ l → y ∈ l → f x = f y → x = y.
Proof.
  intros Hn (i & Hi)%list_elem_of_lookup (j & Hj)%list_elem_of_lookup E.
  assert (i = j) as -> by (eapply (NoDup_lookup _ i j (f x) Hn); rewrite list_lookup_fmap; [by rewrite Hi|by rewrite Hj, E]).
  congruence.
Qed.

Section SweepAll.
Context `{Ulids} (now_ms retention_ms : Z) (clock : string → option N).
Abbreviation due := (due_path now_ms retention_ms).

Lemma due_candidate r p : due r = Some p → sweep_candidate r = true.
Proof. unfold due_path. by destruct (sweep_candidate r). Qed.

Lemma purges_candidate ns r : purges now_ms retention_ms ns r = true → sweep_candidate r = true.
Proof. unfold purges. destruct (due r) as [p|] eqn:E; [|done]. intros _. by eapply due_candidate. Qed.

Lemma omap_candidates {B} (f : CallRow → string → option B) rows :
  omap (fun r => p ← due r; f r p) (List.filter sweep_candidate rows) = omap (fun r => p ← due r; f r p) rows.
Proof.
  induction rows as [|r rows IH]; [done|]. cbn [List.filter]. rewrite (omap_cons_app _ r rows), <- IH.
  destruct (sweep_candidate r) eqn:Ec; [by rewrite omap_cons_app|].
  assert (due r = None) as E by (unfold due_path; by rewrite Ec). cbn [omap list_omap]. by rewrite E.
Qed.

Lemma after_candidates ns rows x :
  NoDup (row_id <$> rows) → x ∈ rows →
  after now_ms retention_ms clock (List.filter sweep_candidate rows) ns x =
    if purges now_ms retention_ms ns x then tombstone (purged_at clock (row_id x)) x else x.
Proof.
  intros Hn Hx. unfold after.
  assert (E : existsb (λ y, purges now_ms retention_ms ns y && String.eqb (row_id y) (row_id x)) (List.filter sweep_candidate rows) =
    purges now_ms retention_ms ns x).
  { apply eq_true_iff_eq. rewrite existsb_exists. split.
    - intros (y & Hy & [Hp Hid%String.eqb_eq]%andb_true_iff). apply filter_In in Hy as [Hy%list_elem_of_In _].
      by rewrite (nodup_key row_id rows x y Hn Hx Hy).
    - intros Hp. exists x. rewrite Hp, String.eqb_refl. split; [|done]. apply filter_In. rewrite <- list_elem_of_In.
      split; [done|]. by eapply purges_candidate. }
  by rewrite E.
Qed.

Lemma removed_candidates ns rows q :
  removed now_ms retention_ms ns (List.filter sweep_candidate rows) q = true ↔
  ∃ r, r ∈ rows ∧ due r = Some q ∧ in_the_way ns q = false.
Proof.
  unfold removed. rewrite existsb_exists. split.
  - intros (r & [Hr%list_elem_of_In _]%filter_In & [Hp Hq%bool_decide_eq_true]%andb_true_iff). exists r.
    unfold purges in Hp. rewrite Hq in Hp. by apply negb_true_iff in Hp.
  - intros (r & Hr & Hq & Hw). exists r. split.
    + apply filter_In. rewrite <- list_elem_of_In. split; [done|]. by eapply due_candidate.
    + unfold purges. rewrite Hq, Hw. cbn. by apply bool_decide_eq_true.
Qed.
End SweepAll.

(** C19. A purging sweep purges exactly what has expired. When no call fails for
    reasons of its own: the rows of answered calls whose snapshot is still
    named, of sessions older than the retention, lose the name of the snapshot
    and are marked with the moment of the purge, and the report lists them in
    order; a row whose snapshot is a directory is left and reported as failed;
    every other row is as it was, none is removed; and the files that are gone
    are exactly the purged snapshots. *)
Theorem sweep_purges_expired `{Ulids} m days now clock ns d :
  mm_present m = true → Ready d → NoDup (row_id <$> rows_of d) →
  let now_ms := current_epoch_ms now in
  let retention_ms := saturating_mul (Z.of_N days) MS_PER_DAY in
  ∃ ns' d', sweep_expired_snapshots m days Purge now clock (calm ns d) =
      (Some (Ok (mkReport [] (purged_of now_ms retention_ms clock ns (rows_of d)) (failed_of now_ms retention_ms ns (rows_of d)) false)),
       calm ns' d') ∧
    Ready d' ∧
    rows_of d' = (fun r => if purges now_ms retention_ms ns r then tombstone (purged_at clock (row_id r)) r else r) <$> rows_of d ∧
    ∀ q, ns' !! q ≠ ns !! q ↔ is_Some (ns !! q) ∧
      ∃ r, r ∈ rows_of d ∧ due_path now_ms retention_ms r = Some q ∧ in_the_way ns q = false.
Proof.
  intros Hm Hd Hn now_ms retention_ms. unfold sweep_expired_snapshots. rewrite Hm. cbn [orb negb].
  fold now_ms retention_ms.
  rewrite (go_bind _ _ _ _ _ (go_query_ok _ (fun err => Internal (String.append "manifest sweep prepare failed: " err)) ns d tt eq_refl)).
  set (rows := List.filter sweep_candidate (rows_of d)).
  assert (Hsel : select_candidates d = Ok rows).
  { unfold select_candidates. destruct (ready_calls ["call_id"; "lens_session_id"; "snapshot_ref"; "status"; "purged_at_ms"]%string
      (fun rows => (Ok (List.filter sweep_candidate rows), rows)) d Hd) as (-> & _); [unfold CALL_COLUMNS; set_solver|done]. }
  rewrite (go_bind _ _ _ _ _ (go_query_ok _ (fun err => Internal (String.append "manifest sweep query failed: " err)) ns d rows Hsel)).
  destruct (go_rows now_ms retention_ms clock rows ns d empty_report Hd) as (ns' & d' & report & E & Hd' & Hrows & Hns & ->).
  { apply Forall_forall. intros r [_ Hc]%list_elem_of_In%filter_In. done. }
  rewrite (go_bind _ _ _ _ _ E). exists ns', d'. split_and!; [|done| |].
  - unfold purged_of, failed_of, rows. cbn [would_purge purged failed warning_emitted empty_report app].
    by rewrite !omap_candidates.
  - rewrite Hrows. apply list_fmap_ext. intros i r Hr%list_elem_of_lookup_2. by apply after_candidates.
  - intros q. rewrite Hns, <- removed_candidates. fold rows. destruct (removed _ _ ns rows q); [|naive_solver].
    destruct (ns !! q); split; naive_solver.
Qed.

(** a session of 1970 and a malformed one, swept long after *)
Module Run.
#[local] Instance some_ulids : Ulids := {| ulid_timestamp_ms s := if String.eqb s "01S" then Some 1000 else None |}.
Definition some_row (id session : string) : CallRow :=
  mkCallRow id session "query" "{}" "ok" (Some "{}"%string) (Some "/m/snap/01S.snap"%string) 2000 (Some 2001%Z) None.
Definition some_db : Db := mkDb 3 (Some []) (Some (mkCallTable CALL_COLUMNS [some_row "c1" "01S"; some_row "c2" "bad"])).
Definition some_files : Nodes := {["/m/snap/01S.snap"%string := FileNode [] 384]}.
Lemma sweep_purges_expired_witness :
  ∃ ns' d', (sweep_expired_snapshots (mkMaintenance "/m/manifest.sqlite" "/m/.last_retention_warn" true) 7 Purge
      (Some 1000000000) (fun _ => Some 1000000001) (calm some_files some_db)).2 = calm ns' d' ∧
    row_purged <$> rows_of d' = [Some 1000000001%Z; None].
Proof.
  destruct (sweep_purges_expired (mkMaintenance "/m/manifest.sqlite" "/m/.last_retention_warn" true) 7
    (Some 1000000000) (fun _ => Some 1000000001) some_files some_db) as (ns' & d' & E & _ & Hrows & _).
  - reflexivity.
  - split; [by eexists|]. exists (mkCallTable CALL_COLUMNS [some_row "c1" "01S"; some_row "c2" "bad"]). by split.
  - apply (bool_decide_unpack _). vm_compute. exact I.
  - exists ns', d'. split; [by rewrite E|]. rewrite Hrows. vm_compute. reflexivity.
Defined.
End Run.
