(* ===== verification/ReplayFacts.v ===== *)
(** * What a replay shows

    Whatever a manifest went through without a sweep, a replay of a session
    shows every answered call, in the order they started, with the arguments
    its snapshot restores; and after a purge it says so. *)

From stdpp Require Import sorting.
From S2P Require Import Prelude Str Text Errors LensValue Profile Output Disk DiskFacts Manifest Retention ManifestFacts SnapshotFacts RetentionFacts.

#[export] Instance ready_stable : Stable Ready.
Proof.
  assert (Hcalls : ∀ A named (act : list CallRow → result string A * list CallRow) d, Ready d → Ready (on_calls named act d).2).
  { intros A named act d Hd. destruct (on_calls named act d) as [r d'] eqn:E.
    apply on_calls_rows in E as [[-> _]|(t & Et & _ & _ & ->)]; [done|]. destruct Hd as (Hs & t' & Et' & Hc).
    assert (t' = t) as -> by congruence. split; [done|]. by eexists. }
  split.
  - intros row d. apply Hcalls.
  - intros named id f d _. apply Hcalls.
  - intros row d ([rows Hs] & Ht). unfold insert_session. rewrite Hs. destruct (existsb _ _); split; done.
  - intros d ([rows Hs] & Ht). unfold create_sessions. by rewrite Hs.
  - intros d (Hs & t & Et & Hc). unfold create_calls. rewrite Et. split; [done|]. by exists t.
  - intros c d (Hs & t & Et & Hc). unfold add_column. rewrite Et. destruct (bool_decide _); [split; [done|by exists t]|].
    split; [done|]. eexists. split; [done|]. intros c' Hin. apply elem_of_app. left. by apply Hc.
  - intros v d Hd. exact Hd.
Qed.

Section Replay.
Context `{ManifestText, JsonText, Ulids, Times, GazeRestore} (debug_str : string → string).

(** the exports that Gaze imports and restores every text with, and the texts
    that read back *)
Definition Restorable (b : bytes) : Prop := ∃ g, gz_import b = Ok g ∧ ∀ text, is_ok (gz_restore g text) = true.
Definition Readable (t : string) : Prop := is_ok (args_of_text t) = true.

(** the call [c] shows what the row [r] records, restored by its snapshot *)
Record Shows (ns : Nodes) (r : CallRow) (c : RestoredCall) : Prop := {
  sh_call : rc_call c = row_id r;
  sh_tool : rc_tool c = row_tool r;
  sh_redacted : rc_redacted_args c = row_args r;
  sh_snapshot : row_snapshot r = Some (rc_snapshot c);
  sh_restored : ∃ b m g args, ns !! rc_snapshot c = Some (FileNode b m) ∧ gz_import b = Ok g ∧
    args_of_text (row_args r) = Ok args ∧ gz_restore g args = Ok (rc_restored_args c, rc_telemetry c) }.

Definition purge_error (s : string) (days : N) (at_ : Z) : LensError := SnapshotPurged s at_ (format_iso8601_ms at_) days.

Lemma go_read_file ns (d : Db) p b m : ns !! p = Some (FileNode b m) → read_file p (calm ns d) = (Some (Ok b), calm ns d).
Proof.
  intros Hp. unfold read_file, file_call, call_with, read_node, follow. cbn [fates nodes store].
  assert (resolve MAX_LINKS ns p = Some p) as -> by (unfold MAX_LINKS; cbn [resolve]; by rewrite Hp).
  by rewrite Hp.
Qed.

Lemma go_restore_row s days ns d r :
  Held Restorable Readable ns d → r ∈ rows_of d → row_status r = "ok"%string →
  match row_purged r with
  | Some at_ => restore_row s days r (calm ns d) = (Some (Err (purge_error s days at_)), calm ns d)
  | None => ∃ c, restore_row s days r (calm ns d) = (Some (Ok c), calm ns d) ∧ Shows ns r c
  end.
Proof.
  intros (Hs & Hf & Ha) Hr Ho. unfold restore_row. destruct (row_purged r) as [at_|] eqn:Ep; [done|].
  destruct (Hs r Hr Ho Ep) as [p Hp]. rewrite Hp. destruct (Hf p) as (b & m & Hb & g & Hg & Hrest); [by exists r|].
  assert (Hargs : ∃ args, args_of_text (row_args r) = Ok args) by by apply is_ok_true, Ha. destruct Hargs as [args Hargs].
  assert (Hx : ∃ x, gz_restore g args = Ok x) by by apply is_ok_true, Hrest. destruct Hx as [[text tel] Hx].
  rewrite (go_bind _ _ (calm ns d) p (calm ns d)) by done.
  rewrite (go_bind _ _ _ _ _ (go_err _ _ _ _ _ (go_read_file ns d p b m Hb))).
  rewrite (go_bind _ _ (calm ns d) g (calm ns d)) by (unfold of_result; by rewrite Hg).
  rewrite (go_bind _ _ (calm ns d) args (calm ns d)) by (unfold of_result; by rewrite Hargs).
  rewrite (go_bind _ _ (calm ns d) (text, tel) (calm ns d)) by (unfold of_result, restore_tokens; by rewrite Hx).
  eexists. split; [done|]. split; try done. exists b, m, g, args. by split_and!.
Qed.

(** what the first purged row says, if there is one *)
Fixpoint first_purged (rows : list CallRow) : option Z :=
  match rows with [] => None | r :: rows => match row_purged r with Some at_ => Some at_ | None => first_purged rows end end.
Definition Unpurged (r : CallRow) : Prop := row_purged r = None.
Lemma first_purged_none rows : first_purged rows = None → Forall Unpurged rows.
Proof. induction rows as [|r rows IH]; [done|]. cbn. destruct (row_purged r) eqn:E; [done|]. intros ?%IH. by constructor. Qed.
Lemma first_purged_some rows at_ : first_purged rows = Some at_ →
  ∃ before r after, rows = before ++ r :: after ∧ Forall Unpurged before ∧ row_purged r = Some at_.
Proof.
  induction rows as [|r rows IH]; [done|]. cbn. destruct (row_purged r) eqn:E.
  - intros [= ->]. by exists [], r, rows.
  - intros (before & r' & after & -> & Hb & Hr)%IH. exists (r :: before), r', after. split; [done|]. split; [by constructor|done].
Qed.

Lemma go_restore_rows s days ns d rows calls t :
  Held Restorable Readable ns d → Forall (fun r => r ∈ rows_of d ∧ row_status r = "ok"%string) rows →
  match first_purged rows with
  | Some at_ => restore_rows s days rows calls t (calm ns d) = (Some (Err (purge_error s days at_)), calm ns d)
  | None => ∃ cs, restore_rows s days rows calls t (calm ns d) =
      (Some (Ok (calls ++ cs, fold_left record (rc_telemetry <$> cs) t)), calm ns d) ∧ Forall2 (Shows ns) rows cs
  end.
Proof.
  intros Hh Hrows. revert calls t. induction Hrows as [|r rows [Hr Ho] _ IH]; intros calls t; cbn [first_purged restore_rows].
  { exists []. rewrite app_nil_r. split; [done|constructor]. }
  rewrite (go_bind _ _ _ _ _ (go_query_ok (fun _ => Ok tt) (unavailable s) ns d tt eq_refl)).
  pose proof (go_restore_row s days ns d r Hh Hr Ho) as Hrow. destruct (row_purged r) as [at_|].
  { by rewrite (go_stop _ _ _ _ _ Hrow). }
  destruct Hrow as (c & Ec & Hc). rewrite (go_bind _ _ _ _ _ Ec). specialize (IH (calls ++ [c]) (record t (rc_telemetry c))).
  destruct (first_purged rows) as [at_|]; [done|]. destruct IH as (cs & E & Hcs). exists (c :: cs). rewrite E.
  rewrite <- app_assoc. split; [done|]. by constructor.
Qed.

Definition answered_in (s : string) (rows : list CallRow) : list CallRow :=
  List.filter (fun r => String.eqb (row_session r) s && String.eqb (row_status r) "ok") rows.
Definition answered (s : string) (rows : list CallRow) : list CallRow := by_started (answered_in s rows).
#[export] Instance StartedBefore_trans : Transitive StartedBefore.
Proof. intros r r' r''. unfold StartedBefore. lia. Qed.
#[export] Instance StartedBefore_total : Total StartedBefore.
Proof. intros r r'. unfold StartedBefore. lia. Qed.
Lemma by_started_sorts (Hscan : ∀ l, scan_order l ≡ₚ l) l : by_started l ≡ₚ l ∧ StronglySorted StartedBefore (by_started l).
Proof.
  unfold by_started. split; [by rewrite merge_sort_Permutation|].
  apply Sorted_StronglySorted, Sorted_merge_sort; apply _.
Qed.

Lemma go_restore s days ns d :
  (∀ l, scan_order l ≡ₚ l) → Held Restorable Readable ns d → Ready d →
  match first_purged (answered s (rows_of d)) with
  | Some at_ => restore_whole_session s (Ok tt) days (calm ns d) = (Some (Err (purge_error s days at_)), calm ns d)
  | None => ∃ cs, restore_whole_session s (Ok tt) days (calm ns d) =
      (Some (Ok (mkRestored s cs (fold_left record (rc_telemetry <$> cs) no_telemetry))), calm ns d) ∧
      Forall2 (Shows ns) (answered s (rows_of d)) cs
  end.
Proof.
  intros Hperm Hh Hd. set (rows := answered s (rows_of d)). unfold restore_whole_session.
  do 2 rewrite (go_bind _ _ _ _ _ (go_query_ok (fun _ => Ok tt) (unavailable s) ns d tt eq_refl)).
  assert (Hsel : select_calls s d = Ok rows).
  { unfold select_calls.
    destruct (ready_calls ["call_id"; "tool_name"; "redacted_args_json"; "snapshot_ref"; "purged_at_ms"; "lens_session_id"; "status";
      "started_at_ms"]%string (fun rows => (Ok (answered s rows), rows)) d Hd) as (E & _); [unfold CALL_COLUMNS; set_solver|exact E]. }
  rewrite (go_bind _ _ _ _ _ (go_query_ok _ (unavailable s) ns d rows Hsel)).
  rewrite (go_bind _ _ (calm ns d) tt (calm ns d)) by done.
  assert (Hrows : Forall (fun r => r ∈ rows_of d ∧ row_status r = "ok"%string) rows).
  { unfold rows, answered. rewrite (proj1 (by_started_sorts Hperm _)). apply Forall_forall. intros r [Hr [_ Ho%String.eqb_eq]%andb_true_iff]%list_elem_of_In%filter_In.
    by apply list_elem_of_In in Hr. }
  pose proof (go_restore_rows s days ns d rows [] no_telemetry Hh Hrows) as Hgo. destruct (first_purged rows) as [at_|].
  - by rewrite (go_stop _ _ _ _ _ Hgo).
  - destruct Hgo as (cs & E & Hcs). rewrite (go_bind _ _ _ _ _ E). by exists cs.
Qed.

(** C18. What was recorded can be replayed. Over any sequence of openings, calls
    begun, finished and failed, and replays, whatever failed and wherever
    processes halted: a replay of a session afterwards, when no call fails for
    reasons of its own, looks at every call the manifest records as answered in
    that session, in the order of the moments they started; it shows each of
    them, in that order, with its tool, its arguments as they were recorded and
    as the session's snapshot restores them, and the sums of what restoring
    reported; unless one of them was purged, and then it says when the first of
    them in that order was and under which retention. *)
Theorem recorded_session_replays s days os ns d :
  (∀ l, scan_order l ≡ₚ l) →
  Forall (fun o => Recording Restorable Readable o.1) os → Held Restorable Readable ns d → Ready d →
  let st := history debug_str os ns d in
  ∃ rows, rows ≡ₚ answered_in s (rows_of st.2) ∧ StronglySorted StartedBefore rows ∧
  match (restore_whole_session s (Ok tt) days (calm st.1 st.2)).1 with
  | None => False
  | Some (Ok out) => Forall Unpurged rows ∧ rs_session out = s ∧ Forall2 (Shows st.1) rows (rs_calls out) ∧
      rs_summary out = fold_left record (rc_telemetry <$> rs_calls out) no_telemetry
  | Some (Err e) => ∃ before r after at_, rows = before ++ r :: after ∧ Forall Unpurged before ∧
      row_purged r = Some at_ ∧ e = purge_error s days at_
  end.
Proof.
  intros Hperm Hos Hh Hd st.
  pose proof (recordings_held debug_str Restorable Readable os ns d Hos Hh) as Hh'.
  assert (Hd' : Ready st.2).
  { apply (history_keeps debug_str (fun _ => Ready) (fun _ => True)); [|by apply Forall_forall|done].
    intros o _. apply (keeps_exec debug_str Ready). }
  pose proof (go_restore s days st.1 st.2 Hperm Hh' Hd') as Hgo. exists (answered s (rows_of st.2)).
  destruct (by_started_sorts Hperm (answered_in s (rows_of st.2))) as [Hp Hs]. split; [exact Hp|]. split; [exact Hs|].
  destruct (first_purged (answered s (rows_of st.2))) as [at_|] eqn:E.
  - rewrite Hgo. apply first_purged_some in E as (before & r & after & Er & Hb & Hr). by exists before, r, after, at_.
  - destruct Hgo as (cs & -> & Hcs). apply first_purged_none in E. done.
Qed.
End Replay.

(** three calls of a session: the first began after the second, the clock was
    set back, and the third was begun and never finished *)
Module Run.
#[local] Instance some_text : ManifestText := {| args_to_text := Ok; args_of_text := Ok; summary_to_text _ := Ok "{}"%string |}.
#[local] Instance some_json : JsonText := {| json_to_string _ := "{}"%string; json_from_str _ := None |}.
#[local] Instance some_ulids : Ulids := {| ulid_timestamp_ms _ := None |}.
#[local] Instance some_times : Times := {| rfc3339 _ _ := None |}.
#[local] Instance some_gaze : GazeRestore := {|
  GazeSnapshot := bytes; gz_import := Ok;
  gz_restore _ text := Ok (String.append "restored " text, mkTelemetry DecisionSuccess 0 0 0); scan_order l := l |}.
Definition some_adapter : Adapter := mkAdapter (mkWriter "/m/manifest.sqlite" "01S") "/m" ∅.
Definition some_operations : list (Operation * list Fate) :=
  [(OpSession "/m/manifest.sqlite" "01S" "g" (Some 5), []);
   (OpBegin some_adapter (mkToolCall "c0" "log_tail") JNull (Some 7), []);
   (OpFinish some_adapter "w" "c0" true true (Ok ["j"%char]) 0 (Some 8), []);
   (OpBegin some_adapter (mkToolCall "c1" "log_tail") JNull (Some 6), []);
   (OpFinish some_adapter "x" "c1" true true (Ok ["k"%char]) 0 (Some 8), []);
   (OpBegin some_adapter (mkToolCall "c2" "log_tail") JNull (Some 9), []);
   (OpFinish some_adapter "y" "c2" true true (Ok ["l"%char]) 0 (Some 10), [Goes; Goes; Goes; Goes; Goes; Halts 0])].
Definition some_files : Nodes := {["/" := DirNode 493; "/m" := DirNode 448]}.
Definition some_db : Db := mkDb 3 (Some []) (Some (mkCallTable CALL_COLUMNS [])).

(** the call that is recorded first started last *)
Lemma recorded_session_replays_witness :
  let st := history (fun s => s) some_operations some_files some_db in
  row_id <$> rows_of st.2 = ["c0"; "c1"; "c2"]%string ∧
  match (restore_whole_session "01S" (Ok tt) 0 (calm st.1 st.2)).1 with
  | Some (Ok out) => ∃ rows, rows ≡ₚ answered_in "01S" (rows_of st.2) ∧ StronglySorted StartedBefore rows ∧
      rc_call <$> rs_calls out = row_id <$> rows
  | _ => False
  end.
Proof.
  intros st. split; [vm_compute; reflexivity|].
  assert (Hheld : Held Restorable Readable some_files some_db).
  { split_and!; [by intros r Hr%elem_of_nil|by intros p (r & Hr%elem_of_nil & _)|by intros r Hr%elem_of_nil]. }
  assert (Hready : Ready some_db) by (split; [by eexists|]; by exists (mkCallTable CALL_COLUMNS [])).
  assert (Hos : Forall (fun o => Recording Restorable Readable o.1) some_operations).
  { repeat constructor; try (intros t _; reflexivity); intros b _; by exists b. }
  destruct (recorded_session_replays (fun s => s) "01S" 0 some_operations some_files some_db (fun l => reflexivity l)
    Hos Hheld Hready) as (rows & Hp & Hs & Hr). fold st in Hp, Hr.
  assert (Hn : Forall Unpurged (answered_in "01S" (rows_of st.2))) by (vm_compute; repeat constructor).
  destruct (restore_whole_session _ _ _ _).1 as [[out|e]|].
  - destruct Hr as (_ & _ & Hall & _). exists rows. split; [exact Hp|]. split; [exact Hs|].
    clear -Hall. induction Hall as [|r c rows cs Hrc _ IH]; [done|]. cbn. by rewrite (sh_call _ _ _ Hrc), IH.
  - destruct Hr as (before & r & after & at_ & Er & _ & Ha & _). rewrite <- Hp in Hn. rewrite Er in Hn.
    apply Forall_app in Hn as [_ Hn]. inversion Hn as [|? ? Hu]. unfold Unpurged in Hu. congruence.
  - done.
Defined.
End Run.
