(* ===== verification/InitData.v ===== *)
(** * What [init] is asked, and what it plans

    The arguments of the command and their validation (src/src/cli/init/mod.rs),
    the plan (plan.rs), the default directory of the model (model_fetch.rs) and
    the error of the renderers (profile_writer.rs).  A path is its text; a
    number is the value its field holds. *)

From S2P Require Import Prelude Str Errors Disk.

(** ** Arguments *)
Module Kind.
Inductive SourceKind := Mysql | Postgres | Sqlite | SshLog | LocalLog.
#[global] Instance SourceKind_eq_dec : EqDecision SourceKind.
Proof. solve_decision. Defined.
End Kind.
Export (hints) Kind.
Abbreviation SourceKind := Kind.SourceKind.

Inductive SecretBackendChoice := BackendEnv | BackendKeyring.
Inductive InitScope := ProjectScope | UserScope | ProjectAutoPurge.
#[global] Instance InitScope_eq_dec : EqDecision InitScope.
Proof. solve_decision. Defined.
Inductive McpClient := Codex | ClaudeCode | Cursor.
#[global] Instance McpClient_eq_dec : EqDecision McpClient.
Proof. solve_decision. Defined.

Record InitArgs := mkInitArgs {
  a_profile : option string;
  a_source_kind : option SourceKind;
  a_scope : option InitScope;
  a_source_host : option string;
  a_source_port : option N;
  a_source_database : option string;
  a_source_username : option string;
  a_source_password_env : option string;
  a_secret_backend : SecretBackendChoice;
  a_keyring_service : option string;
  a_keyring_account : option string;
  a_no_keyring_write : bool;
  a_source_ssh_host : option string;
  a_source_local_port : option N;
  a_source_path : option string;
  a_source_json_text_columns : list string;
  a_clients : list McpClient;
  a_no_mcp_config : bool;
  a_no_agents_md : bool;
  a_also_claude_md : bool;
  a_allow_overwrite : bool;
  a_production : bool;
  a_model_dir : option string;
  a_allow_policy_overwrite : bool;
  a_non_interactive : bool;
  a_print_only : bool;
  a_write_all : bool;
  a_smoke_check : bool;
  a_discover_ssh_host : option string;
  a_discover_env_path : option string;
  a_accept_prod_rw : option string;
  a_allow_new_ssh_host : bool }.

Definition default_for_test : InitArgs := {|
  a_profile := None; a_source_kind := None; a_scope := None; a_source_host := None; a_source_port := None;
  a_source_database := None; a_source_username := None; a_source_password_env := None;
  a_secret_backend := BackendEnv; a_keyring_service := None; a_keyring_account := None; a_no_keyring_write := false;
  a_source_ssh_host := None; a_source_local_port := None; a_source_path := None; a_source_json_text_columns := [];
  a_clients := []; a_no_mcp_config := false; a_no_agents_md := false; a_also_claude_md := false;
  a_allow_overwrite := false; a_production := false; a_model_dir := None; a_allow_policy_overwrite := false;
  a_non_interactive := false; a_print_only := false; a_write_all := false; a_smoke_check := false;
  a_discover_ssh_host := None; a_discover_env_path := None; a_accept_prod_rw := None; a_allow_new_ssh_host := false |}.

Definition is_some {A} (o : option A) : bool := match o with Some _ => true | None => false end.
Definition refuse {A} (parts : list string) : result LensError A := Err (Errors.Profile (concat_str parts)).
(** [if bad { return Err(..) }] *)
Definition refuse_if (bad : bool) (detail : string) : result LensError unit := if bad then refuse [detail] else Ok tt.

(** the warning of a flag that is ignored is not modelled *)
Definition validate_backend (a : InitArgs) : result LensError unit :=
  match a_secret_backend a with
  | BackendEnv =>
    refuse_if (is_some (a_keyring_service a) || is_some (a_keyring_account a))
      "--source-password-keyring-service/account require --secret-backend keyring"
  | BackendKeyring =>
    _ ← refuse_if (is_some (a_source_password_env a)) "--source-password-env conflicts with --secret-backend keyring";
    match a_non_interactive a, a_source_kind a with
    | true, Some (Kind.Mysql | Kind.Postgres) =>
      _ ← refuse_if (negb (a_no_keyring_write a))
            "--non-interactive with --secret-backend keyring requires --no-keyring-write (operator-managed entry); interactive password capture impossible without a TTY";
      _ ← refuse_if (negb (is_some (a_keyring_service a)))
            "--non-interactive with --secret-backend keyring requires --source-password-keyring-service";
      refuse_if (negb (is_some (a_keyring_account a)))
        "--non-interactive with --secret-backend keyring requires --source-password-keyring-account"
    | _, _ => Ok tt
    end
  end.

Definition validate_required (a : InitArgs) : result LensError unit :=
  if negb (a_non_interactive a) then Ok tt else
  _ ← refuse_if (negb (is_some (a_profile a))) "--non-interactive requires --profile <name>";
  _ ← refuse_if (negb (is_some (a_source_kind a)) && negb (is_some (a_discover_ssh_host a)))
        "--non-interactive requires --source-kind <mysql|postgres|sqlite|ssh-log|local-log>";
  _ ← match a_source_kind a with
      | Some Kind.SshLog =>
        _ ← refuse_if (negb (is_some (a_source_host a))) "--source-kind ssh-log requires --source-host <host>";
        refuse_if (negb (is_some (a_source_path a))) "--source-kind ssh-log requires --source-path <log-path>"
      | _ => Ok tt
      end;
  match a_source_kind a with
  | Some Kind.LocalLog => refuse_if (negb (is_some (a_source_path a))) "--source-kind local-log requires --source-path <log-path>"
  | _ => Ok tt
  end.

Definition validate (a : InitArgs) : result LensError unit :=
  _ ← validate_backend a;
  _ ← validate_required a;
  _ ← match a_accept_prod_rw a with
      | Some confirm =>
        refuse_if (negb (String.eqb confirm (default ""%string (a_discover_ssh_host a))))
          "--accept-prod-rw value must equal --discover-ssh-host (type-the-host-twice consent)"
      | None => Ok tt
      end;
  refuse_if (is_some (a_discover_ssh_host a) && a_non_interactive a && negb (is_some (a_accept_prod_rw a)))
    "--non-interactive discovery requires --accept-prod-rw=<host> (Path A only); interactive Path B/C selection unavailable without TTY".

(** ** The plan *)
Inductive CredentialClass := ManuallyEntered | ProdRwCloned.
#[global] Instance CredentialClass_eq_dec : EqDecision CredentialClass.
Proof. solve_decision. Defined.

Module Choice.
Inductive AutoPurgeChoice := Off | Warn | Purge.
#[global] Instance AutoPurgeChoice_eq_dec : EqDecision AutoPurgeChoice.
Proof. solve_decision. Defined.
End Choice.
Export (hints) Choice.
Abbreviation AutoPurgeChoice := Choice.AutoPurgeChoice.

Inductive PlannedSecret :=
| PlannedEnv (var : string)
| PlannedKeyring (service account : string) (write_value : option string).
(** [PartialEq]: the value to write is left out *)
Definition planned_eq (a b : PlannedSecret) : bool :=
  match a, b with
  | PlannedEnv lv, PlannedEnv rv => String.eqb lv rv
  | PlannedKeyring ls la _, PlannedKeyring rs ra _ => String.eqb ls rs && String.eqb la ra
  | _, _ => false
  end.

(** [discovered_at]: nanoseconds since the epoch *)
Record ProfileSection := mkSection {
  s_name : string;
  s_production : bool;
  s_source_kind : SourceKind;
  s_source_host : option string;
  s_source_port : option N;
  s_source_database : option string;
  s_source_username : option string;
  s_source_password_env : option string;
  s_source_secret : option PlannedSecret;
  s_source_ssh_host : option string;
  s_source_local_port : option N;
  s_source_path : option string;
  s_source_json_text_columns : list string;
  s_policy_path : option string;
  s_schema_allowlist : list string;
  s_snapshot_retention_days : option N;
  s_discovered_from_ssh_host : option string;
  s_discovered_from_path : option string;
  s_discovered_at : option Z;
  s_discovered_fingerprint : option string;
  s_credential_class : CredentialClass;
  s_auto_purge : AutoPurgeChoice }.

Record McpTarget := mkMcpTarget {
  t_client : McpClient; t_path : string; t_command : string; t_args : list string; t_profile_name : string }.
Record AgentsMdPatch := mkAgentsMdPatch { am_path : string; am_also_claude_md : option string }.
Record PolicyWriteIntent := mkPolicyWriteIntent { pw_path : string; pw_model_dir : string }.
Record FetchIntent := mkFetchIntent { fi_model_dir : option string }.
Record InitPlan := mkInitPlan {
  profile_path : string;
  profile_scope : InitScope;
  profile_section : ProfileSection;
  policy_write : option PolicyWriteIntent;
  fetch_intent : option FetchIntent;
  mcp_targets : list McpTarget;
  agents_md : option AgentsMdPatch;
  smoke_check_password_env_value : option string }.

(** ** The directory of the model *)
Definition MODEL_PATH_SUFFIX : list string := ["gaze"; "models"; "kiji-distilbert"]%string.
Definition append_model_suffix (base : string) : string := fold_left join_path MODEL_PATH_SUFFIX base.
Definition not_empty (p : option string) : option string :=
  match p with Some p => if String.eqb p "" then None else Some p | None => None end.
Definition resolve_model_dir_from_env (explicit xdg_data_home home : option string) : result LensError string :=
  match explicit with
  | Some path => Ok path
  | None =>
    match not_empty xdg_data_home with
    | Some base => Ok (append_model_suffix base)
    | None =>
      home ← ok_or (not_empty home) (Errors.Profile "HOME unset; cannot resolve default model dir");
      Ok (append_model_suffix (join_path (join_path home ".local") "share"))
    end
  end.

(** ** Errors of the renderers *)
Inductive RenderError :=
| Collision (name : string)
| Malformed (path : string) (line column : N) (source_msg : string).
Definition render_error_display (e : RenderError) : string :=
  match e with
  | Collision name =>
    concat_str ["profile `"; name; "` already exists; rerun with --allow-overwrite or pick a different name"]
  | Malformed path line column source_msg =>
    concat_str ["malformed existing toml at "; path; " at line "; num line; ", column "; num column; ": "; source_msg]
  end%string.

(** names of the kinds in the profile file *)
Definition source_kind_str_toml (k : SourceKind) : string :=
  match k with
  | Kind.Mysql => "mysql" | Kind.Postgres => "postgres" | Kind.Sqlite => "sqlite"
  | Kind.SshLog => "ssh_log" | Kind.LocalLog => "local_log"
  end.
