(* ===== verification/AgentsMd.v ===== *)
(** * The snippet in AGENTS.md

    Models src/src/cli/init/agents_md.rs with its template agents_snippet.md:
    the block between the two markers is added, or replaced where it is.  Text
    is bytes. *)

From S2P Require Import Prelude Str Errors Text InitData.

Definition SNIPPET_TEMPLATE : bytes := str_bytes (quoted "## gaze-lens

This project uses [gaze-lens](https://github.com/CertaMesh/gaze-lens) for
PII-safe read-only investigation against live production data. AI agents
reach the 6 CLI subcommands (`serve`, `init`, `query`, `replay`, `check`,
`demo`) and the 5 MCP tools (`query`, `schema`, `list_tables`, `log_tail`,
`log_grep`) over stdio.

### Profiles

The configured profiles are: {{PROFILES}}. Configs live in `.gaze-lens.toml`
(project) or `~/.gaze-lens/profiles.toml` (user). Run `gaze-lens check` to
verify connectivity for every profile.

### Calling MCP Tools

Every MCP tool call requires a `profile` argument selecting which configured
source to dispatch. Example:

```json
{'tool': 'query', 'args': {'profile': '{{FIRST_PROFILE}}', 'table': 'users', 'limit': 5}}
```

Pass `profile` matching one of the configured names listed above. Empty or
unknown profile returns `invalid_params` with the loaded profile list.

### Quickstart

```sh
gaze-lens check
gaze-lens query --profile {{FIRST_PROFILE}} --table users --limit 5
gaze-lens serve
gaze-lens replay <session_ulid>
```

All retrievals route through `Session::dispatch_tool` and pass through the
Gaze redaction pipeline before any value is returned or persisted to the
manifest. Replay is local-only — raw values never leave your machine.
").
Definition START_MARKER : bytes := str_bytes "<!-- gaze-lens:init:start -->".
Definition END_MARKER : bytes := str_bytes "<!-- gaze-lens:init:end -->".
Definition NL : ascii := ascii_of_N 10.

Definition snippet (profile_name : string) : bytes :=
  let profiles := str_bytes (concat_str ["`"; profile_name; "`"]) in
  replace_text (str_bytes "{{FIRST_PROFILE}}") (str_bytes profile_name)
    (replace_text (str_bytes "{{PROFILES}}") profiles SNIPPET_TEMPLATE).
Definition agents_block (profile_name : string) : bytes :=
  START_MARKER ++ [NL] ++ snippet profile_name ++ [NL] ++ END_MARKER ++ [NL].

Definition marker_error {A} (parts : list string) : result RenderError A := Err (Collision (concat_str parts)).

(** the text between the indices of the two markers is replaced *)
Definition bounded_replace (existing block : bytes) (s_idx e_idx : nat) : bytes :=
  let before := take s_idx existing in
  let after := drop (e_idx + length END_MARKER) existing in
  before ++ block ++ default after (strip_prefix NL after).

Definition render_agents_md_patch (existing : option bytes) (profile_name : string) : result RenderError bytes :=
  let block := agents_block profile_name in
  match existing with
  | None => Ok block
  | Some existing =>
    let start_count := count_text START_MARKER existing in
    let end_count := count_text END_MARKER existing in
    if 1 <? start_count then marker_error ["AGENTS.md duplicate start marker (found "; num start_count; ")"]
    else if 1 <? end_count then marker_error ["AGENTS.md duplicate end marker (found "; num end_count; ")"]
    else if (start_count =? 1) && (end_count =? 1) then
      let s_idx := default 0%nat (find_text START_MARKER existing) in
      let e_idx := default 0%nat (find_text END_MARKER existing) in
      if Nat.ltb e_idx s_idx then marker_error ["AGENTS.md end marker before start marker"]
      else Ok (bounded_replace existing block s_idx e_idx)
    else if (start_count =? 0) && (0 <? end_count) then marker_error ["AGENTS.md end marker without start marker"]
    else if (0 <? start_count) && (end_count =? 0) then marker_error ["AGENTS.md start marker without end marker"]
    else
      let sep := match last existing with Some c => if beq c NL then [] else [NL] | None => [NL] end in
      Ok (existing ++ sep ++ [NL] ++ block)
  end.

(** ** Markers *)
Definition Clean (s : bytes) : Prop := ¬ Occurs START_MARKER s ∧ ¬ Occurs END_MARKER s.

(** the text of the two markers that the lemmas use *)
Definition LT : ascii := "<".
Lemma start_shape : ∃ p, START_MARKER = LT :: p ∧ LT ∉ p ∧ NL ∉ START_MARKER.
Proof. eexists. split; [reflexivity|]. split; apply (bool_decide_eq_true_1 _); vm_compute; reflexivity. Qed.
Lemma end_shape : ∃ p, END_MARKER = LT :: p ∧ LT ∉ p ∧ NL ∉ END_MARKER.
Proof. eexists. split; [reflexivity|]. split; apply (bool_decide_eq_true_1 _); vm_compute; reflexivity. Qed.
Lemma start_not_nil : START_MARKER ≠ [].
Proof. done. Qed.
Lemma end_not_nil : END_MARKER ≠ [].
Proof. done. Qed.
Lemma start_no_nl : NL ∉ START_MARKER.
Proof. by destruct start_shape as (? & ? & ? & ?). Qed.
Lemma end_no_nl : NL ∉ END_MARKER.
Proof. by destruct end_shape as (? & ? & ? & ?). Qed.
Lemma markers_apart : ¬ Occurs START_MARKER END_MARKER ∧ ¬ Occurs END_MARKER START_MARKER.
Proof. split; apply split_once_text_none; reflexivity. Qed.
Lemma markers_lengths : (length END_MARKER <= length START_MARKER)%nat.
Proof. by apply Nat.leb_le. Qed.
Lemma find_start a b : ¬ Occurs START_MARKER a → split_once_text START_MARKER (a ++ START_MARKER ++ b) = Some (a, b).
Proof. destruct start_shape as (p & E & Hp & _). rewrite E. by apply split_once_text_fresh. Qed.
Lemma find_end a b : ¬ Occurs END_MARKER a → split_once_text END_MARKER (a ++ END_MARKER ++ b) = Some (a, b).
Proof. destruct end_shape as (p & E & Hp & _). rewrite E. by apply split_once_text_fresh. Qed.

Lemma clean_nl x y : Clean x → Clean y → Clean (x ++ NL :: y).
Proof.
  intros [Hs He] [Hs' He']. split; intros Ho; (apply occurs_sep in Ho as [?|?]; [done|done|done|]).
  - apply start_no_nl.
  - apply end_no_nl.
Qed.
Lemma clean_nil : Clean [].
Proof. split; apply split_once_text_none; reflexivity. Qed.
Lemma clean_part x y z : Clean (x ++ y ++ z) → Clean y.
Proof. intros [Hs He]. split; intros Ho; [apply Hs|apply He]; by apply occurs_app. Qed.

(** an occurrence of the other marker in a text followed by a marker *)
Lemma before_start x y : ¬ Occurs END_MARKER x → ¬ Occurs END_MARKER y → ¬ Occurs END_MARKER (x ++ START_MARKER ++ NL :: y).
Proof.
  intros Hx Hy Ho. rewrite app_assoc in Ho. apply occurs_sep in Ho as [Ho|Ho]; [|done|done|apply end_no_nl].
  destruct start_shape as (p & E & _), end_shape as (q & E' & Hq & _). rewrite E in Ho.
  apply occurs_cut in Ho as [?|Ho]; [done| |by rewrite E'].
  rewrite <- E in Ho. by apply (proj2 markers_apart).
Qed.

#[local] Opaque snippet START_MARKER END_MARKER NL.

(** ** What a patched file is: one block, and text without markers around it *)
Record Patched (out before after : bytes) (name : string) : Prop := {
  patched_text : out = before ++ agents_block name ++ after;
  patched_before : Clean before;
  patched_after : Clean after }.

Lemma count_start_one a b : ¬ Occurs START_MARKER a → ¬ Occurs START_MARKER b → count_text START_MARKER (a ++ START_MARKER ++ b) = 1.
Proof. intros Ha Hb. rewrite (count_text_some _ _ _ _ start_not_nil (find_start a b Ha)). by rewrite count_text_none. Qed.
Lemma count_end_one a b : ¬ Occurs END_MARKER a → ¬ Occurs END_MARKER b → count_text END_MARKER (a ++ END_MARKER ++ b) = 1.
Proof. intros Ha Hb. rewrite (count_text_some _ _ _ _ end_not_nil (find_end a b Ha)). by rewrite count_text_none. Qed.

(** a patched file is patched again in place *)
Lemma patch_again out before after name again :
  Clean (snippet name) → Patched out before after name →
  render_agents_md_patch (Some out) again = Ok (before ++ agents_block again ++ after).
Proof.
  intros Hsn [-> Hb Ha].
  set (head := before ++ START_MARKER ++ NL :: snippet name ++ [NL]).
  assert (Eout : before ++ agents_block name ++ after = head ++ END_MARKER ++ NL :: after).
  { unfold head, agents_block. rewrite <- !app_assoc. cbn. by rewrite <- !app_assoc. }
  assert (Hh : ¬ Occurs END_MARKER head).
  { apply before_start; [apply Hb|]. apply (proj2 (clean_nl _ _ Hsn clean_nil)). }
  assert (Hend : ¬ Occurs END_MARKER (NL :: after)) by apply (proj2 (clean_nl [] after clean_nil Ha)).
  assert (Est : before ++ agents_block name ++ after =
    before ++ START_MARKER ++ (NL :: snippet name ++ NL :: END_MARKER ++ NL :: after)).
  { unfold agents_block. rewrite <- !app_assoc. done. }
  assert (Hrest : ¬ Occurs START_MARKER (NL :: snippet name ++ NL :: END_MARKER ++ NL :: after)).
  { intros Ho. apply (occurs_sep _ NL []) in Ho as [Ho|Ho]; [by apply (proj1 clean_nil)| |done|apply start_no_nl].
    apply occurs_sep in Ho as [Ho|Ho]; [by apply (proj1 Hsn)| |done|apply start_no_nl].
    apply occurs_sep in Ho as [Ho|Ho]; [by apply (proj1 markers_apart)|by apply (proj1 Ha)|done|apply start_no_nl]. }
  unfold render_agents_md_patch.
  assert (count_text START_MARKER (before ++ agents_block name ++ after) = 1) as ->
    by (rewrite Est; apply count_start_one; [apply Hb|done]).
  assert (count_text END_MARKER (before ++ agents_block name ++ after) = 1) as ->
    by (rewrite Eout; by apply count_end_one).
  assert (find_text START_MARKER (before ++ agents_block name ++ after) = Some (length before)) as ->
    by (unfold find_text; rewrite Est, find_start; [done|apply Hb]).
  assert (find_text END_MARKER (before ++ agents_block name ++ after) = Some (length head)) as ->
    by (unfold find_text; rewrite Eout, find_end; done).
  cbn [N.ltb N.compare N.eqb andb Pos.compare Pos.compare_cont Pos.eqb default from_option id].
  destruct (Nat.ltb_spec (length head) (length before)) as [Hlt|_].
  { unfold head in Hlt. rewrite length_app in Hlt. lia. }
  f_equal. unfold bounded_replace. rewrite Est at 1. rewrite take_app_length. rewrite Eout.
  rewrite <- drop_drop, !drop_app_length. cbn [strip_prefix]. by rewrite (proj2 (beq_true NL NL) eq_refl).
Qed.

Lemma clean_line_ends x n : Clean x → Clean (x ++ replicate n NL).
Proof.
  revert x. induction n as [|n IH]; intros x Hx; cbn [replicate]; [by rewrite app_nil_r|].
  change (x ++ NL :: replicate n NL) with (x ++ [NL] ++ replicate n NL). rewrite app_assoc.
  apply IH, clean_nl; [done|apply clean_nil].
Qed.

(** where the second marker can be *)
Lemma markers_in_order old a b a' b' :
  split_once_text START_MARKER old = Some (a, b) → split_once_text END_MARKER old = Some (a', b') →
  (length a <= length a')%nat → ∃ inner, old = a ++ START_MARKER ++ inner ++ END_MARKER ++ b' ∧ a' = a ++ START_MARKER ++ inner.
Proof.
  intros Es%split_once_text_first Ee%split_once_text_first Hle. destruct Es as [Es _], Ee as [Ee _].
  destruct start_shape as (p & Ep & Hp & _), end_shape as (q & Eq & Hq & _).
  assert (Hge : (length a + length START_MARKER <= length a')%nat).
  { destruct (decide (length a + length START_MARKER <= length a')%nat) as [|Hlt]; [done|]. exfalso.
    assert (Hl : old !! length a' = Some LT) by (rewrite Ee, Eq; by apply list_lookup_middle).
    rewrite Es, lookup_app_r, lookup_app_l in Hl by lia.
    destruct (length a' - length a)%nat as [|k] eqn:Ek.
    - (* at the same place: the markers differ *)
      assert (length a = length a') as Hlen by lia. rewrite Es in Ee. apply app_inj_1 in Ee as [_ Ee]; [|done].
      apply (f_equal (take (length END_MARKER))) in Ee. rewrite take_app_length, take_app_le in Ee by apply markers_lengths.
      apply (proj2 markers_apart). exists [], (drop (length END_MARKER) START_MARKER). cbn.
      by rewrite <- Ee, take_drop.
    - rewrite Ep in Hl. cbn in Hl. by apply list_elem_of_lookup_2 in Hl. }
  assert (Ea : a' = a ++ START_MARKER ++ take (length a' - length a - length START_MARKER) b).
  { rewrite Es in Ee. apply (f_equal (take (length a'))) in Ee. rewrite take_app_length in Ee.
    by rewrite !take_app_ge in Ee by lia. }
  eexists. split; [|exact Ea]. rewrite Ee, Ea at 1. by rewrite <- !app_assoc.
Qed.

Lemma patched_existing old name out :
  Clean (snippet name) → render_agents_md_patch (Some old) name = Ok out →
  ∃ before after, Patched out before after name ∧
    ((Clean old ∧ after = [] ∧ ∃ n, before = old ++ replicate n NL) ∨
     (∃ inner rest, old = before ++ START_MARKER ++ inner ++ END_MARKER ++ rest ∧ (rest = after ∨ rest = NL :: after))).
Proof.
  intros Hsn. unfold render_agents_md_patch.
  destruct (N.ltb_spec 1 (count_text START_MARKER old)) as [|Hs]; [done|].
  destruct (N.ltb_spec 1 (count_text END_MARKER old)) as [|He]; [done|].
  destruct (N.eqb_spec (count_text START_MARKER old) 1) as [Hs1|Hs1], (N.eqb_spec (count_text END_MARKER old) 1) as [He1|He1]; cbn [andb].
  - apply (count_text_one _ _ start_not_nil) in Hs1 as (a & b & Es & Hb).
    apply (count_text_one _ _ end_not_nil) in He1 as (a' & b' & Ee & Hb').
    unfold find_text. rewrite Es, Ee. cbn [fmap option_fmap option_map fst default from_option id].
    destruct (Nat.ltb_spec (length a') (length a)) as [|Hle]; [done|]. intros [= <-].
    destruct (markers_in_order _ _ _ _ _ Es Ee Hle) as (inner & Eold & Ea').
    assert (Eb : b = inner ++ END_MARKER ++ b').
    { apply split_once_text_first in Es as [Es _]. rewrite Es in Eold. by do 2 apply app_inv_head in Eold. }
    exists a, (default b' (strip_prefix NL b')). split.
    2:{ right. exists inner, b'. split; [done|]. destruct b' as [|c b']; [by left|]. cbn [strip_prefix].
        destruct (beq c NL) eqn:Ec; [apply beq_true in Ec as ->; by right|by left]. }
    assert (Ha : Clean a).
    { split; [by eapply split_once_text_before|]. apply (split_once_text_before _ _ _ _ end_not_nil) in Ee.
      intros Ho. apply Ee. rewrite Ea'. by apply occurs_app_l. }
    assert (Hrest : Clean b').
    { split; [|done]. intros Ho. apply Hb. rewrite Eb. apply occurs_app_r. by apply occurs_app_r. }
    split; [| done |].
    + unfold bounded_replace. rewrite Eold at 1. rewrite take_app_length. rewrite Eold.
      assert (El : a ++ START_MARKER ++ inner ++ END_MARKER ++ b' = a' ++ END_MARKER ++ b') by (rewrite Ea'; by rewrite <- !app_assoc).
      rewrite El, <- drop_drop, !drop_app_length. done.
    + destruct b' as [|c b']; [done|]. cbn [strip_prefix]. destruct (beq c NL); [|done]. cbn.
      apply (clean_part [c] b' []). cbn. by rewrite app_nil_r.
  - assert (count_text END_MARKER old = 0) as -> by lia. by rewrite Hs1.
  - assert (count_text START_MARKER old = 0) as -> by lia. by rewrite He1.
  - assert (Hs0 : count_text START_MARKER old = 0) by lia. assert (He0 : count_text END_MARKER old = 0) by lia.
    rewrite Hs0, He0. cbn [N.eqb N.ltb N.compare andb]. intros [= <-].
    assert (Hc : Clean old) by (split; by apply count_text_zero).
    set (sep := match last old with Some c => if beq c NL then [] else [NL] | None => [NL] end).
    assert (∃ n, sep ++ [NL] = replicate n NL) as [n En].
    { unfold sep. destruct (last old) as [c|]; [destruct (beq c NL)|]; [by exists 1%nat|by exists 2%nat|by exists 2%nat]. }
    exists (old ++ replicate n NL), []. split; [|left; split_and!; [done|done|by exists n]].
    split; [|by apply clean_line_ends|apply clean_nil]. rewrite app_nil_r, <- En. by rewrite <- !app_assoc.
Qed.

(** Patching AGENTS.md changes one block and nothing else. When it succeeds
    the result is the block of the profile between a text before and a text
    after it, which hold no marker; a file without markers is the start of the
    text before, followed by line ends only; in a file that has the markers the
    texts are what surrounded them, up to one line end after the block; and
    patching the result again, for this or another profile, replaces exactly the
    block. *)
Theorem agents_patch_bounded existing name out :
  Clean (snippet name) → render_agents_md_patch existing name = Ok out →
  ∃ before after, Patched out before after name ∧
    (∀ again, render_agents_md_patch (Some out) again = Ok (before ++ agents_block again ++ after)) ∧
    match existing with
    | None => before = [] ∧ after = []
    | Some old =>
      (Clean old ∧ after = [] ∧ ∃ n, before = old ++ replicate n NL) ∨
      (∃ inner rest, old = before ++ START_MARKER ++ inner ++ END_MARKER ++ rest ∧ (rest = after ∨ rest = NL :: after))
    end.
Proof.
  intros Hsn Hr. assert (Hp : ∃ before after, Patched out before after name ∧ match existing with
    | None => before = [] ∧ after = []
    | Some old =>
      (Clean old ∧ after = [] ∧ ∃ n, before = old ++ replicate n NL) ∨
      (∃ inner rest, old = before ++ START_MARKER ++ inner ++ END_MARKER ++ rest ∧ (rest = after ∨ rest = NL :: after))
    end).
  { destruct existing as [old|]; [by apply patched_existing|]. injection Hr as <-. exists [], [].
    split_and!; [|done|done]. split; [by rewrite app_nil_r|apply clean_nil|apply clean_nil]. }
  destruct Hp as (before & after & Hp & He). exists before, after. split_and!; [done| |done].
  intros again. by apply patch_again with name.
Qed.

(** a file with notes after an old block *)
Lemma agents_patch_bounded_witness :
  let old := str_bytes "Notes" ++ START_MARKER ++ str_bytes "old" ++ END_MARKER ++ str_bytes "More" in
  Clean (snippet "prod") ∧
  ∃ out before after, render_agents_md_patch (Some old) "prod" = Ok out ∧ Patched out before after "prod".
Proof.
  intros old.
  assert (Hc : Clean (snippet "prod")) by (split; apply split_once_text_none; vm_compute; reflexivity).
  split; [exact Hc|].
  destruct (render_agents_md_patch (Some old) "prod") as [out|] eqn:E; [|vm_compute in E; discriminate].
  destruct (agents_patch_bounded (Some old) "prod" out Hc E) as (before & after & Hp & _).
  exists out, before, after. split; [reflexivity|exact Hp].
Defined.
