(* ===== verification/Toml.v ===== *)
(** * TOML documents, as they are edited

    The interface to toml_edit: a document is the tree of its tables, whose
    entries keep their order; comments and spacing belong to the text, which the
    library writes from the tree and from the text it was read from.  Then the
    renderers of the profile file (src/src/cli/init/profile_writer.rs) and of the
    production policy (policy_writer.rs). *)

From S2P Require Import Prelude Utf8 Str Errors LensValue Profile Policy Retention InitData.

Inductive TValue :=
| VStr (s : string)
| VInt (n : Z)
| VBool (b : bool)
| VArray (l : list TValue)
| VInline (t : list (string * TValue))
| VOther (text : string).
Inductive TItem :=
| IValue (v : TValue)
| ITable (t : list (string * TItem))
| ITables (ts : list (list (string * TItem))).
Abbreviation TTable := (list (string * TItem)).

Record TomlError := mkTomlError { span_start : option N; toml_message : string }.
Class TomlEdit := {
  toml_parse : string → result TomlError TTable;
  (** [to_string] of a document read from the given text, or of a new one *)
  toml_text : option string → TTable → string;
}.

(** ** Tables: [get], [insert] (in place, or at the end) and [remove] *)
Section Entries.
Context {V : Type}.
Fixpoint get (k : string) (t : list (string * V)) : option V :=
  match t with [] => None | (k', v) :: t => if String.eqb k' k then Some v else get k t end.
Fixpoint insert (k : string) (v : V) (t : list (string * V)) : list (string * V) :=
  match t with
  | [] => [(k, v)]
  | (k', v') :: t => if String.eqb k' k then (k', v) :: t else (k', v') :: insert k v t
  end.
Definition remove (k : string) (t : list (string * V)) : list (string * V) :=
  filter (fun e => String.eqb e.1 k = false) t.
End Entries.

Definition as_str (i : TItem) : option string := match i with IValue (VStr s) => Some s | _ => None end.
Definition as_table (i : TItem) : option TTable := match i with ITable t => Some t | _ => None end.
Definition value_str (v : TValue) : option string := match v with VStr s => Some s | _ => None end.
Definition as_array (i : TItem) : option (list TValue) := match i with IValue (VArray l) => Some l | _ => None end.

(** ** Errors with their position *)
Definition line_column_from_input (input : string) (byte_index : N) : N * N := line_column (chars input) byte_index.
Definition position (input : string) (e : TomlError) : N * N :=
  match span_start e with Some start => line_column_from_input input start | None => (0, 0) end.
Definition toml_malformed (path input : string) (e : TomlError) : RenderError :=
  let '(line, column) := position input e in Malformed path line column (toml_message e).

Section Writers.
Context `{TomlEdit}.

Definition parse_existing (existing : option string) : result RenderError TTable :=
  match existing with
  | Some s => map_err (toml_parse s) (toml_malformed "" s)
  | None => Ok []
  end.

(** ** The profile file *)
Definition entry (key : string) (v : TValue) : TTable := [(key, IValue v)].
Definition entry_if {A} (o : option A) (key : string) (f : A → TValue) : TTable :=
  match o with Some a => [(key, IValue (f a))] | None => [] end.
Definition entry_when (b : bool) (key : string) (v : TValue) : TTable := if b then [(key, IValue v)] else [].

Definition secret_table (secret : PlannedSecret) : list (string * TValue) :=
  match secret with
  | PlannedEnv var => [("type", VStr "env"); ("var", VStr var)]
  | PlannedKeyring service account _ => [("type", VStr "keyring"); ("service", VStr service); ("account", VStr account)]
  end%string.

Definition credential_class_str (c : CredentialClass) : string :=
  match c with ManuallyEntered => "manually-entered" | ProdRwCloned => "prod-rw-cloned" end.

Definition rendered_at `{Times} (ts : Z) : string :=
  let seconds := (ts / 1000000000)%Z in
  default (str_of (print_i64 seconds)) (rfc3339 seconds (Z.to_N (ts mod 1000000000)%Z)).

Definition is_sql (k : SourceKind) : bool := match k with Kind.Mysql | Kind.Postgres => true | _ => false end.

Definition source_table (s : ProfileSection) : TTable :=
  entry "kind" (VStr (source_kind_str_toml (s_source_kind s))) ++
   entry_if (s_source_host s) "host" VStr ++
   entry_if (s_source_port s) "port" (fun p => VInt (Z.of_N p)) ++
   entry_if (s_source_database s) "database" VStr ++
   entry_if (s_source_username s) "username" VStr ++
   entry_if (s_source_password_env s) "password_env" VStr ++
   entry_if (s_source_secret s) "secret" (fun secret => VInline (secret_table secret)) ++
   entry_if (s_source_ssh_host s) "ssh_host" VStr ++
   entry_if (s_source_local_port s) "local_port" (fun p => VInt (Z.of_N p)) ++
   entry_if (s_source_path s) "path" VStr ++
   entry_when (negb (is_nil (s_source_json_text_columns s)) && bool_decide (s_source_kind s = Kind.Sqlite))
     "json_text_columns" (VArray (VStr <$> s_source_json_text_columns s)) ++
   entry_when (is_sql (s_source_kind s)) "readonly_required" (VBool true).

Definition build_profile_table `{Times} (s : ProfileSection) : TTable :=
  entry "name" (VStr (s_name s)) ++
   entry_when (s_production s) "production" (VBool true) ++
   entry_if (s_policy_path s) "policy" VStr ++
   entry_when (negb (is_nil (s_schema_allowlist s))) "schema_allowlist" (VArray (VStr <$> s_schema_allowlist s)) ++
   entry_if (s_snapshot_retention_days s) "snapshot_retention_days" (fun d => VInt (Z.of_N d)) ++
   entry_if (s_discovered_from_ssh_host s) "discovered_from_ssh_host" VStr ++
   entry_if (s_discovered_from_path s) "discovered_from_path" VStr ++
   entry_if (s_discovered_at s) "discovered_at" (fun ts => VStr (rendered_at ts)) ++
   entry_if (s_discovered_fingerprint s) "discovered_ssh_host_key_fingerprint" VStr ++
   entry_when (negb (bool_decide (s_credential_class s = ManuallyEntered)) || is_some (s_discovered_from_ssh_host s))
     "credential_class" (VStr (credential_class_str (s_credential_class s))) ++
   match s_auto_purge s with
   | Choice.Off => []
   | Choice.Warn => entry "auto_purge" (VStr "warn")
   | Choice.Purge => entry "auto_purge" (VStr "purge")
   end ++
   [("source"%string, ITable (source_table s))].

(** a table of the given name *)
Definition names_profile (profile_name : string) (t : TTable) : bool :=
  match get "name" t ≫= as_str with Some n => String.eqb n profile_name | None => false end.
Fixpoint find_index (p : TTable → bool) (ts : list TTable) : option nat :=
  match ts with [] => None | t :: ts => if p t then Some O else S <$> find_index p ts end.

Definition render_profile_toml `{Times} (existing : option string) (section : ProfileSection) (allow_overwrite : bool)
  : result RenderError string :=
  doc ← parse_existing existing;
  array ← match default (ITables []) (get "profiles" doc) with
          | ITables ts => Ok ts
          | _ => Err (Malformed "" 0 0 "profiles is not an array of tables")
          end;
  array ← match find_index (names_profile (s_name section)) array with
          | Some i =>
            if negb allow_overwrite then Err (Collision (s_name section))
            else Ok (<[i := build_profile_table section]> array)
          | None => Ok (array ++ [build_profile_table section])
          end;
  Ok (toml_text existing (insert "profiles" (ITables array) doc)).
End Writers.

(** ** The production policy *)
Inductive PolicyWriteError :=
| AlreadyBelowFloorNeedsConsent (path : string)
| PolicyMalformed (path : string) (line column : N) (source_msg : string).
Definition policy_write_error_display (e : PolicyWriteError) : string :=
  match e with
  | AlreadyBelowFloorNeedsConsent path =>
    concat_str ["production policy "; path; " is below the fail-closed floor; rerun with --allow-policy-overwrite to add `[ner].model_dir` and require default tokenization"]
  | PolicyMalformed path line column source_msg =>
    concat_str ["malformed production policy "; path; " at line "; num line; ", column "; num column; ": "; source_msg]
  end%string.

Record PolicyWriteOutcome := mkPolicyOutcome { po_bytes : option string; po_unchanged : bool }.

(** [PolicyFile::from_toml]: serde's derived reader, with the display of its error *)
Class PolicyToml := { from_toml : string → result string PolicyFile }.

Section PolicyWriter.
Context `{TomlEdit, PolicyToml}.

Definition parse_policy (input path : string) : result PolicyWriteError PolicyFile :=
  map_err (from_toml input) (PolicyMalformed path 0 0).

Definition toml_parse_error (input path : string) (e : TomlError) : PolicyWriteError :=
  let '(line, column) := position input e in PolicyMalformed path line column (toml_message e).

(** the escapes below a space: [\uXXXX] in upper-case hexadecimal *)
Definition hex_digit (n : N) : ascii := if n <? 10 then ascii_of_N (48 + n) else ascii_of_N (55 + n).
Definition escape_control (b : N) : bytes := str_bytes "\u" ++ [hex_digit 0; hex_digit 0; hex_digit (b / 16); hex_digit (b mod 16)].
Definition toml_escape (b : ascii) : bytes :=
  if code b =? 8 then str_bytes "\b"
  else if code b =? 9 then str_bytes "\t"
  else if code b =? 10 then str_bytes "\n"
  else if code b =? 12 then str_bytes "\f"
  else if code b =? 13 then str_bytes "\r"
  else if code b =? 34 then str_bytes (quoted "\'")
  else if code b =? 92 then str_bytes "\\"
  else if code b <=? 31 then escape_control (code b)
  else [b].
Definition toml_basic_string (input : string) : string :=
  str_of (str_bytes (quoted "'") ++ (str_bytes input ≫= toml_escape) ++ str_bytes (quoted "'")).

Definition render_fresh_policy (model_dir : string) : string :=
  concat_str ["[ner]
model_dir = "; toml_basic_string model_dir; quoted "

[policy]
default_action = 'tokenize'

[policy.database]
# Add column-specific rules here, e.g.:
# columns = [{ column = 'email', class = 'email', action = 'tokenize' }]
"]%string.

(** [!value.trim().is_empty()] of a string *)
Definition is_set (i : option TItem) : bool :=
  match i ≫= as_str with Some value => negb (is_nil (trim (chars value))) | None => false end.
Definition in_table (doc : TTable) (table key : string) : option TItem :=
  t ← get table doc; t ← as_table t; get key t.

Definition policy_is_at_floor (doc : TTable) : bool :=
  is_set (in_table doc "ner" "model_dir") &&
  match in_table doc "policy" "default_action" ≫= as_str with
  | Some action => String.eqb action "tokenize" || String.eqb action "redact"
  | None => false
  end.

(** the table of a key, made when it is missing *)
Definition ensure_root_table (doc : TTable) (key path : string) : result PolicyWriteError TTable :=
  match get key doc with
  | None => Ok []
  | Some i => ok_or (as_table i) (PolicyMalformed path 0 0 (concat_str [key; " is not a table"]))
  end.
Definition ensure_ner_model_dir (doc : TTable) (model_dir path : string) : result PolicyWriteError TTable :=
  ner ← ensure_root_table doc "ner" path;
  let ner := if is_set (get "model_dir" ner) then ner else insert "model_dir" (IValue (VStr model_dir)) ner in
  Ok (insert "ner" (ITable ner) doc).
Definition ensure_default_action (doc : TTable) (path : string) : result PolicyWriteError TTable :=
  policy ← ensure_root_table doc "policy" path;
  let policy := match get "default_action" policy ≫= as_str with
                | None => insert "default_action" (IValue (VStr "tokenize")) policy
                | Some current =>
                  if String.eqb current "preserve" then insert "default_action" (IValue (VStr "tokenize")) policy else policy
                end in
  Ok (insert "policy" (ITable policy) doc).
Definition ensure_database_policy (doc : TTable) (path : string) : result PolicyWriteError TTable :=
  policy ← ensure_root_table doc "policy" path;
  match get "database" policy with
  | None => Ok (insert "policy" (ITable (insert "database" (ITable []) policy)) doc)
  | Some i =>
    _ ← ok_or (as_table i) (PolicyMalformed path 0 0 "policy.database is not a table");
    Ok (insert "policy" (ITable policy) doc)
  end.

Definition render_existing_policy (input model_dir : string) (allow_overwrite : bool) (path : string)
  : result PolicyWriteError PolicyWriteOutcome :=
  doc ← map_err (toml_parse input) (toml_parse_error input path);
  if policy_is_at_floor doc then
    _ ← parse_policy input path;
    Ok (mkPolicyOutcome None true)
  else if negb allow_overwrite then Err (AlreadyBelowFloorNeedsConsent path)
  else
    doc ← ensure_ner_model_dir doc model_dir path;
    doc ← ensure_default_action doc path;
    doc ← ensure_database_policy doc path;
    let rendered := toml_text (Some input) doc in
    _ ← parse_policy rendered path;
    Ok (mkPolicyOutcome (Some rendered) false).

Definition render_production_policy_for_path (existing : option string) (model_dir : string) (allow_overwrite : bool) (path : string)
  : result PolicyWriteError PolicyWriteOutcome :=
  match existing with
  | None =>
    let rendered := render_fresh_policy model_dir in
    _ ← parse_policy rendered path;
    Ok (mkPolicyOutcome (Some rendered) false)
  | Some input => render_existing_policy input model_dir allow_overwrite path
  end.
End PolicyWriter.
