(* ===== verification/McpConfig.v ===== *)
(** * Configuration of MCP clients

    Models src/src/cli/init/mcp_writer.rs: the one [gaze-lens] entry in the
    configuration of Codex (TOML), Claude Code and Cursor (JSON), and the
    migration of the entries that older versions wrote, one for each profile. *)

From S2P Require Import Prelude Utf8 Str Errors LensValue Text InitData Toml.

Definition PRIMARY_KEY : string := "gaze-lens".
Inductive LegacyMigration := PreserveExisting | Migrate.
#[global] Instance LegacyMigration_eq_dec : EqDecision LegacyMigration.
Proof. solve_decision. Defined.

(** ** Entries *)
Record ExistingEntry := mkEntry { e_command : option string; e_args : list string }.
#[global] Instance ExistingEntry_eq_dec : EqDecision ExistingEntry.
Proof. solve_decision. Defined.

Definition entry_matches (e : ExistingEntry) (command : string) (args : list string) : bool :=
  bool_decide (e_command e = Some command) && bool_decide (e_args e = args).
(** [windows(2).find_map(..)] *)
Fixpoint profile_arg (args : list string) : option string :=
  match args with
  | flag :: (name :: _) as rest => if String.eqb flag "--profile" then Some name else profile_arg rest
  | _ => None
  end.
Definition profile_name (e : ExistingEntry) : option string := profile_arg (e_args e).
Definition is_legacy_profile_entry (e : ExistingEntry) : bool :=
  bool_decide (e_command e = Some "gaze-lens"%string) && is_some (profile_name e).

Definition ensure_primary_available (primary : option ExistingEntry) (command : string) (cmd_args : list string)
    (allow_overwrite : bool) (migration : LegacyMigration) : result RenderError unit :=
  match primary with
  | None => Ok tt
  | Some primary =>
    if entry_matches primary command cmd_args then Ok tt
    else if allow_overwrite || (bool_decide (migration = Migrate) && is_legacy_profile_entry primary) then Ok tt
    else Err (Collision (concat_str ["MCP entry `"; PRIMARY_KEY; "`"]))
  end.

Definition toml_entry (item : TItem) : option ExistingEntry :=
  table ← as_table item;
  Some (mkEntry (i ← get "command" table; as_str i)
          (match get "args" table ≫= as_array with Some a => omap value_str a | None => [] end)).

Definition json_str (v : json) : option string := match v with JString s => Some s | _ => None end.
Definition as_object (v : json) : option (list (string * json)) := match v with JObject o => Some o | _ => None end.
Definition json_array (v : json) : option (list json) := match v with JArray l => Some l | _ => None end.
Definition json_entry (value : json) : option ExistingEntry :=
  obj ← as_object value;
  Some (mkEntry (v ← get "command" obj; json_str v)
          (match get "args" obj ≫= json_array with Some a => omap json_str a | None => [] end)).

(** [legacy_toml_keys] and [legacy_json_keys]: one text for the two kinds of item *)
Section Keys.
Context {Item : Type} (entry_of : Item → option ExistingEntry).
Definition ours (key : string) : bool :=
  String.eqb key PRIMARY_KEY || starts_with_text (str_bytes "gaze-lens-") (str_bytes key).
Definition legacy_key (e : string * Item) : option string :=
  entry ← entry_of e.2;
  if ours e.1 && is_legacy_profile_entry entry then Some e.1 else None.
Definition legacy_keys (servers : list (string * Item)) : list string := omap legacy_key servers.
(** [for key in keys { servers.remove(&key); }] *)
Definition without_keys (keys : list string) (servers : list (string * Item)) : list (string * Item) :=
  fold_left (fun servers key => remove key servers) keys servers.
End Keys.
Definition legacy_toml_keys : TTable → list string := legacy_keys toml_entry.
Definition legacy_json_keys : list (string * json) → list string := legacy_keys json_entry.

Definition migration_prompt (keys : list string) : option string :=
  if is_nil keys then None
  else
    let count := num (len keys) in
    Some (concat_str ["Found "; count; " legacy gaze-lens MCP entries from v0.2.x. v0.2.2 requires a single `gaze-lens` entry: compliance isolation is enforced by the mandatory `profile` argument on every MCP tool call, not by per-entry servers (SPEC §MCP server).
Migrating: removes the "; count; " legacy entries and writes one `gaze-lens` entry running `gaze-lens serve`. Agents pass `profile` per tool call.
Declining: leaves the legacy entries in place. Agents updated past v0.2.1 will fail with `invalid_params` until you re-run init or accept the migration here.
Migrate? [Y/n] (default Y — required by v0.2.2)"])%string.

(** ** Codex *)
Section Codex.
Context `{TomlEdit}.

Definition codex_toml_legacy_migration_prompt (existing : option string) : result RenderError (option string) :=
  match existing with
  | None => Ok None
  | Some text =>
    doc ← map_err (toml_parse text) (toml_malformed "" text);
    let keys := match get "mcp_servers" doc ≫= as_table with Some servers => legacy_toml_keys servers | None => [] end in
    Ok (migration_prompt keys)
  end.

Definition codex_entry (command : string) (cmd_args : list string) : TItem :=
  ITable [("command"%string, IValue (VStr command)); ("args"%string, IValue (VArray (VStr <$> cmd_args)))].

Definition render_codex_toml_with_migration (existing : option string) (command : string) (cmd_args : list string)
    (allow_overwrite : bool) (migration : LegacyMigration) : result RenderError string :=
  doc ← parse_existing existing;
  servers ← ok_or (as_table (default (ITable []) (get "mcp_servers" doc)))
              (Malformed "" 0 0 "mcp_servers is not a table");
  let primary := get PRIMARY_KEY servers ≫= toml_entry in
  let keys := legacy_toml_keys servers in
  if negb (is_nil keys) && bool_decide (migration = PreserveExisting) then Ok (default ""%string existing)
  else
    _ ← ensure_primary_available primary command cmd_args allow_overwrite migration;
    let servers := insert PRIMARY_KEY (codex_entry command cmd_args) (without_keys keys servers) in
    Ok (toml_text existing (insert "mcp_servers" (ITable servers) doc)).

Definition render_codex_toml (existing : option string) (command : string) (cmd_args : list string) (allow_overwrite : bool)
  : result RenderError string :=
  render_codex_toml_with_migration existing command cmd_args allow_overwrite
    (if allow_overwrite then Migrate else PreserveExisting).
End Codex.

(** ** Claude Code and Cursor *)
Record JsonFault := mkJsonFault { jf_line : N; jf_column : N; jf_text : string }.
Class JsonFile := {
  (** [from_str::<Value>] and [to_string_pretty] *)
  jf_parse : string → result JsonFault json;
  jf_pretty : json → result string string;
}.

(** [Map::insert]: the entries are in the order of their keys *)
Fixpoint object_insert (k : string) (v : json) (o : list (string * json)) : list (string * json) :=
  match o with
  | [] => [(k, v)]
  | (k', v') :: o' =>
    if String.eqb k' k then (k, v) :: o'
    else if str_lt k k' then (k, v) :: o
    else (k', v') :: object_insert k v o'
  end.

Section McpJson.
Context `{JsonFile}.

Definition json_malformed (e : JsonFault) : RenderError := Malformed "" (jf_line e) (jf_column e) (jf_text e).

Definition mcp_json_legacy_migration_prompt (existing : option string) : result RenderError (option string) :=
  match existing with
  | None => Ok None
  | Some text =>
    root ← map_err (jf_parse text) json_malformed;
    let keys := match obj ← as_object root; v ← get "mcpServers" obj; as_object v with
                | Some servers => legacy_json_keys servers
                | None => []
                end in
    Ok (migration_prompt keys)
  end.

Definition mcp_json_entry (command : string) (cmd_args : list string) : json :=
  JObject (object_insert "args" (JArray (JString <$> cmd_args)) (object_insert "command" (JString command) [])).

Definition render_mcp_json_with_migration (existing : option string) (command : string) (cmd_args : list string)
    (allow_overwrite : bool) (migration : LegacyMigration) : result RenderError string :=
  root ← match existing with
         | Some s => map_err (jf_parse s) json_malformed
         | None => Ok (JObject [])
         end;
  obj ← ok_or (as_object root) (Malformed "" 0 0 "expected JSON object at root");
  servers ← ok_or (as_object (default (JObject []) (get "mcpServers" obj)))
              (Malformed "" 0 0 "mcpServers is not an object");
  let primary := get PRIMARY_KEY servers ≫= json_entry in
  let keys := legacy_json_keys servers in
  if negb (is_nil keys) && bool_decide (migration = PreserveExisting) then Ok (default ""%string existing)
  else
    _ ← ensure_primary_available primary command cmd_args allow_overwrite migration;
    let servers := object_insert PRIMARY_KEY (mcp_json_entry command cmd_args) (without_keys keys servers) in
    out ← map_err (jf_pretty (JObject (object_insert "mcpServers" (JObject servers) obj)))
            (fun e => Malformed "" 0 0 (String.append "serialize: " e));
    Ok (concat_str [out; str_of [ascii_of_N 10]]).

Definition render_mcp_json (existing : option string) (command : string) (cmd_args : list string) (allow_overwrite : bool)
  : result RenderError string :=
  render_mcp_json_with_migration existing command cmd_args allow_overwrite
    (if allow_overwrite then Migrate else PreserveExisting).
End McpJson.
