(* ===== verification/WritersFacts.v ===== *)
(** * What the renderers of [init] change

    The laws of editing entries, then: a profile file keeps everything but the
    profile, a policy that is merged with consent reaches the floor or says which
    action keeps it below, an MCP configuration ends with one entry. *)

From S2P Require Import Prelude Utf8 Str Errors LensValue Text Policy Retention InitData Toml McpConfig.

(** ** Entries *)
Section Entries.
Context {V : Type}.
Implicit Types (t : list (string * V)) (k : string) (v : V).

Lemma get_insert_eq k v t : get k (insert k v t) = Some v.
Proof.
  induction t as [|[k' v'] t IH]; cbn; [by rewrite String.eqb_refl|].
  destruct (String.eqb k' k) eqn:E; cbn; by rewrite E.
Qed.
Lemma get_insert_ne k k' v t : k ≠ k' → get k (insert k' v t) = get k t.
Proof.
  intros Hne. induction t as [|[k0 v0] t IH]; cbn; [by rewrite (proj2 (String.eqb_neq k' k))|].
  destruct (String.eqb_spec k0 k') as [->|]; cbn; [by rewrite (proj2 (String.eqb_neq k' k))|]. by rewrite IH.
Qed.
Lemma get_remove_ne k k' t : k ≠ k' → get k (remove k' t) = get k t.
Proof.
  intros Hne. unfold remove. induction t as [|[k0 v0] t IH]; [done|].
  destruct (String.eqb_spec k0 k') as [->|Hk0].
  - rewrite filter_cons_False by (cbn; by rewrite String.eqb_refl). cbn. by rewrite (proj2 (String.eqb_neq k' k)).
  - rewrite filter_cons_True by (cbn; by apply String.eqb_neq). cbn. by rewrite IH.
Qed.
Lemma get_elem k t v : get k t = Some v → (k, v) ∈ t.
Proof.
  induction t as [|[k' v'] t IH]; cbn; [done|]. destruct (String.eqb_spec k' k) as [->|]; [|set_solver].
  intros [= ->]. set_solver.
Qed.
Lemma elem_insert k v t e : e ∈ insert k v t → e ∈ t ∨ e = (k, v).
Proof.
  induction t as [|[k' v'] t IH]; cbn; [set_solver|]. destruct (String.eqb_spec k' k) as [->|]; set_solver.
Qed.
Lemma elem_remove k t e : e ∈ remove k t ↔ e ∈ t ∧ e.1 ≠ k.
Proof.
  unfold remove. rewrite list_elem_of_filter, String.eqb_neq. naive_solver.
Qed.

Lemma elem_without_keys keys t e : e ∈ without_keys keys t ↔ e ∈ t ∧ e.1 ∉ keys.
Proof.
  unfold without_keys. revert t. induction keys as [|k keys IH]; intros t; cbn [fold_left]; [set_solver|].
  rewrite IH, elem_remove, not_elem_of_cons. naive_solver.
Qed.
Lemma get_without_keys k keys t : k ∉ keys → get k (without_keys keys t) = get k t.
Proof.
  unfold without_keys. revert t. induction keys as [|k' keys IH]; intros t; cbn [fold_left]; [done|].
  rewrite not_elem_of_cons. intros [Hne Hk]. by rewrite IH, get_remove_ne.
Qed.
End Entries.

Lemma get_object_insert_eq k v o : get k (object_insert k v o) = Some v.
Proof.
  induction o as [|[k' v'] o IH]; cbn; [by rewrite String.eqb_refl|].
  destruct (String.eqb k' k) eqn:E; cbn; [by rewrite String.eqb_refl|].
  destruct (str_lt k k'); cbn; [by rewrite String.eqb_refl|]. by rewrite E.
Qed.
Lemma get_object_insert_ne k k' v o : k ≠ k' → get k (object_insert k' v o) = get k o.
Proof.
  intros Hne. pose proof (proj2 (String.eqb_neq k' k) (not_eq_sym Hne)) as Hf.
  induction o as [|[k0 v0] o IH]; cbn; [by rewrite Hf|].
  destruct (String.eqb_spec k0 k') as [->|]; cbn; [by rewrite Hf|].
  destruct (str_lt k' k0); cbn; [by rewrite Hf|]. by rewrite IH.
Qed.
Lemma elem_object_insert k v o e : e ∈ object_insert k v o → e ∈ o ∨ e = (k, v).
Proof.
  induction o as [|[k' v'] o IH]; cbn; [set_solver|]. destruct (String.eqb k' k), (str_lt k k'); set_solver.
Qed.

(** ** The MCP entry *)
Section Migration.
Context {Item : Type} (entry_of : Item → option ExistingEntry).

(** from the servers before to the servers after: [item] is the entry, no
    legacy entry is left, and no other one is touched *)
Record Migrated (before after : list (string * Item)) (item : Item) : Prop := {
  migrated_entry : get PRIMARY_KEY after = Some item;
  migrated_none : legacy_keys entry_of after = [];
  migrated_others : ∀ k, k ≠ PRIMARY_KEY → k ∉ legacy_keys entry_of before → get k after = get k before }.

(** nothing of someone else's is in the place of the entry *)
Definition Replaceable (servers : list (string * Item)) (command : string) (args : list string) : Prop :=
  match get PRIMARY_KEY servers ≫= entry_of with
  | Some e => entry_matches e command args = true ∨ is_legacy_profile_entry e = true
  | None => True
  end.

Lemma legacy_keys_nil servers : legacy_keys entry_of servers = [] ↔ Forall (fun e => legacy_key entry_of e = None) servers.
Proof.
  unfold legacy_keys. induction servers as [|e servers IH]; cbn; [done|]. rewrite Forall_cons, <- IH.
  destruct (legacy_key entry_of e); naive_solver.
Qed.
Lemma elem_legacy_keys servers e k : e ∈ servers → legacy_key entry_of e = Some k → k = e.1 ∧ k ∈ legacy_keys entry_of servers.
Proof.
  intros He Hk. split; [|unfold legacy_keys; apply list_elem_of_omap; by exists e].
  unfold legacy_key in Hk. destruct (entry_of e.2); cbn in Hk; [|done]. case_match; congruence.
Qed.

Lemma migrated_by (put : string → Item → list (string * Item) → list (string * Item)) servers item :
  (∀ k v t, get k (put k v t) = Some v) → (∀ k k' v t, k ≠ k' → get k (put k' v t) = get k t) →
  (∀ k v t e, e ∈ put k v t → e ∈ t ∨ e = (k, v)) →
  legacy_key entry_of (PRIMARY_KEY, item) = None →
  Migrated servers (put PRIMARY_KEY item (without_keys (legacy_keys entry_of servers) servers)) item.
Proof.
  intros Heq Hne Hel Hitem. split; [apply Heq| |].
  - apply legacy_keys_nil, Forall_forall. intros e He. apply Hel in He as [He| ->]; [|done].
    apply elem_without_keys in He as [He Hk]. destruct (legacy_key entry_of e) as [k|] eqn:E; [|done].
    destruct (elem_legacy_keys _ _ _ He E) as [-> Hin]. done.
  - intros k Hk Hl. rewrite Hne by done. by apply get_without_keys.
Qed.

Lemma available_replaceable servers command args allow migration :
  ensure_primary_available (get PRIMARY_KEY servers ≫= entry_of) command args allow migration = Ok tt →
  allow = true ∨ Replaceable servers command args.
Proof.
  unfold ensure_primary_available, Replaceable. destruct (_ ≫= _) as [e|]; [|by right].
  destruct (entry_matches e command args); [by right; left|]. destruct allow; [by left|]. cbn.
  destruct (is_legacy_profile_entry e); [by right; right|]. by rewrite andb_false_r.
Qed.
End Migration.

Lemma not_legacy_args {Item} (entry_of : Item → option ExistingEntry) item e :
  entry_of item = Some e → profile_arg (e_args e) = None → legacy_key entry_of (PRIMARY_KEY, item) = None.
Proof.
  intros He Hp. unfold legacy_key. cbn. rewrite He. cbn. unfold is_legacy_profile_entry, profile_name. rewrite Hp.
  cbn. by rewrite andb_false_r.
Qed.

Lemma omap_fmap_id {A B} (f : B → option A) (g : A → B) (l : list A) : (∀ a, f (g a) = Some a) → omap f (g <$> l) = l.
Proof. intros Hfg. induction l as [|a l IH]; [done|]. rewrite fmap_cons. cbn. rewrite Hfg. by f_equal. Qed.
Lemma codex_entry_of command args : toml_entry (codex_entry command args) = Some (mkEntry (Some command) args).
Proof. unfold toml_entry, codex_entry. cbn. do 2 f_equal. by apply omap_fmap_id. Qed.
Lemma mcp_json_entry_of command args : json_entry (mcp_json_entry command args) = Some (mkEntry (Some command) args).
Proof. unfold json_entry, mcp_json_entry. cbn. do 2 f_equal. by apply omap_fmap_id. Qed.

(** The configuration of a client ends with one gaze-lens entry. When a
    renderer succeeds for a command line that names no profile, then either it
    was told to keep legacy entries and there are some, and the text stays as it
    was; or the text it gives is written from the document it read with only the
    servers changed: the entry is the command, no legacy entry is left, every
    other server is as it was, and an entry of that name that was read and is
    neither ours nor legacy was only replaced with consent. *)
Theorem mcp_entry_is_single `{TomlEdit, JsonFile} existing command args allow migration out :
  profile_arg args = None →
  (render_codex_toml_with_migration existing command args allow migration = Ok out →
     ∃ doc servers, parse_existing existing = Ok doc ∧ as_table (default (ITable []) (get "mcp_servers" doc)) = Some servers ∧
       ((migration = PreserveExisting ∧ legacy_toml_keys servers ≠ [] ∧ out = default ""%string existing) ∨
        ∃ servers', Migrated toml_entry servers servers' (codex_entry command args) ∧
          (allow = true ∨ Replaceable toml_entry servers command args) ∧
          out = toml_text existing (insert "mcp_servers" (ITable servers') doc))) ∧
  (render_mcp_json_with_migration existing command args allow migration = Ok out →
     ∃ obj servers, match existing with Some s => jf_parse s = Ok (JObject obj) | None => obj = [] end ∧
       as_object (default (JObject []) (get "mcpServers" obj)) = Some servers ∧
       ((migration = PreserveExisting ∧ legacy_json_keys servers ≠ [] ∧ out = default ""%string existing) ∨
        ∃ servers' text, Migrated json_entry servers servers' (mcp_json_entry command args) ∧
          (allow = true ∨ Replaceable json_entry servers command args) ∧
          jf_pretty (JObject (object_insert "mcpServers" (JObject servers') obj)) = Ok text ∧
          out = concat_str [text; str_of [ascii_of_N 10]])).
Proof.
  intros Hargs. split.
  - unfold render_codex_toml_with_migration. intros (doc & Hdoc & (servers & Hs%ok_or_ok & Hr)%bind_ok)%bind_ok.
    exists doc, servers. split_and!; [done|done|].
    destruct (is_nil (legacy_toml_keys servers)) eqn:En; cbn [negb andb] in Hr.
    2: destruct (bool_decide_reflect (migration = PreserveExisting)).
    2:{ left. injection Hr as <-. split_and!; [done| |done]. by destruct (legacy_toml_keys servers). }
    all: right; apply check_then in Hr as [Ha Hr]; injection Hr as <-; eexists; split_and!; [|by eapply available_replaceable|done];
      apply (migrated_by toml_entry insert); [apply @get_insert_eq|intros; by apply get_insert_ne|apply @elem_insert|];
      by eapply not_legacy_args; [apply codex_entry_of|].
  - unfold render_mcp_json_with_migration.
    intros (root & Hroot & (obj & Hobj%ok_or_ok & (servers & Hs%ok_or_ok & Hr)%bind_ok)%bind_ok)%bind_ok.
    assert (root = JObject obj) as -> by (destruct root; try done; by injection Hobj as ->).
    exists obj, servers. split_and!; [|done|].
    { destruct existing; [by apply map_err_ok in Hroot|]. by injection Hroot as <-. }
    destruct (is_nil (legacy_json_keys servers)) eqn:En; cbn [negb andb] in Hr.
    2: destruct (bool_decide_reflect (migration = PreserveExisting)).
    2:{ left. injection Hr as <-. split_and!; [done| |done]. by destruct (legacy_json_keys servers). }
    all: right; apply check_then in Hr as [Ha (text & Ht%map_err_ok & [= <-])%bind_ok]; eexists _, text;
      split_and!; [|by eapply available_replaceable|done|done];
      apply (migrated_by json_entry object_insert); [apply @get_object_insert_eq|intros; by apply get_object_insert_ne|apply @elem_object_insert|];
      by eapply not_legacy_args; [apply mcp_json_entry_of|].
Qed.

(** a project with a server of its own and two legacy entries *)
Module McpRun.
Definition legacy (name : string) : json :=
  JObject [("args", JArray [JString "serve"; JString "--profile"; JString name]); ("command", JString "gaze-lens")]%string.
Definition servers : list (string * json) :=
  [("gaze-lens", legacy "prod"); ("gaze-lens-dev", legacy "dev"); ("other", JObject [])]%string.
#[local] Instance files : JsonFile :=
  {| jf_parse s := Ok (JObject [("mcpServers"%string, JObject servers)]);
     jf_pretty v := Ok (match v with JObject [(_, JObject o)] => concat_str (fst <$> o) | _ => ""%string end) |}.
#[local] Instance tomls : TomlEdit := {| toml_parse _ := Ok []; toml_text _ _ := ""%string |}.

Lemma mcp_entry_is_single_witness :
  let out := concat_str ["gaze-lensother"%string; str_of [ascii_of_N 10]] in
  render_mcp_json_with_migration (Some "{}"%string) "gaze-lens" ["serve"%string] false Migrate = Ok out ∧
  ∃ servers', Migrated json_entry servers servers' (mcp_json_entry "gaze-lens" ["serve"%string]).
Proof.
  intros out.
  assert (E : render_mcp_json_with_migration (Some "{}"%string) "gaze-lens" ["serve"%string] false Migrate = Ok out)
    by (vm_compute; reflexivity).
  split; [exact E|].
  destruct (mcp_entry_is_single (Some "{}"%string) "gaze-lens" ["serve"%string] false Migrate out eq_refl) as [_ Hj].
  destruct (Hj E) as (obj & ss & Hobj & Hs & [(Hm & _)|(servers' & text & Hm & _)]); [discriminate|].
  exists servers'. injection Hobj as <-. injection Hs as <-. exact Hm.
Defined.
End McpRun.

(** ** The production policy *)
Definition action_of (doc : TTable) : option string := i ← in_table doc "policy" "default_action"; as_str i.

Lemma in_table_insert doc t tab t' k :
  in_table (insert t (ITable tab) doc) t' k = if String.eqb t' t then get k tab else in_table doc t' k.
Proof.
  unfold in_table. destruct (String.eqb_spec t' t) as [->|Hne]; [by rewrite get_insert_eq|]. by rewrite get_insert_ne.
Qed.

Lemma root_table doc t path tab : ensure_root_table doc t path = Ok tab → ∀ k, get k tab = in_table doc t k.
Proof.
  unfold ensure_root_table, in_table. destruct (get t doc) as [i|]; [|by intros [= <-]].
  intros Ht%ok_or_ok k. cbn. by rewrite Ht.
Qed.

(** what each step leaves in the tables *)
Lemma ner_step doc dir path doc' :
  ensure_ner_model_dir doc dir path = Ok doc' →
  is_set (in_table doc' "ner" "model_dir") = is_set (in_table doc "ner" "model_dir") || negb (is_nil (trim (chars dir))) ∧
  (∀ t k, (t, k) ≠ ("ner", "model_dir")%string → in_table doc' t k = in_table doc t k) ∧
  (∀ k, k ≠ "ner"%string → get k doc' = get k doc).
Proof.
  unfold ensure_ner_model_dir. intros (tab & Ht & [= <-])%bind_ok. pose proof (root_table _ _ _ _ Ht) as Hg.
  rewrite in_table_insert. cbn [String.eqb]. cbn. rewrite Hg. split_and!.
  - destruct (is_set (in_table doc "ner" "model_dir")) eqn:E; [by rewrite Hg, E|]. by rewrite get_insert_eq.
  - intros t k Hk. rewrite in_table_insert. destruct (String.eqb_spec t "ner"%string) as [->|]; [|done].
    destruct (is_set _); [apply Hg|]. rewrite get_insert_ne by congruence. apply Hg.
  - intros k Hk. by rewrite get_insert_ne.
Qed.

Lemma action_step doc path doc' :
  ensure_default_action doc path = Ok doc' →
  action_of doc' = match action_of doc with
                   | Some a => if String.eqb a "preserve" then Some "tokenize"%string else Some a
                   | None => Some "tokenize"%string
                   end ∧
  (∀ t k, (t, k) ≠ ("policy", "default_action")%string → in_table doc' t k = in_table doc t k) ∧
  (∀ k, k ≠ "policy"%string → get k doc' = get k doc).
Proof.
  unfold ensure_default_action. intros (tab & Ht & [= <-])%bind_ok. pose proof (root_table _ _ _ _ Ht) as Hg.
  split_and!.
  - unfold action_of. rewrite in_table_insert. cbn. rewrite Hg. destruct (in_table doc "policy" "default_action") as [i|] eqn:Ei; cbn.
    + destruct (as_str i) as [a|] eqn:Ea; [|by rewrite get_insert_eq].
      destruct (String.eqb a "preserve"); [by rewrite get_insert_eq|]. by rewrite Hg, Ei.
    + by rewrite get_insert_eq.
  - intros t k Hk. rewrite in_table_insert. destruct (String.eqb_spec t "policy"%string) as [->|]; [|done].
    repeat case_match; rewrite ?get_insert_ne by congruence; apply Hg.
  - intros k Hk. by rewrite get_insert_ne.
Qed.

Lemma database_step doc path doc' :
  ensure_database_policy doc path = Ok doc' →
  (∀ t k, (t, k) ≠ ("policy", "database")%string → in_table doc' t k = in_table doc t k) ∧
  (∀ k, k ≠ "policy"%string → get k doc' = get k doc).
Proof.
  unfold ensure_database_policy. intros (tab & Ht & Hd)%bind_ok. pose proof (root_table _ _ _ _ Ht) as Hg.
  destruct (get "database" tab) as [i|].
  - apply bind_ok in Hd as (_ & _ & [= <-]). split; [|intros k Hk; by rewrite get_insert_ne].
    intros t k Hk. rewrite in_table_insert. destruct (String.eqb_spec t "policy"%string) as [->|]; [apply Hg|done].
  - injection Hd as <-. split; [|intros k Hk; by rewrite get_insert_ne].
    intros t k Hk. rewrite in_table_insert. destruct (String.eqb_spec t "policy"%string) as [->|]; [|done].
    rewrite get_insert_ne by congruence. apply Hg.
Qed.

Lemma at_floor_spec doc :
  policy_is_at_floor doc = true ↔
  is_set (in_table doc "ner" "model_dir") = true ∧ (action_of doc = Some "tokenize"%string ∨ action_of doc = Some "redact"%string).
Proof.
  unfold policy_is_at_floor, action_of. rewrite andb_true_iff. destruct (in_table doc "policy" "default_action") as [i|]; cbn; [|naive_solver].
  destruct (as_str i) as [a|]; [|naive_solver]. rewrite orb_true_iff, !String.eqb_eq. naive_solver.
Qed.

(** the actions that a merge lets stand, or replaces by [tokenize] *)
Definition Mergeable (action : option string) : Prop :=
  match action with Some a => a = "preserve" ∨ a = "tokenize" ∨ a = "redact" | None => True end%string.

(** C35. Merging a production policy. When the renderer succeeds on an existing
    policy, either that policy is at the floor and nothing is written; or the
    operator consented, and the text is written from the document that was read
    with three entries touched at most, [ner.model_dir], [policy.default_action]
    and [policy.database]. The merged policy is at the floor exactly when a model
    directory was there or the new one is not blank, and the default action was
    absent, [preserve], [tokenize] or [redact]: any other action stands, and with
    it a policy below the floor. *)
Theorem policy_merge_reaches_floor `{TomlEdit, PolicyToml} input dir allow path o :
  render_existing_policy input dir allow path = Ok o →
  ∃ doc, toml_parse input = Ok doc ∧
    if po_unchanged o then policy_is_at_floor doc = true ∧ po_bytes o = None
    else allow = true ∧ policy_is_at_floor doc = false ∧ ∃ doc',
      po_bytes o = Some (toml_text (Some input) doc') ∧ is_ok (from_toml (toml_text (Some input) doc')) = true ∧
      (policy_is_at_floor doc' = true ↔
         (is_set (in_table doc "ner" "model_dir") = true ∨ trim (chars dir) ≠ []) ∧ Mergeable (action_of doc)) ∧
      (∀ k, k ≠ "ner"%string → k ≠ "policy"%string → get k doc' = get k doc) ∧
      (∀ t k, (t, k) ∉ [("ner", "model_dir"); ("policy", "default_action"); ("policy", "database")]%string →
         in_table doc' t k = in_table doc t k).
Proof.
  unfold render_existing_policy. intros (doc & Hdoc%map_err_ok & Hr)%bind_ok. exists doc. split; [done|].
  destruct (policy_is_at_floor doc) eqn:Ef; [by apply bind_ok in Hr as (? & _ & [= <-])|].
  destruct allow; [|done]. cbn [negb] in Hr.
  apply bind_ok in Hr as (d1 & H1 & (d2 & H2 & (d3 & H3 & (p & Hp%map_err_ok & [= <-])%bind_ok)%bind_ok)%bind_ok).
  apply ner_step in H1 as (Hner & Hn1 & Hk1). apply action_step in H2 as (Hact & Hn2 & Hk2).
  apply database_step in H3 as (Hn3 & Hk3). cbn [po_unchanged po_bytes]. split_and!; [done|done|].
  exists d3. split_and!; [done|by rewrite Hp| | |].
  - rewrite at_floor_spec. unfold action_of at 1 2. rewrite !Hn3 by congruence. rewrite Hn2 by congruence.
    fold (action_of d2). rewrite Hner, Hact. unfold action_of at 1 2. rewrite Hn1 by congruence. fold (action_of doc).
    rewrite orb_true_iff, negb_true_iff. assert (is_nil (trim (chars dir)) = false ↔ trim (chars dir) ≠ []) as -> by (by destruct (trim _)).
    apply and_iff_compat_l. unfold Mergeable. destruct (action_of doc) as [a|]; [|naive_solver].
    destruct (String.eqb_spec a "preserve"%string) as [->|]; naive_solver.
  - intros k Hner' Hpol. by rewrite Hk3, Hk2, Hk1.
  - intros t k Hk. rewrite !not_elem_of_cons in Hk. destruct Hk as (? & ? & ? & _). by rewrite Hn3, Hn2, Hn1.
Qed.

(** an action the merge lets stand: the merged policy stays below the floor *)
Module PolicyRun.
Definition old : TTable := [("policy", ITable [("default_action", IValue (VStr "generalize")); ("database", ITable [])])]%string.
#[local] Instance tomls : TomlEdit := {| toml_parse _ := Ok old; toml_text _ _ := "merged"%string |}.
#[local] Instance policies : PolicyToml := {| from_toml _ := Ok Policy.sample_policy |}.

Lemma policy_merge_reaches_floor_witness :
  render_existing_policy "old" "/models" true "gaze-policy.toml" = Ok (mkPolicyOutcome (Some "merged"%string) false) ∧
  ∃ doc', policy_is_at_floor doc' = false.
Proof.
  assert (E : render_existing_policy "old" "/models" true "gaze-policy.toml" = Ok (mkPolicyOutcome (Some "merged"%string) false))
    by (vm_compute; reflexivity).
  split; [exact E|].
  destruct (policy_merge_reaches_floor "old" "/models" true "gaze-policy.toml" _ E)
    as (doc & Hd & _ & _ & doc' & _ & _ & Hf & _).
  exists doc'. apply not_true_iff_false. intros Ht. apply Hf in Ht as [_ Hm]. injection Hd as <-.
  change (Mergeable (Some "generalize"%string)) in Hm. destruct Hm as [Hm|[Hm|Hm]]; discriminate.
Defined.
End PolicyRun.

(** ** The profile file *)
Lemma find_index_some p ts i : find_index p ts = Some i → ∃ t, ts !! i = Some t ∧ p t = true ∧ Forall (fun t => p t = false) (take i ts).
Proof.
  revert i. induction ts as [|t ts IH]; intros i; cbn [find_index]; [done|]. destruct (p t) eqn:Et.
  - intros [= <-]. exists t. by split_and!.
  - intros (j & Hj & ->)%fmap_Some. destruct (IH j Hj) as (t' & ? & ? & ?). exists t'. split_and!; [done|done|]. by constructor.
Qed.
Lemma find_index_none p ts : find_index p ts = None → Forall (fun t => p t = false) ts.
Proof.
  induction ts as [|t ts IH]; cbn [find_index]; [done|]. destruct (p t) eqn:Et; [done|].
  intros H%fmap_None. constructor; auto.
Qed.

#[local] Arguments names_profile : simpl never.
Lemma names_built `{Times} s n : names_profile n (build_profile_table s) = String.eqb (s_name s) n.
Proof. done. Qed.

(** the file keeps every table that is not of the profile, and the profile is
    the first one of its name *)
Lemma profile_keeps_others `{TomlEdit, Times} existing section allow out :
  render_profile_toml existing section allow = Ok out →
  ∃ doc ts ts', parse_existing existing = Ok doc ∧ default (ITables []) (get "profiles" doc) = ITables ts ∧
    out = toml_text existing (insert "profiles" (ITables ts') doc) ∧
    (∀ n, n ≠ s_name section → filter (fun t => names_profile n t = true) ts' = filter (fun t => names_profile n t = true) ts) ∧
    (∃ i, find_index (names_profile (s_name section)) ts' = Some i ∧ ts' !! i = Some (build_profile_table section)) ∧
    (allow = false → Forall (fun t => names_profile (s_name section) t = false) ts).
Proof.
  unfold render_profile_toml. intros (doc & Hd & (ts & Hts & (ts' & Hts' & [= <-])%bind_ok)%bind_ok)%bind_ok.
  exists doc, ts, ts'. split; [done|]. split.
  { destruct (default _ _) as [?|?|?]; [done|done|by injection Hts as ->]. }
  split; [done|]. set (T := build_profile_table section) in *.
  assert (HT : names_profile (s_name section) T = true) by (unfold T; rewrite names_built; apply String.eqb_refl).
  assert (HTn : ∀ n, n ≠ s_name section → names_profile n T ≠ true).
  { intros n Hn. unfold T. rewrite names_built, String.eqb_eq. congruence. }
  clearbody T.
  destruct (find_index (names_profile (s_name section)) ts) as [i|] eqn:Ei.
  - destruct allow; [|done]. injection Hts' as <-. destruct (find_index_some _ _ _ Ei) as (t & Ht & Hn & Hf).
    pose proof (lookup_lt_Some _ _ _ Ht) as Hlt. split_and!; [|exists i; split|done].
    + intros n Hne. rewrite insert_take_drop by done. rewrite <- (take_drop_middle ts i t) at 3 by done.
      rewrite !filter_app, !filter_cons_False; [done| |by apply HTn].
      revert Hn. unfold names_profile. destruct (_ ≫= _) as [x|]; [|done]. rewrite !String.eqb_eq. congruence.
    + clear -Hf HT Hlt. revert ts Hf Hlt. induction i as [|i IH]; intros [|t ts]; cbn; try lia; intros Hf Hlt; [by rewrite HT|].
      inversion_clear Hf as [|?? Ht Hf']. rewrite Ht. rewrite IH; [done|done|lia].
    + by apply list_lookup_insert_eq.
  - injection Hts' as <-. apply find_index_none in Ei as Hf. split_and!; [|exists (length ts); split|done].
    + intros n Hne. rewrite filter_app, filter_cons_False, app_nil_r by (by apply HTn). done.
    + clear -Hf HT. induction Hf as [|t ts Ht Hf IH]; cbn; [by rewrite HT|]. by rewrite Ht, IH.
    + by apply list_lookup_middle.
Qed.
