(* ===== verification/EnvFile.v ===== *)
(** * Discovery of a database in a remote environment file

    Models src/src/cli/init/discovery.rs, the reader of Laravel [.env] files and
    the extraction of the connection, and of src/src/cli/init/ssh_exec.rs the
    command lines, the reading of the remote file and its errors, over the
    outcome of the process.  A text is the list of its [char]s. *)

From S2P Require Import Prelude Utf8 Str Errors LensValue Text SshArgs LogSource Output Keyword InitData.

(** ** Lines and patterns on characters *)
Definition strip_cr (line : text) : text := match last line with Some 13 => take (length line - 1) line | _ => line end.
(** [str::lines]: a carriage return goes with the newline after it *)
Fixpoint lines_loop (line t : text) : list text :=
  match t with
  | [] => if is_nil line then [] else [line]
  | c :: t => if c =? 10 then strip_cr line :: lines_loop [] t else lines_loop (line ++ [c]) t
  end.
Definition text_lines (t : text) : list text := lines_loop [] t.
Fixpoint strip_chars (pat t : text) : option text :=
  match pat, t with
  | [], t => Some t
  | a :: pat, b :: t => if a =? b then strip_chars pat t else None
  | _ :: _, [] => None
  end.
Definition has_prefix (pat t : text) : bool := is_some (strip_chars pat t).
Fixpoint find_chars (pat t : text) : option nat :=
  if has_prefix pat t then Some O else match t with [] => None | _ :: t => S <$> find_chars pat t end.
Definition has_chars (pat t : text) : bool := is_some (find_chars pat t).
Definition trim_left (t : text) : text := trim_start is_whitespace t.

(** ** Variables *)
Record EnvVar := mkEnvVar { ev_key : text; ev_value : text }.
Definition DB_KEYS : list text :=
  chars <$> ["DB_CONNECTION"; "DB_HOST"; "DB_PORT"; "DB_DATABASE"; "DB_USERNAME"; "DB_PASSWORD"]%string.
Definition env_first (c : N) : bool := in_range 65 90 c || (c =? 95).
Definition env_rest (c : N) : bool := in_range 65 90 c || in_range 48 57 c || (c =? 95).
Definition is_env_key (key : text) : bool :=
  match key with [] => false | first :: rest => env_first first && forallb env_rest rest end.

Definition BACKSLASH : N := 92.
Definition DQUOTE : N := 34.
Definition SQUOTE : N := 39.
(** the loop of [parse_double_quoted]: [None] at the end of the line *)
Fixpoint double_quoted (escaped : bool) (out rest : text) : option text :=
  match rest with
  | [] => None
  | ch :: rest =>
    if escaped then
      double_quoted false (if (ch =? DQUOTE) || (ch =? BACKSLASH) then out ++ [ch] else out ++ [BACKSLASH; ch]) rest
    else if ch =? BACKSLASH then double_quoted true out rest
    else if ch =? DQUOTE then Some out
    else double_quoted false (out ++ [ch]) rest
  end.
Definition parse_double_quoted (rest : text) (line_no : N) : result LensError text :=
  ok_or (double_quoted false [] rest)
    (Errors.Profile (concat_str ["unterminated double-quoted .env value at line "; num line_no])).
Definition parse_single_quoted (rest : text) (line_no : N) : result LensError text :=
  match find (fun c => c =? SQUOTE) rest with
  | None => refuse ["unterminated single-quoted .env value at line "%string; num line_no]
  | Some end_ =>
    let value := take end_ rest in
    if existsb (fun c => c =? BACKSLASH) value
    then refuse ["single-quoted .env values do not support escape sequences"%string]
    else Ok value
  end.
Definition strip_unquoted_comment (input : text) : text :=
  match find_chars (chars " #") input with Some idx => take idx input | None => input end.
Definition parse_value (input : text) (line_no : N) : result LensError text :=
  match strip_chars [DQUOTE] input with
  | Some rest => parse_double_quoted rest line_no
  | None =>
    match strip_chars [SQUOTE] input with
    | Some rest => parse_single_quoted rest line_no
    | None => Ok (trim_end (strip_unquoted_comment input))
    end
  end.
Definition expands (value : text) : bool :=
  has_chars (chars "${") value || has_chars (chars "$(") value || existsb (fun c => c =? 96) value.
Definition reject_unsupported_expansion (value : text) (line_no : N) : result LensError unit :=
  if expands value then refuse ["unsupported shell expansion in .env value at line "%string; num line_no] else Ok tt.

(** what a line has to say: nothing, or a key of the connection and the rest *)
Definition env_line (raw_line : text) (line_no : N) : result LensError (option (text * text)) :=
  let line := trim raw_line in
  if is_nil line || has_prefix (chars "#") line then Ok None
  else if bool_decide (last line = Some BACKSLASH) then
    refuse ["unsupported multiline .env value at line "%string; num line_no]
  else
    let line := trim_left (default line (strip_chars (chars "export ") line)) in
    match find_chars (chars "=") line with
    | None => Ok None
    | Some i =>
      let key := trim (take i line) in
      let rest := drop (S i) line in
      if negb (is_env_key key) then Ok None
      else if negb (has_prefix (chars "DB_") key) then Ok None
      else if bool_decide (key ∈ DB_KEYS) then Ok (Some (key, rest))
      else Ok None
    end.
(** one turn of the loop *)
Definition env_step (seen : list text) (raw_line : text) (line_no : N) : result LensError (option EnvVar) :=
  found ← env_line raw_line line_no;
  match found with
  | None => Ok None
  | Some (key, rest) =>
    if bool_decide (key ∈ seen) then refuse ["duplicate .env key: "%string; string_of key]
    else
      value ← parse_value (trim_left rest) line_no;
      _ ← reject_unsupported_expansion value line_no;
      Ok (Some (mkEnvVar key value))
  end.
Fixpoint parse_env_loop (line_no : N) (seen : list text) (lines : list text) : result LensError (list EnvVar) :=
  match lines with
  | [] => Ok []
  | line :: lines =>
    v ← env_step seen line line_no;
    match v with
    | None => parse_env_loop (line_no + 1) seen lines
    | Some v => vars ← parse_env_loop (line_no + 1) (ev_key v :: seen) lines; Ok (v :: vars)
    end
  end.
Definition parse_env (input : text) : result LensError (list EnvVar) := parse_env_loop 1 [] (text_lines input).

(** ** The connection *)
Record DiscoveredDbMeta := mkMeta {
  m_kind : option SourceKind; m_host : option text; m_port : option N; m_database : option text; m_username : option text }.
Definition no_meta : DiscoveredDbMeta := mkMeta None None None None None.
Definition source_port_or_default (m : DiscoveredDbMeta) (kind : SourceKind) : option N :=
  match m_port m with
  | Some port => Some port
  | None => match kind with Kind.Mysql => Some 3306 | Kind.Postgres => Some 5432 | _ => None end
  end.
Definition parse_db_connection (value : text) : option SourceKind :=
  if bool_decide (value ∈ [chars "mysql"; chars "mariadb"]) then Some Kind.Mysql
  else if bool_decide (value ∈ [chars "pgsql"; chars "postgres"; chars "postgresql"]) then Some Kind.Postgres
  else None.
Definition is_key (v : EnvVar) (key : string) : bool := bool_decide (ev_key v = chars key).
(** the loop over [vars.drain(..)]: what is kept, and what was found *)
Fixpoint extract_loop (meta : DiscoveredDbMeta) (password : option text) (keep vars : list EnvVar)
  : result LensError (DiscoveredDbMeta * option text * list EnvVar) :=
  match vars with
  | [] => Ok (meta, password, keep)
  | v :: vars =>
    let 'mkMeta kind host port database username := meta in
    let keeping meta := extract_loop meta password (keep ++ [v]) vars in
    if is_key v "DB_CONNECTION" then keeping (mkMeta (parse_db_connection (ev_value v)) host port database username)
    else if is_key v "DB_HOST" then keeping (mkMeta kind (Some (ev_value v)) port database username)
    else if is_key v "DB_PORT" then
      match parse_unsigned 65535 (to_utf8 (ev_value v)) with
      | Some p => keeping (mkMeta kind host (Some p) database username)
      | None => refuse ["DB_PORT '"%string; string_of (ev_value v); "' is not a valid u16"%string]
      end
    else if is_key v "DB_DATABASE" then keeping (mkMeta kind host port (Some (ev_value v)) username)
    else if is_key v "DB_USERNAME" then keeping (mkMeta kind host port database (Some (ev_value v)))
    else if is_key v "DB_PASSWORD" then extract_loop meta (Some (ev_value v)) keep vars
    else keeping meta
  end.
Definition extract_db (vars : list EnvVar) : result LensError (DiscoveredDbMeta * option text * list EnvVar) :=
  extract_loop no_meta None [] vars.

(** ** Paths and command lines *)
Definition is_absolute (path : string) : bool := match str_bytes path with b :: _ => beq b "/" | [] => false end.
Definition validate_env_path (path : string) : result LensError string :=
  if negb (is_absolute path) then refuse ["discovery env path must be absolute"%string]
  else
    _ ← map_err (validate_ssh_path path)
          (fun err => Errors.Profile (concat_str ["invalid discovery env path: "; ssh_error_display err]));
    Ok path.
Definition cat_env_argv (host path : string) : result LensError (list string) :=
  map_err (remote_argv host ["cat"%string] path) (fun err => Errors.Profile (ssh_error_display err)).
Definition hardened_cat_env_argv (host path : string) (allow_new_host : bool) : result LensError (list string) :=
  _ ← map_err (validate_ssh_login_host host)
        (fun err => Errors.Profile (concat_str ["invalid ssh host: "; ssh_error_display err]));
  _ ← map_err (validate_ssh_path path)
        (fun err => Errors.Profile (concat_str ["invalid discovery env path: "; ssh_error_display err]));
  Ok ["ssh"; "-o"; "BatchMode=yes"; "-o"; "ConnectTimeout=10"; "-o";
      if allow_new_host then "StrictHostKeyChecking=accept-new" else "StrictHostKeyChecking=yes";
      "--"; host; "cat"; "--"; path]%string.
(** [host.rsplit_once('@').map_or(host, |(_, h)| h)] *)
Definition after_at (host : string) : string := str_of (default [] (last (split "@" (str_bytes host)))).
Definition keyscan_argv (host : string) : result LensError (list string) :=
  _ ← map_err (remote_argv host ["true"%string] "/tmp/placeholder") (fun err => Errors.Profile (ssh_error_display err));
  Ok ["ssh-keyscan"; "-t"; "ed25519"; "--"; after_at host]%string.

(** ** Reading the remote file *)
Definition ENV_STDOUT_CAP_BYTES : N := 64 * 1024.
Definition CAT_STDERR_CAP_BYTES : N := 512.
Record CatOutput := mkCat { cat_bytes : bytes; cat_truncated : bool }.

Definition format_cat_env_failure (status_code : option Z) (stderr : bytes) (path : string) : string :=
  let stderr := replace_text (str_bytes path) (str_bytes "<redacted>") (from_utf8_lossy stderr) in
  let lower := byte_lower <$> stderr in
  let reason :=
    if contains_text (str_bytes "is a directory") lower then "supplied --discover-env-path appears to be a directory"
    else if contains_text (str_bytes "no such file or directory") lower || contains_text (str_bytes "not found") lower
    then "remote .env file was not found"
    else if contains_text (str_bytes "permission denied") lower then "permission denied reading remote .env"
    else "ssh could not read remote .env" in
  concat_str [reason; ". --discover-env-path must be a full path to a Laravel .env file, e.g. /home/ploi/site/.env or /home/ploi/site/current/.env. ssh returned ";
              Ssh.debug_code status_code; ": "; str_of stderr]%string.

(** [run]: what the process did *)
Definition real_cat_capped (host path : string) (allow_new_host : bool) (run : Ssh.Run) : result LensError CatOutput :=
  _ ← hardened_cat_env_argv host path allow_new_host;
  match run with
  | Ssh.SpawnError err => refuse ["ssh spawn failed: "%string; err]
  | Ssh.IoError err => refuse ["ssh failed: "%string; err]
  | Ssh.TimedOut => refuse ["ssh timed out while reading remote .env"%string]
  | Ssh.Exited code stdout stderr =>
    let stdout := read_capped stdout (saturating_add ENV_STDOUT_CAP_BYTES 1) in
    let stderr := read_capped stderr CAT_STDERR_CAP_BYTES in
    if negb (bool_decide (code = Some 0%Z)) then Err (Errors.Profile (format_cat_env_failure code stderr path))
    else
      let truncated := ENV_STDOUT_CAP_BYTES <? len stdout in
      Ok (mkCat (if truncated then take (N.to_nat ENV_STDOUT_CAP_BYTES) stdout else stdout) truncated)
  end.

(** ** Writing a file that reads back *)
Definition escape_char (c : N) : text := if (c =? DQUOTE) || (c =? BACKSLASH) then [BACKSLASH; c] else [c].
Definition env_text (v : EnvVar) : text := ev_key v ++ [61] ++ [DQUOTE] ++ (ev_value v ≫= escape_char) ++ [DQUOTE].
Definition write_env (vars : list EnvVar) : text := vars ≫= fun v => env_text v ++ [10].

Record Readable (v : EnvVar) : Prop := {
  readable_key : ev_key v ∈ DB_KEYS;
  readable_plain : expands (ev_value v) = false }.
Definition DbVars (vars : list EnvVar) : Prop := Forall Readable vars ∧ NoDup (ev_key <$> vars).

Lemma lines_loop_line line l t : 10 ∉ l → lines_loop line (l ++ 10 :: t) = strip_cr (line ++ l) :: lines_loop [] t.
Proof.
  revert line. induction l as [|c l IH]; intros line Hl; cbn [app lines_loop]; [by rewrite app_nil_r|].
  apply not_elem_of_cons in Hl as [Hc Hl]. rewrite (proj2 (N.eqb_neq c 10)) by congruence.
  rewrite IH by done. by rewrite <- app_assoc.
Qed.

Lemma escape_no_newline t : 10 ∉ t → 10 ∉ (t ≫= escape_char).
Proof.
  intros Ht Hin. apply list_elem_of_bind in Hin as (c & Hc & Hin). unfold escape_char in Hc.
  assert (c ≠ 10) by congruence. unfold DQUOTE, BACKSLASH in Hc.
  destruct (_ || _); rewrite ?elem_of_cons, elem_of_nil in Hc; naive_solver.
Qed.

Lemma double_quoted_escaped out t rest : double_quoted false out ((t ≫= escape_char) ++ DQUOTE :: rest) = Some (out ++ t).
Proof.
  revert out. induction t as [|c t IH]; intros out; [by rewrite app_nil_r|].
  cbn [mbind list_bind]. rewrite <- app_assoc. unfold escape_char at 1.
  destruct ((c =? DQUOTE) || (c =? BACKSLASH)) eqn:Ec; cbn [app double_quoted].
  - cbn [N.eqb Pos.eqb BACKSLASH]. rewrite Ec, IH. by rewrite <- app_assoc.
  - apply orb_false_iff in Ec as [-> ->]. rewrite IH. by rewrite <- app_assoc.
Qed.

Lemma find_equals key rest : 61 ∉ key → find_chars (chars "=") (key ++ 61 :: rest) = Some (length key).
Proof.
  change (chars "=") with [61]. induction key as [|c key IH]; [done|]. intros [Hc Hk]%not_elem_of_cons.
  cbn [app length find_chars]. unfold has_prefix. cbn [strip_chars]. rewrite (proj2 (N.eqb_neq 61 c)) by done.
  cbn [is_some]. by rewrite IH.
Qed.

Lemma trim_word a t b : is_whitespace a = false → is_whitespace b = false → trim (a :: t ++ [b]) = a :: t ++ [b].
Proof.
  intros Ha Hb. unfold trim. cbn [trim_start]. rewrite Ha. rewrite app_comm_cons, reverse_snoc. cbn [trim_start].
  rewrite Hb, <- reverse_snoc. apply reverse_involutive.
Qed.

(** the six keys *)
Record KeyShape (key : text) : Prop := {
  shape_head : ∃ rest, key = 68 :: rest;
  shape_env : is_env_key key = true;
  shape_db : has_prefix (chars "DB_") key = true;
  shape_plain : 61 ∉ key;
  shape_line : 10 ∉ key;
  shape_trim : trim key = key }.
Lemma db_keys_shape : Forall KeyShape DB_KEYS.
Proof.
  unfold DB_KEYS. repeat constructor; try (by vm_compute); try (eexists; by vm_compute);
    apply (bool_decide_eq_true_1 _); vm_compute; reflexivity.
Qed.

Lemma env_line_text v line_no :
  Readable v → env_line (env_text v) line_no = Ok (Some (ev_key v, DQUOTE :: (ev_value v ≫= escape_char) ++ [DQUOTE])).
Proof.
  intros [Hk _]. destruct (proj1 (Forall_forall _ _) db_keys_shape _ Hk) as [[rest Er] He Hd Hp _ Ht].
  unfold env_line. assert (trim (env_text v) = env_text v) as ->.
  { assert (env_text v = 68 :: (rest ++ [61] ++ [DQUOTE] ++ (ev_value v ≫= escape_char)) ++ [DQUOTE]) as ->
      by (unfold env_text; rewrite Er; by rewrite <- !app_assoc).
    by apply trim_word. }
  assert (last (env_text v) = Some DQUOTE) as -> by (unfold env_text; by rewrite !app_assoc, last_snoc).
  assert (is_nil (env_text v) || has_prefix (chars "#") (env_text v) = false) as ->
    by (unfold env_text; rewrite Er; done).
  rewrite bool_decide_false by done.
  assert (default (env_text v) (strip_chars (chars "export ") (env_text v)) = env_text v) as ->
    by (unfold env_text; rewrite Er; done).
  assert (trim_left (env_text v) = env_text v) as -> by (unfold env_text; rewrite Er; done).
  unfold env_text. cbn [app]. rewrite find_equals by done. rewrite take_app_length, Ht, He, Hd. cbn [negb].
  rewrite bool_decide_true by done. do 3 f_equal.
  change (S (length (ev_key v))) with (1 + length (ev_key v))%nat. rewrite Nat.add_comm.
  by rewrite <- drop_drop, drop_app_length.
Qed.

Lemma parse_written seen line_no vars :
  Forall Readable vars → Forall (fun v => 10 ∉ ev_value v) vars → NoDup (ev_key <$> vars) →
  Forall (fun v => ev_key v ∉ seen) vars →
  parse_env_loop line_no seen (text_lines (write_env vars)) = Ok vars.
Proof.
  revert seen line_no. induction vars as [|v vars IH]; intros seen line_no Hr Hn Hd Hs; [done|].
  inversion_clear Hr as [|?? Hv Hr']. inversion_clear Hn as [|?? Hvn Hn']. inversion_clear Hs as [|?? Hvs Hs'].
  rewrite fmap_cons in Hd. apply NoDup_cons in Hd as [Hvd Hd].
  assert (Hl : 10 ∉ env_text v).
  { destruct (proj1 (Forall_forall _ _) db_keys_shape _ (readable_key _ Hv)) as [_ _ _ _ Hk _].
    unfold env_text. rewrite !elem_of_app, !list_elem_of_singleton. pose proof (escape_no_newline _ Hvn). naive_solver. }
  assert (Hc : strip_cr ([] ++ env_text v) = env_text v).
  { unfold strip_cr. cbn [app]. assert (last (env_text v) = Some DQUOTE) as -> by (unfold env_text; by rewrite !app_assoc, last_snoc). done. }
  unfold text_lines, write_env. cbn [mbind list_bind]. rewrite <- app_assoc. cbn [app].
  rewrite lines_loop_line, Hc by done. cbn [parse_env_loop]. unfold env_step. rewrite env_line_text by done. cbn [mbind result_bind].
  rewrite bool_decide_false by done. change (trim_left (DQUOTE :: ?t)) with (DQUOTE :: t).
  unfold parse_value. cbn [strip_chars]. rewrite N.eqb_refl. unfold parse_double_quoted. rewrite double_quoted_escaped. cbn.
  unfold reject_unsupported_expansion. rewrite (readable_plain _ Hv). cbn. fold (write_env vars).
  change (lines_loop [] (write_env vars)) with (text_lines (write_env vars)). rewrite IH; [by destruct v|done|done|done|].
  apply Forall_forall. intros w Hw. rewrite not_elem_of_cons. split.
  - intros E. apply Hvd. rewrite <- E. by apply list_elem_of_fmap_2.
  - by apply (proj1 (Forall_forall _ _) Hs').
Qed.

Lemma env_line_key raw line_no key rest : env_line raw line_no = Ok (Some (key, rest)) → key ∈ DB_KEYS.
Proof.
  unfold env_line. intros H. repeat (case_match; try done). injection H as <- <-. by eapply bool_decide_eq_true_1.
Qed.

Lemma env_step_readable seen raw line_no v : env_step seen raw line_no = Ok (Some v) → Readable v ∧ ev_key v ∉ seen.
Proof.
  unfold env_step. intros ([[key rest]|] & Hl & Ho)%bind_ok; [apply env_line_key in Hl|done].
  destruct (bool_decide_reflect (key ∈ seen)) as [|Hseen]; [done|].
  apply bind_ok in Ho as (value & _ & [Hx [= <-]]%check_then). split; [|done]. split; [done|].
  unfold reject_unsupported_expansion in Hx. cbn. by destruct (expands value).
Qed.

Lemma parse_env_sound line_no seen lines vars :
  parse_env_loop line_no seen lines = Ok vars →
  Forall Readable vars ∧ NoDup (ev_key <$> vars) ∧ Forall (fun v => ev_key v ∉ seen) vars.
Proof.
  revert line_no seen vars. induction lines as [|line lines IH]; intros line_no seen vars; cbn [parse_env_loop].
  { intros [= <-]. by split_and!; [|apply NoDup_nil|]. }
  intros (o & Ho & Hr)%bind_ok. destruct o as [v|]; [|by apply IH in Hr].
  apply bind_ok in Hr as (vars' & (Hf & Hd & Hs)%IH & [= <-]). apply env_step_readable in Ho as [Hv Hseen].
  split_and!; [by constructor| |].
  - rewrite fmap_cons. apply NoDup_cons. split; [|done]. intros (w & Ew & Hw)%list_elem_of_fmap.
    eapply Forall_forall in Hs; [|exact Hw]. apply Hs. rewrite <- Ew. apply list_elem_of_here.
  - constructor; [done|]. eapply Forall_impl; [exact Hs|]. intros w. by rewrite not_elem_of_cons; intros [_ ?].
Qed.

(** the password leaves the list, the other variables stay *)
Definition not_password (v : EnvVar) : bool := negb (is_key v "DB_PASSWORD").
Lemma extract_keeps meta password keep vars meta' password' keep' :
  extract_loop meta password keep vars = Ok (meta', password', keep') →
  keep' = keep ++ filter (fun v => not_password v = true) vars.
Proof.
  revert meta password keep. induction vars as [|v vars IH]; intros meta password keep; cbn [extract_loop].
  { intros [= _ _ <-]. by rewrite app_nil_r. }
  destruct meta as [kind host port database username].
  destruct (is_key v "DB_PASSWORD") eqn:Ep.
  - assert (∀ k, k ≠ "DB_PASSWORD"%string → chars k ≠ chars "DB_PASSWORD" → is_key v k = false) as Hk.
    { intros k _ Hk. unfold is_key in *. apply bool_decide_eq_true in Ep. apply bool_decide_eq_false. congruence. }
    rewrite !Hk by done. intros ->%IH. rewrite filter_cons_False; [done|]. unfold not_password. by rewrite Ep.
  - rewrite filter_cons_True by (unfold not_password; by rewrite Ep).
    repeat case_match; try done; intros ->%IH; by rewrite <- app_assoc.
Qed.

(** C34. Environment files read back. What the reader accepts of any file is at
    most one variable for each of the six connection keys, without shell
    expansions in its value; a file written from such variables, with quoted and
    escaped values on one line each, is read as exactly those variables; and
    extracting the connection leaves every variable but the password in the
    list, in order. *)
Theorem env_file_roundtrip :
  (∀ input vars, parse_env input = Ok vars → DbVars vars) ∧
  (∀ vars, DbVars vars → Forall (fun v => 10 ∉ ev_value v) vars → parse_env (write_env vars) = Ok vars) ∧
  (∀ vars meta password rest, extract_db vars = Ok (meta, password, rest) →
     rest = filter (fun v => not_password v = true) vars).
Proof.
  split_and!.
  - intros input vars (Hf & Hd & _)%parse_env_sound. by split.
  - intros vars [Hr Hd] Hn. apply parse_written; [done|done|done|]. apply Forall_true. intros v. apply not_elem_of_nil.
  - intros vars meta password rest Hx. by apply extract_keeps in Hx.
Qed.

(** a password with a quote, a backslash and a space before a hash *)
Lemma env_file_roundtrip_witness :
  let vars := [mkEnvVar (chars "DB_HOST") (chars "db.internal");
               mkEnvVar (chars "DB_PASSWORD") (chars "p\a" ++ [DQUOTE] ++ chars "b #c")] in
  DbVars vars ∧ parse_env (write_env vars) = Ok vars.
Proof.
  intros vars.
  assert (Hv : DbVars vars).
  { split; [repeat constructor; cbn [ev_key ev_value]; try reflexivity; apply (bool_decide_eq_true_1 _); vm_compute; reflexivity|].
    apply (bool_decide_eq_true_1 _). vm_compute. reflexivity. }
  split; [exact Hv|]. apply (proj1 (proj2 env_file_roundtrip)); [exact Hv|].
  apply (bool_decide_eq_true_1 _). vm_compute. reflexivity.
Defined.
