(* ===== verification/Flow.v ===== *)
(** * Steps that fail and that change a state

    The monad of the guided flow of [init] and of the statements on a database:
    an error ends the computation, the state it leaves is kept. *)

From S2P Require Import Prelude Errors.

Definition Flow (P A : Type) : Type := P → result LensError A * P.
Section Monad.
Context {P : Type}.
#[export] Instance Flow_ret : MRet (Flow P) := fun A a p => (Ok a, p).
#[export] Instance Flow_fmap : FMap (Flow P) := fun A B f m p =>
  match m p with (Ok a, p) => (Ok (f a), p) | (Err e, p) => (Err e, p) end.
#[export] Instance Flow_bind : MBind (Flow P) := fun A B f m p =>
  match m p with (Ok a, p) => f a p | (Err e, p) => (Err e, p) end.
Definition lift {A} (r : result LensError A) : Flow P A := fun p => (r, p).
End Monad.

Lemma flow_bind_ok {P A B} (m : Flow P A) (f : A → Flow P B) p b p' :
  (m ≫= f) p = (Ok b, p') → ∃ x q, m p = (Ok x, q) ∧ f x q = (Ok b, p').
Proof. unfold mbind, Flow_bind. destruct (m p) as [[x|e] q] eqn:E; [|done]. intros Hf. by exists x, q. Qed.
Lemma flow_lift_ok {P A} (r : result LensError A) (p p' : P) a : lift r p = (Ok a, p') → r = Ok a ∧ p' = p.
Proof. unfold lift. intros [= -> ->]. done. Qed.
Lemma flow_ret_ok {P A} (x a : A) (p p' : P) : (mret x : Flow P A) p = (Ok a, p') → x = a ∧ p' = p.
Proof. intros [= -> ->]. done. Qed.

(** open one step of a flow that succeeded *)
Ltac flow_open H x q Hx := apply flow_bind_ok in H as (x & q & Hx & H).

(** ** What a flow keeps, whether it succeeds or not *)
Section Keeps.
Context {P : Type} (R : relation P) `{!PreOrder R}.
Definition Keeps {A} (m : Flow P A) : Prop := ∀ p, R p (m p).2.

Lemma flow_keeps_ret {A} (x : A) : Keeps (mret x).
Proof. intros p. reflexivity. Qed.
Lemma keeps_lift {A} (r : result LensError A) : Keeps (lift r).
Proof. intros p. reflexivity. Qed.
Lemma flow_keeps_bind {A B} (m : Flow P A) (f : A → Flow P B) : Keeps m → (∀ x, Keeps (f x)) → Keeps (m ≫= f).
Proof.
  intros Hm Hf p. unfold mbind, Flow_bind. specialize (Hm p). destruct (m p) as [[x|e] q]; [|done].
  etrans; [exact Hm|apply Hf].
Qed.
(** a pure step: what follows knows that it succeeded *)
Lemma keeps_bind_lift {A B} (r : result LensError A) (f : A → Flow P B) :
  (∀ x, r = Ok x → Keeps (f x)) → Keeps (lift r ≫= f).
Proof. intros Hf p. unfold mbind, Flow_bind, lift. destruct r as [x|e]; [by apply Hf|cbn; reflexivity]. Qed.
Lemma keeps_fmap {A B} (f : A → B) (m : Flow P A) : Keeps m → Keeps (f <$> m).
Proof. intros Hm p. unfold fmap, Flow_fmap. specialize (Hm p). by destruct (m p) as [[]]. Qed.
End Keeps.
Create HintDb keeps.
#[export] Hint Resolve flow_keeps_ret keeps_lift flow_keeps_bind keeps_fmap : keeps.
