(* ===== verification/InitFlow.v ===== *)
(** * The guided flow of [init]

    Models src/src/cli/init/prompter.rs, the interface to the operator with its
    scripted implementation, and src/src/cli/init/flow.rs, the questions that
    lead from the arguments to a plan, with the preview of a plan.

    The operator is a class: a state and what each prompt answers in it.  The
    terminal of dialoguer is one, the scripted prompter another.  ssh, the clock,
    the environment and the existence of a file are values the flow is given. *)

From S2P Require Import Prelude Utf8 Str Errors LensValue SshArgs Keyword Policy Disk InitData EnvFile Flow.

(** ** Prompts *)
Inductive PromptError :=
| Aborted
| NotATty
| ScriptExhausted (kind : string)
| PromptIo (err : string)
| Dialoguer (err : string).
Definition prompt_error_display (e : PromptError) : string :=
  match e with
  | Aborted => "user aborted prompt"
  | NotATty => "not a tty; rerun with --non-interactive or --print-only"
  | ScriptExhausted kind => concat_str ["scripted prompter exhausted at "; kind]
  | PromptIo err => concat_str ["io error: "; err]
  | Dialoguer err => concat_str ["dialoguer error: "; err]
  end%string.

Class Prompter (P : Type) := {
  ask_input : string → option string → P → result PromptError string * P;
  ask_confirm : string → bool → P → result PromptError bool * P;
  ask_select : string → list string → P → result PromptError nat * P;
  ask_password : string → P → result PromptError string * P;
}.

Record FakePrompter := mkFake {
  texts : list string; confirms : list bool; selects : list nat; passwords : list string;
  allow_defaults : bool; last_prompt : option string; last_select_choices : option (list string) }.
Definition fake_new : FakePrompter := mkFake [] [] [] [] false None None.
Definition is_strict_and_empty (p : FakePrompter) : bool :=
  negb (allow_defaults p) && is_nil (texts p) && is_nil (confirms p) && is_nil (selects p) && is_nil (passwords p).
Definition recorded (msg : string) (p : FakePrompter) : FakePrompter :=
  mkFake (texts p) (confirms p) (selects p) (passwords p) (allow_defaults p) (Some msg) (last_select_choices p).

Definition fake_input (msg : string) (dflt : option string) (p : FakePrompter) : result PromptError string * FakePrompter :=
  let p := recorded msg p in
  match texts p with
  | s :: rest => (Ok s, mkFake rest (confirms p) (selects p) (passwords p) (allow_defaults p) (last_prompt p) (last_select_choices p))
  | [] => match allow_defaults p, dflt with
          | true, Some d => (Ok d, p)
          | _, _ => (Err (ScriptExhausted "text"), p)
          end
  end.
Definition fake_confirm (msg : string) (dflt : bool) (p : FakePrompter) : result PromptError bool * FakePrompter :=
  let p := recorded msg p in
  match confirms p with
  | b :: rest => (Ok b, mkFake (texts p) rest (selects p) (passwords p) (allow_defaults p) (last_prompt p) (last_select_choices p))
  | [] => (if allow_defaults p then Ok dflt else Err (ScriptExhausted "confirm"), p)
  end.
Definition fake_select (msg : string) (choices : list string) (p : FakePrompter) : result PromptError nat * FakePrompter :=
  let p := recorded msg p in
  let p := mkFake (texts p) (confirms p) (selects p) (passwords p) (allow_defaults p) (last_prompt p) (Some choices) in
  match selects p with
  | i :: rest => (Ok i, mkFake (texts p) (confirms p) rest (passwords p) (allow_defaults p) (last_prompt p) (last_select_choices p))
  | [] => (Err (ScriptExhausted "select"), p)
  end.
Definition fake_password (msg : string) (p : FakePrompter) : result PromptError string * FakePrompter :=
  let p := recorded msg p in
  match passwords p with
  | s :: rest => (Ok s, mkFake (texts p) (confirms p) (selects p) rest (allow_defaults p) (last_prompt p) (last_select_choices p))
  | [] => (Err (ScriptExhausted "password"), p)
  end.
#[export] Instance fake_prompter : Prompter FakePrompter := {|
  ask_input := fake_input; ask_confirm := fake_confirm; ask_select := fake_select; ask_password := fake_password |}.

(** ** Steps of the flow: the operator is asked in turn *)
Section Monad.
Context {P : Type}.
(** [.map_err(prompt_to_lens)] *)
Definition prompt_to_lens (e : PromptError) : LensError :=
  Errors.Profile (concat_str ["prompt failed: "; prompt_error_display e]).
Definition asked {A} (m : P → result PromptError A * P) : Flow P A := fun p =>
  let '(r, p) := m p in (map_err r prompt_to_lens, p).
End Monad.

(** ** Environment *)
Record SshExec := mkSshExec {
  cat_capped : string → string → bool → result LensError CatOutput;
  host_key_fingerprint : string → bool → result LensError string }.
(** [at_]: the moment the clock shows; [present]: which paths exist *)
Record InitEnv := mkInitEnv {
  home : string; cwd : string; project_config : option string; user_config : option string; ssh_exec : SshExec;
  xdg_data_home : option string; home_var : option string; at_ : Z; present : string → bool }.

(** [Path::join]: an absolute name replaces the base *)
Definition join (base name : string) : string := if is_absolute name then name else join_path base name.

Definition resolve_profile_path (scope : InitScope) (env : InitEnv) : string :=
  match scope with
  | ProjectScope | ProjectAutoPurge => default (join (cwd env) ".gaze-lens.toml") (project_config env)
  | UserScope => default (join (join (home env) ".gaze-lens") "profiles.toml") (user_config env)
  end.
Definition resolve_policy_path (scope : InitScope) (profile_name : string) (env : InitEnv) : string :=
  match scope with
  | ProjectScope | ProjectAutoPurge => join (cwd env) "gaze-policy.toml"
  | UserScope => join (join (home env) ".gaze-lens") (concat_str [profile_name; "-policy.toml"])
  end.

Definition SOURCE_KINDS : list string := ["mysql"; "postgres"; "sqlite"; "ssh-log"; "local-log"]%string.
Definition SCOPES : list string :=
  ["user - local-only config in ~/.gaze-lens/profiles.toml; good for personal experiments or machine-specific access; not committed to repo";
   "project - shared project config in .gaze-lens.toml; good for team policy/profile defaults; secrets still come from env/keyring";
   "project-auto-purge - same as project, plus automatic deletion of old raw replay snapshot files after the retention window"]%string.
Definition kind_from_index (i : nat) : SourceKind :=
  match i with
  | 0 => Kind.Mysql | 1 => Kind.Postgres | 2 => Kind.Sqlite | 3 => Kind.SshLog | _ => Kind.LocalLog
  end%nat.
Definition scope_from_index (i : nat) : InitScope :=
  match i with 0 => UserScope | 1 => ProjectScope | _ => ProjectAutoPurge end%nat.

Definition build_profile_section_skeleton (a : InitArgs) (name : string) (kind : SourceKind) : ProfileSection := {|
  s_name := name; s_production := false; s_source_kind := kind;
  s_source_host := a_source_host a; s_source_port := a_source_port a; s_source_database := a_source_database a;
  s_source_username := a_source_username a; s_source_password_env := a_source_password_env a; s_source_secret := None;
  s_source_ssh_host := a_source_ssh_host a; s_source_local_port := a_source_local_port a; s_source_path := a_source_path a;
  s_source_json_text_columns := a_source_json_text_columns a; s_policy_path := None; s_schema_allowlist := [];
  s_snapshot_retention_days := None; s_discovered_from_ssh_host := None; s_discovered_from_path := None;
  s_discovered_at := None; s_discovered_fingerprint := None; s_credential_class := ManuallyEntered;
  s_auto_purge := Choice.Off |}.

(** the fields the questions fill in *)
Definition set_source (s : ProfileSection) (host : option string) (port : option N) (database username : option string)
    (path : option string) : ProfileSection := {|
  s_name := s_name s; s_production := s_production s; s_source_kind := s_source_kind s;
  s_source_host := host; s_source_port := port; s_source_database := database; s_source_username := username;
  s_source_password_env := s_source_password_env s; s_source_secret := s_source_secret s;
  s_source_ssh_host := s_source_ssh_host s; s_source_local_port := s_source_local_port s; s_source_path := path;
  s_source_json_text_columns := s_source_json_text_columns s; s_policy_path := s_policy_path s;
  s_schema_allowlist := s_schema_allowlist s; s_snapshot_retention_days := s_snapshot_retention_days s;
  s_discovered_from_ssh_host := s_discovered_from_ssh_host s; s_discovered_from_path := s_discovered_from_path s;
  s_discovered_at := s_discovered_at s; s_discovered_fingerprint := s_discovered_fingerprint s;
  s_credential_class := s_credential_class s; s_auto_purge := s_auto_purge s |}.
Definition set_password (s : ProfileSection) (password_env : option string) (secret : option PlannedSecret)
    (class : CredentialClass) : ProfileSection := {|
  s_name := s_name s; s_production := s_production s; s_source_kind := s_source_kind s;
  s_source_host := s_source_host s; s_source_port := s_source_port s; s_source_database := s_source_database s;
  s_source_username := s_source_username s; s_source_password_env := password_env; s_source_secret := secret;
  s_source_ssh_host := s_source_ssh_host s; s_source_local_port := s_source_local_port s; s_source_path := s_source_path s;
  s_source_json_text_columns := s_source_json_text_columns s; s_policy_path := s_policy_path s;
  s_schema_allowlist := s_schema_allowlist s; s_snapshot_retention_days := s_snapshot_retention_days s;
  s_discovered_from_ssh_host := s_discovered_from_ssh_host s; s_discovered_from_path := s_discovered_from_path s;
  s_discovered_at := s_discovered_at s; s_discovered_fingerprint := s_discovered_fingerprint s;
  s_credential_class := class; s_auto_purge := s_auto_purge s |}.
Definition set_discovered (s : ProfileSection) (kind : SourceKind) (host path : string) (at_ : Z) (fingerprint : option string)
    : ProfileSection := {|
  s_name := s_name s; s_production := s_production s; s_source_kind := kind;
  s_source_host := s_source_host s; s_source_port := s_source_port s; s_source_database := s_source_database s;
  s_source_username := s_source_username s; s_source_password_env := s_source_password_env s; s_source_secret := s_source_secret s;
  s_source_ssh_host := s_source_ssh_host s; s_source_local_port := s_source_local_port s; s_source_path := s_source_path s;
  s_source_json_text_columns := s_source_json_text_columns s; s_policy_path := s_policy_path s;
  s_schema_allowlist := s_schema_allowlist s; s_snapshot_retention_days := s_snapshot_retention_days s;
  s_discovered_from_ssh_host := Some host; s_discovered_from_path := Some path;
  s_discovered_at := Some at_; s_discovered_fingerprint := fingerprint;
  s_credential_class := s_credential_class s; s_auto_purge := s_auto_purge s |}.
Definition set_outcome (s : ProfileSection) (auto_purge : AutoPurgeChoice) (production : bool) (policy_path : option string)
    : ProfileSection := {|
  s_name := s_name s; s_production := production; s_source_kind := s_source_kind s;
  s_source_host := s_source_host s; s_source_port := s_source_port s; s_source_database := s_source_database s;
  s_source_username := s_source_username s; s_source_password_env := s_source_password_env s; s_source_secret := s_source_secret s;
  s_source_ssh_host := s_source_ssh_host s; s_source_local_port := s_source_local_port s; s_source_path := s_source_path s;
  s_source_json_text_columns := s_source_json_text_columns s; s_policy_path := policy_path;
  s_schema_allowlist := s_schema_allowlist s; s_snapshot_retention_days := s_snapshot_retention_days s;
  s_discovered_from_ssh_host := s_discovered_from_ssh_host s; s_discovered_from_path := s_discovered_from_path s;
  s_discovered_at := s_discovered_at s; s_discovered_fingerprint := s_discovered_fingerprint s;
  s_credential_class := s_credential_class s; s_auto_purge := auto_purge |}.

Definition require_interactive (a : InitArgs) (field flag : string) : result LensError unit :=
  if a_non_interactive a then refuse ["missing required field: "%string; field; " ("%string; flag; ")"%string] else Ok tt.

(** the display of [ParseIntError] *)
Fixpoint int_fault (max acc : N) (s : bytes) : string :=
  match s with
  | [] => "invalid digit found in string"
  | b :: s =>
    if negb (digit b) then "invalid digit found in string"
    else let acc := acc * 10 + (code b - 48) in
         if max <? acc then "number too large to fit in target type" else int_fault max acc s
  end.
Definition parse_int_error (max : N) (s : bytes) : string :=
  if is_nil s then "cannot parse integer from empty string" else int_fault max 0 (default s (strip_prefix "+" s)).

Definition invalid_ssh_host (host : string) : result LensError unit :=
  _ ← map_err (validate_ssh_login_host host)
        (fun err => Errors.Profile (concat_str ["invalid ssh host: "; ssh_error_display err]));
  Ok tt.
Definition validate_section_hosts (s : ProfileSection) : result LensError unit :=
  let check host := match host with Some host => invalid_ssh_host host | None => Ok tt end in
  match s_source_kind s with
  | Kind.SshLog => check (s_source_host s)
  | Kind.Mysql | Kind.Postgres => check (s_source_ssh_host s)
  | Kind.Sqlite | Kind.LocalLog => Ok tt
  end.

(** ** Discovery *)
Inductive DiscoveryPath := HostDbOnly | AsIs | AbortDiscovery.
Definition DISCOVERY_PATH_CHOICES : list string :=
  ["Use separate read-only credential"; "Store discovered production credential"; "Abort without writing config"]%string.
Definition DISCOVERY_PATH_PROMPT : string :=
"Use discovered database credential?

Recommended: keep discovered host/database, then enter readonly DB username/password for least-privilege agent access.
Fast path: save DB username/password found in remote .env; usually too broad.
Exit: stop discovery without writing config.".
Definition ABORTED : string :=
  "discovery aborted by operator; rerun with the right host/path or create a readonly user manually".

Record Discovered := mkDiscovered { d_section : ProfileSection; d_username : option string; d_password : option string }.

Section Flow.
Context `{Prompter P}.
Implicit Types (a : InitArgs) (s : ProfileSection).

(** [args.source_password_keyring_*] with their defaults *)
Definition keyring_secret a s (write_value : option string) : PlannedSecret :=
  PlannedKeyring (default "gaze-lens"%string (a_keyring_service a)) (default (s_name s) (a_keyring_account a)) write_value.

Definition choose_discovery a : Flow P DiscoveryPath :=
  match a_accept_prod_rw a with
  | Some _ => mret AsIs
  | None =>
    _ ← lift (require_interactive a "discovery path consent" "--accept-prod-rw");
    i ← asked (ask_select DISCOVERY_PATH_PROMPT DISCOVERY_PATH_CHOICES);
    mret (match i with 0 => HostDbOnly | 1 => AsIs | _ => AbortDiscovery end)%nat
  end.

Definition with_username s (username : option string) : ProfileSection :=
  set_source s (s_source_host s) (s_source_port s) (s_source_database s) username (s_source_path s).

Definition apply_discovery a s (username password : option string) (chosen : DiscoveryPath) : Flow P ProfileSection :=
  match chosen with
  | AbortDiscovery => lift (refuse [ABORTED])
  | AsIs =>
    pw ← lift (ok_or (not_empty password) (Errors.Profile "Path A unavailable: discovered DB_PASSWORD is empty"));
    _ ← match a_accept_prod_rw a with
        | Some _ => mret tt
        | None =>
          typed ← asked (ask_input "Type discovered DB username to store production credential?" None);
          lift (if String.eqb typed (default ""%string username) then Ok tt else refuse [ABORTED])
        end;
    mret (set_password (with_username s username) None (Some (keyring_secret a s (Some pw))) ProdRwCloned)
  | HostDbOnly =>
    _ ← lift (require_interactive a "readonly database credentials" "--source-username");
    username ← asked (ask_input "Readonly database username?" username);
    password ← asked (ask_password "Readonly database password for keyring?");
    mret (set_password (with_username s (Some username)) None (Some (keyring_secret a s (Some password))) ManuallyEntered)
  end.

(** the variables of the remote file *)
Definition read_remote_env a (host path : string) (env : InitEnv) : result LensError (list EnvVar) :=
  _ ← invalid_ssh_host host;
  _ ← validate_env_path path;
  raw ← cat_capped (ssh_exec env) host path (a_allow_new_ssh_host a);
  _ ← refuse_if (cat_truncated raw) "remote .env exceeds 64 KiB cap; refusing";
  content ← ok_or (from_utf8 (cat_bytes raw)) (Errors.Profile ".env content is not UTF-8");
  vars ← parse_env content;
  _ ← refuse_if (is_nil vars) "no DB_* keys found in remote .env";
  Ok vars.
(** the connection they tell, the user and the password *)
Definition discovered a s (host path : string) (env : InitEnv) : result LensError Discovered :=
  vars ← read_remote_env a host path env;
  found ← extract_db vars;
  let '(meta, password, _) := found in
  let kind := default (default Kind.Mysql (m_kind meta)) (a_source_kind a) in
  let fingerprint := match host_key_fingerprint (ssh_exec env) host (a_allow_new_ssh_host a) with Ok f => Some f | Err _ => None end in
  let s := set_discovered s kind host path (at_ env) fingerprint in
  let s := set_source s (string_of <$> m_host meta) (source_port_or_default meta kind) (string_of <$> m_database meta)
             (s_source_username s) (s_source_path s) in
  Ok (mkDiscovered s (string_of <$> m_username meta) (string_of <$> password)).

Definition populate_discovered_source_params a s (host path : string) (env : InitEnv) : Flow P ProfileSection :=
  d ← lift (discovered a s host path env);
  chosen ← choose_discovery a;
  apply_discovery a (d_section d) (d_username d) (d_password d) chosen.

(** ** The source's parameters *)
Definition ask_missing a (current : option string) (field flag question : string) (dflt : option string) : Flow P (option string) :=
  match current with
  | Some v => mret (Some v)
  | None =>
    _ ← lift (require_interactive a field flag);
    answer ← asked (ask_input question dflt);
    mret (Some answer)
  end.
Definition labelled (kind : SourceKind) (what : string) : string := concat_str [source_kind_str_toml kind; " "; what].

Definition ask_port a (kind : SourceKind) (current : option N) : Flow P (option N) :=
  match current with
  | Some p => mret (Some p)
  | None =>
    _ ← lift (require_interactive a (labelled kind "port") "--source-port");
    let default_port := num (if bool_decide (kind = Kind.Mysql) then 3306 else 5432) in
    answer ← asked (ask_input "Database port?" (Some default_port));
    port ← lift (ok_or (parse_unsigned 65535 (str_bytes answer))
      (Errors.Profile (concat_str ["invalid port `"; answer; "`: "; parse_int_error 65535 (str_bytes answer)])));
    mret (Some port)
  end.

Definition ask_keyring_secret a s (kind : SourceKind) : Flow P PlannedSecret :=
  service ← match a_keyring_service a with
            | Some service => mret service
            | None =>
              _ ← lift (require_interactive a (labelled kind "keyring service") "--source-password-keyring-service");
              asked (ask_input "Keyring service?" (Some "gaze-lens"%string))
            end;
  account ← match a_keyring_account a with
            | Some account => mret account
            | None =>
              _ ← lift (require_interactive a (labelled kind "keyring account") "--source-password-keyring-account");
              asked (ask_input "Keyring account?" (Some (s_name s)))
            end;
  write_value ← (if a_no_keyring_write a then mret None
                 else
                   _ ← lift (require_interactive a (labelled kind "keyring write policy") "--no-keyring-write");
                   should_write ← asked (ask_confirm "Write password to keyring now?" true);
                   if should_write : bool
                   then password ← asked (ask_password "Database password for keyring?"); mret (Some password)
                   else mret None);
  mret (PlannedKeyring service account write_value).

Definition ask_credentials a s (kind : SourceKind) : Flow P ProfileSection :=
  match a_secret_backend a with
  | BackendEnv =>
    match s_source_password_env s, s_source_secret s with
    | None, None =>
      env ← ask_missing a None (labelled kind "password env") "--source-password-env"
              "Env var holding DB password?" (Some "GAZE_LENS_DB_PASSWORD"%string);
      mret (set_password s env (s_source_secret s) (s_credential_class s))
    | _, _ => mret s
    end
  | BackendKeyring =>
    secret ← ask_keyring_secret a s kind;
    mret (set_password s None (Some secret) (s_credential_class s))
  end.

Definition populate_source_params a s (kind : SourceKind) : Flow P ProfileSection :=
  let same := set_source s (s_source_host s) (s_source_port s) (s_source_database s) (s_source_username s) in
  match kind with
  | Kind.Sqlite =>
    path ← ask_missing a (s_source_path s) "sqlite path" "--source-path" "SQLite database path?" None;
    mret (same path)
  | Kind.SshLog =>
    host ← ask_missing a (s_source_host s) "ssh_log host" "--source-host" "SSH host?" None;
    path ← ask_missing a (s_source_path s) "ssh_log path" "--source-path" "Remote log path?" None;
    mret (set_source s host (s_source_port s) (s_source_database s) (s_source_username s) path)
  | Kind.LocalLog =>
    path ← ask_missing a (s_source_path s) "local_log path" "--source-path" "Local log path?" None;
    mret (same path)
  | Kind.Mysql | Kind.Postgres =>
    host ← ask_missing a (s_source_host s) (labelled kind "host") "--source-host" "Database host?" None;
    port ← ask_port a kind (s_source_port s);
    database ← ask_missing a (s_source_database s) (labelled kind "database") "--source-database" "Database name?" None;
    username ← ask_missing a (s_source_username s) (labelled kind "username") "--source-username" "Database username?" None;
    ask_credentials a (set_source s host port database username (s_source_path s)) kind
  end.

(** ** Scope, production, clients and AGENTS.md *)
Definition choose_scope a : Flow P InitScope :=
  match a_scope a with
  | Some scope => mret scope
  | None =>
    _ ← lift (require_interactive a "profile scope" "--scope");
    i ← asked (ask_select "Where to write the profile? Choose profile scope:" SCOPES);
    mret (scope_from_index i)
  end.
Definition purge_question (days : N) : string :=
  concat_str ["This deletes snapshot files older than "; num days; " days. Continue?"].
Definition choose_purge a s (scope : InitScope) : Flow P AutoPurgeChoice :=
  match scope with
  | ProjectAutoPurge =>
    if a_non_interactive a then mret Choice.Purge
    else
      ok ← asked (ask_confirm (purge_question (default 7 (s_snapshot_retention_days s))) false);
      if ok : bool then mret Choice.Purge
      else lift (refuse ["auto-purge consent declined; rerun without --scope project-auto-purge to write a non-purging profile"%string])
  | _ => mret Choice.Off
  end.
Definition should_configure_production a : Flow P bool :=
  if a_production a then mret true
  else if a_non_interactive a then mret false
  else asked (ask_confirm "Is this a production data source?" false).

Definition client_path (client : McpClient) (scope : InitScope) (env : InitEnv) : string :=
  match client with
  | Codex => join (join (home env) ".codex") "config.toml"
  | ClaudeCode => join (cwd env) ".mcp.json"
  | Cursor => join (join (match scope with UserScope => home env | _ => cwd env end) ".cursor") "mcp.json"
  end.
Definition choose_mcp_targets a (name : string) (scope : InitScope) (env : InitEnv) : Flow P (list McpTarget) :=
  clients ← (if negb (is_nil (a_clients a)) then mret (a_clients a)
             else if a_non_interactive a then mret []
             else
               yes ← asked (ask_confirm "Configure MCP server entry for Claude Code (.mcp.json in cwd)?" true);
               mret (if yes : bool then [ClaudeCode] else []));
  mret ((fun client => mkMcpTarget client (client_path client scope env) "gaze-lens" ["serve"%string] name) <$> clients).

Definition build_agents_md_patch a (env : InitEnv) : Flow P (option AgentsMdPatch) :=
  let path := join (cwd env) "AGENTS.md" in
  let exists_ := present env path in
  yes ← (if a_non_interactive a then mret exists_
         else asked (ask_confirm
                (if exists_ then "AGENTS.md exists. Append a gaze-lens snippet (bounded by markers)?"
                 else "Create AGENTS.md with the gaze-lens snippet?")%string (negb exists_)));
  let cm := join (cwd env) "CLAUDE.md" in
  mret (if yes : bool then Some (mkAgentsMdPatch path (if a_also_claude_md a && present env cm then Some cm else None)) else None).

(** ** The whole flow *)
Definition discovery_of a : result LensError (option (string * string)) :=
  discovery ← match a_discover_ssh_host a, a_discover_env_path a with
              | Some host, Some path => Ok (Some (host, path))
              | None, None => Ok None
              | _, _ => refuse ["--discover-ssh-host requires --discover-env-path"%string]
              end;
  _ ← refuse_if (is_some discovery && a_print_only a) "--print-only conflicts with --discover-ssh-host";
  Ok discovery.
Definition choose_kind a (discovery : option (string * string)) : Flow P SourceKind :=
  match discovery, a_source_kind a with
  | Some _, kind => mret (default Kind.Mysql kind)
  | None, Some kind => mret kind
  | None, None =>
    _ ← lift (require_interactive a "source kind" "--source-kind");
    i ← asked (ask_select "Source kind?" SOURCE_KINDS);
    mret (kind_from_index i)
  end.
Definition choose_name a : Flow P string :=
  match a_profile a with
  | Some name => mret name
  | None =>
    _ ← lift (require_interactive a "profile name" "--profile");
    asked (ask_input "Profile name?" (Some "dev"%string))
  end.

Definition run_guided a (env : InitEnv) : Flow P InitPlan :=
  name ← choose_name a;
  discovery ← lift (discovery_of a);
  kind ← choose_kind a discovery;
  let section := build_profile_section_skeleton a name kind in
  section ← match discovery with
            | Some (host, path) => populate_discovered_source_params a section host path env
            | None => populate_source_params a section kind
            end;
  _ ← lift (validate_section_hosts section);
  scope ← choose_scope a;
  auto_purge ← choose_purge a section scope;
  production ← should_configure_production a;
  policy_write ← (if production : bool then
                    model_dir ← lift (resolve_model_dir_from_env (a_model_dir a) (xdg_data_home env) (home_var env));
                    mret (Some (mkPolicyWriteIntent (resolve_policy_path scope name env) model_dir))
                  else mret None);
  let section := set_outcome section auto_purge (production || s_production section)
                   (match policy_write with Some w => Some (pw_path w) | None => s_policy_path section end) in
  mcp_targets ← (if a_no_mcp_config a then mret [] else choose_mcp_targets a name scope env);
  agents_md ← (if a_no_agents_md a then mret None else build_agents_md_patch a env);
  mret (mkInitPlan (resolve_profile_path scope env) scope section policy_write None mcp_targets agents_md None).
End Flow.

(** ** The preview of a plan *)
Definition scope_label (scope : InitScope) : string :=
  match scope with UserScope => "user" | ProjectScope => "project" | ProjectAutoPurge => "project-auto-purge" end.
Definition client_debug (c : McpClient) : string :=
  match c with Codex => "Codex" | ClaudeCode => "ClaudeCode" | Cursor => "Cursor" end.
Definition NEWLINE : string := str_of [ascii_of_N 10].
(** [debug_str]: Rust's [Debug] of a string *)
Definition render_preview (debug_str : string → string) (plan : InitPlan) : string :=
  let s := profile_section plan in
  let line parts := concat_str (parts ++ [NEWLINE]) in
  let line_if {A} (o : option A) (f : A → list string) := match o with Some x => line (f x) | None => ""%string end in
  concat_str (
    [line ["--- profile: "; profile_path plan; " ("; scope_label (profile_scope plan); ") ---"]%string;
     line ["name = "%string; debug_str (s_name s)];
     if s_production s then line ["production = true"%string] else ""%string;
     line ["kind = "%string; source_kind_str_toml (s_source_kind s)];
     line_if (s_source_path s) (fun p => ["path = "%string; p]);
     line_if (s_source_host s) (fun h => ["host = "%string; h]);
     if bool_decide (s_auto_purge s = Choice.Purge) then line [quoted "auto_purge = 'purge'"] else ""%string;
     line_if (policy_write plan) (fun w => ["policy -> "%string; pw_path w]);
     line_if (policy_write plan) (fun w => ["model: not installed yet ("%string; pw_model_dir w;
       ") - provisioning deferred; run with --fetch-model after the gaze-model-setup release or run gaze setup"%string]);
     line ["--- mcp targets ("%string; num (len (mcp_targets plan)); ") ---"%string]] ++
    ((fun t => line [client_debug (t_client t); " -> "%string; t_path t]) <$> mcp_targets plan) ++
    [line_if (agents_md plan) (fun am => ["--- agents.md: "%string; am_path am; " ---"%string])]).

(** ** What the guided flow asks, and what it needs consent for

    Two prompters give a non-interactive flow the same plan and are left as they
    were; a plan that purges or that stores a password comes from a flag or from
    what the operator answered in that run, which a recording prompter shows. *)

Lemma asked_ok {P A} (m : P → result PromptError A * P) p a p' : asked m p = (Ok a, p') → m p = (Ok a, p').
Proof. unfold asked. destruct (m p) as [[x|e] q]; intros [= -> ->]; done. Qed.
Lemma refuse_not_ok {P A} parts (p p' : P) (a : A) : lift (refuse parts) p ≠ (Ok a, p').
Proof. done. Qed.

(** ** Silence *)
Section Silence.
Context `{Prompter P, Prompter Q} (a : InitArgs) (Hni : a_non_interactive a = true).

(** both give one result and leave their operator alone *)
Definition Same {A} (m : Flow P A) (n : Flow Q A) : Prop := ∃ r, (∀ p, m p = (r, p)) ∧ (∀ q, n q = (r, q)).

Lemma same_ret {A} (x : A) : Same (mret x) (mret x).
Proof. by exists (Ok x). Qed.
Lemma same_lift {A} (r : result LensError A) : Same (lift r) (lift r).
Proof. by exists r. Qed.
Lemma same_bind {A B} (m : Flow P A) (n : Flow Q A) (f : A → Flow P B) (g : A → Flow Q B) :
  Same m n → (∀ x, Same (f x) (g x)) → Same (m ≫= f) (n ≫= g).
Proof.
  intros (r & Hm & Hn) Hf. unfold mbind, Flow_bind. destruct r as [x|e].
  - destruct (Hf x) as (r & Hfx & Hgx). exists r. split; [intros p; by rewrite Hm|intros q; by rewrite Hn].
  - exists (Err e). split; [intros p; by rewrite Hm|intros q; by rewrite Hn].
Qed.
Lemma same_return {A B} (x : A) (f : A → Flow P B) (g : A → Flow Q B) : Same (f x) (g x) → Same (mret x ≫= f) (mret x ≫= g).
Proof. done. Qed.
(** a question that needs an interactive operator is not reached *)
Lemma same_required {A} (field flag : string) (f : unit → Flow P A) (g : unit → Flow Q A) :
  Same (lift (require_interactive a field flag) ≫= f) (lift (require_interactive a field flag) ≫= g).
Proof. unfold require_interactive. rewrite Hni. eexists. by split. Qed.

Create HintDb silent.
#[local] Hint Resolve same_ret same_lift same_required : silent.
Ltac silent := repeat (first
  [ solve [auto with silent]
  | apply same_bind; [|intros ?]
  | progress rewrite ?Hni
  | match goal with |- Same (match ?x with _ => _ end) _ => destruct x end
  | match goal with |- Same ((match ?x with _ => _ end) _) _ => destruct x end ]).

Lemma same_missing current field flag question dflt :
  Same (ask_missing a current field flag question dflt) (ask_missing a current field flag question dflt).
Proof. unfold ask_missing. silent. Qed.
Lemma same_port kind current : Same (ask_port a kind current) (ask_port a kind current).
Proof. unfold ask_port. silent. Qed.
Lemma same_keyring s kind : Same (ask_keyring_secret a s kind) (ask_keyring_secret a s kind).
Proof. unfold ask_keyring_secret. silent. Qed.
#[local] Hint Resolve same_missing same_port same_keyring : silent.
Lemma same_credentials s kind : Same (ask_credentials a s kind) (ask_credentials a s kind).
Proof. unfold ask_credentials. silent. Qed.
#[local] Hint Resolve same_credentials : silent.
Lemma same_params s kind : Same (populate_source_params a s kind) (populate_source_params a s kind).
Proof. unfold populate_source_params. destruct kind; silent. Qed.
Lemma same_discovery s host path env :
  Same (populate_discovered_source_params a s host path env) (populate_discovered_source_params a s host path env).
Proof.
  unfold populate_discovered_source_params, choose_discovery. apply same_bind; [silent|]. intros d.
  destruct (a_accept_prod_rw a) eqn:Ea.
  - (* the flag is the consent *)
    apply same_return. unfold apply_discovery. rewrite Ea. silent.
  - (* no flag: refused before the first question *)
    unfold require_interactive. rewrite Hni. eexists. by split.
Qed.
Lemma same_choices name scope env : Same (choose_mcp_targets a name scope env) (choose_mcp_targets a name scope env).
Proof. unfold choose_mcp_targets. silent. Qed.
Lemma same_patch env : Same (build_agents_md_patch a env) (build_agents_md_patch a env).
Proof. unfold build_agents_md_patch. silent. Qed.
#[local] Hint Resolve same_params same_discovery same_choices same_patch : silent.

Lemma same_flow env : Same (run_guided a env) (run_guided a env).
Proof.
  unfold run_guided, choose_name, choose_kind, choose_scope, choose_purge, should_configure_production. silent.
Qed.
End Silence.

(** ** What the operator answered

    The flow over a prompter that keeps what it was asked and what it answered
    is the flow itself. *)
Inductive Answered :=
| Input (question answer : string)
| Confirm (question : string) (answer : bool)
| Select (question : string) (answer : nat)
| Password (question answer : string).

Definition noted {P A} (note : A → Answered) (m : P → result PromptError A * P) (l : list Answered) (p : P)
    : result PromptError A * (P * list Answered) :=
  match m p with
  | (Ok x, p) => (Ok x, (p, l ++ [note x]))
  | (Err e, p) => (Err e, (p, l))
  end.
#[export] Instance recorder `{Prompter P} : Prompter (P * list Answered) := {|
  ask_input question dflt pl := noted (Input question) (ask_input question dflt) pl.2 pl.1;
  ask_confirm question dflt pl := noted (Confirm question) (ask_confirm question dflt) pl.2 pl.1;
  ask_select question choices pl := noted (Select question) (ask_select question choices) pl.2 pl.1;
  ask_password question pl := noted (Password question) (ask_password question) pl.2 pl.1 |}.

Section Recording.
Context `{Prompter P} (a : InitArgs).

(** [n] does what [m] does, and adds the answers to the log *)
Definition Recorded {A} (m : Flow P A) (n : Flow (P * list Answered) A) : Prop :=
  ∀ p l, ∃ l', n (p, l) = ((m p).1, ((m p).2, l ++ l')).

Lemma recorded_ret {A} (x : A) : Recorded (mret x) (mret x).
Proof. intros p l. exists []. by rewrite app_nil_r. Qed.
Lemma recorded_lift {A} (r : result LensError A) : Recorded (lift r) (lift r).
Proof. intros p l. exists []. by rewrite app_nil_r. Qed.
Lemma recorded_bind {A B} (m : Flow P A) n (f : A → Flow P B) g :
  Recorded m n → (∀ x, Recorded (f x) (g x)) → Recorded (m ≫= f) (n ≫= g).
Proof.
  intros Hm Hf p l. unfold mbind, Flow_bind. destruct (Hm p l) as [l' ->]. destruct (m p) as [[x|e] q]; cbn [fst snd].
  - destruct (Hf x q (l ++ l')) as [l'' ->]. exists (l' ++ l''). by rewrite app_assoc.
  - by exists l'.
Qed.
Lemma recorded_asked {A} (note : A → Answered) (m : P → result PromptError A * P) :
  Recorded (asked m) (asked (fun pl => noted note m pl.2 pl.1)).
Proof.
  intros p l. unfold asked, noted. cbn [fst snd]. destruct (m p) as [[x|e] q]; [by eexists|exists []; by rewrite app_nil_r].
Qed.
Lemma recorded_input question dflt : Recorded (asked (ask_input question dflt)) (asked (ask_input question dflt)).
Proof. apply recorded_asked. Qed.
Lemma recorded_confirm question dflt : Recorded (asked (ask_confirm question dflt)) (asked (ask_confirm question dflt)).
Proof. apply recorded_asked. Qed.
Lemma recorded_select question choices : Recorded (asked (ask_select question choices)) (asked (ask_select question choices)).
Proof. apply recorded_asked. Qed.
Lemma recorded_password question : Recorded (asked (ask_password question)) (asked (ask_password question)).
Proof. apply recorded_asked. Qed.

Lemma recorded_unless {A} (b : bool) (x : A) m n : Recorded m n → Recorded (if b then mret x else m) (if b then mret x else n).
Proof. intros Hm. destruct b; [apply recorded_ret|exact Hm]. Qed.

Create HintDb recorded.
#[local] Hint Resolve recorded_ret recorded_lift recorded_input recorded_confirm recorded_select recorded_password : recorded.
Ltac record := repeat (first
  [ solve [auto with recorded]
  | apply recorded_bind; [|intros ?]
  | match goal with |- Recorded (match ?x with _ => _ end) _ => destruct x end
  | match goal with |- Recorded ((match ?x with _ => _ end) _) _ => destruct x end ]).

Lemma recorded_missing current field flag question dflt :
  Recorded (ask_missing a current field flag question dflt) (ask_missing a current field flag question dflt).
Proof. unfold ask_missing. record. Qed.
Lemma recorded_port kind current : Recorded (ask_port a kind current) (ask_port a kind current).
Proof. unfold ask_port. record. Qed.
#[local] Hint Resolve recorded_missing recorded_port : recorded.
Lemma recorded_credentials s kind : Recorded (ask_credentials a s kind) (ask_credentials a s kind).
Proof. unfold ask_credentials, ask_keyring_secret. record. Qed.
#[local] Hint Resolve recorded_credentials : recorded.
Lemma recorded_params s kind : Recorded (populate_source_params a s kind) (populate_source_params a s kind).
Proof. unfold populate_source_params. destruct kind; record. Qed.
Lemma recorded_chosen : Recorded (choose_discovery a) (choose_discovery a).
Proof. unfold choose_discovery. record. Qed.
Lemma recorded_apply s username password chosen :
  Recorded (apply_discovery a s username password chosen) (apply_discovery a s username password chosen).
Proof. unfold apply_discovery. record. Qed.
#[local] Hint Resolve recorded_chosen recorded_apply : recorded.
Lemma recorded_discovery s host path env :
  Recorded (populate_discovered_source_params a s host path env) (populate_discovered_source_params a s host path env).
Proof. unfold populate_discovered_source_params. record. Qed.
Lemma recorded_purge s scope : Recorded (choose_purge a s scope) (choose_purge a s scope).
Proof. unfold choose_purge. record. Qed.
Lemma recorded_scope : Recorded (choose_scope a) (choose_scope a).
Proof. unfold choose_scope. record. Qed.
Lemma recorded_production : Recorded (should_configure_production a) (should_configure_production a).
Proof. unfold should_configure_production. record. Qed.
Lemma recorded_targets name scope env : Recorded (choose_mcp_targets a name scope env) (choose_mcp_targets a name scope env).
Proof. unfold choose_mcp_targets. record. Qed.
Lemma recorded_patch env : Recorded (build_agents_md_patch a env) (build_agents_md_patch a env).
Proof. unfold build_agents_md_patch. record. Qed.
#[local] Hint Resolve recorded_params recorded_discovery recorded_purge recorded_scope recorded_production recorded_targets recorded_patch : recorded.
Lemma recorded_flow env : Recorded (run_guided a env) (run_guided a env).
Proof. unfold run_guided, choose_name, choose_kind. record. Qed.

(** a step of the recorded flow only adds to the log *)
Lemma recorded_grows {A} (m : Flow P A) n pl r pl' : Recorded m n → n pl = (r, pl') → pl.2 `prefix_of` pl'.2.
Proof. destruct pl as [p l]. intros Hm Hn. destruct (Hm p l) as [l' E]. rewrite E in Hn. injection Hn as _ <-. by exists l'. Qed.
(** and an answer is in it *)
Lemma noted_ok {A} (note : A → Answered) (m : P → result PromptError A * P) pl x pl' :
  asked (fun pl => noted note m pl.2 pl.1) pl = (Ok x, pl') → note x ∈ pl'.2.
Proof.
  intros Ha%asked_ok. unfold noted in Ha. destruct (m pl.1) as [[y|e] q]; [|done]. injection Ha as -> <-. cbn. set_solver.
Qed.
End Recording.

(** ** Consent *)
Definition TYPE_USERNAME : string := "Type discovered DB username to store production credential?".

Section Consent.
Context `{Prompter P} (a : InitArgs).
Abbreviation R := (P * list Answered)%type.

(** a discovered credential may be stored: the flag, or the choice of the
    second path and the name of the user, typed *)
Definition Consented (username : option string) (log : list Answered) : Prop :=
  is_some (a_accept_prod_rw a) = true ∨
  Select DISCOVERY_PATH_PROMPT 1 ∈ log ∧ Input TYPE_USERNAME (default ""%string username) ∈ log.
(** the password of a planned secret is one the operator typed at a prompt for
    it, or the discovered one, with consent *)
Definition Stored (discovered : option Discovered) (s : ProfileSection) (log : list Answered) : Prop :=
  (s_credential_class s = ProdRwCloned → Consented (s_source_username s) log) ∧
  ∀ service account w, s_source_secret s = Some (PlannedKeyring service account (Some w)) →
    Password "Readonly database password for keyring?" w ∈ log ∨
    Password "Database password for keyring?" w ∈ log ∨
    s_credential_class s = ProdRwCloned ∧
      ∃ d, discovered = Some d ∧ d_password d = Some w ∧ d_username d = s_source_username s.

Lemma consented_mono username log log' : log `prefix_of` log' → Consented username log → Consented username log'.
Proof. intros [l ->] [Hf|[? ?]]; [by left|right; set_solver]. Qed.
Lemma stored_mono d s log log' : log `prefix_of` log' → Stored d s log → Stored d s log'.
Proof.
  intros Hl [Hc Hs]. split; [intros Hp; eapply consented_mono; eauto|]. destruct Hl as [l ->].
  intros service account w Hw. destruct (Hs _ _ _ Hw) as [?|[?|?]]; [left|right; left|by right; right]; set_solver.
Qed.

(** what no answer about the source changes *)
Definition Kept (s s' : ProfileSection) : Prop :=
  s_snapshot_retention_days s' = s_snapshot_retention_days s ∧ s_production s' = s_production s.

Lemma discovery_stored s host path env (p : R) s' p' :
  populate_discovered_source_params a s host path env p = (Ok s', p') →
  ∃ d, discovered a s host path env = Ok d ∧ Stored (Some d) s' p'.2 ∧ Kept s s'.
Proof.
  unfold populate_discovered_source_params. intros Hr. flow_open Hr d q1 Hd. flow_open Hr c q2 Hc.
  apply flow_lift_ok in Hd as [Hd ->]. exists d. split; [done|].
  assert (Kept s (d_section d)) as Hk.
  { unfold discovered in Hd. by apply bind_ok in Hd as (vars & _ & ([[meta pass] rest] & _ & [= <-])%bind_ok). }
  unfold apply_discovery in Hr. destruct c.
  - flow_open Hr u q3 H1. flow_open Hr name q4 H2. flow_open Hr pw q5 H3. apply flow_ret_ok in Hr as [<- <-].
    split; [|exact Hk]. split; [done|]. intros service account w [= _ _ <-]. left. exact (noted_ok _ _ _ _ _ H3).
  - flow_open Hr pw q3 H1. flow_open Hr u q4 H2. apply flow_ret_ok in Hr as [<- <-]. apply flow_lift_ok in H1 as [Hpw ->].
    split; [|exact Hk]. split.
    + intros _. cbn [set_password with_username set_source s_source_username]. unfold Consented.
      unfold choose_discovery in Hc. destruct (a_accept_prod_rw a) as [h|]; [by left|right].
      flow_open Hc v q5 Hq. apply flow_lift_ok in Hq as [_ ->]. flow_open Hc i q6 Hi. pose proof (noted_ok _ _ _ _ _ Hi) as Hsel.
      apply flow_ret_ok in Hc as [Hc <-]. flow_open H2 typed q7 Ht. pose proof (noted_ok _ _ _ _ _ Ht) as Hin.
      pose proof (recorded_grows _ _ _ _ _ (recorded_input _ _) Ht) as [l El].
      apply flow_lift_ok in H2 as [Hok ->]. destruct (String.eqb_spec typed (default ""%string (d_username d))) as [->|]; [|done].
      split; [|exact Hin]. rewrite El. destruct i as [|[|i]]; [done| |done]. set_solver.
    + intros service account w [= _ _ <-]. right. right. split; [done|]. exists d. split_and!; [done| |done].
      apply ok_or_ok in Hpw. unfold not_empty in Hpw. destruct (d_password d) as [x|]; [|done]. cbn in Hpw. by repeat case_match; simplify_eq.
  - done.
Qed.

(** questions about the source leave the class of the credential as it was, and
    store no password but the one they ask for *)
Lemma credentials_stored s kind (p : R) s' p' :
  ask_credentials a s kind p = (Ok s', p') → s_source_secret s = None → s_credential_class s = ManuallyEntered →
  Stored None s' p'.2 ∧ Kept s s'.
Proof.
  unfold ask_credentials. intros Hr Hno Hclass. rewrite Hno in Hr.
  destruct (a_secret_backend a); [destruct (s_source_password_env s)|].
  - apply flow_ret_ok in Hr as [<- _]. split; [|done]. split; [by rewrite Hclass|by rewrite Hno].
  - flow_open Hr e q H1. apply flow_ret_ok in Hr as [<- _]. split; [|done]. split; [by cbn; rewrite Hclass|done].
  - flow_open Hr e q H1. apply flow_ret_ok in Hr as [<- <-]. split; [|done]. split; [by cbn; rewrite Hclass|].
    intros service account w [= ->]. right. left. unfold ask_keyring_secret in H1.
    flow_open H1 sv q1 Hs. flow_open H1 ac q2 Hac. flow_open H1 wv q3 Hw. apply flow_ret_ok in H1 as [[= _ _ ->] <-].
    destruct (a_no_keyring_write a); [by apply flow_ret_ok in Hw as [? _]|].
    flow_open Hw u q4 Hu. flow_open Hw should q5 Hsh. destruct should; [|by apply flow_ret_ok in Hw as [? _]].
    flow_open Hw pw q6 Hpw. apply flow_ret_ok in Hw as [[= ->] <-]. exact (noted_ok _ _ _ _ _ Hpw).
Qed.
Lemma params_stored s kind (p : R) s' p' :
  populate_source_params a s kind p = (Ok s', p') → s_source_secret s = None → s_credential_class s = ManuallyEntered →
  Stored None s' p'.2 ∧ Kept s s'.
Proof.
  unfold populate_source_params. intros Hr Hno Hclass. destruct kind.
  1,2: flow_open Hr h q1 H1; flow_open Hr po q2 H2; flow_open Hr d q3 H3; flow_open Hr u q4 H4;
    by apply credentials_stored in Hr.
  - flow_open Hr h q1 H1. apply flow_ret_ok in Hr as [<- _]. split; [|done]. split; [by cbn; rewrite Hclass|by cbn; rewrite Hno].
  - flow_open Hr h q1 H1. flow_open Hr d q2 H2. apply flow_ret_ok in Hr as [<- _].
    split; [|done]. split; [by cbn; rewrite Hclass|by cbn; rewrite Hno].
  - flow_open Hr h q1 H1. apply flow_ret_ok in Hr as [<- _]. split; [|done]. split; [by cbn; rewrite Hclass|by cbn; rewrite Hno].
Qed.

Lemma purge_confirmed s scope (p : R) c p' :
  choose_purge a s scope p = (Ok c, p') → s_snapshot_retention_days s = None →
  (c = Choice.Purge ↔ scope = ProjectAutoPurge) ∧
  (c = Choice.Purge → a_non_interactive a = true ∨ Confirm (purge_question 7) true ∈ p'.2).
Proof.
  unfold choose_purge. intros Hr Hd. destruct scope; try by apply flow_ret_ok in Hr as [<- _].
  destruct (a_non_interactive a); [apply flow_ret_ok in Hr as [<- _]; split; [done|by left]|].
  flow_open Hr ok q Ha. pose proof (noted_ok _ _ _ _ _ Ha) as Hin. destruct ok; [|done]. apply flow_ret_ok in Hr as [<- <-].
  split; [done|]. intros _. right. by rewrite Hd in Hin.
Qed.

Lemma scope_given (p : R) scope p' : choose_scope a p = (Ok scope, p') → a_non_interactive a = true → a_scope a = Some scope.
Proof.
  unfold choose_scope, require_interactive. destruct (a_scope a); intros Hr Hn; [by apply flow_ret_ok in Hr as [-> _]|].
  by rewrite Hn in Hr.
Qed.

Lemma accepted_host : validate a = Ok tt → is_some (a_accept_prod_rw a) = true →
  ∃ host, a_accept_prod_rw a = Some host ∧ host = default ""%string (a_discover_ssh_host a).
Proof.
  unfold validate. rewrite !check_then. intros (_ & _ & Hc & _). destruct (a_accept_prod_rw a) as [c|]; [|done]. intros _.
  destruct (String.eqb_spec c (default ""%string (a_discover_ssh_host a))) as [E|]; [|done]. by exists c.
Qed.
(** the steps of a recorded flow, put together *)
Lemma flow_facts env (p : P) plan p' log :
  run_guided a env (p, []) = (Ok plan, (p', log)) →
  let s := profile_section plan in
  validate_section_hosts s = Ok tt ∧
  (s_auto_purge s = Choice.Purge ↔ profile_scope plan = ProjectAutoPurge) ∧
  (s_auto_purge s = Choice.Purge →
     (a_non_interactive a = true ∧ a_scope a = Some ProjectAutoPurge) ∨ Confirm (purge_question 7) true ∈ log) ∧
  (∃ found, Stored found s log ∧ ∀ d, found = Some d →
     ∃ host path name kind, discovery_of a = Ok (Some (host, path)) ∧
       discovered a (build_profile_section_skeleton a name kind) host path env = Ok d) ∧
  (s_production s = is_some (policy_write plan)) ∧
  (∀ w, policy_write plan = Some w → s_policy_path s = Some (pw_path w)).
Proof.
  intros Hr. unfold run_guided in Hr.
  flow_open Hr name q1 H1. flow_open Hr discovery q2 H2. flow_open Hr kind q3 H3. flow_open Hr section q4 H4.
  flow_open Hr u q5 H5. flow_open Hr init_scope q6 H6. flow_open Hr purge q7 H7. flow_open Hr production q8 H8.
  flow_open Hr pw q9 H9. flow_open Hr targets q10 H10. flow_open Hr patch q11 H11. apply flow_ret_ok in Hr as [<- Hlog].
  apply flow_lift_ok in H5 as [Hhosts ->]. apply flow_lift_ok in H2 as [Hdisc ->]. destruct u.
  cbn [profile_section profile_scope policy_write].
  pose proof (recorded_grows _ _ _ _ _ (recorded_scope a) H6) as G6.
  pose proof (recorded_grows _ _ _ _ _ (recorded_purge a _ _) H7) as G7.
  pose proof (recorded_grows _ _ _ _ _ (recorded_production a) H8) as G8.
  assert (q9 = q8) as ->.
  { destruct production; [|by apply flow_ret_ok in H9 as [_ ?]]. flow_open H9 m q12 Hm. apply flow_lift_ok in Hm as [_ ->].
    by apply flow_ret_ok in H9 as [_ ?]. }
  pose proof (recorded_grows _ _ _ _ _ (recorded_unless _ _ _ _ (recorded_targets a _ _ _)) H10) as G10.
  pose proof (recorded_grows _ _ _ _ _ (recorded_unless _ _ _ _ (recorded_patch a _)) H11) as G11.
  rewrite <- Hlog in G11. cbn [snd] in G11. assert (G8' : q7.2 `prefix_of` log) by (etrans; [exact G8|by etrans]).
  assert (Hs : (∃ found, Stored found section q4.2 ∧ ∀ d, found = Some d →
      ∃ host path name kind, discovery_of a = Ok (Some (host, path)) ∧
        discovered a (build_profile_section_skeleton a name kind) host path env = Ok d) ∧
    s_snapshot_retention_days section = None ∧ s_production section = false).
  { destruct discovery as [[host path]|].
    - apply discovery_stored in H4 as (d & Hd & Hst & [-> ->]). split; [|done]. exists (Some d). split; [done|].
      intros d' [= <-]. by exists host, path, name, kind.
    - apply params_stored in H4 as [Hst [-> ->]]; [|done..]. split; [|done]. by exists None. }
  destruct Hs as ((found & Hst & Hfound) & Hdays & Hprod). apply purge_confirmed in H7 as (Hscope & Hpurge); [|done].
  split_and!.
  - done.
  - done.
  - intros Hc. cbn in Hc. destruct (Hpurge Hc) as [Hn|Hin]; [left|right].
    + split; [done|]. apply Hscope in Hc as ->. by eapply scope_given.
    + destruct G8' as [l ->]. set_solver.
  - exists found. split; [|done]. eapply (stored_mono found section q4.2); [|exact Hst].
    etrans; [exact G6|by etrans].
  - cbn. rewrite Hprod, orb_false_r. destruct production; [|by apply flow_ret_ok in H9 as [<- _]].
    flow_open H9 m q12 Hm. by apply flow_ret_ok in H9 as [<- _].
  - by intros w ->.
Qed.
End Consent.

(** C37. Consent. Without interaction the operator is not asked anything: whatever
    answers the prompts, the flow gives one result, and leaves the prompter as it
    was. In any successful flow with valid arguments, with the log of what the
    operator was asked and answered in it: the ssh host of the plan passed the
    check of hosts; the plan purges exactly when its scope is the auto-purge one,
    and then the flag said so without interaction, or the operator confirmed the
    deletion; a password to be stored is one the operator typed at a prompt for
    it, or the one found in the remote file; the latter is stored, and the plan
    marked as holding a production credential, only if the flag repeats the host
    it was read from, or the operator chose to store it and typed the name of
    its user; and the profile is marked as production exactly when a policy is
    written for it, at the path the profile names. *)
Theorem plan_needs_consent `{Prompter P} a env (p : P) :
  (a_non_interactive a = true →
     ∀ Q (HQ : Prompter Q) (q : Q), run_guided a env q = ((run_guided a env p).1, q)) ∧
  ∀ plan p', validate a = Ok tt → run_guided a env p = (Ok plan, p') →
    let s := profile_section plan in
    ∃ log : list Answered,
    run_guided a env (p, []) = (Ok plan, (p', log)) ∧ (a_non_interactive a = true → log = []) ∧
    let consented username :=
      (∃ host, a_accept_prod_rw a = Some host ∧ host = default ""%string (a_discover_ssh_host a)) ∨
      Select DISCOVERY_PATH_PROMPT 1 ∈ log ∧ Input TYPE_USERNAME (default ""%string username) ∈ log in
    validate_section_hosts s = Ok tt ∧
    (s_auto_purge s = Choice.Purge ↔ profile_scope plan = ProjectAutoPurge) ∧
    (s_auto_purge s = Choice.Purge →
       (a_non_interactive a = true ∧ a_scope a = Some ProjectAutoPurge) ∨ Confirm (purge_question 7) true ∈ log) ∧
    (s_credential_class s = ProdRwCloned → consented (s_source_username s)) ∧
    (∀ service account w, s_source_secret s = Some (PlannedKeyring service account (Some w)) →
       Password "Readonly database password for keyring?" w ∈ log ∨
       Password "Database password for keyring?" w ∈ log ∨
       ∃ host path name kind d, discovery_of a = Ok (Some (host, path)) ∧
         discovered a (build_profile_section_skeleton a name kind) host path env = Ok d ∧
         d_password d = Some w ∧ d_username d = s_source_username s ∧
         s_credential_class s = ProdRwCloned ∧ consented (d_username d)) ∧
    (s_production s = is_some (policy_write plan)) ∧
    (∀ w, policy_write plan = Some w → s_policy_path s = Some (pw_path w)).
Proof.
  assert (Hsilent : a_non_interactive a = true →
    ∀ Q (HQ : Prompter Q) (q : Q), run_guided a env q = ((run_guided a env p).1, q)).
  { intros Hn Q HQ q. destruct (same_flow (P := P) (Q := Q) a Hn env) as (r & Hp & Hq). by rewrite Hp, Hq. }
  split; [exact Hsilent|]. intros plan p' Hv Hrun s.
  destruct (recorded_flow a env p []) as [log Hr]. rewrite Hrun in Hr. cbn [fst snd app] in Hr. exists log. split; [exact Hr|].
  split. { intros Hn. rewrite (Hsilent Hn _ recorder (p, [])), Hrun in Hr. by injection Hr. }
  intros consented. unfold s. clear s Hrun Hsilent.
  destruct (flow_facts a env p plan p' log Hr) as (Hhosts & Hscope & Hpurge & Hst & Hprod & Hpath).
  assert (Hc : ∀ username, Consented a username log → consented username)
    by (intros username [Hf|?]; [left; by apply accepted_host|by right]).
  destruct Hst as (found & [Hclass Hsec] & Hfound). split_and!; try done; [by intros ?; apply Hc, Hclass|].
  intros service account w Hw. destruct (Hsec _ _ _ Hw) as [?|[?|(Hcl & d & -> & Hpw & Hu)]]; [by left|by right; left|].
  right. right. destruct (Hfound d eq_refl) as (host & path & name & kind & Hdisc & Hd).
  exists host, path, name, kind, d. split_and!; try done. rewrite Hu. by apply Hc, Hclass.
Qed.

(** an interactive run that discovers a production credential: the operator
    picks the scope, stores it after typing the user, and declines the rest *)
Module Run.
Definition args : InitArgs := {|
  a_profile := Some "prod"%string; a_source_kind := None; a_scope := Some ProjectScope; a_source_host := None; a_source_port := None;
  a_source_database := None; a_source_username := None; a_source_password_env := None;
  a_secret_backend := BackendEnv; a_keyring_service := None; a_keyring_account := None; a_no_keyring_write := false;
  a_source_ssh_host := None; a_source_local_port := None; a_source_path := None; a_source_json_text_columns := [];
  a_clients := []; a_no_mcp_config := true; a_no_agents_md := true; a_also_claude_md := false;
  a_allow_overwrite := false; a_production := false; a_model_dir := None; a_allow_policy_overwrite := false;
  a_non_interactive := false; a_print_only := false; a_write_all := false; a_smoke_check := false;
  a_discover_ssh_host := Some "deploy@app"%string; a_discover_env_path := Some "/srv/.env"%string; a_accept_prod_rw := None;
  a_allow_new_ssh_host := false |}.
Definition remote : string := "DB_HOST=db
DB_USERNAME=app
DB_PASSWORD=secret".
Definition ssh : SshExec := mkSshExec (fun _ _ _ => Ok (mkCat (str_bytes remote) false)) (fun _ _ => Ok "SHA256:x"%string).
Definition env : InitEnv := mkInitEnv "/home/u" "/work" None None ssh None (Some "/home/u"%string) 0 (fun _ => false).
Definition operator (typed : string) : FakePrompter := mkFake [typed] [false] [1%nat] [] false None None.

Lemma plan_needs_consent_witness :
  (∃ plan p', run_guided args env (operator "app") = (Ok plan, p') ∧
     s_source_secret (profile_section plan) = Some (PlannedKeyring "gaze-lens" "prod" (Some "secret"%string)) ∧
     ∃ log, run_guided args env (operator "app", []) = (Ok plan, (p', log)) ∧
       Select DISCOVERY_PATH_PROMPT 1 ∈ log ∧ Input TYPE_USERNAME "app" ∈ log) ∧
  is_ok (run_guided args env (operator "other")).1 = false.
Proof.
  split; [|vm_compute; reflexivity].
  destruct (run_guided args env (operator "app")) as [[plan|e] p'] eqn:E; [|vm_compute in E; discriminate].
  exists plan, p'. split; [reflexivity|].
  assert (Hs : s_source_secret (profile_section plan) = Some (PlannedKeyring "gaze-lens" "prod" (Some "secret"%string)) ∧
    s_credential_class (profile_section plan) = ProdRwCloned ∧ s_source_username (profile_section plan) = Some "app"%string)
    by (vm_compute in E; injection E as <- _; repeat split; reflexivity).
  destruct Hs as (Hs & Hc & Hu). split; [exact Hs|].
  destruct (proj2 (plan_needs_consent args env (operator "app")) plan p' eq_refl E) as (log & Hlog & _ & _ & _ & _ & Ht & _).
  exists log. split; [exact Hlog|]. rewrite Hu in Ht.
  destruct (Ht Hc) as [(host & Hh & _)|Ht']; [discriminate|exact Ht'].
Defined.
End Run.
