(* ===== verification/Commit.v ===== *)
(** * Writing the plan

    Models src/src/cli/init/batch.rs and, of src/src/cli/init/mod.rs, the commit of
    a plan: rendering every file before the first write, the entry in the
    keyring, the ordered writes with the report of a partial batch, and the
    command around them.

    The keyring is part of what outlives the process, with the prompter and the
    lines that were printed: [Desk].  What its errors are is a class, like the
    reader of profile files. *)

From S2P Require Import Prelude Utf8 Str Errors LensValue Profile Policy Retention Disk InitData AgentsMd Toml McpConfig Keyword EnvFile Flow InitFlow.

(** ** The keyring *)
Inductive KeyringError :=
| NoEntry
| NoStorageAccess (detail : string)
| PlatformFailure (detail : string)
| Ambiguous (matches : N)
| InvalidKeyringEntry
| OtherKeyring (detail : string).
Definition map_keyring_error (err : KeyringError) (service account : string) : LensError :=
  match err with
  | NoEntry => SecretKeyringMissing service account
  | NoStorageAccess _ | Ambiguous _ => SecretKeyringDenied service account
  | PlatformFailure detail | OtherKeyring detail => SecretBackendUnavailable "platform" detail
  | InvalidKeyringEntry =>
    Errors.Profile (concat_str ["keyring entry for service="; service; " account="; account;
                                " is invalid; check the entry encoding and length"])
  end.

Class KeyringLib := { keyring_fault : string → KeyringError }.
(** the reader of profile files: the display of its errors *)
Class ProfileToml := { profile_utf8_error : bytes → option string; profile_toml_error : bytes → option string }.

(** [written]: how many writes a failing writer has seen *)
Record Desk (P : Type) := mkDesk { ring : gmap (string * string) string; prompter : P; said : list string; written : N }.
Arguments mkDesk {P}.
Arguments ring {P}.
Arguments prompter {P}.
Arguments said {P}.
Arguments written {P}.

Section Desk.
Context {P : Type}.
Abbreviation DeskIO := (IO (Desk P) LensError).

(** a change of the desk that cannot fail, and its answer *)
Definition at_desk {A} (f : Desk P → result LensError A * Desk P) : DeskIO A := fun w =>
  let '(r, d) := f (store w) in (Some r, mkWorld (nodes w) d (fates w)).
Definition say (line : string) : DeskIO unit :=
  at_desk (fun d => (Ok tt, mkDesk (ring d) (prompter d) (said d ++ [line]) (written d))).
Definition emit_orphan_warning (message : string) : DeskIO unit := say message.

(** [Prompter::confirm] of the migration prompter *)
Definition confirm_migration `{Prompter P} (question : string) : DeskIO bool :=
  at_desk (fun d =>
    let '(r, p) := ask_confirm question true (prompter d) in
    (map_err r prompt_to_lens, mkDesk (ring d) p (said d) (written d))).

(** ** Entries of the keyring: each method is a call that can fail *)
Section Ring.
Context `{KeyringLib}.
Definition ring_call {A} (act : gmap (string * string) string → result KeyringError A * gmap (string * string) string)
  : IO (Desk P) KeyringError A :=
  call_with keyring_fault (fun ns d =>
    let '(r, entries) := act (ring d) in (r, (ns, mkDesk entries (prompter d) (said d) (written d)))) whole.
Definition entry_new (service account : string) : IO (Desk P) KeyringError unit := ring_call (fun e => (Ok tt, e)).
Definition get_password (service account : string) : IO (Desk P) KeyringError string :=
  ring_call (fun e => (ok_or (e !! (service, account)) NoEntry, e)).
Definition set_keyring_password (service account value : string) : IO (Desk P) KeyringError unit :=
  ring_call (fun e => (Ok tt, <[(service, account) := value]> e)).
Definition delete_credential (service account : string) : IO (Desk P) KeyringError unit :=
  ring_call (fun e => match e !! (service, account) with Some _ => (Ok tt, delete (service, account) e) | None => (Err NoEntry, e) end).
Definition mapped {A} (service account : string) (m : IO (Desk P) KeyringError A) : DeskIO A :=
  io_err m (fun err => map_keyring_error err service account).

(** the entry a plan wants to be written *)
Definition planned_entry (plan : InitPlan) : option (string * string * string) :=
  match s_source_secret (profile_section plan) with
  | Some (PlannedKeyring service account (Some value)) => Some (service, account, value)
  | _ => None
  end.

Definition PREFLIGHT : string := "gaze-lens-preflight".
Definition PROBE : string := "preflight-probe".
Definition mismatch {A} (detail : string) : DeskIO A := of_result (Err (SecretBackendUnavailable "keyring" detail)).
Definition preflight (account : string) : DeskIO unit :=
  _ ← mapped PREFLIGHT account (entry_new PREFLIGHT account);
  _ ← mapped PREFLIGHT account (set_keyring_password PREFLIGHT account PROBE);
  roundtrip ← mapped PREFLIGHT account (get_password PREFLIGHT account);
  if negb (String.eqb roundtrip PROBE) then mismatch "preflight read-back mismatch"
  else _ ← outcome (delete_credential PREFLIGHT account); mret tt.

Definition write_entry (service account value : string) : DeskIO (option (string * string)) :=
  _ ← mapped service account (set_keyring_password service account value);
  verify ← mapped service account (get_password service account);
  if negb (String.eqb verify value) then mismatch "post-write read-back mismatch"
  else mret (Some (service, account)).

(** [ulid]: the new identifier that makes the probe's account *)
Definition keyring_preflight_and_write (a : InitArgs) (plan : InitPlan) (ulid : string) : DeskIO (option (string * string)) :=
  match planned_entry plan with
  | None => mret None
  | Some (service, account, value) =>
    _ ← preflight (concat_str [s_name (profile_section plan); "-"; ulid]);
    _ ← mapped service account (entry_new service account);
    existing ← outcome (get_password service account);
    match existing with
    | Ok existing =>
      if String.eqb existing value then mret None
      else if negb (a_allow_overwrite a || a_write_all a) then
        of_result (refuse ["keyring entry service=`"; service; "` account=`"; account;
                           "` already exists; rerun with --allow-overwrite to replace"]%string)
      else write_entry service account value
    | Err NoEntry => write_entry service account value
    | Err err => of_result (Err (map_keyring_error err service account))
    end
  end.

(** the display of an error of the prompter, in mod.rs *)
Definition plain_prompt_error (e : PromptError) : LensError := Errors.Profile (prompt_error_display e).
Definition confirm_keyring_overwrite_if_needed `{Prompter P} (a : InitArgs) (plan : InitPlan) : DeskIO unit :=
  if a_non_interactive a || a_write_all a || negb (a_allow_overwrite a) then mret tt
  else
    match planned_entry plan with
    | None => mret tt
    | Some (service, account, value) =>
      _ ← mapped service account (entry_new service account);
      existing ← outcome (get_password service account);
      match existing with
      | Ok existing =>
        if String.eqb existing value then mret tt
        else
          ok ← at_desk (fun d =>
                 let question := concat_str ["Replace existing keyring entry service=`"; service; "` account=`"; account; "`?"] in
                 let '(r, p) := ask_confirm question false (prompter d) in
                 (map_err r plain_prompt_error, mkDesk (ring d) p (said d) (written d)));
          if ok : bool then mret tt
          else of_result (refuse ["keyring entry service=`"; service; "` account=`"; account; "` was not replaced"]%string)
      | Err NoEntry => mret tt
      | Err err => of_result (Err (map_keyring_error err service account))
      end
    end.
End Ring.

(** ** Writers *)
Class BatchWriter := { batch_write : string → bytes → DeskIO unit }.
Definition real_batch_writer (pid : N) : BatchWriter := {| batch_write := atomic_write pid |}.
Definition count_write : DeskIO N :=
  at_desk (fun d => (Ok (written d), mkDesk (ring d) (prompter d) (said d) (written d + 1))).
Definition failing_writer (pid allow_n : N) : BatchWriter := {|
  batch_write dest contents :=
    n ← count_write;
    if allow_n <=? n then of_result (refuse ["FailingWriter induced failure on "%string; dest])
    else atomic_write pid dest contents |}.

(** ** Rendering: nothing is written *)
Record RenderedWrite := mkWrite { w_path : string; w_bytes : bytes }.

(** [read_to_string(path).ok()] *)
Definition read_text (path : string) : DeskIO (option string) :=
  r ← outcome (read_file path);
  mret (match r with Ok b => if utf8_valid b then Some (str_of b) else None | Err _ => None end).

Definition read_existing_production_policy (path : string) : DeskIO (option string) :=
  r ← outcome (read_file path);
  of_result (match r with
    | Ok b => if utf8_valid b then Ok (Some (str_of b))
              else refuse ["malformed production policy "; path; ": existing policy is not valid UTF-8"]%string
    | Err NotFound => Ok None
    | Err err => refuse ["failed to read existing production policy "%string; path; ": "%string; io_text err]
    end).

Definition render_failed (path : string) (e : RenderError) : LensError :=
  Errors.Profile (match e with
    | Malformed _ line column source_msg =>
      concat_str ["malformed "; path; " at line "; num line; ", column "; num column; ": "; source_msg]
    | other => render_error_display other
    end).

Section Render.
Context `{TomlEdit, JsonFile, PolicyToml, ProfileToml, Times, Prompter P}.

Definition render_profile (a : InitArgs) (plan : InitPlan) : DeskIO RenderedWrite :=
  existing ← read_text (profile_path plan);
  rendered ← of_result (map_err
    (render_profile_toml existing (profile_section plan) (a_allow_overwrite a || a_write_all a))
    (render_failed (profile_path plan)));
  let bytes := str_bytes rendered in
  _ ← of_result (validate_profile_bytes profile_utf8_error profile_toml_error bytes (profile_path plan));
  mret (mkWrite (profile_path plan) bytes).

Definition render_policy (a : InitArgs) (plan : InitPlan) : DeskIO (list RenderedWrite) :=
  match policy_write plan with
  | None => mret []
  | Some intent =>
    existing ← read_existing_production_policy (pw_path intent);
    outcome ← of_result (map_err
      (render_production_policy_for_path existing (pw_model_dir intent) (a_allow_policy_overwrite a) (pw_path intent))
      (fun err => Errors.Profile (policy_write_error_display err)));
    mret (match po_bytes outcome with Some text => [mkWrite (pw_path intent) (str_bytes text)] | None => [] end)
  end.

(** [interactive]: there is a prompter for migrations *)
Definition migration_decision (target : McpTarget) (existing : option string) (allow_overwrite interactive : bool)
  : DeskIO LegacyMigration :=
  if allow_overwrite then mret Migrate
  else
    prompt ← of_result (map_err
      (match t_client target with
       | Codex => codex_toml_legacy_migration_prompt existing
       | ClaudeCode | Cursor => mcp_json_legacy_migration_prompt existing
       end) (render_failed (t_path target)));
    match prompt with
    | None => mret Migrate
    | Some prompt =>
      if negb interactive then mret PreserveExisting
      else yes ← confirm_migration prompt; mret (if yes : bool then Migrate else PreserveExisting)
    end.
Definition render_mcp_target (target : McpTarget) (existing : option string) (allow_overwrite interactive : bool) : DeskIO string :=
  migration ← migration_decision target existing allow_overwrite interactive;
  of_result (map_err
    (match t_client target with
     | Codex => render_codex_toml_with_migration existing (t_command target) (t_args target) allow_overwrite migration
     | ClaudeCode | Cursor => render_mcp_json_with_migration existing (t_command target) (t_args target) allow_overwrite migration
     end) (render_failed (t_path target))).
Fixpoint render_targets (a : InitArgs) (interactive : bool) (targets : list McpTarget) : DeskIO (list RenderedWrite) :=
  match targets with
  | [] => mret []
  | target :: targets =>
    existing ← read_text (t_path target);
    rendered ← render_mcp_target target existing (a_allow_overwrite a) interactive;
    rest ← render_targets a interactive targets;
    mret (mkWrite (t_path target) (str_bytes rendered) :: rest)
  end.

Definition render_snippet (plan : InitPlan) (path : string) : DeskIO RenderedWrite :=
  existing ← read_text path;
  rendered ← of_result (map_err
    (render_agents_md_patch (str_bytes <$> existing) (s_name (profile_section plan)))
    (fun e => Errors.Profile (render_error_display e)));
  mret (mkWrite path rendered).
Definition render_agents (plan : InitPlan) : DeskIO (list RenderedWrite) :=
  match agents_md plan with
  | None => mret []
  | Some patch =>
    w ← render_snippet plan (am_path patch);
    match am_also_claude_md patch with
    | None => mret [w]
    | Some cm => c ← render_snippet plan cm; mret [w; c]
    end
  end.

Definition render_plan_writes (a : InitArgs) (plan : InitPlan) (interactive : bool) : DeskIO (list RenderedWrite) :=
  profile ← render_profile a plan;
  policy ← render_policy a plan;
  targets ← render_targets a interactive (mcp_targets plan);
  agents ← render_agents plan;
  mret ([profile] ++ policy ++ targets ++ agents).
End Render.

(** ** Writing *)
Definition named_dir (parent name : string) : bool :=
  match file_name parent with Some n => String.eqb n name | None => false end.
Definition is_lens_owned_path (parent : string) : bool := named_dir parent ".gaze-lens".
Definition is_third_party_dotdir (parent : string) : bool := named_dir parent ".codex" || named_dir parent ".cursor".
Definition ensure_parent_dir_for_write (path : string) : DeskIO unit :=
  match parent path with
  | None => mret tt
  | Some parent =>
    if is_lens_owned_path parent then create_dir_0700_if_missing parent
    else if is_third_party_dotdir parent then
      there ← io_err (exists_ parent) (fun err => Errors.Profile (io_text err));
      if there : bool then assert_dir_0700_or_warn parent else create_dir_0700_if_missing parent
    else mret tt
  end.

(** [pending.remove(position of path)] *)
Fixpoint remove_first (path : string) (paths : list string) : list string :=
  match paths with [] => [] | p :: ps => if String.eqb p path then ps else p :: remove_first path ps end.

Definition orphan_message (entry : string * string) (path : string) : string :=
  concat_str ["gaze-lens warning: keyring entry service=`"; entry.1; "` account=`"; entry.2;
    "` was written, but profile file commit failed at "; path;
    ". The keyring entry is now orphaned. To recover: re-run `gaze-lens init --allow-overwrite` after fixing the file-write issue, OR delete the keyring entry manually."].

(** [write_one] with what the loop does on its error *)
Definition write_one `{BatchWriter} (entry : option (string * string)) (applied pending : list string) (w : RenderedWrite)
  : DeskIO (list string * list string) :=
  r ← outcome (batch_write (w_path w) (w_bytes w));
  match r with
  | Ok _ => mret (applied ++ [w_path w], remove_first (w_path w) pending)
  | Err e =>
    _ ← match entry with Some entry => emit_orphan_warning (orphan_message entry (w_path w)) | None => mret tt end;
    of_result (Err (BatchPartial applied pending (w_path w) e))
  end.
(** the loop of the writes: what was applied, and what was unchanged *)
Fixpoint write_loop `{BatchWriter} (entry : option (string * string)) (applied pending unchanged : list string)
    (writes : list RenderedWrite) : DeskIO (list string * list string) :=
  match writes with
  | [] => mret (applied, unchanged)
  | w :: writes =>
    _ ← ensure_parent_dir_for_write (w_path w);
    changed ← would_write (w_path w) (w_bytes w);
    if changed : bool then
      lists ← write_one entry applied pending w;
      write_loop entry lists.1 lists.2 unchanged writes
    else write_loop entry applied (remove_first (w_path w) pending) (unchanged ++ [w_path w]) writes
  end.

Fixpoint say_all (lines : list string) : DeskIO unit :=
  match lines with [] => mret tt | l :: lines => _ ← say l; say_all lines end.
Inductive ProvisionOutcome := AlreadyPresent (dir : string) | Installed (dir : string).
(** the model's directory, as the provisioner answers for it *)
Definition Provisioner : Type := option string → result LensError ProvisionOutcome.
Definition DEFERRED : string := "model provisioning is deferred until --fetch-model ships with gaze-model-setup".
Definition provision (plan : InitPlan) (provisioner : option Provisioner) : result LensError unit :=
  match fetch_intent plan with
  | None => Ok tt
  | Some fetch =>
    provisioner ← ok_or provisioner (FeatureDeferred DEFERRED);
    _ ← provisioner (fi_model_dir fetch);
    Ok tt
  end.

Definition commit_plan_with_prompter `{TomlEdit, JsonFile, PolicyToml, ProfileToml, Times, Prompter P, KeyringLib} {BW : BatchWriter}
    (a : InitArgs) (plan : InitPlan) (interactive : bool) (provisioner : option Provisioner) (ulid : string) : DeskIO unit :=
  writes ← render_plan_writes a plan interactive;
  entry ← keyring_preflight_and_write a plan ulid;
  lists ← write_loop entry [] (w_path <$> writes) [] writes;
  let '(applied, unchanged) := lists in
  _ ← say_all ((fun p => concat_str ["wrote "; p]%string) <$> applied);
  _ ← (if is_nil applied && negb (is_nil unchanged) then say "no changes" else mret tt);
  of_result (provision plan provisioner).

(** ** The command *)
Section Command.
Context `{TomlEdit, JsonFile, PolicyToml, ProfileToml, Times, Prompter P, KeyringLib}.

(** a write to the terminal *)
Definition write_out (text : string) : DeskIO unit :=
  call_with (fun err => Internal (String.append "failed to write init preview: " err))
    (fun ns d => (Ok tt, (ns, mkDesk (ring d) (prompter d) (said d ++ [text]) (written d)))) whole.
Definition guided (a : InitArgs) (env : InitEnv) : DeskIO InitPlan :=
  at_desk (fun d => let '(r, p) := run_guided a env (prompter d) in (r, mkDesk (ring d) p (said d) (written d))).

(** [smoke]: the check command on the profile that was written *)
Definition run_with_prompter_and_env (debug_str : string → string) (pid : N) (ulid : string) (smoke : InitPlan → DeskIO unit)
    (a : InitArgs) (env : InitEnv) : DeskIO unit :=
  plan ← guided a env;
  _ ← write_out (render_preview debug_str plan);
  if a_print_only a then mret tt
  else
    _ ← confirm_keyring_overwrite_if_needed a plan;
    let interactive := negb (a_non_interactive a || a_allow_overwrite a) in
    _ ← commit_plan_with_prompter (BW := real_batch_writer pid) a plan interactive None ulid;
    if a_smoke_check a then smoke plan else mret tt.

(** [home] and [cwd]: what the environment answers *)
Definition detect (home_var : option string) (cwd : result string string) : result LensError (string * string) :=
  home ← ok_or home_var (Errors.Profile "HOME unset");
  cwd ← map_err cwd (fun err => Errors.Profile (String.append "current_dir: " err));
  Ok (home, cwd).
Definition needs_tty (a : InitArgs) (stdin_tty stdout_tty : bool) : bool :=
  negb (a_non_interactive a) && negb (a_print_only a) && (negb stdin_tty || negb stdout_tty).
Definition NO_TTY : string :=
  "stdin or stdout is not a tty; rerun with --non-interactive (with required flags) or --print-only".
Definition run (debug_str : string → string) (pid : N) (ulid : string) (smoke : InitPlan → DeskIO unit) (stdin_tty stdout_tty : bool)
    (env : string → string → InitEnv) (home_var : option string) (cwd : result string string) (a : InitArgs) : DeskIO unit :=
  _ ← of_result (validate a);
  where_ ← of_result (detect home_var cwd);
  if needs_tty a stdin_tty stdout_tty then of_result (refuse [NO_TTY])
  else run_with_prompter_and_env debug_str pid ulid smoke a (env where_.1 where_.2).
End Command.
End Desk.
