(* ===== verification/CommitFacts.v ===== *)
(** * A batch is written in order

    Rendering writes nothing.  The writes then go through in order: at every
    moment a first part of the batch is in place and the rest as it was, which is
    what the report of a partial batch says. *)

From S2P Require Import Prelude Utf8 Str Errors LensValue Profile Policy Retention Disk DiskFacts InitData AgentsMd Toml McpConfig Keyword EnvFile Flow InitFlow Commit.

(** ** What writes nothing *)
Section Quiet.
Context {D : Type}.

Definition Quiet {E A} (m : IO D E A) (Φ : A → Prop) : Prop := ∀ ns0,
  spec (fun ns _ => ns = ns0) m
    (fun r ns _ => ns = ns0 ∧ match r with Ok a => Φ a | Err _ => True end) (fun ns _ => ns = ns0).

Lemma writes_nothing_ret {E A} (a : A) (Φ : A → Prop) : Φ a → Quiet (E := E) (mret a) Φ.
Proof. intros Ha ns0. by apply spec_ret. Qed.
Lemma quiet_result {E A} (r : result E A) (Φ : A → Prop) : (∀ a, r = Ok a → Φ a) → Quiet (of_result r) Φ.
Proof. intros Hr ns0. apply spec_result. intros ns d ->. split; [done|]. destruct r; auto. Qed.
Lemma writes_nothing_bind {E A B} (m : IO D E A) (f : A → IO D E B) (Ψ : A → Prop) (Φ : B → Prop) :
  Quiet m Ψ → (∀ a, Ψ a → Quiet (f a) Φ) → Quiet (m ≫= f) Φ.
Proof.
  intros Hm Hf ns0. eapply (spec_bind _ _ _ (fun a ns _ => ns = ns0 ∧ Ψ a)).
  - eapply spec_conseq; [apply (Hm ns0)|done| |done]. by intros [a|e] ns d [-> Ha].
  - intros a w [Hw Ha]. by apply (Hf a Ha ns0).
Qed.
Lemma quiet_any {E A} (m : IO D E A) (Φ : A → Prop) : Quiet m Φ → Quiet m (fun _ => True).
Proof. intros Hm ns0. eapply spec_conseq; [apply (Hm ns0)|done| |done]. by intros [] ns d [-> _]. Qed.
Lemma quiet_outcome {E F A} (m : IO D E A) : Quiet m (fun _ => True) → Quiet (E := F) (outcome m) (fun _ => True).
Proof. intros Hm ns0. apply spec_outcome. eapply spec_conseq; [apply (Hm ns0)|done| |done]. by intros r ns d [-> _]. Qed.
Lemma quiet_io_err {E F A} (m : IO D E A) (f : E → F) : Quiet m (fun _ => True) → Quiet (io_err m f) (fun _ => True).
Proof. intros Hm. eapply writes_nothing_bind; [by apply quiet_outcome|]. intros r _. by apply quiet_result. Qed.
Lemma quiet_file_call {A} (act : Nodes → result IoError A * Nodes) : (∀ ns, (act ns).2 = ns) → Quiet (file_call (D := D) act whole) (fun _ => True).
Proof. intros Ha ns0. apply spec_quiet; [done|by intros [] ns d ->|by intros ns d ->]. Qed.
End Quiet.

Create HintDb quiet.
#[export] Hint Resolve writes_nothing_ret quiet_outcome quiet_io_err quiet_any : quiet.
#[export] Hint Extern 1 (Quiet (of_result _) _) => (apply quiet_result; naive_solver) : quiet.
#[export] Hint Extern 1 (Quiet (file_call _ whole) _) => (apply quiet_file_call; intros; repeat case_match; done) : quiet.
#[export] Hint Extern 1 True => exact I : quiet.

Section DeskQuiet.
Context {P : Type}.
Abbreviation DeskIO := (IO (Desk P) LensError).

Lemma quiet_desk {A} (f : Desk P → result LensError A * Desk P) : Quiet (at_desk f) (fun _ => True).
Proof. intros ns0 w Hw. unfold at_desk. destruct (f (store w)) as [[] d]; by rewrite Hw. Qed.
Lemma quiet_ring `{KeyringLib} {A} (act : gmap (string * string) string → result KeyringError A * gmap (string * string) string) :
  Quiet (ring_call (P := P) act) (fun _ => True).
Proof.
  intros ns0. apply spec_call; [|by intros ???? ->|by intros ??? ->].
  intros ns d ->. destruct (act (ring d)) as [[] e]; done.
Qed.
#[local] Hint Resolve quiet_desk quiet_ring : quiet.
Ltac quiet := repeat first
  [ solve [eauto with quiet] | eapply (writes_nothing_bind _ _ (fun _ => True)); [|intros ? ?]
  | match goal with |- Quiet (match ?x with _ => _ end) _ => destruct x end ].

Lemma quiet_text path : Quiet (read_text (P := P) path) (fun _ => True).
Proof. unfold read_text, read_file. quiet. Qed.
Lemma quiet_keyring `{KeyringLib} a plan ulid : Quiet (keyring_preflight_and_write (P := P) a plan ulid) (fun _ => True).
Proof.
  unfold keyring_preflight_and_write, preflight, write_entry, mismatch, mapped, entry_new, get_password, set_keyring_password, delete_credential.
  quiet.
Qed.

Context `{TomlEdit, JsonFile, PolicyToml, ProfileToml, Times, Prompter P}.
#[local] Hint Resolve quiet_text : quiet.

Definition policy_paths (plan : InitPlan) : list string := match policy_write plan with Some w => [pw_path w] | None => [] end.
Definition agents_paths (plan : InitPlan) : list string :=
  match agents_md plan with
  | Some patch => am_path patch :: match am_also_claude_md patch with Some cm => [cm] | None => [] end
  | None => []
  end.
(** where a plan can write *)
Definition plan_paths (plan : InitPlan) : list string :=
  profile_path plan :: policy_paths plan ++ (t_path <$> mcp_targets plan) ++ agents_paths plan.

Lemma quiet_profile a plan : Quiet (render_profile (P := P) a plan) (fun w => w_path w = profile_path plan).
Proof. unfold render_profile. quiet. Qed.
Lemma quiet_policy a plan : Quiet (render_policy (P := P) a plan) (fun ws => w_path <$> ws `sublist_of` policy_paths plan).
Proof.
  unfold render_policy, policy_paths. destruct (policy_write plan) as [w|]; [|by apply writes_nothing_ret].
  unfold read_existing_production_policy, read_file. eapply (writes_nothing_bind _ _ (fun _ => True)); [quiet|]. intros existing _.
  eapply (writes_nothing_bind _ _ (fun _ => True)); [quiet|]. intros o _. apply writes_nothing_ret.
  destruct (po_bytes o); cbn; [done|apply sublist_nil_l].
Qed.
Lemma quiet_targets a interactive targets :
  Quiet (render_targets (P := P) a interactive targets) (fun ws => w_path <$> ws = t_path <$> targets).
Proof.
  induction targets as [|t targets IH]; cbn [render_targets]; [by apply writes_nothing_ret|].
  eapply writes_nothing_bind; [apply quiet_text|]. intros existing _.
  eapply (writes_nothing_bind _ _ (fun _ => True)).
  { unfold render_mcp_target, migration_decision, confirm_migration. quiet. }
  intros rendered _. eapply writes_nothing_bind; [apply IH|]. intros ws Hws. apply writes_nothing_ret. rewrite !fmap_cons. by rewrite Hws.
Qed.
Lemma quiet_snippet plan path : Quiet (render_snippet (P := P) plan path) (fun w => w_path w = path).
Proof. unfold render_snippet. quiet. Qed.
Lemma quiet_agents plan : Quiet (render_agents (P := P) plan) (fun ws => w_path <$> ws = agents_paths plan).
Proof.
  unfold render_agents, agents_paths. destruct (agents_md plan) as [patch|]; [|by apply writes_nothing_ret].
  eapply writes_nothing_bind; [apply quiet_snippet|]. intros w Hw. destruct (am_also_claude_md patch) as [cm|].
  - eapply writes_nothing_bind; [apply quiet_snippet|]. intros c Hc. apply writes_nothing_ret. rewrite !fmap_cons. cbn. by rewrite Hw, Hc.
  - apply writes_nothing_ret. rewrite fmap_cons. by rewrite Hw.
Qed.

Lemma quiet_writes a plan interactive :
  Quiet (render_plan_writes (P := P) a plan interactive) (fun ws => w_path <$> ws `sublist_of` plan_paths plan).
Proof.
  unfold render_plan_writes. eapply writes_nothing_bind; [apply quiet_profile|]. intros w Hw.
  eapply writes_nothing_bind; [apply quiet_policy|]. intros pol Hpol.
  eapply writes_nothing_bind; [apply quiet_targets|]. intros ts Hts.
  eapply writes_nothing_bind; [apply quiet_agents|]. intros ag Hag. apply writes_nothing_ret.
  rewrite !fmap_app, Hts, Hag. change (w_path <$> [w]) with [w_path w]. rewrite Hw. apply sublist_skip. by apply sublist_app.
Qed.
End DeskQuiet.

(** ** Places *)
Definition staging_of (pid : N) (p : string) : option string := q ← parent p; n ← file_name p; Some (staged pid q n).
Definition stagings (pid : N) (paths : list string) : list string := omap (staging_of pid) paths.

(** destinations that do not stand in each other's way: no two are the same, each
    is a file or free, with a place to stage it, and none is a directory that
    another one needs *)
Record Separate (pid : N) (ns0 : Nodes) (paths : list string) : Prop := {
  sep_nodup : NoDup paths;
  sep_split : ∀ p, p ∈ paths → ∃ q n, parent p = Some q ∧ file_name p = Some n;
  sep_file : ∀ p, p ∈ paths → ns0 !! p = None ∨ ∃ c m, ns0 !! p = Some (FileNode c m);
  sep_staged : ∀ t, t ∈ stagings pid paths → t ∉ paths ∧ Free ns0 t;
  sep_dirs : ∀ p q d, p ∈ paths → parent p = Some q → d ∈ ancestors (String.length q) q →
    d ∉ paths ∧ d ∉ stagings pid paths }.

Lemma stagings_elem pid paths p q n :
  p ∈ paths → parent p = Some q → file_name p = Some n → staged pid q n ∈ stagings pid paths.
Proof. intros Hp Hq Hn. apply list_elem_of_omap. exists p. split; [done|]. unfold staging_of. by rewrite Hq, Hn. Qed.

Lemma separate_sublist pid ns0 paths paths' : paths' `sublist_of` paths → Separate pid ns0 paths → Separate pid ns0 paths'.
Proof.
  intros Hs [Hn Hp Hf Ht Hd].
  assert (Hsub : ∀ p, p ∈ paths' → p ∈ paths) by (intros p Hin; by eapply elem_of_sublist).
  assert (Hst : ∀ t, t ∈ stagings pid paths' → t ∈ stagings pid paths).
  { intros t (p & Hin & E)%list_elem_of_omap. apply list_elem_of_omap. exists p. auto. }
  split.
  - by eapply sublist_NoDup.
  - auto.
  - auto.
  - intros t Hin. destruct (Ht t (Hst t Hin)) as [? ?]. split; [|done]. intros ?. auto.
  - intros p q d Hin Hq Ha. destruct (Hd p q d (Hsub _ Hin) Hq Ha). split; intros ?; auto.
Qed.

(** directories were made or got their mode, and nothing else changed *)
Definition DirsOnly (dirs : list string) (ns ns' : Nodes) : Prop := ∀ q,
  ns' !! q = ns !! q ∨ (∃ m, ns' !! q = Some (DirNode m)) ∧ (ns !! q = None ∧ q ∈ dirs ∨ ∃ m, ns !! q = Some (DirNode m)).

Lemma dirs_refl dirs ns : DirsOnly dirs ns ns.
Proof. intros q. by left. Qed.
Lemma dirs_trans dirs n1 n2 n3 : DirsOnly dirs n1 n2 → DirsOnly dirs n2 n3 → DirsOnly dirs n1 n3.
Proof.
  intros H12 H23 q. destruct (H12 q) as [E|[[m Em] Ho]], (H23 q) as [E'|[[m' Em'] Ho']].
  - left. by rewrite E'.
  - right. split; [by exists m'|]. by rewrite <- E.
  - right. split; [exists m; by rewrite E'|done].
  - right. split; [by exists m'|done].
Qed.
Lemma dirs_mono dirs dirs' ns ns' : (∀ d, d ∈ dirs → d ∈ dirs') → DirsOnly dirs ns ns' → DirsOnly dirs' ns ns'.
Proof. intros Hd Ho q. destruct (Ho q) as [?|[? [[? ?]|?]]]; [by left|right; split; [done|left; auto]|right; split; [done|by right]]. Qed.

Lemma make_dir_only mode ns p ns' dirs : p ∈ dirs → make_dir mode (Ok ns) p = Ok ns' → DirsOnly dirs ns ns'.
Proof.
  intros Hp. unfold make_dir. cbn. destruct (ns !! p) as [n|] eqn:E.
  - destruct (follow ns p) as [[q [| |]]|]; try done. intros [= <-]. apply dirs_refl.
  - intros [= <-] q. destruct (decide (q = p)) as [->|Hne]; [right|left; by rewrite lookup_insert_ne].
    rewrite lookup_insert_eq. split; [by eexists|by left].
Qed.
Lemma make_dir_err mode e p : make_dir mode (Err e) p = Err e.
Proof. done. Qed.
Lemma make_dirs_err mode ps e : fold_left (make_dir mode) ps (Err e) = Err e.
Proof. induction ps; [done|]. cbn [fold_left]. by rewrite make_dir_err. Qed.
Lemma make_dirs_only mode ps ns ns' : make_dirs mode ps ns = Ok ns' → DirsOnly ps ns ns'.
Proof.
  unfold make_dirs. revert ns. induction ps as [|p ps IH]; intros ns; cbn [fold_left]; [intros [= <-]; apply dirs_refl|].
  destruct (make_dir mode (Ok ns) p) as [ns1|e] eqn:E; [|by rewrite make_dirs_err]. intros Hr.
  eapply dirs_trans; [eapply make_dir_only; [|exact E]; set_solver|].
  eapply dirs_mono; [|by apply IH]. set_solver.
Qed.
(** the last directory is there *)
Lemma make_dirs_last mode ps p ns ns' : make_dirs mode (ps ++ [p]) ns = Ok ns' → ∃ q m, follow ns' p = Ok (q, DirNode m).
Proof.
  unfold make_dirs. rewrite fold_left_app. cbn [fold_left]. destruct (fold_left _ ps (Ok ns)) as [n1|e]; [|done].
  unfold make_dir. cbn. destruct (n1 !! p) as [n|] eqn:E.
  - destruct (follow n1 p) as [[q [| m |]]|] eqn:Ef; try done. intros [= <-]. by exists q, m.
  - intros [= <-]. exists p, mode. unfold follow, MAX_LINKS. cbn [resolve]. by rewrite lookup_insert_eq; cbn; rewrite lookup_insert_eq.
Qed.
Lemma ancestors_last fuel p : ∃ ps, ancestors fuel p = ps ++ [p].
Proof. destruct fuel as [|fuel]; cbn; [by exists []|]. destruct (parent p) as [q|]; [|by exists []]. case_match; [by exists []|by eexists]. Qed.

(** ** How far a batch has come *)
Section Batch.
Context (pid : N) (ns0 : Nodes) (writes : list RenderedWrite).
Abbreviation paths := (w_path <$> writes).
Context (Hsep : Separate pid ns0 paths).

(** the first part is in place, the rest is as it was, nothing else changed but
    directories *)
Record InPlace (ns : Nodes) (done rest : list RenderedWrite) : Prop := {
  place_all : writes = done ++ rest;
  place_done : Forall (fun w => ∃ m, ns !! w_path w = Some (FileNode (w_bytes w) m)) done;
  place_rest : Forall (fun w => ns !! w_path w = ns0 !! w_path w) rest;
  place_staged : ∀ t, t ∈ stagings pid paths → Free ns t;
  place_other : ∀ q, q ∉ paths → q ∉ stagings pid paths →
    ns !! q = ns0 !! q ∨ (∃ m, ns !! q = Some (DirNode m)) ∧ (ns0 !! q = None ∨ ∃ m, ns0 !! q = Some (DirNode m)) }.

Lemma place_start : InPlace ns0 [] writes.
Proof. split; [done|done|by apply Forall_true|intros t Ht; apply (sep_staged _ _ _ Hsep t Ht)|by left]. Qed.

Lemma place_path done rest w : writes = done ++ w :: rest → w_path w ∈ paths.
Proof. intros ->. apply list_elem_of_fmap_2. set_solver. Qed.

(** the destinations are files or free *)
Lemma place_dest ns done rest w :
  InPlace ns done (w :: rest) → ns !! w_path w = None ∨ ∃ c m, ns !! w_path w = Some (FileNode c m).
Proof.
  intros Hi. pose proof (place_rest _ _ _ Hi) as Hr. apply Forall_cons in Hr as [-> _].
  apply (sep_file _ _ _ Hsep), (place_path done rest). apply (place_all _ _ _ Hi).
Qed.

Lemma place_dirs dirs ns ns' done rest :
  (∀ d, d ∈ dirs → d ∉ paths ∧ d ∉ stagings pid paths) → DirsOnly dirs ns ns' → InPlace ns done rest → InPlace ns' done rest.
Proof.
  intros Hd Ho [Ha Hdone Hrest Hst Hoth]. split; [done| | | |].
  - eapply Forall_impl; [exact Hdone|]. intros w [m Hm]. destruct (Ho (w_path w)) as [->|[_ [[En _]|[m' En]]]]; [by exists m|congruence|congruence].
  - apply Forall_forall. intros w Hw. pose proof (proj1 (Forall_forall _ _) Hrest w Hw) as E.
    assert (Hin : w_path w ∈ paths) by (rewrite Ha; apply list_elem_of_fmap_2; set_solver).
    destruct (Ho (w_path w)) as [->|[_ [[_ En]|[m' En]]]]; [done|by destruct (Hd _ En)|].
    exfalso. rewrite E in En. destruct (sep_file _ _ _ Hsep _ Hin) as [?|(? & ? & ?)]; congruence.
  - intros t Ht n Hn. destruct (Ho t) as [E|[_ [[_ En]|[m' En]]]].
    + rewrite E in Hn. by apply (Hst t Ht).
    + by destruct (Hd _ En).
    + destruct (Hst t Ht _ En) as (c & Hc). done.
  - intros q Hq Hs. destruct (Ho q) as [E|[Hm [[En _]|[m' En]]]].
    + rewrite E. by apply Hoth.
    + right. split; [done|]. destruct (Hoth q Hq Hs) as [E|[[m E] _]]; [left; congruence|congruence].
    + right. split; [done|]. destruct (Hoth q Hq Hs) as [E|[_ ?]]; [right; exists m'; congruence|done].
Qed.

(** only the staging file of a destination changed *)
Lemma place_apart ns ns' done rest tmp :
  tmp ∈ stagings pid paths → Apart ns ns' tmp → InPlace ns done rest → InPlace ns' done rest.
Proof.
  intros Ht [Heq Hf] [Ha Hdone Hrest Hst Hoth]. destruct (sep_staged _ _ _ Hsep _ Ht) as [Hnot _].
  assert (Hpath : ∀ w, w ∈ done ++ rest → w_path w ≠ tmp).
  { intros w Hw E. apply Hnot. rewrite <- E, Ha. by apply list_elem_of_fmap_2. }
  split; [done| | | |].
  - apply Forall_forall. intros w Hw. rewrite Heq by (apply Hpath; set_solver). by apply (proj1 (Forall_forall _ _) Hdone).
  - apply Forall_forall. intros w Hw. rewrite Heq by (apply Hpath; set_solver). by apply (proj1 (Forall_forall _ _) Hrest).
  - intros t Hin. destruct (decide (t = tmp)) as [->|Hne]; [done|]. intros n. rewrite Heq by done. by apply Hst.
  - intros q Hq Hs. rewrite Heq by (intros ->; done). by apply Hoth.
Qed.

Lemma place_nodup done rest w w' : writes = done ++ w :: rest → w' ∈ done ++ rest → w_path w' ≠ w_path w.
Proof.
  intros E Hw Hp. pose proof (sep_nodup _ _ _ Hsep) as Hn. rewrite E, fmap_app, fmap_cons in Hn.
  apply NoDup_app in Hn as (_ & Hx & [Hy _]%NoDup_cons). apply elem_of_app in Hw as [Hw|Hw].
  - apply (Hx (w_path w')); [by apply list_elem_of_fmap_2|]. rewrite Hp. apply list_elem_of_here.
  - apply Hy. rewrite <- Hp. by apply list_elem_of_fmap_2.
Qed.

(** the next one is put in place *)
Lemma place_next ns done rest w m :
  InPlace ns done (w :: rest) → ns !! w_path w = Some (FileNode (w_bytes w) m) → InPlace ns (done ++ [w]) rest.
Proof.
  intros [Ha Hdone Hrest Hst Hoth] Hw. split; [by rewrite <- app_assoc| | |done|done].
  - apply Forall_app. split; [done|]. constructor; [by exists m|done].
  - by apply Forall_cons in Hrest as [_ ?].
Qed.

Lemma place_replaced ns done rest w tmp :
  tmp ∈ stagings pid paths → InPlace ns done (w :: rest) →
  InPlace (Replaced ns tmp (w_path w) (w_bytes w)) (done ++ [w]) rest.
Proof.
  intros Ht Hi. pose proof Hi as [Ha Hdone Hrest Hst Hoth]. apply Forall_cons in Hrest as [_ Hrest].
  destruct (sep_staged _ _ _ Hsep _ Ht) as [Hnot _].
  assert (Hin : w_path w ∈ paths) by by apply (place_path done rest).
  assert (Hkeep : ∀ q, q ≠ w_path w → q ≠ tmp → Replaced ns tmp (w_path w) (w_bytes w) !! q = ns !! q).
  { intros q Hq Hq'. unfold Replaced. by rewrite lookup_insert_ne, lookup_delete_ne. }
  assert (Hpath : ∀ w', w' ∈ done ++ rest → w_path w' ≠ tmp).
  { intros w' Hw' E. apply Hnot. rewrite <- E, Ha. apply list_elem_of_fmap_2. set_solver. }
  assert (Hother : ∀ w', w' ∈ done ++ rest → w_path w' ≠ w_path w) by (intros w'; by apply place_nodup).
  split; [by rewrite <- app_assoc| | | |].
  - apply Forall_app. split.
    + apply Forall_forall. intros w' Hw'. rewrite Hkeep by (apply Hother || apply Hpath; set_solver).
      by apply (proj1 (Forall_forall _ _) Hdone).
    + constructor; [|done]. exists PRIVATE_FILE. unfold Replaced. by rewrite lookup_insert_eq.
  - apply Forall_forall. intros w' Hw'. rewrite Hkeep by (apply Hother || apply Hpath; set_solver).
    by apply (proj1 (Forall_forall _ _) Hrest).
  - intros t Hin' n. destruct (decide (t = tmp)) as [->|Hne].
    + unfold Replaced. rewrite lookup_insert_ne, lookup_delete_eq by (intros <-; done). done.
    + rewrite Hkeep; [by apply Hst|intros ->; by destruct (sep_staged _ _ _ Hsep _ Hin')|done].
  - intros q Hq Hs. rewrite Hkeep by (intros ->; done). by apply Hoth.
Qed.
End Batch.

(** ** The steps *)
Section Steps.
Context {P : Type} (pid : N) (ns0 : Nodes) (writes : list RenderedWrite).
Abbreviation paths := (w_path <$> writes).
Context (Hsep : Separate pid ns0 paths).
Abbreviation DeskIO := (IO (Desk P) LensError).
Abbreviation InPlace := (InPlace pid ns0 writes).

(** an error with a text of its own *)
Definition Plain {A} (r : result LensError A) : Prop := match r with Ok _ => True | Err e => ∃ s, e = Errors.Profile s end.

Lemma spec_there done rest q :
  spec (fun ns (_ : Desk P) => InPlace ns done rest) (io_err (exists_ q) (fun err => Errors.Profile (io_text err)))
    (fun r ns _ => match r with Ok _ => InPlace ns done rest | Err e => InPlace ns done rest ∧ ∃ s, e = Errors.Profile s end)
    (fun ns _ => InPlace ns done rest).
Proof.
  unfold io_err. eapply (spec_bind _ _ _ (fun _ ns _ => InPlace ns done rest)).
  - apply spec_outcome. unfold exists_. eapply (spec_bind _ _ _ (fun _ ns _ => InPlace ns done rest)); [|by intros r; apply spec_ret].
    by apply spec_outcome, spec_quiet.
  - intros [there|e]; apply spec_result; intros ns d Hi; cbn; [done|by split; [|eexists]].
Qed.

Lemma spec_create_dir done rest path q :
  path ∈ paths → parent path = Some q →
  spec (fun ns (_ : Desk P) => InPlace ns done rest) (create_dir_0700_if_missing q)
    (fun r ns _ => InPlace ns done rest ∧ Plain r) (fun ns _ => InPlace ns done rest).
Proof.
  intros Hp Hq. assert (Hd : ∀ d, d ∈ ancestors (String.length q) q → d ∉ paths ∧ d ∉ stagings pid paths)
    by (intros d; by apply (sep_dirs _ _ _ Hsep path)).
  unfold create_dir_0700_if_missing.
  eapply (spec_bind _ _ _ (fun _ ns _ => InPlace ns done rest)); [apply (spec_there done rest)|].
  intros [|]; [by apply spec_ret|].
  eapply (spec_bind _ _ _ (fun _ ns _ => InPlace ns done rest ∧ ∃ p m, follow ns q = Ok (p, DirNode m))).
  { unfold io_err. eapply (spec_bind _ _ _ (fun r ns _ => InPlace ns done rest ∧
      (is_ok r = true → ∃ p m, follow ns q = Ok (p, DirNode m)))).
    - apply spec_outcome. unfold create_dir_all. apply spec_file_call.
      + intros ns d Hi. destruct (make_dirs DEFAULT_DIR_MODE (ancestors (String.length q) q) ns) as [ns'|e] eqn:E; cbn; [|done].
        split; [eapply place_dirs; [exact Hsep|exact Hd|by eapply make_dirs_only|done]|]. intros _.
        destruct (ancestors_last (String.length q) q) as [ps Eps]. rewrite Eps in E. by eapply make_dirs_last.
      + intros n detail ns d Hi. split; [|done]. case_match eqn:E; [|done].
        eapply place_dirs; [exact Hsep|exact Hd| |done]. eapply dirs_mono; [|by eapply make_dirs_only].
        intros x Hx. by eapply elem_of_take in Hx as (? & ? & _); eapply list_elem_of_lookup_2.
      + intros n ns d Hi. case_match eqn:E; [|done].
        eapply place_dirs; [exact Hsep|exact Hd| |done]. eapply dirs_mono; [|by eapply make_dirs_only].
        intros x Hx. by eapply elem_of_take in Hx as (? & ? & _); eapply list_elem_of_lookup_2.
    - intros [u|e]; apply spec_result; intros ns d [Hi Hf]; cbn; [split; [done|by apply Hf]|by split; [|eexists]]. }
  intros _. unfold io_err. eapply (spec_bind _ _ _ (fun _ ns _ => InPlace ns done rest)).
  - apply spec_outcome. unfold set_permissions. apply spec_file_call; [|by intros ???? [? _]|by intros ??? [? _]].
    intros ns d [Hi (p & m & Hf)]. rewrite Hf. cbn. eapply place_dirs; [exact Hsep|exact Hd| |done].
    assert (Hl : ns !! p = Some (DirNode m)).
    { unfold follow in Hf. destruct (resolve _ _ _) as [x|]; [|done]. cbn in Hf. destruct (ns !! x) eqn:Ex; cbn in Hf; congruence. }
    intros x. destruct (decide (x = p)) as [->|Hne]; [|by left; rewrite lookup_insert_ne].
    right. rewrite lookup_insert_eq. split; [by eexists|right; by eexists].
  - intros [u|e]; apply spec_result; intros ns d Hi; cbn; [done|by split; [|eexists]].
Qed.

Lemma spec_ensure_parent done rest path :
  path ∈ paths →
  spec (fun ns (_ : Desk P) => InPlace ns done rest) (ensure_parent_dir_for_write path)
    (fun r ns _ => InPlace ns done rest ∧ Plain r) (fun ns _ => InPlace ns done rest).
Proof.
  intros Hp. unfold ensure_parent_dir_for_write. destruct (parent path) as [q|] eqn:Hq; [|by apply spec_ret].
  destruct (is_lens_owned_path q); [by eapply spec_create_dir|].
  destruct (is_third_party_dotdir q); [|by apply spec_ret].
  eapply (spec_bind _ _ _ (fun _ ns _ => InPlace ns done rest)); [apply (spec_there done rest)|].
  intros [|]; [|by eapply spec_create_dir].
  unfold assert_dir_0700_or_warn. eapply (spec_bind _ _ _ (fun _ ns _ => InPlace ns done rest)); [|by intros; apply spec_ret].
  unfold io_err. eapply (spec_bind _ _ _ (fun _ ns _ => InPlace ns done rest)).
  - by apply spec_outcome, spec_quiet.
  - intros [there|e]; apply spec_result; intros ns d Hi; cbn; [done|by split; [|eexists]].
Qed.

(** a destination that does not have to be written is in place *)
Lemma spec_would_write done rest w :
  spec (fun ns (_ : Desk P) => InPlace ns done (w :: rest)) (would_write (w_path w) (w_bytes w))
    (fun r ns _ => Plain r ∧ InPlace ns done (w :: rest) ∧
       (r = Ok false → ∃ m, ns !! w_path w = Some (FileNode (w_bytes w) m))) (fun ns _ => InPlace ns done (w :: rest)).
Proof.
  unfold would_write. eapply (spec_bind _ _ _ (fun r ns _ => InPlace ns done (w :: rest) ∧
    (∀ c, r = Ok c → ∃ m, ns !! w_path w = Some (FileNode c m)))).
  - apply spec_outcome. unfold read_file, read_node. apply spec_file_call; [|by intros|by intros ??? ?].
    intros ns d Hi. cbn [fst snd]. split; [done|]. intros c Hc.
    destruct (place_dest pid ns0 writes Hsep ns done rest w Hi) as [E|(c' & m & E)];
      unfold follow, MAX_LINKS in Hc; cbn [resolve] in Hc; rewrite E in Hc; cbn in Hc; rewrite E in Hc; cbn in Hc; [done|].
    injection Hc as <-. by exists m.
  - intros [existing|e].
    + apply spec_ret. intros ns d [Hi Hc]. split_and!; [done|done|]. intros [= Hf%bool_decide_eq_false].
      destruct (decide (existing = w_bytes w)) as [<-|]; [by apply Hc|done].
    + destruct e; [apply spec_ret|apply spec_result]; intros ns d [Hi _]; (split_and!; [|done|done]); [done|by eexists].
Qed.
End Steps.

(** ** Writers that keep their promise: what is replaced is replaced whole *)
Class LawfulWriter {P} (pid : N) (BW : BatchWriter (P := P)) : Prop := {
  writes_whole : ∀ dest contents ns0 q n,
    parent dest = Some q → file_name dest = Some n → Free ns0 (staged pid q n) →
    spec (fun ns (_ : Desk P) => ns = ns0) (batch_write dest contents)
      (fun r ns _ => match r with
         | Ok _ => ns = Replaced ns0 (staged pid q n) dest contents
         | Err _ => Apart ns0 ns (staged pid q n)
         end)
      (fun ns _ => Apart ns0 ns (staged pid q n) ∨ ns = Replaced ns0 (staged pid q n) dest contents) }.

Lemma atomic_write_whole {P} pid dest contents ns0 q n :
  parent dest = Some q → file_name dest = Some n → Free ns0 (staged pid q n) →
  spec (fun ns (_ : Desk P) => ns = ns0) (atomic_write pid dest contents)
    (fun r ns _ => match r with
       | Ok _ => ns = Replaced ns0 (staged pid q n) dest contents
       | Err _ => Apart ns0 ns (staged pid q n)
       end)
    (fun ns _ => Apart ns0 ns (staged pid q n) ∨ ns = Replaced ns0 (staged pid q n) dest contents).
Proof.
  intros Hq Hn Hf w Hw. pose proof (spec_atomic_write pid dest contents ns0 (store w) q n Hq Hn Hf w (conj Hw eq_refl)) as Ha.
  destruct (atomic_write pid dest contents w) as [[[u|e]|] w']; [by destruct Ha as [_ ?]|by destruct Ha as (_ & ? & _)|by destruct Ha as [_ ?]].
Qed.
#[export] Instance real_lawful {P} pid : LawfulWriter (P := P) pid (real_batch_writer pid).
Proof. split. apply atomic_write_whole. Qed.
#[export] Instance failing_lawful {P} pid allow_n : LawfulWriter (P := P) pid (failing_writer pid allow_n).
Proof.
  split. intros dest contents ns0 q n Hq Hn Hf. cbn [batch_write failing_writer].
  eapply (spec_bind _ _ _ (fun _ ns _ => ns = ns0)).
  - by intros w Hw.
  - intros k. destruct (allow_n <=? k); [apply spec_result; intros ns d ->; cbn; by apply apart_refl|].
    by apply atomic_write_whole.
Qed.

(** ** The loop *)
Section Loop.
Context {P : Type} (pid : N) {BW : BatchWriter (P := P)} `{!LawfulWriter pid BW} (ns0 : Nodes) (writes : list RenderedWrite).
Abbreviation paths := (w_path <$> writes).
Context (Hsep : Separate pid ns0 paths).
Abbreviation InPlace := (InPlace pid ns0 writes).

(** what was applied: in order, and whatever is not in it was there before *)
Record Applied (applied : list string) (done : list RenderedWrite) : Prop := {
  applied_order : applied `sublist_of` (w_path <$> done);
  applied_all : Forall (fun w => w_path w ∈ applied ∨ ∃ m, ns0 !! w_path w = Some (FileNode (w_bytes w) m)) done }.

(** the report of a partial batch is true *)
Definition Report (e : LensError) (done rest : list RenderedWrite) : Prop :=
  match e with
  | BatchPartial applied pending failed _ =>
    pending = w_path <$> rest ∧ head pending = Some failed ∧ Applied applied done
  | _ => True
  end.
Definition Reached (ns : Nodes) (Φ : list RenderedWrite → list RenderedWrite → Prop) : Prop :=
  ∃ done rest, InPlace ns done rest ∧ Φ done rest.

Lemma applied_snoc applied done w : Applied applied done → Applied (applied ++ [w_path w]) (done ++ [w]).
Proof.
  intros [Ho Ha]. split.
  - rewrite fmap_app. by apply sublist_app.
  - apply Forall_app. split; [|constructor; [left; set_solver|done]].
    eapply Forall_impl; [exact Ha|]. intros x [?|?]; [left; set_solver|by right].
Qed.
Lemma applied_same applied done w m :
  Applied applied done → ns0 !! w_path w = Some (FileNode (w_bytes w) m) → Applied applied (done ++ [w]).
Proof.
  intros [Ho Ha] Hw. split.
  - rewrite fmap_app. by apply sublist_inserts_r.
  - apply Forall_app. split; [done|]. constructor; [right; by exists m|done].
Qed.

Lemma remove_first_head p ps : remove_first p (p :: ps) = ps.
Proof. cbn. by rewrite String.eqb_refl. Qed.

Lemma spec_write_one entry applied done w rest :
  Applied applied done →
  spec (fun ns (_ : Desk P) => InPlace ns done (w :: rest)) (write_one entry applied (w_path <$> w :: rest) w)
    (fun r ns _ => match r with
       | Ok lists => InPlace ns (done ++ [w]) rest ∧ lists = (applied ++ [w_path w], w_path <$> rest)
       | Err e => InPlace ns done (w :: rest) ∧ Report e done (w :: rest)
       end)
    (fun ns _ => Reached ns (fun _ _ => True)).
Proof.
  intros Happ. unfold write_one.
  eapply (spec_bind _ _ _ (fun r ns _ => match r with Ok _ => InPlace ns (done ++ [w]) rest | Err _ => InPlace ns done (w :: rest) end)).
  - intros wd Hi. assert (Hin : w_path w ∈ paths) by (eapply (place_path _ _ _ Hsep done rest), (place_all _ _ _ _ _ _ Hi)).
    destruct (sep_split _ _ _ Hsep _ Hin) as (q & n & Hq & Hn).
    pose proof (stagings_elem pid _ _ _ _ Hin Hq Hn) as Hst.
    pose proof (writes_whole (w_path w) (w_bytes w) (nodes wd) q n Hq Hn (place_staged _ _ _ _ _ _ Hi _ Hst) wd eq_refl) as Hw.
    unfold outcome. destruct (batch_write (w_path w) (w_bytes w) wd) as [[[u|e]|] wd'].
    + rewrite Hw. by apply place_replaced.
    + eapply place_apart; [exact Hsep|exact Hst|exact Hw|exact Hi].
    + destruct Hw as [Hw|Hw].
      * exists done, (w :: rest). split; [|done]. eapply place_apart; [exact Hsep|exact Hst|exact Hw|exact Hi].
      * exists (done ++ [w]), rest. split; [|done]. rewrite Hw. by apply place_replaced.
  - intros [u|e].
    + apply spec_ret. intros ns d Hi. split; [done|]. by rewrite fmap_cons, remove_first_head.
    + eapply (spec_bind _ _ _ (fun _ ns _ => InPlace ns done (w :: rest))).
      * destruct entry as [entry|]; [by intros wd Hi|by apply spec_ret].
      * intros _. apply spec_result. intros ns d Hi. by split_and!.
Qed.

Lemma spec_loop entry rest applied done unchanged :
  Applied applied done →
  spec (fun ns (_ : Desk P) => InPlace ns done rest) (write_loop entry applied (w_path <$> rest) unchanged rest)
    (fun r ns _ => match r with
       | Ok _ => InPlace ns writes []
       | Err e => Reached ns (fun done' rest' => rest' ≠ [] ∧ Report e done' rest')
       end)
    (fun ns _ => Reached ns (fun _ _ => True)).
Proof.
  revert applied done unchanged. induction rest as [|w rest IH]; intros applied done unchanged Happ; cbn [write_loop].
  { apply spec_ret. intros ns d Hi. pose proof (place_all _ _ _ _ _ _ Hi) as E. rewrite app_nil_r in E. by rewrite E at 2. }
  intros wd0 Hwd0. assert (Hin : w_path w ∈ paths) by (eapply (place_path _ _ _ Hsep done rest), (place_all _ _ _ _ _ _ Hwd0)).
  revert wd0 Hwd0. change (spec (fun ns (_ : Desk P) => InPlace ns done (w :: rest))
    (_ ← ensure_parent_dir_for_write (w_path w);
     changed ← would_write (w_path w) (w_bytes w);
     if changed : bool then
       lists ← write_one entry applied (w_path <$> w :: rest) w;
       write_loop entry lists.1 lists.2 unchanged rest
     else write_loop entry applied (remove_first (w_path w) (w_path <$> w :: rest)) (unchanged ++ [w_path w]) rest)
    (fun r ns _ => match r with
       | Ok _ => InPlace ns writes []
       | Err e => Reached ns (fun done' rest' => rest' ≠ [] ∧ Report e done' rest')
       end)
    (fun ns _ => Reached ns (fun _ _ => True))).
  assert (Hplain : ∀ A (r : result LensError A) e, Plain r → r = Err e → Report e done (w :: rest)).
  { by intros A r e Hr ->; destruct Hr as [s ->]. }
  eapply (spec_bind _ _ _ (fun _ ns _ => InPlace ns done (w :: rest))).
  { eapply spec_conseq; [by apply (spec_ensure_parent pid ns0 writes Hsep done (w :: rest))|done| |].
    - intros [u|e] ns d [Hi Hp]; [done|]. exists done, (w :: rest). split_and!; [done|done|]. by apply (Hplain _ _ _ Hp).
    - intros ns d Hi. by exists done, (w :: rest). }
  intros _. eapply (spec_bind _ _ _ (fun c ns _ => InPlace ns done (w :: rest) ∧
    (c = false → ∃ m, ns !! w_path w = Some (FileNode (w_bytes w) m)))).
  { eapply spec_conseq; [apply (spec_would_write pid ns0 writes Hsep done rest w)|done| |].
    - intros [c|e] ns d (Hp & Hi & Hc); [split; [done|]; intros ->; by apply Hc|].
      exists done, (w :: rest). split_and!; [done|done|]. by apply (Hplain _ _ _ Hp).
    - intros ns d Hi. by exists done, (w :: rest). }
  intros [|].
  - eapply (spec_bind _ _ _ (fun lists ns _ => InPlace ns (done ++ [w]) rest ∧ lists = (applied ++ [w_path w], w_path <$> rest))).
    + eapply spec_conseq; [by apply spec_write_one|by intros ns d [? _]| |done].
      intros [l|e] ns d Hr; [done|]. exists done, (w :: rest). by destruct Hr.
    + intros lists wd [Hi ->]. refine (IH (applied ++ [w_path w]) (done ++ [w]) unchanged _ wd Hi). by apply applied_snoc.
  - rewrite fmap_cons, remove_first_head. intros wd [Hi Hc]. destruct (Hc eq_refl) as [m Hm].
    refine (IH applied (done ++ [w]) (unchanged ++ [w_path w]) _ wd _); [|by eapply place_next].
    pose proof (place_rest _ _ _ _ _ _ Hi) as Hr. apply Forall_cons in Hr as [Hr _]. apply (applied_same _ _ _ m); [done|congruence].
Qed.
End Loop.

Section Commit.
Context `{TomlEdit, JsonFile, PolicyToml, ProfileToml, Times, Prompter P, KeyringLib}.
Context (pid : N) {BW : BatchWriter (P := P)} `{!LawfulWriter pid BW}.

(** after the rendering: the keyring, the writes and the closing lines *)
Definition commit_rest (a : InitArgs) (plan : InitPlan) (provisioner : option Provisioner) (ulid : string)
    (writes : list RenderedWrite) : IO (Desk P) LensError unit :=
  entry ← keyring_preflight_and_write a plan ulid;
  lists ← write_loop entry [] (w_path <$> writes) [] writes;
  let '(applied, unchanged) := lists in
  _ ← say_all ((fun p => concat_str ["wrote "; p]%string) <$> applied);
  _ ← (if is_nil applied && negb (is_nil unchanged) then say "no changes" else mret tt);
  of_result (provision plan provisioner).

(** printing does not fail *)
Lemma say_all_ok lines (w : World (Desk P)) : ∃ w', say_all lines w = (Some (Ok tt), w') ∧ nodes w' = nodes w.
Proof.
  revert w. induction lines as [|l lines IH]; intros w; cbn [say_all]; [by exists w|].
  unfold mbind at 1, IO_bind at 1, say at 1, at_desk at 1. cbn. edestruct IH as (w' & E & Hn). exists w'. split; [exact E|by rewrite Hn].
Qed.

Definition NotPartial (e : LensError) : Prop := match e with BatchPartial _ _ _ _ => False | _ => True end.
Lemma provision_plain plan (provisioner : option Provisioner) e :
  (∀ f dir e, provisioner = Some f → f dir = Err e → NotPartial e) → provision plan provisioner = Err e → NotPartial e.
Proof.
  intros Hf. unfold provision. destruct (fetch_intent plan) as [fetch|]; [|done].
  destruct provisioner as [f|]; cbn; [|by intros [= <-]].
  destruct (f (fi_model_dir fetch)) as [|e'] eqn:E; [done|]. cbn. intros [= <-]. by eapply Hf.
Qed.

(** the keyring reports no partial batch *)
Definition Errs {A} (m : IO (Desk P) LensError A) : Prop := ∀ w e w', m w = (Some (Err e), w') → NotPartial e.
Lemma errs_ret {A} (x : A) : Errs (mret x).
Proof. by intros w e w'. Qed.
Lemma errs_result {A} (r : result LensError A) : (∀ e, r = Err e → NotPartial e) → Errs (of_result r).
Proof. intros Hr w e w' [= E _]. by apply Hr. Qed.
Lemma errs_bind {A B} (m : IO (Desk P) LensError A) (f : A → IO (Desk P) LensError B) : Errs m → (∀ x, Errs (f x)) → Errs (m ≫= f).
Proof.
  intros Hm Hf w e w'. unfold mbind, IO_bind. destruct (m w) as [[[x|e0]|] w1] eqn:E; [apply Hf| |done].
  intros [= <- <-]. by eapply Hm.
Qed.
Lemma errs_outcome {E A} (m : IO (Desk P) E A) : Errs (outcome m).
Proof. intros w e w'. unfold outcome. by destruct (m w) as [[r|] w1]. Qed.
Lemma errs_mapped {A} service account (m : IO (Desk P) KeyringError A) : Errs (mapped service account m).
Proof.
  unfold mapped, io_err. apply errs_bind; [apply errs_outcome|]. intros [x|e]; apply errs_result; [done|].
  intros e' [= <-]. by destruct e.
Qed.
Lemma errs_keyring a plan ulid : Errs (keyring_preflight_and_write a plan ulid).
Proof.
  assert (Hm : ∀ A detail, Errs (mismatch (A := A) detail)) by (intros; apply errs_result; by intros e [= <-]).
  assert (Hw : ∀ s c v, Errs (write_entry s c v)).
  { intros. unfold write_entry. do 2 (apply errs_bind; [apply errs_mapped|intros]). case_match; [apply Hm|apply errs_ret]. }
  unfold keyring_preflight_and_write, preflight. destruct (planned_entry plan) as [[[s c] v]|]; [|apply errs_ret].
  apply errs_bind; [|intros _; apply errs_bind; [apply errs_mapped|]].
  - do 3 (apply errs_bind; [apply errs_mapped|intros]). case_match; [apply Hm|].
    apply errs_bind; [apply errs_outcome|intros; apply errs_ret].
  - intros _. apply errs_bind; [apply errs_outcome|]. intros [existing|e].
    + repeat case_match; [apply errs_ret|apply errs_result; by intros e [= <-]|apply Hw].
    + destruct e; [apply Hw|..]; apply errs_result; by intros e [= <-].
Qed.

Lemma report_plain ns0 e done rest : NotPartial e → Report ns0 e done rest.
Proof. by destruct e. Qed.

Lemma spec_commit_rest a plan provisioner ulid ns0 writes :
  Separate pid ns0 (w_path <$> writes) →
  (∀ f dir e, provisioner = Some f → f dir = Err e → NotPartial e) →
  spec (fun ns _ => ns = ns0) (commit_rest a plan provisioner ulid writes)
    (fun r ns _ => Reached pid ns0 writes ns (fun done rest =>
       match r with Ok _ => rest = [] | Err e => Report ns0 e done rest end))
    (fun ns _ => Reached pid ns0 writes ns (fun _ _ => True)).
Proof.
  intros Hsep Hprov. pose proof (place_start pid ns0 writes Hsep) as Hstart.
  unfold commit_rest. eapply (spec_bind _ _ _ (fun _ ns _ => ns = ns0)).
  { intros w Hw. pose proof (quiet_keyring (P := P) a plan ulid ns0 w Hw) as Hq.
    destruct (keyring_preflight_and_write a plan ulid w) as [[[x|e]|] w'] eqn:E; [by destruct Hq| |].
    - destruct Hq as [-> _]. exists [], writes. split; [done|]. by eapply report_plain, errs_keyring.
    - rewrite Hq. by exists [], writes. }
  intros entry. eapply (spec_bind _ _ _ (fun _ ns _ => InPlace pid ns0 writes ns writes [])).
  { eapply spec_conseq; [apply (spec_loop pid ns0 writes Hsep entry writes [] [] [])| | |done].
    - split; [apply sublist_nil_l|constructor].
    - by intros ns d ->.
    - intros [l|e] ns d Hr; [done|]. destruct Hr as (done & rest & ? & _ & ?). by exists done, rest. }
  intros [applied unchanged] w Hi. unfold mbind at 1, IO_bind at 1.
  destruct (say_all_ok ((fun p => concat_str ["wrote "; p]%string) <$> applied) w) as (w1 & -> & Hn).
  rewrite <- Hn in Hi. clear w Hn. revert w1 Hi.
  change (spec (fun ns (_ : Desk P) => InPlace pid ns0 writes ns writes [])
    (_ ← (if is_nil applied && negb (is_nil unchanged) then say "no changes" else mret tt); of_result (provision plan provisioner))
    (fun r ns _ => Reached pid ns0 writes ns (fun done rest => match r with Ok _ => rest = [] | Err e => Report ns0 e done rest end))
    (fun ns _ => Reached pid ns0 writes ns (fun _ _ => True))).
  eapply (spec_bind _ _ _ (fun _ ns _ => InPlace pid ns0 writes ns writes [])).
  { destruct (_ && _); [by intros w Hi|by apply spec_ret]. }
  intros _. apply spec_result. intros ns d Hi. exists writes, []. split; [done|].
  destruct (provision plan provisioner) eqn:E; [done|]. by eapply report_plain, provision_plain.
Qed.

(** C20. A plan is committed in order, or not at all. If rendering fails, or the
    process halts in it, no file has changed. Otherwise, for destinations that
    do not stand in each other's way and whatever calls fail or wherever the
    process halts after that: a first part of the rendered writes is in place,
    each with all of its bytes, the rest of the destinations are as they were,
    and nothing else has changed but directories that were made or whose mode was
    set and staging files. When the commit succeeds, that part is everything; and
    the report of a partial batch is true: what it calls pending is the rest in
    order, the failed path is its first, and what it calls applied is, in order,
    what is in place, up to what was there before. *)
Theorem commit_in_order a plan interactive provisioner ulid w :
  Separate pid (nodes w) (plan_paths plan) →
  (∀ f dir e, provisioner = Some f → f dir = Err e → NotPartial e) →
  let '(r, w') := commit_plan_with_prompter a plan interactive provisioner ulid w in
  match render_plan_writes a plan interactive w with
  | (Some (Ok writes), _) =>
    w_path <$> writes `sublist_of` plan_paths plan ∧
    Reached pid (nodes w) writes (nodes w') (fun done rest =>
      match r with
      | Some (Ok _) => rest = []
      | Some (Err e) => Report (nodes w) e done rest
      | None => True
      end)
  | (Some (Err e), _) => r = Some (Err e) ∧ nodes w' = nodes w
  | (None, _) => r = None ∧ nodes w' = nodes w
  end.
Proof.
  intros Hsep Hprov. pose proof (quiet_writes (P := P) a plan interactive (nodes w) w eq_refl) as Hq.
  assert (E : commit_plan_with_prompter a plan interactive provisioner ulid =
    (render_plan_writes a plan interactive ≫= commit_rest a plan provisioner ulid)) by done.
  rewrite E. unfold mbind, IO_bind. destruct (render_plan_writes a plan interactive w) as [[[writes|e]|] w1].
  - destruct Hq as [Hn Hsub]. pose proof (separate_sublist _ _ _ _ Hsub Hsep) as Hsep'.
    pose proof (spec_commit_rest a plan provisioner ulid (nodes w) writes Hsep' Hprov w1 Hn) as Hr.
    destruct (commit_rest a plan provisioner ulid writes w1) as [[[u|e]|] w2]; by split.
  - by destruct Hq as [-> _].
  - by rewrite Hq.
Qed.
End Commit.

(** a writer that fails at the second of two files *)
Module Run.
#[local] Instance tomls : TomlEdit := {| toml_parse _ := Ok []; toml_text _ _ := "[[profiles]]"%string |}.
#[local] Instance jsons : JsonFile := {| jf_parse _ := Ok (JObject []); jf_pretty _ := Ok "{}"%string |}.
#[local] Instance policies : PolicyToml := {| from_toml _ := Err "none"%string |}.
#[local] Instance profiles : ProfileToml := {| profile_utf8_error _ := None; profile_toml_error _ := None |}.
#[local] Instance times : Times := {| rfc3339 _ _ := None |}.
#[local] Instance keys : KeyringLib := {| keyring_fault := PlatformFailure |}.
#[local] Instance failing : BatchWriter (P := FakePrompter) := failing_writer 7 1.
Definition plan : InitPlan :=
  mkInitPlan "/w/.gaze-lens.toml" ProjectScope (build_profile_section_skeleton default_for_test "dev" Kind.Sqlite)
    None None [] (Some (mkAgentsMdPatch "/w/AGENTS.md" None)) None.
Definition world : World (Desk FakePrompter) :=
  mkWorld {["/w"%string := DirNode 493; "/w/AGENTS.md"%string := FileNode (str_bytes "Notes") 420]}
    (mkDesk ∅ fake_new [] 0) [].

Lemma separate_world : Separate 7 (nodes world) (plan_paths plan).
Proof.
  assert (Hall : ∀ p, p ∈ plan_paths plan → p = "/w/.gaze-lens.toml"%string ∨ p = "/w/AGENTS.md"%string)
    by (intros p Hp; change (plan_paths plan) with ["/w/.gaze-lens.toml"; "/w/AGENTS.md"]%string in Hp; set_solver).
  split.
  - apply (bool_decide_eq_true_1 _). vm_compute. reflexivity.
  - intros p [-> | ->]%Hall; eexists _, _; split; vm_compute; reflexivity.
  - intros p [-> | ->]%Hall; [left|right; eexists _, _]; vm_compute; reflexivity.
  - intros t Ht. change (stagings 7 (plan_paths plan)) with ["/w/.gaze-lens.toml.tmp.7"; "/w/AGENTS.md.tmp.7"]%string in Ht.
    rewrite !elem_of_cons, elem_of_nil in Ht.
    destruct Ht as [->|[->|[]]]; (split; [apply (bool_decide_eq_true_1 _); vm_compute; reflexivity|intros n Hn; vm_compute in Hn; discriminate]).
  - intros p q d Hp Hq Hd. assert (q = "/w"%string) as -> by (destruct (Hall p Hp) as [-> | ->]; vm_compute in Hq; congruence).
    change (ancestors (String.length "/w") "/w") with ["/"; "/w"]%string in Hd. rewrite !elem_of_cons, elem_of_nil in Hd.
    destruct Hd as [->|[->|[]]]; (split; apply (bool_decide_eq_true_1 _); vm_compute; reflexivity).
Qed.

Lemma commit_in_order_witness :
  ∃ e w', commit_plan_with_prompter default_for_test plan false None "01" world =
      (Some (Err (BatchPartial ["/w/.gaze-lens.toml"] ["/w/AGENTS.md"] "/w/AGENTS.md" e)), w')%string ∧
    ∃ writes done rest, InPlace 7 (nodes world) writes (nodes w') done rest ∧ w_path <$> rest = ["/w/AGENTS.md"%string].
Proof.
  destruct (commit_plan_with_prompter default_for_test plan false None "01" world) as [r w'] eqn:E.
  assert (Hr : ∃ e, r = Some (Err (BatchPartial ["/w/.gaze-lens.toml"] ["/w/AGENTS.md"] "/w/AGENTS.md" e))%string)
    by (apply (f_equal fst) in E; cbn [fst] in E; rewrite <- E; eexists; vm_compute; reflexivity).
  destruct Hr as [e ->]. exists e, w'. split; [reflexivity|].
  pose proof (commit_in_order (BW := failing) 7 default_for_test plan false None "01" world separate_world ltac:(discriminate)) as Hc.

  match type of Hc with let '(_, _) := ?x in _ => change x with (commit_plan_with_prompter default_for_test plan false None "01" world) in Hc end.
  rewrite E in Hc.
  assert (Hw : ∃ ws, fst (render_plan_writes default_for_test plan false world) = Some (Ok ws)) by (eexists; vm_compute; reflexivity).
  destruct (render_plan_writes default_for_test plan false world) as [[[writes|e']|] w1]; cbn [fst] in Hw.
  - destruct Hc as [_ (done & rest & Hi & Hp & _)]. exists writes, done, rest. split; [exact Hi|]. symmetry. exact Hp.
  - exfalso. destruct Hw as [ws Hw]. discriminate.
  - exfalso. destruct Hw as [ws Hw]. discriminate.
Defined.
End Run.
