(* ===== verification/Driver.v ===== *)
(** * Database connections

    What the three drivers (src/src/source/db/{mysql,postgres,sqlite}.rs) share:
    the pool they run statements on, the interface to sqlx's rows, and the
    routines that stand in each of them: errors, base64, moments as RFC 3339.

    A pool has one connection at a time and may replace it between two
    statements (an idle or an old connection is closed and a new one opened);
    [handed] says what it does for each statement to come, and past its end the
    connection stays.  Every statement that reaches a connection is logged.
    sqlx's decoding of values, and what the server answers, are classes. *)

From S2P Require Import Prelude Utf8 Str SqlQuery Errors LensValue Profile Flow.

(** ** Statements and pools *)
Record Statement := mkStatement { st_sql : bytes; st_binds : list QueryValue }.
Inductive Handed := Kept | Replaced | Refused (err : string).
Record Pool := mkPool { connection : N; log : list (N * Statement); handed : list Handed }.
Definition new_pool (handed : list Handed) : Pool := mkPool 0 [] handed.

Abbreviation Sql := (Flow Pool).

(** ** sqlx *)

(** days since 1970, nanoseconds of the day, and the offset from UTC in seconds *)
Record OffsetDateTime := mkOffset { od_date : Z; od_time : N; od_offset : Z }.
(** [BigDecimal]: coefficient and scale *)
Record BigDecimal := mkBigDecimal { bd_int : Z; bd_scale : Z }.

Class Sqlx := {
  Raw : Type;
  raw_is_null : Raw → bool;
  (** [type_info().name()] of a value *)
  raw_type : Raw → string;
  (** [try_get], by the type asked for; an error is its text *)
  get_bool : Raw → result string bool;
  get_i64 : Raw → result string Z;
  get_u64 : Raw → result string N;
  get_f64 : Raw → result string N;
  get_string : Raw → result string string;
  get_bytes : Raw → result string bytes;
  get_uuid : Raw → result string string;
  get_json : Raw → result string json;
  get_decimal : Raw → result string BigDecimal;
  get_date : Raw → result string Z;
  get_time : Raw → result string N;
  get_primitive : Raw → result string (Z * N);
  get_offset : Raw → result string OffsetDateTime;
  (** a row that is shorter than the tuple asked for *)
  no_column : N → string;
  (** the text of [sqlx::Error::Decode] around an error *)
  decode_failed : string → string;
  (** RFC 3339, [f64::to_string], [BigDecimal::to_string], [from_str::<Value>] *)
  format_rfc3339 : OffsetDateTime → result string string;
  parse_rfc3339 : string → option OffsetDateTime;
  f64_text : N → string;
  decimal_text : BigDecimal → string;
  json_of_text : string → result string json;
  (** [SqliteConnectOptions::from_str] *)
  sqlite_options : string → result string unit;
}.

Section Rows.
Context `{Sqlx}.

(** a value with the name and the type of its column *)
Record Cell := mkCell { c_name : string; c_type : string; c_raw : Raw }.
Definition Row : Type := list Cell.

(** a network server, with the application's name if one is given, or a file *)
Inductive ConnectOptions :=
| Network (host : string) (port : N) (database username password : string) (application : option string)
| File (uri : string) (read_only : bool).

(** the server: whether it accepts a connection, and what it answers to a
    statement on one, after those in the log *)
Class Server := {
  accepts : ConnectOptions → result string unit;
  answers : list (N * Statement) → N → Statement → result string (list Row) }.

(** [fetch_all(&pool)], or [execute] *)
Definition fetch_all `{Server} (st : Statement) (p : Pool) : result string (list Row) * Pool :=
  let run c handed := (answers (log p) c st, mkPool c (log p ++ [(c, st)]) handed) in
  match handed p with
  | Refused err :: handed => (Err err, mkPool (connection p) (log p) handed)
  | Replaced :: handed => run (connection p + 1) handed
  | Kept :: handed => run (connection p) handed
  | [] => run (connection p) []
  end.

(** the columns of the tuple a [query_as] reads *)
Definition column_at (row : Row) (index : N) : result string Raw :=
  c ← ok_or (row !! N.to_nat index) (no_column index); Ok (c_raw c).
Definition text_at (row : Row) (index : N) : result string string := r ← column_at row index; get_string r.
Definition int_at (row : Row) (index : N) : result string Z := r ← column_at row index; get_i64 r.
Definition opt_text_at (row : Row) (index : N) : result string (option string) :=
  r ← column_at row index; if raw_is_null r then Ok None else Some <$> get_string r.

Fixpoint collect_all {E A B} (f : A → result E B) (l : list A) : result E (list B) :=
  match l with [] => Ok [] | x :: l => y ← f x; l ← collect_all f l; Ok (y :: l) end.
Lemma collect_each {E A B} (f : A → result E B) l l' : collect_all f l = Ok l' ↔ Forall2 (fun x y => f x = Ok y) l l'.
Proof.
  revert l'. induction l as [|x l IH]; intros l'; cbn [collect_all].
  - split; [intros [= <-]; constructor|]. by inversion 1.
  - rewrite bind_ok. setoid_rewrite bind_ok. setoid_rewrite IH. split.
    + intros (y & Hy & ys & Hys & [= <-]). by constructor.
    + inversion 1; subst. eauto 10.
Qed.
End Rows.

(** ** Routines of every driver *)
Inductive DbKind := KindMysql | KindPostgres | KindSqlite.
(** the trait [DbSource]; what its methods do to the connection is [Sql] *)
Record DbSource := mkDbSource {
  db_kind : DbKind;
  db_profile_name : string;
  list_tables : Sql (list string);
  schema : string → Sql TableSchema;
  query : CannedQuery → Sql (list (list (string * LensValue))) }.

(** the derived [Debug] of an operator, and the messages of [QueryError] *)
Definition op_debug (op : WhereOp) : string :=
  match op with
  | WEq => "Eq" | WNe => "Ne" | WGt => "Gt" | WGte => "Gte" | WLt => "Lt" | WLte => "Lte" | WIn => "In"
  | WLike => "Like" | WIsNull => "IsNull" | WIsNotNull => "IsNotNull"
  end.
Definition query_error_display (e : QueryError) : string :=
  match e with
  | TableMismatch q s => concat_str ["query table `"; q; "` does not match schema table `"; s; "`"]
  | UnknownColumn c => concat_str ["unknown column `"; c; "`"]
  | DisallowedColumn c => concat_str ["column `"; c; "` is not allowed by schema policy"]
  | OperatorTypeMismatch c op ty =>
    concat_str ["operator `"; op_debug op; "` cannot be used with column `"; c; "` of type `"; ty; "`"]
  | OperatorRequiresList op => concat_str ["operator `"; op_debug op; "` requires a list value"]
  | OperatorRequiresScalar op => concat_str ["operator `"; op_debug op; "` requires a scalar value"]
  | OperatorRequiresNoValue op => concat_str ["operator `"; op_debug op; "` requires no value"]
  | OperatorRequiresValue op => concat_str ["operator `"; op_debug op; "` requires a value"]
  | LimitExceedsCap requested cap => concat_str ["query limit "; num requested; " exceeds source row cap "; num cap]
  | UnsafeColumn c => concat_str ["unsafe column identifier `"; c; "`"]
  end%string.
(** the columns a table is known by: everything is allowed *)
Definition known_column (name data_type : string) (nullable : bool) : ColumnInfo :=
  mkColumnInfo name name data_type nullable true.
Definition known_table (table : string) (columns : list ColumnInfo) (limit_cap : N) : TableSchema :=
  mkTableSchema table table columns (Some limit_cap).
Definition not_kind {A} (p : Profile.Profile) (kind : string) : result LensError A :=
  Err (Errors.Profile (concat_str ["profile `"; Profile.name p; "` is not "; kind]%string)).
Definition not_readonly {A} (p : Profile.Profile) (kind : string) : result LensError A :=
  Err (Errors.Profile (concat_str [kind; " profile `"; Profile.name p; "` must require read-only mode"]%string)).
Definition sql_error (source_name detail : string) (sql : option bytes) : LensError :=
  SourceError source_name detail (str_of <$> sql) None.
Definition sql_decode_error (kind ty err : string) : LensError := ConvertError (Decode kind (concat_str [ty; ": "; err]%string)).

(** a [BTreeMap] of values *)
Definition LensRow : Type := list (string * LensValue).
Fixpoint row_insert (k : string) (v : LensValue) (m : LensRow) : LensRow :=
  match m with
  | [] => [(k, v)]
  | (k', v') :: m' =>
    match String.compare k k' with
    | Lt => (k, v) :: m
    | Eq => (k, v) :: m'
    | Gt => (k', v') :: row_insert k v m'
    end
  end.

(** *** Base64 *)
Definition TABLE : bytes := str_bytes "ABCDEFGHIJKLMNOPQRSTUVWXYZabcdefghijklmnopqrstuvwxyz0123456789+/".
Definition sextet (n : N) : ascii := default "="%char (TABLE !! N.to_nat n).
Fixpoint base64_loop (b : bytes) : bytes :=
  match b with
  | [] => []
  | [b0] => [sextet (N.shiftr (code b0) 2); sextet (N.lor (N.shiftl (N.land (code b0) 3) 4) (N.shiftr 0 4)); "="; "="]%char
  | [b0; b1] =>
    [sextet (N.shiftr (code b0) 2); sextet (N.lor (N.shiftl (N.land (code b0) 3) 4) (N.shiftr (code b1) 4));
     sextet (N.lor (N.shiftl (N.land (code b1) 15) 2) (N.shiftr 0 6)); "="%char]
  | b0 :: b1 :: b2 :: b =>
    sextet (N.shiftr (code b0) 2) :: sextet (N.lor (N.shiftl (N.land (code b0) 3) 4) (N.shiftr (code b1) 4)) ::
    sextet (N.lor (N.shiftl (N.land (code b1) 15) 2) (N.shiftr (code b2) 6)) :: sextet (N.land (code b2) 63) ::
    base64_loop b
  end.
Definition base64_encode (b : bytes) : string := str_of (base64_loop b).

(** *** Moments *)
Section Moments.
Context `{Sqlx}.
Definition format_offset_datetime (v : OffsetDateTime) : result string string := format_rfc3339 v.
Definition format_primitive_datetime (v : Z * N) : result string string := format_offset_datetime (mkOffset v.1 v.2 0).
Definition format_date (v : Z) : result string string := format_offset_datetime (mkOffset v 0 0).
(** on the first of January 1970 *)
Definition format_time (v : N) : result string string := format_offset_datetime (mkOffset 0 v 0).
End Moments.

(** ** Base64 reads back

    The encoder that each driver has (src/src/source/db/sqlite.rs, mysql.rs and
    postgres.rs) against a decoder that is strict: groups of four, padding only
    at the end, and no bits left over. *)

Definition PAD : ascii := "=".
Definition sextet_value (b : ascii) : option N :=
  N.of_nat <$> (fst <$> list_find (fun c => c = b) TABLE).

(** the bytes of a group from its sextets *)
Definition byte_of (n : N) : ascii := ascii_of_N n.
Fixpoint base64_decode (s : bytes) : option bytes :=
  match s with
  | [] => Some []
  | c0 :: c1 :: c2 :: c3 :: s =>
    s0 ← sextet_value c0; s1 ← sextet_value c1;
    let b0 := byte_of (s0 * 4 + s1 / 16) in
    if beq c2 PAD then
      if beq c3 PAD && is_nil s && (s1 mod 16 =? 0) then Some [b0] else None
    else
      s2 ← sextet_value c2;
      let b1 := byte_of (s1 mod 16 * 16 + s2 / 4) in
      if beq c3 PAD then
        if is_nil s && (s2 mod 4 =? 0) then Some [b0; b1] else None
      else
        s3 ← sextet_value c3;
        rest ← base64_decode s;
        Some (b0 :: b1 :: byte_of (s2 mod 4 * 64 + s3) :: rest)
  | _ => None
  end.

(** ** Sextets *)
Definition below (n : nat) : list N := N.of_nat <$> seq 0 n.
Lemma below_all (P : N → bool) k n : forallb P (below k) = true → n < N.of_nat k → P n = true.
Proof.
  intros Hf Hn. rewrite forallb_forall in Hf. apply Hf, list_elem_of_In, list_elem_of_fmap. exists (N.to_nat n).
  rewrite elem_of_seq. lia.
Qed.

Lemma sextet_back n : n < 64 → sextet_value (sextet n) = Some n ∧ beq (sextet n) PAD = false.
Proof.
  intros Hn.
  pose proof (below_all (fun n => match sextet_value (sextet n) with Some m => m =? n | None => false end &&
    negb (beq (sextet n) PAD)) 64 n ltac:(vm_compute; reflexivity) Hn) as Hb.
  apply andb_true_iff in Hb as [Hv Hp]. destruct (sextet_value _); [|done].
  apply N.eqb_eq in Hv as ->. by apply negb_true_iff in Hp.
Qed.

(** the bit operations on two fields that do not overlap *)
Lemma join_low b : b < 256 → N.shiftr b 2 = b / 4 ∧ N.land b 3 = b mod 4 ∧ N.land b 15 = b mod 16 ∧ N.land b 63 = b mod 64.
Proof.
  intros _. split_and!; [by rewrite N.shiftr_div_pow2|..];
    [apply (N.land_ones b 2)|apply (N.land_ones b 4)|apply (N.land_ones b 6)].
Qed.
Lemma join_24 x y : x < 4 → y < 256 → N.lor (N.shiftl x 4) (N.shiftr y 4) = x * 16 + y / 16.
Proof.
  intros Hx Hy. rewrite N.shiftr_div_pow2. change (2 ^ 4) with 16.
  assert (Hd : y / 16 < 16) by (apply N.Div0.div_lt_upper_bound; lia). revert Hd. generalize (y / 16). intros d Hd.
  pose proof (below_all (fun x => forallb (fun d => N.lor (N.shiftl x 4) d =? x * 16 + d) (below 16)) 4 x
    ltac:(vm_compute; reflexivity) Hx) as Hb.
  apply N.eqb_eq. exact (below_all (fun d => N.lor (N.shiftl x 4) d =? x * 16 + d) 16 d Hb Hd).
Qed.
Lemma join_42 x y : x < 16 → y < 256 → N.lor (N.shiftl x 2) (N.shiftr y 6) = x * 4 + y / 64.
Proof.
  intros Hx Hy. rewrite N.shiftr_div_pow2. change (2 ^ 6) with 64.
  assert (Hd : y / 64 < 4) by (apply N.Div0.div_lt_upper_bound; lia). revert Hd. generalize (y / 64). intros d Hd.
  pose proof (below_all (fun x => forallb (fun d => N.lor (N.shiftl x 2) d =? x * 4 + d) (below 4)) 16 x
    ltac:(vm_compute; reflexivity) Hx) as Hb.
  apply N.eqb_eq. exact (below_all (fun d => N.lor (N.shiftl x 2) d =? x * 4 + d) 4 d Hb Hd).
Qed.

Lemma byte_back b : byte_of (code b) = b.
Proof. apply ascii_N_embedding. Qed.
(** the sextets of bytes, as numbers *)
Definition sextets (b0 b1 b2 : N) : N * N * N * N :=
  (b0 / 4, b0 mod 4 * 16 + b1 / 16, b1 mod 16 * 4 + b2 / 64, b2 mod 64).
Lemma sextets_small b0 b1 b2 : b0 < 256 → b1 < 256 → b2 < 256 →
  let '(s0, s1, s2, s3) := sextets b0 b1 b2 in s0 < 64 ∧ s1 < 64 ∧ s2 < 64 ∧ s3 < 64.
Proof. unfold sextets. intros. split_and!; div_lia. Qed.
Lemma sextets_back b0 b1 b2 : b0 < 256 → b1 < 256 → b2 < 256 →
  let '(s0, s1, s2, s3) := sextets b0 b1 b2 in
  s0 * 4 + s1 / 16 = b0 ∧ s1 mod 16 * 16 + s2 / 4 = b1 ∧ s2 mod 4 * 64 + s3 = b2.
Proof. unfold sextets. intros. split_and!; div_lia. Qed.

Lemma group_sextets b0 b1 b2 : b0 < 256 → b1 < 256 → b2 < 256 →
  N.shiftr b0 2 = b0 / 4 ∧ N.lor (N.shiftl (N.land b0 3) 4) (N.shiftr b1 4) = b0 mod 4 * 16 + b1 / 16 ∧
  N.lor (N.shiftl (N.land b1 15) 2) (N.shiftr b2 6) = b1 mod 16 * 4 + b2 / 64 ∧ N.land b2 63 = b2 mod 64.
Proof.
  intros H0 H1 H2. destruct (join_low b0 H0) as (-> & -> & _ & _). destruct (join_low b1 H1) as (_ & _ & -> & _).
  destruct (join_low b2 H2) as (_ & _ & _ & ->). rewrite join_24, join_42; [done|div_lia|done|div_lia|done].
Qed.

Lemma three_bytes (P : bytes → Prop) :
  P [] → (∀ a, P [a]) → (∀ a b, P [a; b]) → (∀ a b c l, P l → P (a :: b :: c :: l)) → ∀ l, P l.
Proof. intros H0 H1 H2 H3. fix IH 1. intros [|a [|b [|c l]]]; [done|apply H1|apply H2|apply H3, IH]. Qed.

(** a group is decoded from its sextets *)
Lemma decode_one s0 s1 : s0 < 64 → s1 < 64 → s1 mod 16 = 0 →
  base64_decode [sextet s0; sextet s1; PAD; PAD] = Some [byte_of (s0 * 4 + s1 / 16)].
Proof.
  intros H0 H1 Hz. cbn [base64_decode]. rewrite (proj1 (sextet_back s0 H0)), (proj1 (sextet_back s1 H1)).
  cbn [mbind option_bind]. change (beq PAD PAD) with true. cbn [is_nil andb]. by rewrite Hz.
Qed.
Lemma decode_two s0 s1 s2 : s0 < 64 → s1 < 64 → s2 < 64 → s2 mod 4 = 0 →
  base64_decode [sextet s0; sextet s1; sextet s2; PAD] =
  Some [byte_of (s0 * 4 + s1 / 16); byte_of (s1 mod 16 * 16 + s2 / 4)].
Proof.
  intros H0 H1 H2 Hz. cbn [base64_decode].
  rewrite (proj1 (sextet_back s0 H0)), (proj1 (sextet_back s1 H1)), (proj1 (sextet_back s2 H2)), (proj2 (sextet_back s2 H2)).
  cbn [mbind option_bind]. by rewrite Hz.
Qed.
Lemma decode_three s0 s1 s2 s3 s b : s0 < 64 → s1 < 64 → s2 < 64 → s3 < 64 → base64_decode s = Some b →
  base64_decode (sextet s0 :: sextet s1 :: sextet s2 :: sextet s3 :: s) =
  Some (byte_of (s0 * 4 + s1 / 16) :: byte_of (s1 mod 16 * 16 + s2 / 4) :: byte_of (s2 mod 4 * 64 + s3) :: b).
Proof.
  intros H0 H1 H2 H3 Hs. cbn [base64_decode].
  rewrite (proj1 (sextet_back s0 H0)), (proj1 (sextet_back s1 H1)), (proj1 (sextet_back s2 H2)), (proj2 (sextet_back s2 H2)),
    (proj1 (sextet_back s3 H3)), (proj2 (sextet_back s3 H3)), Hs. done.
Qed.

(** an encoded text is the bytes it came from, and four characters for each
    three of them *)
Lemma base64_roundtrip b :
  base64_decode (str_bytes (base64_encode b)) = Some b ∧ slen (base64_encode b) = 4 * ((len b + 2) / 3).
Proof.
  unfold base64_encode. rewrite bytes_of_str, <- len_str_bytes, bytes_of_str.
  induction b as [|b0|b0 b1|b0 b1 b2 b [IH IHl]] using three_bytes; [done| | |].
  - pose proof (code_lt b0) as H0. cbn [base64_loop].
    destruct (group_sextets (code b0) 0 0 H0 ltac:(lia) ltac:(lia)) as (-> & -> & _ & _).
    pose proof (sextets_small (code b0) 0 0 H0 ltac:(lia) ltac:(lia)) as (S0 & S1 & _ & _).
    pose proof (sextets_back (code b0) 0 0 H0 ltac:(lia) ltac:(lia)) as (E0 & _ & _).
    split; [|done]. rewrite decode_one, E0, byte_back; [done|done..|]. div_lia.
  - pose proof (code_lt b0) as H0. pose proof (code_lt b1) as H1. cbn [base64_loop].
    destruct (group_sextets (code b0) (code b1) 0 H0 H1 ltac:(lia)) as (-> & -> & -> & _).
    pose proof (sextets_small (code b0) (code b1) 0 H0 H1 ltac:(lia)) as (S0 & S1 & S2 & _).
    pose proof (sextets_back (code b0) (code b1) 0 H0 H1 ltac:(lia)) as (E0 & E1 & _).
    split; [|done]. rewrite decode_two, E0, E1, !byte_back; [done|done..|]. div_lia.
  - pose proof (code_lt b0) as H0. pose proof (code_lt b1) as H1. pose proof (code_lt b2) as H2. cbn [base64_loop].
    destruct (group_sextets (code b0) (code b1) (code b2) H0 H1 H2) as (-> & -> & -> & ->).
    pose proof (sextets_small (code b0) (code b1) (code b2) H0 H1 H2) as (S0 & S1 & S2 & S3).
    pose proof (sextets_back (code b0) (code b1) (code b2) H0 H1 H2) as (E0 & E1 & E2).
    split.
    + rewrite (decode_three _ _ _ _ _ b S0 S1 S2 S3 IH), E0, E1, E2, !byte_back. done.
    + rewrite !len_cons, IHl. replace (len b + 1 + 1 + 1 + 2) with (len b + 2 + 1 * 3) by lia.
      rewrite N.div_add by done. lia.
Qed.
