(* ===== verification/Drivers.v ===== *)
(** * The database drivers

    Models src/src/source/db/mysql.rs, postgres.rs and sqlite.rs, a module each:
    the check of the profile and the connection, the catalog queries, a canned
    query from compilation to rows, and the decoding of values by their type. *)

From S2P Require Import Prelude Utf8 Str Errors LensValue Text Profile SqlQuery Flow Driver.

Section Shared.
Context `{Sqlx, !Server}.

Definition connect_pool (name : string) (options : ConnectOptions) : Sql unit :=
  lift (map_err (accepts options) (fun err => sql_error name err None)).
(** [fetch_all(&self.pool)] and its rows, with the statement in the error *)
Definition fetch {A} (name : string) (shown : option bytes) (st : Statement) (decode : list Row → result string A) : Sql A :=
  fun p => let '(rows, p) := fetch_all st p in
           (map_err (rows ← rows; decode rows) (fun err => sql_error name err shown), p).
Definition no_rows (rows : list Row) : result string unit := Ok tt.
Definition table_names (rows : list Row) : result string (list string) := collect_all (fun r => text_at r 0) rows.
Definition unknown_table {A} (name table : string) : Sql A :=
  lift (Err (sql_error name (concat_str ["unknown table `"; table; "`"]%string) None)).
Definition canned_error (name : string) (e : QueryError) : LensError :=
  sql_error name (query_error_display e) (Some (str_bytes "<canned>")).

(** the loop over the columns of a row; the value of a column is read by its
    index *)
Fixpoint row_loop (decode : Cell → result LensError LensValue) (columns : Row) (out : LensRow) : result LensError LensRow :=
  match columns with
  | [] => Ok out
  | column :: columns => value ← decode column; row_loop decode columns (row_insert (c_name column) value out)
  end.

(** [row.try_get(index).map(wrap).map_err(..)] *)
Definition got {A} (fail : string → LensError) (r : result string A) (wrap : A → LensValue) : result LensError LensValue :=
  wrap <$> map_err r fail.
(** [.and_then(|value| format(value).map_err(sqlx::Error::Decode))] *)
Definition got_moment {A} (fail : string → LensError) (r : result string A)
    (format : A → result string string) : result LensError LensValue :=
  LDateTime <$> map_err (v ← r; map_err (format v) decode_failed) fail.
Definition bytes_value (b : bytes) : LensValue := LBytes (base64_encode b) (len b).
Definition unsupported {A} (ty : string) : result LensError A := Err (ConvertError (Unsupported ty)).
Definition any_of (s : string) (l : list string) : bool := existsb (String.eqb s) l.

(** the type a schema declares for a column *)
Definition declared (schema : TableSchema) (name : string) : option string :=
  ci_data_type <$> List.find (fun c => String.eqb (ci_name c) name) (ts_columns schema).
End Shared.

(** the environment and the keyring that passwords come from *)
Record Secrets := mkSecrets { env_var : string → option string; keyring_get : string → string → result LensError string }.
Definition password_of (secrets : Secrets) (p : Profile) : result LensError string :=
  resolve_password (env_var secrets) (keyring_get secrets) p.

Module Mysql.
Record MysqlSource := mkMysqlSource { profile_name : string; database : string; limit_cap : N }.

Definition READ_ONLY : Statement := mkStatement (str_bytes "SET SESSION TRANSACTION READ ONLY") [].
Definition TABLES : bytes := str_bytes "
            SELECT CAST(TABLE_NAME AS CHAR) AS table_name
            FROM information_schema.TABLES
            WHERE TABLE_SCHEMA = ?
            ORDER BY TABLE_NAME
            ".
Definition COLUMNS : bytes := str_bytes "
            SELECT
                CAST(COLUMN_NAME AS CHAR) AS column_name,
                CAST(DATA_TYPE AS CHAR) AS data_type,
                CAST(IS_NULLABLE AS CHAR) AS is_nullable
            FROM information_schema.COLUMNS
            WHERE TABLE_SCHEMA = ? AND TABLE_NAME = ?
            ORDER BY ORDINAL_POSITION
            ".

Section Mysql.
Context `{Sqlx, !Server}.

Definition validate_readonly_profile (p : Profile) : result LensError unit :=
  match source p with
  | Profile.Mysql db => if readonly_required db then Ok tt else not_readonly p "mysql"
  | _ => not_kind p "mysql"
  end.
Definition connect_with_target_password (p : Profile) (limit_cap : N) (host : string) (port : N) (password : string)
  : Sql MysqlSource :=
  _ ← lift (validate_readonly_profile p);
  match source p with
  | Profile.Mysql db =>
    _ ← connect_pool (name p) (Network host port (Profile.database db) (username db) password None);
    _ ← fetch (name p) None READ_ONLY no_rows;
    mret (mkMysqlSource (name p) (Profile.database db) limit_cap)
  | _ => lift (not_kind p "mysql")
  end.
Definition connect_with_target (secrets : Secrets) (p : Profile) (limit_cap : N) (host : string) (port : N) : Sql MysqlSource :=
  _ ← lift (validate_readonly_profile p);
  password ← lift (password_of secrets p);
  connect_with_target_password p limit_cap host port password.
Definition connect (secrets : Secrets) (p : Profile) (limit_cap : N) : Sql MysqlSource :=
  match source p with
  | Profile.Mysql db => connect_with_target secrets p limit_cap (db_host db) (db_port db)
  | _ => lift (not_kind p "mysql")
  end.

Definition list_tables (s : MysqlSource) : Sql (list string) :=
  fetch (profile_name s) None (mkStatement TABLES [QString (database s)]) table_names.
Definition column_of (row : Row) : result string ColumnInfo :=
  name ← text_at row 0;
  data_type ← text_at row 1;
  nullable ← text_at row 2;
  Ok (known_column name data_type (String.eqb nullable "YES")).
Definition schema (s : MysqlSource) (table : string) : Sql TableSchema :=
  columns ← fetch (profile_name s) None (mkStatement COLUMNS [QString (database s); QString table]) (collect_all column_of);
  if is_nil columns then unknown_table (profile_name s) table
  else mret (known_table table columns (limit_cap s)).

Definition decode_error (ty err : string) : LensError := sql_decode_error "mysql" ty err.
Definition decimal_precision (value : string) : N :=
  N.min 255 (len (filter (fun c => is_ascii_digit c = true) (chars value))).
Fixpoint take_digits (l : list N) : list N :=
  match l with c :: l => if is_ascii_digit c then c :: take_digits l else [] | [] => [] end.
Definition decimal_scale (value : string) : N :=
  match split_once (beq ".") (str_bytes value) with
  | Some (_, scale) => N.min 255 (len (take_digits (chars (str_of scale))))
  | None => 0
  end.
Definition decimal_lens (value : string) : LensValue := LDecimal value (decimal_precision value) (decimal_scale value).

Definition decode_value (ty : string) (raw : Raw) : result LensError LensValue :=
  if raw_is_null raw then Ok LNull
  else
    let upper := to_ascii_uppercase ty in
    let fail := decode_error ty in
    if any_of upper ["BOOL"; "BOOLEAN"; "TINYINT(1)"]%string then got fail (get_bool raw) LBool
    else if any_of upper ["TINYINT"; "SMALLINT"; "MEDIUMINT"; "INT"; "INTEGER"; "BIGINT"]%string
    then got fail (get_i64 raw) LI64
    else if any_of upper ["TINYINT UNSIGNED"; "SMALLINT UNSIGNED"; "MEDIUMINT UNSIGNED"; "INT UNSIGNED";
                          "INTEGER UNSIGNED"; "BIGINT UNSIGNED"]%string
    then got fail (get_u64 raw) LU64
    else if any_of upper ["FLOAT"; "DOUBLE"]%string then got fail (get_f64 raw) LF64
    else if any_of upper ["DECIMAL"; "NUMERIC"]%string then got fail (get_string raw) decimal_lens
    else if any_of upper ["CHAR"; "VARCHAR"; "TEXT"; "TINYTEXT"; "MEDIUMTEXT"; "LONGTEXT"]%string
    then got fail (get_string raw) LString
    else if any_of upper ["BINARY"; "VARBINARY"; "BLOB"; "TINYBLOB"; "MEDIUMBLOB"; "LONGBLOB"]%string
    then got fail (get_bytes raw) bytes_value
    else if any_of upper ["DATE"]%string then got_moment fail (get_date raw) format_date
    else if any_of upper ["DATETIME"]%string then got_moment fail (get_primitive raw) format_primitive_datetime
    else if any_of upper ["TIMESTAMP"]%string then got_moment fail (get_offset raw) format_offset_datetime
    else if any_of upper ["JSON"]%string then got fail (get_json raw) LJson
    else unsupported upper.
Definition row_to_values (row : Row) : result LensError LensRow :=
  row_loop (fun c => decode_value (c_type c) (c_raw c)) row [].

Definition query (s : MysqlSource) (q : CannedQuery) : Sql (list LensRow) :=
  schema ← schema s (cq_table q);
  compiled ← lift (map_err (compile_to_sql q schema) (canned_error (profile_name s)));
  rows ← fetch (profile_name s) (Some (cq_sql compiled)) (mkStatement (cq_sql compiled) (cq_binds compiled)) Ok;
  lift (collect_all row_to_values rows).
Definition db_source (s : MysqlSource) : DbSource :=
  mkDbSource KindMysql (profile_name s) (list_tables s) (schema s) (query s).
End Mysql.
End Mysql.

(** what the other two do with an unsigned bind *)
Definition bind_signed (kind : string) (v : QueryValue) : result LensError QueryValue :=
  match v with
  | QU64 n =>
    if (Z.of_N n <=? I64_MAX)%Z then Ok (QI64 (Z.of_N n))
    else Err (ConvertError (Unsupported (String.append kind " unsigned integer bind")))
  | v => Ok v
  end.

Module Postgres.
Record PostgresSource := mkPostgresSource { profile_name : string; limit_cap : N }.

Definition READ_ONLY : Statement := mkStatement (str_bytes "SET SESSION CHARACTERISTICS AS TRANSACTION READ ONLY") [].
Definition TABLES : bytes := str_bytes "
            SELECT table_name
            FROM information_schema.tables
            WHERE table_schema = current_schema()
              AND table_type = 'BASE TABLE'
            ORDER BY table_name
            ".
Definition COLUMNS : bytes := str_bytes "
            SELECT column_name, data_type, is_nullable
            FROM information_schema.columns
            WHERE table_schema = current_schema() AND table_name = $1
            ORDER BY ordinal_position
            ".

Section Postgres.
Context `{Sqlx, !Server}.

Definition validate_readonly_profile (p : Profile) : result LensError unit :=
  match source p with
  | Profile.Postgres db => if readonly_required db then Ok tt else not_readonly p "postgres"
  | _ => not_kind p "postgres"
  end.
Definition connect_with_target_password (p : Profile) (limit_cap : N) (host : string) (port : N) (password : string)
  : Sql PostgresSource :=
  _ ← lift (validate_readonly_profile p);
  match source p with
  | Profile.Postgres db =>
    _ ← connect_pool (name p) (Network host port (Profile.database db) (username db) password (Some "gaze-lens"%string));
    _ ← fetch (name p) None READ_ONLY no_rows;
    mret (mkPostgresSource (name p) limit_cap)
  | _ => lift (not_kind p "postgres")
  end.
Definition connect_with_target (secrets : Secrets) (p : Profile) (limit_cap : N) (host : string) (port : N) : Sql PostgresSource :=
  _ ← lift (validate_readonly_profile p);
  password ← lift (password_of secrets p);
  connect_with_target_password p limit_cap host port password.
Definition connect (secrets : Secrets) (p : Profile) (limit_cap : N) : Sql PostgresSource :=
  match source p with
  | Profile.Postgres db => connect_with_target secrets p limit_cap (db_host db) (db_port db)
  | _ => lift (not_kind p "postgres")
  end.

Definition list_tables (s : PostgresSource) : Sql (list string) :=
  fetch (profile_name s) None (mkStatement TABLES []) table_names.
Definition column_of (row : Row) : result string ColumnInfo :=
  name ← text_at row 0;
  data_type ← text_at row 1;
  nullable ← text_at row 2;
  Ok (known_column name data_type (String.eqb nullable "YES")).
Definition schema (s : PostgresSource) (table : string) : Sql TableSchema :=
  columns ← fetch (profile_name s) None (mkStatement COLUMNS [QString table]) (collect_all column_of);
  if is_nil columns then unknown_table (profile_name s) table
  else mret (known_table table columns (limit_cap s)).

Definition decode_error (ty err : string) : LensError := sql_decode_error "postgres" ty err.
Definition decimal_value (v : BigDecimal) : LensValue :=
  LDecimal (decimal_text v) (N.min 255 (len (print_u64 (Z.abs_N (bd_int v)))))
    (N.min 255 (Z.to_N (Z.max (bd_scale v) 0))).
Definition is_array (upper declared_ty : string) : bool :=
  match str_bytes upper with b :: _ => beq b "_" | [] => false end || eq_ignore_ascii_case declared_ty "ARRAY".

Definition decode_value (runtime_ty declared_ty : string) (raw : Raw) : result LensError LensValue :=
  if raw_is_null raw then Ok LNull
  else
    let upper := to_ascii_uppercase runtime_ty in
    let fail := decode_error runtime_ty in
    if is_array upper declared_ty then unsupported "array"
    else if any_of upper ["BOOL"]%string then got fail (get_bool raw) LBool
    else if any_of upper ["INT2"; "INT4"; "INT8"]%string then got fail (get_i64 raw) LI64
    else if any_of upper ["FLOAT4"; "FLOAT8"]%string then got fail (get_f64 raw) LF64
    else if any_of upper ["NUMERIC"]%string then got fail (get_decimal raw) decimal_value
    else if any_of upper ["VARCHAR"; "TEXT"; "BPCHAR"; "CHAR"; "NAME"]%string then got fail (get_string raw) LString
    else if any_of upper ["BYTEA"]%string then got fail (get_bytes raw) bytes_value
    else if any_of upper ["DATE"]%string then got_moment fail (get_date raw) format_date
    else if any_of upper ["TIME"]%string then got_moment fail (get_time raw) format_time
    else if any_of upper ["TIMESTAMP"]%string then got_moment fail (get_primitive raw) format_primitive_datetime
    else if any_of upper ["TIMESTAMPTZ"]%string then got_moment fail (get_offset raw) format_offset_datetime
    else if any_of upper ["UUID"]%string then got fail (get_uuid raw) LUuid
    else if any_of upper ["JSON"; "JSONB"]%string then got fail (get_json raw) LJson
    else if eq_ignore_ascii_case declared_ty "USER-DEFINED" then got fail (get_string raw) LString
    else unsupported upper.
Definition row_to_values (schema : TableSchema) (row : Row) : result LensError LensRow :=
  row_loop (fun c => decode_value (c_type c) (default (c_type c) (declared schema (c_name c))) (c_raw c)) row [].

Definition query (s : PostgresSource) (q : CannedQuery) : Sql (list LensRow) :=
  schema ← schema s (cq_table q);
  compiled ← lift (map_err (compile_to_sql_for q schema SqlQuery.Postgres) (canned_error (profile_name s)));
  binds ← lift (collect_all (bind_signed "postgres") (cq_binds compiled));
  rows ← fetch (profile_name s) (Some (cq_sql compiled)) (mkStatement (cq_sql compiled) binds) Ok;
  lift (collect_all (row_to_values schema) rows).
Definition db_source (s : PostgresSource) : DbSource :=
  mkDbSource KindPostgres (profile_name s) (list_tables s) (schema s) (query s).
End Postgres.
End Postgres.

Module Sqlite.
Record SqliteSource := mkSqliteSource { profile_name : string; limit_cap : N; json_text_columns : gset string }.

Definition TABLES : bytes := str_bytes "SELECT name FROM sqlite_master WHERE type = 'table' ORDER BY name".
Definition escape_table (ident : string) : bytes := [BACKTICK] ++ double BACKTICK (str_bytes ident) ++ [BACKTICK].
Definition table_info (table : string) : bytes := str_bytes "PRAGMA table_info(" ++ escape_table table ++ str_bytes ")".

Section Sqlite.
Context `{Sqlx, !Server}.

Definition connect (p : Profile) (limit_cap : N) : Sql SqliteSource :=
  match source p with
  | Profile.Sqlite path readonly_required json_text_columns =>
    if negb readonly_required then lift (not_readonly p "sqlite")
    else
      let uri := String.append "sqlite:" path in
      _ ← lift (map_err (sqlite_options uri) (fun err => sql_error (name p) err None));
      _ ← connect_pool (name p) (File uri true);
      mret (mkSqliteSource (name p) limit_cap (list_to_set json_text_columns))
  | _ => lift (not_kind p "sqlite")
  end.

Definition list_tables (s : SqliteSource) : Sql (list string) :=
  fetch (profile_name s) None (mkStatement TABLES []) table_names.
(** [cid], the name, the type, whether it is not null, its default, and whether
    it is part of the key *)
Definition column_of (row : Row) : result string ColumnInfo :=
  _ ← int_at row 0;
  name ← text_at row 1;
  data_type ← text_at row 2;
  notnull ← int_at row 3;
  _ ← opt_text_at row 4;
  _ ← int_at row 5;
  Ok (known_column name data_type (notnull =? 0)%Z).
Definition schema (s : SqliteSource) (table : string) : Sql TableSchema :=
  let sql := table_info table in
  columns ← fetch (profile_name s) (Some sql) (mkStatement sql []) (collect_all column_of);
  if is_nil columns then unknown_table (profile_name s) table
  else mret (known_table table columns (limit_cap s)).

Definition decode_error (ty err : string) : LensError := sql_decode_error "sqlite" ty err.
Definition has (part s : string) : bool := contains_text (str_bytes part) (str_bytes s).
Definition is_datetime_declared (declared_upper : string) : bool :=
  has "DATE" declared_upper || has "TIME" declared_upper || has "TIMESTAMP" declared_upper.
(** what was parsed can be formatted: the code [expect]s it *)
Definition parse_datetime (value : string) : option LensValue :=
  v ← parse_rfc3339 value;
  match format_rfc3339 v with Ok s => Some (LDateTime s) | Err _ => None end.
Definition or_datetime (declared_upper text : string) (v : result LensError LensValue) : result LensError LensValue :=
  if is_datetime_declared declared_upper then default v (Ok <$> parse_datetime text) else v.

Definition decode_value (s : SqliteSource) (table column declared_ty : string) (raw : Raw) : result LensError LensValue :=
  if raw_is_null raw then Ok LNull
  else
    let runtime_ty := to_ascii_uppercase (raw_type raw) in
    let declared_upper := to_ascii_uppercase declared_ty in
    if String.eqb runtime_ty "INTEGER" then
      v ← map_err (get_i64 raw) (decode_error "INTEGER");
      if has "BOOL" declared_upper
      then Ok (if (v =? 0)%Z then LBool false else if (v =? 1)%Z then LBool true else LI64 v)
      else or_datetime declared_upper (str_of (print_i64 v)) (Ok (LI64 v))
    else if String.eqb runtime_ty "REAL" then
      v ← map_err (get_f64 raw) (decode_error "REAL");
      or_datetime declared_upper (f64_text v) (Ok (LF64 v))
    else if String.eqb runtime_ty "TEXT" then
      v ← map_err (get_string raw) (decode_error "TEXT");
      or_datetime declared_upper v
        (if bool_decide (concat_str [table; "."; column]%string ∈ json_text_columns s)
         then LJson <$> map_err (json_of_text v) (decode_error "TEXT json")
         else Ok (LString v))
    else if String.eqb runtime_ty "BLOB" then got (decode_error "BLOB") (get_bytes raw) bytes_value
    else unsupported runtime_ty.
Definition row_to_values (s : SqliteSource) (schema : TableSchema) (row : Row) : result LensError LensRow :=
  row_loop (fun c => decode_value s (ts_table schema) (c_name c) (default ""%string (declared schema (c_name c))) (c_raw c))
    row [].

Definition query (s : SqliteSource) (q : CannedQuery) : Sql (list LensRow) :=
  schema ← schema s (cq_table q);
  compiled ← lift (map_err (compile_to_sql_for q schema SqlQuery.Sqlite) (canned_error (profile_name s)));
  binds ← lift (collect_all (bind_signed "sqlite") (cq_binds compiled));
  rows ← fetch (profile_name s) (Some (cq_sql compiled)) (mkStatement (cq_sql compiled) binds) Ok;
  lift (collect_all (row_to_values s schema) rows).
Definition db_source (s : SqliteSource) : DbSource :=
  mkDbSource KindSqlite (profile_name s) (list_tables s) (schema s) (query s).
End Sqlite.
End Sqlite.
