(* ===== verification/Database.v ===== *)
(** * Database sources

    Models src/src/source/db/runtime.rs, the connection to the database of a
    profile with the tunnel it may need (the control of its process:
    src/src/source/ssh_tunnel.rs), and the database source of
    src/src/source/mod.rs, which answers the tools [query], [schema] and
    [list_tables].

    The processes that are started are logged; what they answer, and the derived
    serde code, are given. *)

From S2P Require Import Prelude Utf8 Str Errors LensValue SshArgs Profile SqlQuery LogSource Output Session Disk SchemaTok Flow Driver Drivers.

(** ** Tunnels *)
Record DbRuntimePlan := mkPlan { connect_host : string; connect_port : N; plan_tunnel : option TunnelSpec }.

Definition db_runtime_plan (profile_name remote_host : string) (remote_port : N) (ssh_host : option string)
    (local_port : option N) : result LensError DbRuntimePlan :=
  match ssh_host, local_port with
  | Some ssh_host, Some local_port =>
    Ok (mkPlan "127.0.0.1" local_port (Some (mkTunnelSpec ssh_host local_port remote_host remote_port)))
  | None, None => Ok (mkPlan remote_host remote_port None)
  | _, _ =>
    profile_error ["profile `"; profile_name; "` db tunnel requires both `ssh_host` and `local_port`"]%string
  end.
Definition not_database {A} (p : Profile) : result LensError A :=
  profile_error ["profile `"; name p; "` is not a database source"]%string.
Definition runtime_plan (p : Profile) : result LensError DbRuntimePlan :=
  match source p with
  | Profile.Mysql db | Profile.Postgres db =>
    db_runtime_plan (name p) (db_host db) (db_port db) (db_ssh_host db) (db_local_port db)
  | Profile.Sqlite _ _ _ => Ok (mkPlan "" 0 None)
  | SshLog _ _ | LocalLog _ | RemoteMcpLog _ => not_database p
  end.

(** where processes start: the temporary directory and this process, what ssh
    answers to a command line (an exit code, or no start at all), what lsof
    prints for a port, and the outcome of removing a socket *)
Record Processes := mkProcesses {
  temp_dir : string; process_id : N;
  ssh_status : list (list string) → list string → result string (option Z);
  lsof : N → option (bool * bytes);
  removes : string → result IoError unit }.
Record Host := mkHost { h_pool : Pool; h_ssh : list (list string) }.

Definition control_path (w : Processes) (local_port : N) : string :=
  join_path (temp_dir w) (concat_str ["gaze-ssh-"; num local_port; "-"; num (process_id w); ".sock"]%string).
Definition listening_pid (output : option (bool * bytes)) : option N :=
  '(success, stdout) ← output;
  if success : bool
  then head (omap (fun line => cs ← from_utf8 line; parse_unsigned U32_MAX (to_utf8 (trim cs))) (SshArgs.split LF stdout))
  else None.

Section Runtime.
Context `{Sqlx, !Server} (w : Processes).

Definition on_pool {A} (m : Sql A) : Flow Host A := fun h =>
  let '(r, p) := m (h_pool h) in (r, mkHost p (h_ssh h)).
(** [Command::new("ssh").args(argv).status()?] *)
Definition run_ssh (argv : list string) : Flow Host (result SshError (option Z)) := fun h =>
  (Ok (map_err (ssh_status w (h_ssh h) argv) SpawnFailed), mkHost (h_pool h) (h_ssh h ++ [argv])).
Definition succeeded (code : option Z) : bool := bool_decide (code = Some 0%Z).

Record SshTunnel := mkTunnel { t_control_path : string; t_host : string }.
Definition tunnel_open (spec : TunnelSpec) : Flow Host (result SshError SshTunnel) :=
  match validate_ssh_login_host (ssh_host spec) with
  | Err e => mret (Err e)
  | Ok host =>
    let control_path := control_path w (local_port spec) in
    status ← run_ssh (open_argv_for_control_path spec host control_path);
    mret (
      code ← status;
      if negb (succeeded code) then
        match listening_pid (lsof w (local_port spec)) with
        | Some owner_pid => Err (LocalPortInUse (local_port spec) owner_pid)
        | None => Err (NonZero (concat_str ["ssh returned "; Ssh.debug_code code]%string))
        end
      else Ok (mkTunnel control_path host))
  end.
Definition remove_control_path (path : string) : result SshError unit :=
  match removes w path with
  | Ok _ | Err NotFound => Ok tt
  | Err err => Err (SpawnFailed (io_text err))
  end.
Definition tunnel_close (t : SshTunnel) : Flow Host (result SshError unit) :=
  match validate_ssh_login_host (t_host t) with
  | Err e => mret (Err e)
  | Ok host =>
    status ← run_ssh (close_argv_for_control_path host (t_control_path t));
    mret (
      code ← status;
      if negb (succeeded code)
      then Err (NonZero (concat_str ["ssh control exit returned "; Ssh.debug_code code]%string))
      else remove_control_path (t_control_path t))
  end.
(** a tunnel is closed when it is dropped, whatever comes of that *)
Definition tunnel_drop (t : option SshTunnel) : Flow Host unit :=
  match t with None => mret tt | Some t => _ ← tunnel_close t; mret tt end.

Definition tunnel_error (p : Profile) (e : SshError) : LensError :=
  match e with
  | LocalPortInUse _ _ => Errors.Profile (ssh_error_display e)
  | _ => SourceError (name p) (String.append "ssh tunnel failed: " (ssh_error_display e)) None None
  end.

(** ** The connection *)
Definition connect_kind (secrets : Secrets) (p : Profile) (limit_cap : N) (password : option string) (plan : DbRuntimePlan)
  : Sql DbSource :=
  match source p with
  | Profile.Mysql _ =>
    Mysql.db_source <$>
      match password with
      | Some password => Mysql.connect_with_target_password p limit_cap (connect_host plan) (connect_port plan) password
      | None => Mysql.connect_with_target secrets p limit_cap (connect_host plan) (connect_port plan)
      end
  | Profile.Postgres _ =>
    Postgres.db_source <$>
      match password with
      | Some password => Postgres.connect_with_target_password p limit_cap (connect_host plan) (connect_port plan) password
      | None => Postgres.connect_with_target secrets p limit_cap (connect_host plan) (connect_port plan)
      end
  | Profile.Sqlite _ _ _ => Sqlite.db_source <$> Sqlite.connect p limit_cap
  | SshLog _ _ | LocalLog _ | RemoteMcpLog _ => lift (not_database p)
  end.
(** a tunnel that no source holds is closed *)
Definition or_dropped {A} (tunnel : option SshTunnel) (m : Flow Host A) : Flow Host A := fun h =>
  match m h with
  | (Ok a, h) => (Ok a, h)
  | (Err e, h) => (Err e, (tunnel_drop tunnel h).2)
  end.
(** the source forwards to its driver and holds the tunnel *)
Definition connect_db_source_with_password (secrets : Secrets) (p : Profile) (limit_cap : N) (password : option string)
  : Flow Host (DbSource * option SshTunnel) :=
  plan ← lift (runtime_plan p);
  tunnel ← (match plan_tunnel plan with
            | Some spec => t ← tunnel_open spec; lift (Some <$> map_err t (tunnel_error p))
            | None => mret None
            end);
  inner ← or_dropped tunnel (on_pool (connect_kind secrets p limit_cap password plan));
  mret (inner, tunnel).
Definition connect_db_source (secrets : Secrets) (p : Profile) (limit_cap : N) : Flow Host (DbSource * option SshTunnel) :=
  connect_db_source_with_password secrets p limit_cap None.
(** what a source is connected for is done: it is dropped, and with it its tunnel *)
Definition dropping {A} (tunnel : option SshTunnel) (m : Flow Host A) : Flow Host A := fun h =>
  let '(r, h) := m h in (r, (tunnel_drop tunnel h).2).
End Runtime.

(** ** The source of the database tools *)
Inductive SchemaPresentation := RawSchema | TokenizedSchema (allowlist : option (list string)).
Class DbSerde := {
  canned_of : json → result string CannedQuery;
  (** [SchemaArgs]: the table *)
  schema_args_of : json → result string string;
  schema_text : TableSchema → result string string;
  tables_text : list string → result string string;
}.

Record DbState := mkDbState { d_tokens : Inner; d_pool : Pool }.
Record DbSourceWrapper := mkWrapper { wrapped : DbSource; presentation : SchemaPresentation }.
Definition wrapper_new (inner : DbSource) : DbSourceWrapper := mkWrapper inner RawSchema.

Section Dispatch.
Context `{DbSerde}.

Definition at_pool {A} (m : Sql A) : Flow DbState A := fun s =>
  let '(r, p) := m (d_pool s) in (r, mkDbState (d_tokens s) p).
Definition at_tokens {A} (f : Inner → A * Inner) : Flow DbState A := fun s =>
  let '(a, t) := f (d_tokens s) in (Ok a, mkDbState t (d_pool s)).

Definition present_schema (s : DbSourceWrapper) (schema : TableSchema) : Flow DbState TableSchema :=
  match presentation s with
  | RawSchema => mret schema
  | TokenizedSchema allowlist => at_tokens (tokenize_table_schema schema allowlist)
  end.
Definition present_table_names (s : DbSourceWrapper) (tables : list string) : Flow DbState (list string) :=
  match presentation s with
  | RawSchema => mret tables
  | TokenizedSchema allowlist => at_tokens (tokenize_table_names tables allowlist)
  end.

Definition with_columns (q : CannedQuery) (columns : list string) : CannedQuery :=
  mkCanned (cq_profile q) (cq_table q) (Some columns) (cq_where q) (cq_where_combinator q) (cq_order_by q) (cq_limit q).
(** without columns the query is given the allowed ones *)
Definition filled (q : CannedQuery) (schema : TableSchema) : CannedQuery :=
  match cq_columns q with
  | Some (_ :: _) => q
  | _ => with_columns q (ci_name <$> filter (fun c => ci_allowed c = true) (ts_columns schema))
  end.
Definition text_output (text : result string string) : Flow DbState SourceOutput :=
  lift (OutSchemaText <$> map_err text (fun err => ConvertError (Decode "json" err))).

Definition db_dispatch (s : DbSourceWrapper) (tool_name : string) (args : json) : Flow DbState SourceOutput :=
  let invalid err := SourceError tool_name err None None in
  if String.eqb tool_name "query" then
    q ← lift (map_err (canned_of args) invalid);
    schema ← at_pool (schema (wrapped s) (cq_table q));
    _ ← lift (map_err (compile_to_sql q schema)
               (fun e => SourceError tool_name (query_error_display e) (Some "<canned>"%string) None));
    rows ← at_pool (query (wrapped s) (filled q schema));
    mret (OutRows rows)
  else if String.eqb tool_name "schema" then
    table ← lift (map_err (schema_args_of args) invalid);
    schema ← at_pool (schema (wrapped s) table);
    schema ← present_schema s schema;
    text_output (schema_text schema)
  else if String.eqb tool_name "list_tables" then
    tables ← at_pool (list_tables (wrapped s));
    tables ← present_table_names s tables;
    text_output (tables_text tables)
  else lift (Err (SourceError tool_name "unsupported db source tool" None None)).
End Dispatch.
