(* ===== verification/DatabaseFacts.v ===== *)
(** * What reaches a database

    Every statement a database source sends only reads: it is a catalog lookup,
    with names as binds or quoted, or the query of a call, compiled for the table
    that the answer to the lookup just before it describes.  The session of the
    connection that was opened first is set read-only before anything else; a
    connection that replaces it never is.  A tunnel is closed when the connection
    fails, and base64 reads back. *)

From S2P Require Import Prelude Utf8 Str Errors LensValue SshArgs Profile SqlQuery LogSource Output Session Disk SchemaTok Flow Driver Drivers Database.

(** ** Statements that only read

    The catalog of a source is asked with its own names as binds, or quoted. *)
Definition tables_listing (s : SourceSpec) : option Statement :=
  match s with
  | Profile.Mysql db => Some (mkStatement Mysql.TABLES [QString (Profile.database db)])
  | Profile.Postgres _ => Some (mkStatement Postgres.TABLES [])
  | Profile.Sqlite _ _ _ => Some (mkStatement Sqlite.TABLES [])
  | _ => None
  end.
Definition table_lookup (s : SourceSpec) (table : string) : option Statement :=
  match s with
  | Profile.Mysql db => Some (mkStatement Mysql.COLUMNS [QString (Profile.database db); QString table])
  | Profile.Postgres _ => Some (mkStatement Postgres.COLUMNS [QString table])
  | Profile.Sqlite _ _ _ => Some (mkStatement (Sqlite.table_info table) [])
  | _ => None
  end.
(** the driver of a profile *)
Definition dialect_of (s : SourceSpec) : option Dialect :=
  match s with
  | Profile.Mysql _ => Some SqlQuery.Mysql | Profile.Postgres _ => Some SqlQuery.Postgres
  | Profile.Sqlite _ _ _ => Some SqlQuery.Sqlite | _ => None
  end.
(** a bind as the driver sends it: an unsigned number that fits as a signed one *)
Definition SameBind (v w : QueryValue) : Prop :=
  w = v ∨ ∃ n, v = QU64 n ∧ w = QI64 (Z.of_N n) ∧ (Z.of_N n <= I64_MAX)%Z.

Lemma bind_signed_same kind v w : bind_signed kind v = Ok w → SameBind v w.
Proof.
  unfold SameBind. destruct v; cbn [bind_signed]; try (intros [= <-]; by left).
  destruct (Z.leb_spec (Z.of_N v) I64_MAX); [|done]. intros [= <-]. right. eauto.
Qed.
Lemma collect_same kind l l' : collect_all (bind_signed kind) l = Ok l' → Forall2 SameBind l l'.
Proof. intros Hl%collect_each. eapply Forall2_impl; [exact Hl|]. intros v w. apply bind_signed_same. Qed.
Lemma same_binds l : Forall2 SameBind l l.
Proof. induction l; constructor; [by left|done]. Qed.

(** ** The log grows by statements that its past allows *)
Abbreviation Log := (list (N * Statement)).
Definition Sends (Φ : Log → Statement → Prop) (l l' : Log) : Prop := ∃ c st, l' = l ++ [(c, st)] ∧ Φ l st.
(** every statement of [l'] past [l] was allowed by what came before it *)
Lemma sends_each Φ l l' : rtc (Sends Φ) l l' →
  ∃ added, l' = l ++ added ∧ ∀ pre c st post, added = pre ++ (c, st) :: post → Φ (l ++ pre) st.
Proof.
  intros Hr. pattern l'. revert l' Hr. apply rtc_ind_r.
  - exists []. split; [by rewrite app_nil_r|]. intros [|] c st post E; discriminate.
  - intros m m' _ (c & st & -> & Hs) (added & -> & Ha). exists (added ++ [(c, st)]). split; [by rewrite app_assoc|].
    intros pre c' st' post E. destruct post as [|x post _] using rev_ind.
    + apply app_inj_tail in E as [<- [= <- <-]]. done.
    + rewrite app_comm_cons, app_assoc in E. apply app_inj_tail in E as [E _]. by eapply Ha.
Qed.

(** a pool that ran such statements, on one connection unless it replaced it *)
Definition Grows (Φ : Log → Statement → Prop) (p p' : Pool) : Prop :=
  rtc (Sends Φ) (log p) (log p') ∧
  (Replaced ∉ handed p → Replaced ∉ handed p' ∧ connection p' = connection p ∧
     ∃ added, log p' = log p ++ added ∧ Forall (fun e => e.1 = connection p) added).
#[global] Instance Grows_preorder Φ : PreOrder (Grows Φ).
Proof.
  split.
  - intros p. split; [done|]. intros Hn. split_and!; [done|done|]. exists []. by rewrite app_nil_r.
  - intros p q r [Fa Ka] [Fb Kb]. split; [by etrans|]. intros Hp. apply Ka in Hp as (Hq & Eq & a & Ha & Ca).
    apply Kb in Hq as (Hr & Er & b & Hb & Cb). rewrite Eq in *. split_and!; [done|done|].
    exists (a ++ b). split; [by rewrite Hb, Ha, app_assoc|by apply Forall_app].
Qed.
Lemma grows_same Φ (p p' : Pool) : log p' = log p → connection p' = connection p → (Replaced ∈ handed p' → Replaced ∈ handed p) →
  Grows Φ p p'.
Proof.
  intros El Ec Hh. split; [by rewrite El|]. intros Hn. split_and!; [auto|done|]. exists []. by rewrite app_nil_r.
Qed.

(** what follows a step, from the state it leaves *)
Lemma bind_reaches {P A B} (R : relation P) `{!PreOrder R} (m : Flow P A) (f : A → Flow P B) p :
  R p (m p).2 → (∀ a q, m p = (Ok a, q) → R q (f a q).2) → R p ((m ≫= f) p).2.
Proof.
  intros Hm Hf. unfold mbind, Flow_bind. destruct (m p) as [[a|e] q] eqn:E; [|done]. cbn [snd] in Hm.
  etrans; [exact Hm|]. by apply Hf.
Qed.

Section Drivers.
Context `{Sqlx, !Server}.

(** a column as the driver of a source reads it *)
Definition column_read (s : SourceSpec) (row : Row) : result string ColumnInfo :=
  match s with
  | Profile.Mysql _ => Mysql.column_of row
  | Profile.Postgres _ => Postgres.column_of row
  | Profile.Sqlite _ _ _ => Sqlite.column_of row
  | _ => Err ""%string
  end.
(** the table that the answer to its lookup describes, after the statements [before] *)
Inductive LookedUp (s : SourceSpec) (cap : N) (before : Log) (c : N) (look : Statement) (table : string) : TableSchema → Prop :=
| looked_up rows columns : table_lookup s table = Some look → answers before c look = Ok rows →
    Forall2 (fun row column => column_read s row = Ok column) rows columns → columns ≠ [] →
    LookedUp s cap before c look table (known_table table columns cap).
(** the query [q] compiled for a table, with its binds as they are sent *)
Definition Compiled (d : Dialect) (q : CannedQuery) (t : TableSchema) (st : Statement) : Prop :=
  ∃ c, compile_to_sql_for q t d = Ok c ∧ st_sql st = cq_sql c ∧ Forall2 SameBind (cq_binds c) (st_binds st).

Lemma fetch_ran {A} name shown st (decode : list Row → result string A) p r p' :
  fetch name shown st decode p = (r, p') →
  (∀ Φ : Log → Statement → Prop, Φ (log p) st → Grows Φ p p') ∧
  ∀ a, r = Ok a → ∃ c rows, log p' = log p ++ [(c, st)] ∧ connection p' = c ∧ answers (log p) c st = Ok rows ∧ decode rows = Ok a.
Proof.
  unfold fetch. destruct (fetch_all st p) as [rows q] eqn:E. intros [= <- <-].
  unfold fetch_all in E. split.
  - intros Φ Hs. destruct (handed p) as [|[| |e] hs] eqn:Eh; injection E as <- <-.
    4: { apply grows_same; cbn; [done..|]. rewrite Eh. set_solver. }
    all: (split; [apply rtc_once; eexists _, _; split; [done|exact Hs]|]); rewrite Eh; cbn [log handed connection];
      intros Hr; try (exfalso; set_solver); (split_and!; [set_solver|done|]); eexists; (split; [done|]); by repeat constructor.
  - intros a Ha%map_err_ok. apply bind_ok in Ha as (rs & -> & Ha).
    destruct (handed p) as [|[| |e] hs] eqn:Eh; [| | |done]; injection E as E <-; by eexists _, _.
Qed.
Lemma lift_grows Φ {A} (r : result LensError A) (p : Pool) : Grows Φ p (lift r p).2.
Proof. reflexivity. Qed.

(** columns looked up, an unknown table refused *)
Lemma lookup_ran s cap name shown look (column : Row → result string ColumnInfo) table p r p' :
  table_lookup s table = Some look → (∀ row, column row = column_read s row) →
  (columns ← fetch name shown look (collect_all column);
   if is_nil columns then unknown_table name table else mret (known_table table columns cap)) p = (r, p') →
  (∀ Φ : Log → Statement → Prop, Φ (log p) look → Grows Φ p p') ∧
  ∀ t, r = Ok t → ∃ c, log p' = log p ++ [(c, look)] ∧ LookedUp s cap (log p) c look table t.
Proof.
  intros Hl Hcol. unfold mbind at 1, Flow_bind at 1.
  destruct (fetch name shown look (collect_all column) p) as [[columns|e] q] eqn:E; apply fetch_ran in E as [Hg Ho].
  - destruct (Ho columns eq_refl) as (c & rows & Hlog & _ & Ha & Hc%collect_each).
    destruct (is_nil columns) eqn:En; intros [= <- <-]; (split; [done|]); [done|]. intros t [= <-]. exists c. split; [done|].
    econstructor; [done|done| |by destruct columns]. eapply Forall2_impl; [exact Hc|]. intros row col E. by rewrite <- Hcol.
  - intros [= <- <-]. by split.
Qed.

(** what a driver promises of its source: it lists and looks up tables by the
    catalog, and sends a query as compiled for the table it looked up just before *)
Class ReadingSource (s : SourceSpec) (d : Dialect) (cap : N) (src : DbSource) := {
  rs_tables (Φ : Log → Statement → Prop) p :
    (∀ before st, tables_listing s = Some st → Φ before st) → Grows Φ p (list_tables src p).2;
  rs_schema table p r p' : schema src table p = (r, p') → ∃ look, table_lookup s table = Some look ∧
    (∀ Φ : Log → Statement → Prop, Φ (log p) look → Grows Φ p p') ∧
    ∀ t, r = Ok t → ∃ c, log p' = log p ++ [(c, look)] ∧ LookedUp s cap (log p) c look table t;
  rs_query (Φ : Log → Statement → Prop) q p :
    (∀ look, table_lookup s (cq_table q) = Some look → Φ (log p) look) →
    (∀ c look t st, LookedUp s cap (log p) c look (cq_table q) t → Compiled d q t st → Φ (log p ++ [(c, look)]) st) →
    Grows Φ p (query src q p).2 }.

(** a query: the table, the statement compiled for it, what is done with it *)
Lemma query_grows (Φ : Log → Statement → Prop) {A} s d cap look (m : Sql TableSchema) q name (k : TableSchema → CompiledQuery → Sql A) p :
  (∀ r p', m p = (r, p') → (∀ Φ : Log → Statement → Prop, Φ (log p) look → Grows Φ p p') ∧
     ∀ t, r = Ok t → ∃ c, log p' = log p ++ [(c, look)] ∧ LookedUp s cap (log p) c look (cq_table q) t) →
  Φ (log p) look →
  (∀ c t st, LookedUp s cap (log p) c look (cq_table q) t → Compiled d q t st → Φ (log p ++ [(c, look)]) st) →
  (∀ t c p', compile_to_sql_for q t d = Ok c →
     (∀ st, Compiled d q t st → Φ (log p') st) → Grows Φ p' (k t c p').2) →
  Grows Φ p ((t ← m; c ← lift (map_err (compile_to_sql_for q t d) (canned_error name)); k t c) p).2.
Proof.
  intros Hm Hl Hs Hk. apply bind_reaches; [apply _| |].
  - destruct (m p) as [r p'] eqn:E. destruct (Hm r p' eq_refl) as [Hg _]. by apply Hg.
  - intros t p' E. destruct (Hm _ _ E) as [_ Ho]. destruct (Ho t eq_refl) as (c & Hlog & Hlook).
    apply bind_reaches; [apply _|reflexivity|]. intros cq p1 [Hc%map_err_ok ->]%flow_lift_ok.
    apply Hk; [done|]. rewrite Hlog. intros st. by apply Hs.
Qed.
Lemma rows_grow (Φ : Log → Statement → Prop) {A} name shown d q t c binds (decode : list Row → result LensError A) p :
  compile_to_sql_for q t d = Ok c → Forall2 SameBind (cq_binds c) binds → (∀ st, Compiled d q t st → Φ (log p) st) →
  Grows Φ p ((rows ← fetch name shown (mkStatement (cq_sql c) binds) Ok; lift (decode rows)) p).2.
Proof.
  intros Hc Hb Hs. apply bind_reaches; [apply _| |by intros; reflexivity].
  destruct (fetch _ _ _ _ p) as [r p'] eqn:E. apply fetch_ran in E as [Hg _]. apply Hg, Hs. by exists c.
Qed.
Lemma signed_rows_grow (Φ : Log → Statement → Prop) {A} name shown d q t c kind (decode : list Row → result LensError A) p :
  compile_to_sql_for q t d = Ok c → (∀ st, Compiled d q t st → Φ (log p) st) →
  Grows Φ p ((binds ← lift (collect_all (bind_signed kind) (cq_binds c));
     rows ← fetch name shown (mkStatement (cq_sql c) binds) Ok; lift (decode rows)) p).2.
Proof.
  intros Hc Hs. apply bind_reaches; [apply _|reflexivity|]. intros binds p1 [Hb%collect_same ->]%flow_lift_ok.
  by eapply rows_grow.
Qed.
Lemma listing_grows (Φ : Log → Statement → Prop) {A} name shown st (decode : list Row → result string A) p :
  Φ (log p) st → Grows Φ p (fetch name shown st decode p).2.
Proof. intros Hs. destruct (fetch _ _ _ _ p) as [r p'] eqn:E. apply fetch_ran in E as [Hg _]. by apply Hg. Qed.

#[export] Instance mysql_reads n db cap :
  ReadingSource (Profile.Mysql db) SqlQuery.Mysql cap (Mysql.db_source (Mysql.mkMysqlSource n (Profile.database db) cap)).
Proof.
  split; cbn [list_tables schema query Mysql.db_source].
  - intros Φ p Hs. by apply listing_grows, Hs.
  - intros table p r p' Hr. eexists. split; [done|]. by apply (lookup_ran (Profile.Mysql db)) in Hr.
  - intros Φ q p Hl Hs. eapply (query_grows Φ (Profile.Mysql db) _ cap); [intros r p' Hr; by apply (lookup_ran (Profile.Mysql db)) in Hr|by apply Hl|by intros; eapply Hs|].
    intros t c p' Hc Hk. eapply rows_grow; [done|apply same_binds|done].
Qed.
#[export] Instance postgres_reads n db cap :
  ReadingSource (Profile.Postgres db) SqlQuery.Postgres cap (Postgres.db_source (Postgres.mkPostgresSource n cap)).
Proof.
  split; cbn [list_tables schema query Postgres.db_source].
  - intros Φ p Hs. by apply listing_grows, Hs.
  - intros table p r p' Hr. eexists. split; [done|]. by apply (lookup_ran (Profile.Postgres db)) in Hr.
  - intros Φ q p Hl Hs. eapply (query_grows Φ (Profile.Postgres db) _ cap); [intros r p' Hr; by apply (lookup_ran (Profile.Postgres db)) in Hr|by apply Hl|by intros; eapply Hs|].
    intros t c p' Hc Hk. by eapply signed_rows_grow.
Qed.
#[export] Instance sqlite_reads path ro columns n json cap :
  ReadingSource (Profile.Sqlite path ro columns) SqlQuery.Sqlite cap (Sqlite.db_source (Sqlite.mkSqliteSource n cap json)).
Proof.
  split; cbn [list_tables schema query Sqlite.db_source].
  - intros Φ p Hs. by apply listing_grows, Hs.
  - intros table p r p' Hr. eexists. split; [done|]. by apply (lookup_ran (Profile.Sqlite path ro columns)) in Hr.
  - intros Φ q p Hl Hs. eapply (query_grows Φ (Profile.Sqlite path ro columns) _ cap); [intros r p' Hr; by apply (lookup_ran (Profile.Sqlite path ro columns)) in Hr|by apply Hl|by intros; eapply Hs|].
    intros t c p' Hc Hk. by eapply signed_rows_grow.
Qed.
End Drivers.

(** ** Any history of calls *)
Section Calls.
Context `{Sqlx, !Server, DbSerde}.

(** what may reach the database of a source for the calls of its tools: its
    catalog, and for a [query] call the query that was read from its arguments,
    after its table was looked up twice: for the columns of a query that names
    none, and for the names the statement may use *)
Inductive Reads (s : SourceSpec) (d : Dialect) (cap : N) (calls : list (string * json)) : Log → Statement → Prop :=
| reads_listing before st : tables_listing s = Some st → Reads s d cap calls before st
| reads_table before table st : table_lookup s table = Some st → Reads s d cap calls before st
| reads_query args q before c1 t1 c2 t2 look st :
    ("query"%string, args) ∈ calls → canned_of args = Ok q →
    LookedUp s cap before c1 look (cq_table q) t1 → LookedUp s cap (before ++ [(c1, look)]) c2 look (cq_table q) t2 →
    Compiled d (filled q t1) t2 st → Reads s d cap calls (before ++ [(c1, look); (c2, look)]) st.

Definition Grew (Φ : Log → Statement → Prop) (s s' : DbState) : Prop := Grows Φ (d_pool s) (d_pool s').
#[export] Instance Grew_preorder Φ : PreOrder (Grew Φ).
Proof. split; [intros s; unfold Grew; reflexivity|]. intros s t u. unfold Grew. apply transitivity. Qed.
Lemma at_pool_grew Φ {A} (m : Sql A) st : Grows Φ (d_pool st) (m (d_pool st)).2 → Grew Φ st (at_pool m st).2.
Proof. unfold at_pool, Grew. by destruct (m (d_pool st)). Qed.
Lemma at_pool_ok {A} (m : Sql A) st a st' : at_pool m st = (Ok a, st') → m (d_pool st) = (Ok a, d_pool st').
Proof. unfold at_pool. destruct (m (d_pool st)) as [r p]. by intros [= -> <-]. Qed.
Lemma keeps_at_tokens {A} Φ (f : Inner → A * Inner) : Keeps (Grew Φ) (at_tokens f).
Proof. intros s. unfold at_tokens, Grew. destruct (f (d_tokens s)). reflexivity. Qed.
Lemma keeps_present_schema Φ s t : Keeps (Grew Φ) (present_schema s t).
Proof. unfold present_schema. destruct (presentation s); [apply flow_keeps_ret, _|apply keeps_at_tokens]. Qed.
Lemma keeps_present_tables Φ s l : Keeps (Grew Φ) (present_table_names s l).
Proof. unfold present_table_names. destruct (presentation s); [apply flow_keeps_ret, _|apply keeps_at_tokens]. Qed.
Lemma filled_table q t : cq_table (filled q t) = cq_table q.
Proof. unfold filled. by destruct (cq_columns q) as [[]|]. Qed.

Section Source.
Context (s : SourceSpec) (d : Dialect) (cap : N) (calls : list (string * json)) (w : DbSourceWrapper).
Context `{!ReadingSource s d cap (wrapped w)}.
Abbreviation Allowed := (Reads s d cap calls).

Lemma schema_grew table st : Grew Allowed st (at_pool (schema (wrapped w) table) st).2.
Proof.
  apply at_pool_grew. destruct (schema (wrapped w) table (d_pool st)) as [r p] eqn:E.
  apply rs_schema in E as (look & Hl & Hg & _). apply Hg. by eapply reads_table.
Qed.
Lemma schema_looked table st t st' : at_pool (schema (wrapped w) table) st = (Ok t, st') →
  ∃ c look, log (d_pool st') = log (d_pool st) ++ [(c, look)] ∧ LookedUp s cap (log (d_pool st)) c look table t.
Proof. intros E%at_pool_ok. apply rs_schema in E as (look & _ & _ & Ho). destruct (Ho t eq_refl) as (c & ? & ?). eauto. Qed.

(** the second lookup is the one that the driver's query begins with *)
Lemma query_grew args q st t st' :
  ("query"%string, args) ∈ calls → canned_of args = Ok q → at_pool (schema (wrapped w) (cq_table q)) st = (Ok t, st') →
  Grew Allowed st' (at_pool (query (wrapped w) (filled q t)) st').2.
Proof.
  intros Hin Hq (c1 & look & Hlog & L1)%schema_looked. apply at_pool_grew, (rs_query (s := s) (d := d) (cap := cap)).
  - intros look' Hl. by eapply reads_table.
  - rewrite filled_table, Hlog. intros c2 look2 t2 st2 L2 Hc. rewrite <- app_assoc. cbn [app].
    assert (look2 = look) as -> by (destruct L1, L2; congruence). by eapply reads_query.
Qed.

Lemma dispatch_reads tool args : (tool, args) ∈ calls → Keeps (Grew Allowed) (db_dispatch w tool args).
Proof.
  intros Hin st. unfold db_dispatch, text_output. destruct (String.eqb_spec tool "query") as [->|_].
  { apply bind_reaches; [apply _|reflexivity|]. intros q st1 [Hq%map_err_ok ->]%flow_lift_ok.
    apply bind_reaches; [apply _|apply schema_grew|]. intros t st2 Ht.
    apply bind_reaches; [apply _|reflexivity|]. intros c st3 [_ ->]%flow_lift_ok.
    apply bind_reaches; [apply _|by eapply query_grew|]. by intros; reflexivity. }
  destruct (String.eqb_spec tool "schema") as [->|_].
  { apply bind_reaches; [apply _|reflexivity|]. intros table st1 [_ ->]%flow_lift_ok.
    apply bind_reaches; [apply _|apply schema_grew|]. intros t st2 _.
    apply bind_reaches; [apply _|apply keeps_present_schema|]. by intros; reflexivity. }
  destruct (String.eqb_spec tool "list_tables") as [->|_]; [|reflexivity].
  apply bind_reaches; [apply _| |].
  { apply at_pool_grew, (rs_tables (s := s) (d := d) (cap := cap)). intros before l Hl. by constructor. }
  intros l st1 _. apply bind_reaches; [apply _|apply keeps_present_tables|]. by intros; reflexivity.
Qed.
End Source.

Definition run_calls (s : DbSourceWrapper) (calls : list (string * json)) (st : DbState) : DbState :=
  fold_left (fun st c => (db_dispatch s c.1 c.2 st).2) calls st.
Lemma calls_read s d cap w calls st : ReadingSource s d cap (wrapped w) →
  Grew (Reads s d cap calls) st (run_calls w calls st).
Proof.
  intros Hs. enough (Hall : ∀ l st, (∀ c, c ∈ l → c ∈ calls) → Grew (Reads s d cap calls) st (run_calls w l st))
    by by apply Hall.
  induction l as [|c l IH]; intros st' Hall; [reflexivity|]. cbn [run_calls fold_left].
  etrans; [|apply IH; intros c' Hc; apply Hall; by right].
  apply dispatch_reads; [done|]. rewrite <- surjective_pairing. apply Hall. by left.
Qed.
End Calls.

(** ** Read-only sessions *)
Definition read_only_statement (d : Dialect) : option Statement :=
  match d with
  | SqlQuery.Mysql => Some Mysql.READ_ONLY
  | SqlQuery.Postgres => Some Postgres.READ_ONLY
  | SqlQuery.Sqlite => None
  end.

Lemma compiled_selects q t d c : compile_to_sql_for q t d = Ok c → ∃ rest, cq_sql c = SqlQuery.text "SELECT " ++ rest.
Proof.
  unfold compile_to_sql_for. destruct (negb _); [done|]. intros E. open_bind E as [] _.
  open_bind E as [sql em] Hw. open_bind E as sql' Ho. open_bind E as [] _.
  destruct (placeholder_next d em) as [ph em']. injection E as <-. cbn [cq_sql].
  assert (H1 : ∃ rest, sql = SqlQuery.text "SELECT " ++ rest).
  { destruct (cq_where q) as [[|w ws]|]; [injection Hw as <- _; by eexists| |injection Hw as <- _; by eexists].
    open_bind Hw as [parts em''] _. injection Hw as <- _. eexists. by rewrite <- !app_assoc. }
  destruct H1 as [r1 ->].
  assert (H2 : ∃ rest, sql' = SqlQuery.text "SELECT " ++ rest).
  { destruct (cq_order_by q) as [[|o os]|]; [injection Ho as <-; by eexists| |injection Ho as <-; by eexists].
    open_bind Ho as parts _. injection Ho as <-. eexists. reflexivity. }
  destruct H2 as [r2 ->]. eexists. by rewrite <- !app_assoc.
Qed.

(** the statement that makes a session read-only is none of those that read *)
Lemma read_only_reads_not `{Sqlx, !Server, DbSerde} s d cap calls before st :
  dialect_of s = Some d → read_only_statement d = Some st → ¬ Reads s d cap calls before st.
Proof.
  intros Hd Hs Hr. revert Hs. destruct Hr as [before st Hl|before table st Hl|args q before c1 t1 c2 t2 look st _ _ _ _ (c & Hc & Hsql & _)]; intros Hs.
  1-2: destruct s; try done; injection Hd as <-; try done; injection Hs as <-;
    apply (f_equal (fmap (fun l => length (st_sql l)))) in Hl; vm_compute in Hl; discriminate.
  apply compiled_selects in Hc as [rest Hc]. rewrite Hc in Hsql. destruct d; [injection Hs as <-..|done]; cbn in Hsql; discriminate.
Qed.

Section ReadOnly.
Context `{Sqlx, !Server}.

(** what the database of a profile is opened with: its own address, or that of
    its tunnel, its user and the password that was given or is the profile's; a
    file is the profile's, and opened read-only *)
Definition password_in_use (secrets : Secrets) (p : Profile) (password : option string) (used : string) : Prop :=
  match password with Some given => used = given | None => password_of secrets p = Ok used end.
Definition OpenedWith (secrets : Secrets) (p : Profile) (password : option string) (plan : DbRuntimePlan) (o : ConnectOptions) : Prop :=
  match source p with
  | Profile.Mysql db => ∃ used, password_in_use secrets p password used ∧
      o = Network (connect_host plan) (connect_port plan) (Profile.database db) (username db) used None
  | Profile.Postgres db => ∃ used, password_in_use secrets p password used ∧
      o = Network (connect_host plan) (connect_port plan) (Profile.database db) (username db) used (Some "gaze-lens"%string)
  | Profile.Sqlite path _ _ => o = File (String.append "sqlite:" path) true
  | _ => False
  end.

(** a driver connected: read-only was required, and the session was set so before anything else *)
Definition Opened (d : Dialect) (cap : N) (p : Profile) (o : ConnectOptions) (pool pool' : Pool) (inner : DbSource) : Prop :=
  ReadingSource (source p) d cap inner ∧ read_only (source p) = Some true ∧ accepts o = Ok tt ∧
  match read_only_statement d with
  | Some st => ∃ c, log pool' = log pool ++ [(c, st)] ∧ connection pool' = c ∧
      (Replaced ∉ handed pool → Replaced ∉ handed pool' ∧ c = connection pool)
  | None => pool' = pool
  end.

Lemma connect_pool_ok name options (pool pool' : Pool) u :
  connect_pool name options pool = (Ok u, pool') → accepts options = Ok tt ∧ pool' = pool.
Proof. intros [Ha%map_err_ok ->]%flow_lift_ok. by destruct u. Qed.
Lemma fetch_ok {A} name shown st (decode : list Row → result string A) (pool pool' : Pool) a :
  fetch name shown st decode pool = (Ok a, pool') →
  log pool' = log pool ++ [(connection pool', st)] ∧
  (Replaced ∉ handed pool → Replaced ∉ handed pool' ∧ connection pool' = connection pool).
Proof.
  intros Hf. apply fetch_ran in Hf as [Hg Ho]. destruct (Ho a eq_refl) as (c & rows & Hl & <- & _).
  split; [done|]. destruct (Hg (fun _ _ => True) I) as [_ Hk]. intros Hn. by destruct (Hk Hn) as (? & ? & _).
Qed.

Lemma mysql_opened p cap host port password pool s pool' :
  Mysql.connect_with_target_password p cap host port password pool = (Ok s, pool') →
  ∃ db, source p = Profile.Mysql db ∧
    Opened SqlQuery.Mysql cap p (Network host port (Profile.database db) (username db) password None) pool pool' (Mysql.db_source s).
Proof.
  intros Hc. unfold Mysql.connect_with_target_password in Hc. flow_open Hc u q Hv. apply flow_lift_ok in Hv as [Hv ->].
  unfold Mysql.validate_readonly_profile in Hv. unfold Opened, read_only. destruct (source p) as [|db| | | |] eqn:Es; try done.
  destruct (readonly_required db) eqn:Er; [|done]. flow_open Hc u' q Ha. apply connect_pool_ok in Ha as [Ha ->].
  flow_open Hc u'' q Hf. apply fetch_ok in Hf as [Hl Hk]. apply flow_ret_ok in Hc as [<- ->].
  exists db. split_and!; [done|apply _|done|done|]. by exists (connection q).
Qed.
Lemma postgres_opened p cap host port password pool s pool' :
  Postgres.connect_with_target_password p cap host port password pool = (Ok s, pool') →
  ∃ db, source p = Profile.Postgres db ∧
    Opened SqlQuery.Postgres cap p (Network host port (Profile.database db) (username db) password (Some "gaze-lens"%string)) pool pool'
      (Postgres.db_source s).
Proof.
  intros Hc. unfold Postgres.connect_with_target_password in Hc. flow_open Hc u q Hv. apply flow_lift_ok in Hv as [Hv ->].
  unfold Postgres.validate_readonly_profile in Hv. unfold Opened, read_only. destruct (source p) as [| |db| | |] eqn:Es; try done.
  destruct (readonly_required db) eqn:Er; [|done]. flow_open Hc u' q Ha. apply connect_pool_ok in Ha as [Ha ->].
  flow_open Hc u'' q Hf. apply fetch_ok in Hf as [Hl Hk]. apply flow_ret_ok in Hc as [<- ->].
  exists db. split_and!; [done|apply _|done|done|]. by exists (connection q).
Qed.
Lemma sqlite_opened p cap pool s pool' :
  Sqlite.connect p cap pool = (Ok s, pool') →
  ∃ path ro columns, source p = Profile.Sqlite path ro columns ∧
    Opened SqlQuery.Sqlite cap p (File (String.append "sqlite:" path) true) pool pool' (Sqlite.db_source s).
Proof.
  unfold Sqlite.connect, Opened, read_only. destruct (source p) as [| | |path [] columns| |] eqn:Es; try done. cbn [negb].
  intros Hc. flow_open Hc u q Hu. apply flow_lift_ok in Hu as [_ ->].
  flow_open Hc u' q Ha. apply connect_pool_ok in Ha as [Ha ->]. apply flow_ret_ok in Hc as [<- ->].
  exists path, true, columns. split_and!; [done|apply _|done..].
Qed.

Lemma flow_fmap_ok {S A B} (f : A → B) (m : Flow S A) s b s' :
  (f <$> m) s = (Ok b, s') → ∃ a, m s = (Ok a, s') ∧ b = f a.
Proof. unfold fmap, Flow_fmap. destruct (m s) as [[a|e] t]; [|done]. intros [= <- <-]. by exists a. Qed.

(** a connection that resolved its own password is one that was given it *)
Lemma connect_opened secrets p cap password plan pool inner pool' :
  connect_kind secrets p cap password plan pool = (Ok inner, pool') →
  ∃ d o, dialect_of (source p) = Some d ∧ OpenedWith secrets p password plan o ∧ Opened d cap p o pool pool' inner.
Proof.
  unfold connect_kind, OpenedWith. intros Hc. destruct (source p) as [|db|db|path ro columns| |] eqn:Es; try done; (eexists);
    apply flow_fmap_ok in Hc as (s & Hc & ->).
  - assert (Hp : ∃ used, password_in_use secrets p password used ∧
      Mysql.connect_with_target_password p cap (connect_host plan) (connect_port plan) used pool = (Ok s, pool')).
    { destruct password as [pw|]; [by exists pw|]. unfold Mysql.connect_with_target in Hc. flow_open Hc u q Hv.
      apply flow_lift_ok in Hv as [_ ->]. flow_open Hc pw q Hp. apply flow_lift_ok in Hp as [Hp ->]. by exists pw. }
    destruct Hp as (used & Hu & Hm). apply mysql_opened in Hm as (db' & Es' & Hm).
    assert (db' = db) as -> by congruence. eexists. split; [done|]. split; [by exists used|exact Hm].
  - assert (Hp : ∃ used, password_in_use secrets p password used ∧
      Postgres.connect_with_target_password p cap (connect_host plan) (connect_port plan) used pool = (Ok s, pool')).
    { destruct password as [pw|]; [by exists pw|]. unfold Postgres.connect_with_target in Hc. flow_open Hc u q Hv.
      apply flow_lift_ok in Hv as [_ ->]. flow_open Hc pw q Hp. apply flow_lift_ok in Hp as [Hp ->]. by exists pw. }
    destruct Hp as (used & Hu & Hm). apply postgres_opened in Hm as (db' & Es' & Hm).
    assert (db' = db) as -> by congruence. eexists. split; [done|]. split; [by exists used|exact Hm].
  - apply sqlite_opened in Hc as (path' & ro' & columns' & Es' & Hc).
    assert (path' = path) as -> by congruence. eexists. split; [done|]. split; [done|exact Hc].
Qed.
End ReadOnly.


(** ** Tunnels *)
Section Tunnels.
Context `{Sqlx, !Server} (w : Processes).

Lemma on_pool_ssh {A} (m : Sql A) h : h_ssh (on_pool m h).2 = h_ssh h.
Proof. unfold on_pool. by destruct (m (h_pool h)). Qed.
Lemma tunnel_open_ran spec h :
  ∃ r, tunnel_open w spec h = (Ok r, mkHost (h_pool h) (h_ssh h ++
    match validate_ssh_login_host (ssh_host spec) with
    | Ok host => [open_argv_for_control_path spec host (control_path w (local_port spec))]
    | Err _ => []
    end)) ∧
  ∀ t, r = Ok t → validate_ssh_login_host (ssh_host spec) = Ok (t_host t) ∧
    t_control_path t = control_path w (local_port spec).
Proof.
  unfold tunnel_open. destruct (validate_ssh_login_host _) as [host|e] eqn:Ev.
  - eexists. split; [reflexivity|]. intros t. cbn. destruct (ssh_status w _ _) as [code|err]; cbn; [|done].
    destruct (succeeded code); cbn [negb]; [by intros [= <-]|]. by case_match.
  - exists (Err e). split; [|done]. rewrite app_nil_r. by destruct h.
Qed.

Lemma host_accepted host h : validate_ssh_login_host host = Ok h → h = host.
Proof. by intros [? _]%login_host_safe. Qed.

(** a connection holds its tunnel, and one that fails leaves none open: each
    process that opened one was asked to close it again, unless it did not open *)
Lemma no_tunnel_is_left secrets p cap password h r h' :
  connect_db_source_with_password w secrets p cap password h = (r, h') →
  ∃ ran, h_ssh h' = h_ssh h ++ ran ∧
  match r with
  | Ok (_, None) => ran = [] ∧ ∃ plan, runtime_plan p = Ok plan ∧ plan_tunnel plan = None
  | Ok (_, Some t) => ∃ plan spec, runtime_plan p = Ok plan ∧ plan_tunnel plan = Some spec ∧
      connect_host plan = "127.0.0.1"%string ∧ connect_port plan = local_port spec ∧ t_host t = ssh_host spec ∧
      ran = [open_argv_for_control_path spec (t_host t) (t_control_path t)]
  | Err _ => length ran <= 1 ∨ ∃ spec host path,
      ran = [open_argv_for_control_path spec host path; close_argv_for_control_path host path]
  end%nat.
Proof.
  unfold connect_db_source_with_password. unfold mbind at 1, Flow_bind at 1, lift at 1.
  destruct (runtime_plan p) as [plan|e] eqn:Ep; [|intros [= <- <-]; exists []; rewrite app_nil_r; cbn; auto with lia].
  unfold mbind at 1, Flow_bind at 1. destruct (plan_tunnel plan) as [spec|] eqn:Et.
  - unfold mbind at 1, Flow_bind at 1. destruct (tunnel_open_ran spec h) as (o & -> & Ho).
    destruct o as [t|e]; cycle 1.
    { cbn. intros [= <- <-]. eexists. split; [reflexivity|]. left. case_match; cbn; lia. }
    destruct (Ho t eq_refl) as [Hv Hc]. rewrite Hv, <- Hc.
    cbn [map_err lift fmap result_fmap]. unfold mbind, Flow_bind at 1, or_dropped.
    pose proof (on_pool_ssh (connect_kind secrets p cap password plan)
      (mkHost (h_pool h) (h_ssh h ++ [open_argv_for_control_path spec (t_host t) (t_control_path t)]))) as Hs.
    destruct (on_pool _ _) as [[inner|e] h1]; cbn [snd h_ssh] in Hs; intros [= <- <-].
    + eexists. split; [exact Hs|]. exists plan, spec. split_and!; [done|done| | |by apply host_accepted in Hv|done];
        unfold runtime_plan, db_runtime_plan in Ep; repeat case_match; simplify_eq/=; done.
    + apply host_accepted in Hv as Eh. rewrite <- Eh in Hv. unfold tunnel_drop, tunnel_close. rewrite Hv.
      unfold mbind, Flow_bind, run_ssh. cbn [mret Flow_ret snd h_ssh]. rewrite Hs, <- app_assoc.
      eexists. split; [reflexivity|]. right. by eexists _, _, _.
  - unfold mbind, Flow_bind, or_dropped. cbn [mret Flow_ret].
    pose proof (on_pool_ssh (connect_kind secrets p cap password plan) h) as Hs.
    destruct (on_pool _ h) as [[inner|e] h1]; cbn [snd] in Hs; intros [= <- <-]; exists []; rewrite app_nil_r, <- Hs.
    + split; [done|]. split; [done|]. by exists plan.
    + cbn. split; [done|]. left. lia.
Qed.
End Tunnels.

(** ** A concrete run: the pool replaces its connection between two statements *)
Module Run.
#[local] Instance texts : Sqlx := {|
  Raw := option string;
  raw_is_null := fun r => match r with None => true | Some _ => false end;
  raw_type := fun _ => "TEXT"%string;
  get_bool := fun _ => Err "no bool"%string;
  get_i64 := fun r => ok_or (s ← r; parse_i64 (str_bytes s)) "no integer"%string;
  get_u64 := fun _ => Err "no integer"%string;
  get_f64 := fun _ => Err "no float"%string;
  get_string := fun r => ok_or r "null"%string;
  get_bytes := fun r => ok_or (str_bytes <$> r) "null"%string;
  get_uuid := fun _ => Err "no uuid"%string;
  get_json := fun _ => Err "no json"%string;
  get_decimal := fun _ => Err "no decimal"%string;
  get_date := fun _ => Err "no date"%string;
  get_time := fun _ => Err "no time"%string;
  get_primitive := fun _ => Err "no moment"%string;
  get_offset := fun _ => Err "no moment"%string;
  no_column := num;
  decode_failed := fun e => e;
  format_rfc3339 := fun _ => Err "no moment"%string;
  parse_rfc3339 := fun _ => None;
  f64_text := num;
  decimal_text := fun d => str_of (print_i64 (bd_int d));
  json_of_text := fun s => Ok (JString s);
  sqlite_options := fun _ => Ok tt |}.
Definition users : list Row :=
  [[mkCell "column_name" "VARCHAR" (Some "id"); mkCell "data_type" "VARCHAR" (Some "bigint");
    mkCell "is_nullable" "VARCHAR" (Some "NO")]]%string.
#[local] Instance server : Server := {|
  accepts := fun _ => Ok tt;
  answers := fun _ _ st =>
    Ok (if bool_decide (st_sql st = Mysql.COLUMNS) then users else [[mkCell "id" "BIGINT" (Some "7"%string)]]) |}.
#[local] Instance serde : DbSerde := {|
  canned_of := fun _ => Ok (mkCanned "crm" "users" None None None None (Some 1));
  schema_args_of := fun _ => Ok "users"%string;
  schema_text := fun t => Ok (ts_table t);
  tables_text := fun l => Ok (String.concat "," l) |}.

Definition crm : Profile :=
  mkProfile "crm" (Profile.Mysql (Profile.mkDbSource "db" 3306 "app" "reader" (Some "PW"%string) None None None true))
    None None None None None None None None true None Off.
Definition secrets : Secrets := mkSecrets (fun _ => Some "pw"%string) (fun _ _ => Err (Internal "no keyring")).
Definition fates : list Handed := [Kept; Kept; Replaced].
Definition reader : Mysql.MysqlSource := Mysql.mkMysqlSource "crm" "app" 1000.
Definition pool : Pool := mkPool 0 [(0, Mysql.READ_ONLY)] [Kept; Replaced].
Definition after : DbState :=
  run_calls (mkWrapper (Mysql.db_source reader) RawSchema) [("query"%string, JNull)] (mkDbState inner_default pool).

Lemma connected :
  connect_kind secrets crm 1000 None (mkPlan "db" 3306 None) (new_pool fates) = (Ok (Mysql.db_source reader), pool).
Proof.
  unfold connect_kind. cbn [source crm]. unfold fmap, Flow_fmap.
  replace (Mysql.connect_with_target _ _ _ _ _ _) with (Ok reader : result LensError Mysql.MysqlSource, pool)
    by (vm_compute; reflexivity).
  reflexivity.
Qed.

End Run.
