(* ===== verification/Serve.v ===== *)
(** * Starting a server

    Models src/src/cli/serve.rs: which profiles are served, the policy and the
    pipeline of each, the retention sweep before the session, the registration
    of sources that are connected on their first call, and the inventory that
    is printed instead of serving.

    Files and the manifest are those of [Disk] and [Manifest].  The expansion of
    a path, Gaze's session and the tracing library are given; the frontend that
    speaks MCP and the signals that stop it are outcomes. *)

From stdpp Require Import sorting.
From S2P Require Import Prelude Utf8 Str SqlQuery SchemaTok Errors LensValue SshArgs LogSource Output Profile Policy Session SessionFacts Tools RemoteWire RemoteService Disk Manifest Retention Toml Flow Driver Drivers Database.

(** ** Arguments *)
Record ServeArgs := mkServeArgs {
  remote_service_config : option string; sv_profile : list string; sv_manifest : string; sv_snapshot_dir : string;
  print_discovery : bool; sv_log : option string }.

(** [std::env::var] *)
Inductive EnvText := NotPresent | NotUnicode | Present (value : string).
Definition rust_log_env (v : EnvText) : result LensError (option string) :=
  match v with
  | Present value => Ok (if is_nil (trim (chars value)) then None else Some value)
  | NotPresent => Ok None
  | NotUnicode => Err (Errors.Profile "RUST_LOG is not valid Unicode")
  end.
(** [env_filter]: [EnvFilter::try_new] *)
Definition build_serve_log_filter (env_filter : string → result string unit) (explicit_log rust_log : option string)
  : result LensError unit :=
  let '(source, filter) := match explicit_log, rust_log with
    | Some filter, _ => ("--log", filter)
    | None, Some filter => ("RUST_LOG", filter)
    | None, None => ("default", "info")
    end%string in
  map_err (env_filter filter) (fun err =>
    Errors.Profile (concat_str ["invalid "; source; " tracing filter `"; filter; "`: "; err]%string)).
Definition init_tracing (env_filter : string → result string unit) (rust_log : EnvText) (log : option string)
  : result LensError unit :=
  rust_log ← rust_log_env rust_log;
  build_serve_log_filter env_filter log rust_log.

(** ** Profiles *)
Fixpoint validate_names (profiles : list Profile) : result LensError unit :=
  match profiles with
  | [] => Ok tt
  | p :: profiles => _ ← validate_profile_name (name p); validate_names profiles
  end.
Definition find_profile (profiles : list Profile) (n : string) : result LensError Profile :=
  ok_or (List.find (fun p => String.eqb (name p) n) profiles)
    (Errors.Profile (concat_str ["profile `"; n; "` not found"]%string)).
Definition select_profiles (profiles : list Profile) (restrict_list : list string) : result LensError (list Profile) :=
  _ ← validate_names profiles;
  if is_nil restrict_list then Ok profiles
  else
    _ ← for_each validate_profile_name restrict_list;
    collect_all (find_profile profiles) restrict_list.

Definition is_remote (p : Profile) : bool := match source p with RemoteMcpLog _ => true | _ => false end.
Definition count_remote (profiles : list Profile) : N := len (filter (fun p => is_remote p = true) profiles).

(** ** The policy of a profile *)
Definition policy_error (e : PolicyError) : LensError := Errors.Profile (policy_error_display e).
Definition expand_path (expand : string → result string string) (path : string) : result LensError string :=
  map_err (expand path) Errors.Profile.
Section Files.
Context {D : Type}.
(** [std::fs::read_to_string] *)
Definition read_to_string (path : string) : IO D IoError string :=
  b ← read_file path;
  match from_utf8 b with
  | Some _ => mret (str_of b)
  | None => of_result (Err (IoOther "stream did not contain valid UTF-8"))
  end.
End Files.

Section Serve.
Context `{GazeBuilder, PolicyToml} (expand : string → result string string).

Definition default_policy_file : result LensError PolicyFile :=
  map_err (from_toml "
        [policy.database]
        ") Errors.Profile.
Definition load_policy {D} (p : Profile) : IO D LensError PolicyFile :=
  match policy p with
  | Some path =>
    path ← of_result (expand_path expand path);
    input ← io_err (read_to_string path) (fun err =>
      Errors.Profile (concat_str ["failed to read policy "; path; ": "; io_text err]%string));
    of_result (map_err (from_toml input) Errors.Profile)
  | None => of_result default_policy_file
  end.
Record Runtime := mkRuntime { rt_policy : GazePolicy; rt_pipeline : Pipeline; rt_actions : ColumnActionPolicy }.
(** what a policy file becomes for a profile, or why it is refused *)
Definition runtime_of (p : Profile) (file : PolicyFile) : result LensError Runtime :=
  _ ← enforce_remote_output_policy p file;
  _ ← map_err (enforce_production_ner (name p) (production p) file) policy_error;
  gaze_policy ← map_err (to_gaze_policy file) policy_error;
  pipeline ← map_err (build_pipeline file) policy_error;
  actions ← map_err (from_policy_file file) policy_error;
  Ok (mkRuntime gaze_policy pipeline actions).
Definition runtime_policy {D} (p : Profile) : IO D LensError Runtime :=
  file ← load_policy p;
  of_result (runtime_of p file).

(** ** Retention: the shortest period, and the mildest mode, of all profiles *)
Definition min_days (profiles : list Profile) : option N :=
  match omap snapshot_retention_days profiles with
  | [] => None
  | d :: days => Some (fold_left N.min days d)
  end.
Definition merged_purge (profiles : list Profile) (default_mode : AutoPurge) : AutoPurge :=
  match auto_purge <$> profiles with
  | [] => default_mode
  | m :: modes => fold_left cap_with modes m
  end.
Definition with_retention (p : Profile) (days : N) (mode : AutoPurge) : Profile :=
  mkProfile (name p) (source p) (discovered_from_ssh_host p) (discovered_from_path p) (discovered_at p)
    (discovered_ssh_host_key_fingerprint p) (credential_class p) (policy p) (schema_tokenize p)
    (Profile.schema_allowlist p) (production p) (Some days) mode.
Definition apply_multi_profile_retention `{Ulids} (profiles : list Profile) (manifest : string) (now : option N)
    (clock : string → option N) : IO Db LensError unit :=
  match min_days profiles, profiles with
  | Some days, p :: _ =>
    apply_retention_policy (with_retention p days (merged_purge profiles (auto_purge p))) manifest now clock
  | _, _ => mret tt
  end.
End Serve.

(** ** Sources *)
Inductive ServedSource :=
| ServedDb (s : DbSourceWrapper) (tunnel : option SshTunnel)
| ServedSsh (s : Ssh.SshLogSource)
| ServedLocal (s : Local.LocalLogSource)
| ServedRemote (c : RemoteConfig).
(** the two closures that build a source when it is first called *)
Inductive SourceBuild := BuildDb (p : Profile) | BuildLog (p : Profile).

Definition default_db_limit_cap : N := N.min (caps_rows default_caps) U32_MAX.
Section Sources.
Context `{Sqlx, !Server, RemoteEnv} (w : Processes) (secrets : Secrets).

Definition build_db_source (p : Profile) : Flow Host ServedSource :=
  match source p with
  | Profile.Mysql _ | Profile.Postgres _ | Profile.Sqlite _ _ _ =>
    '(inner, tunnel) ← connect_db_source w secrets p default_db_limit_cap;
    let view := if schema_tokenize_or_default p then TokenizedSchema (Profile.schema_allowlist p) else RawSchema in
    mret (ServedDb (mkWrapper inner view) tunnel)
  | SshLog _ _ | LocalLog _ | RemoteMcpLog _ => lift (not_database p)
  end.
Definition build_log_source (p : Profile) : result LensError ServedSource :=
  match source p with
  | RemoteMcpLog config => ServedRemote <$> remote_new config
  | SshLog host path =>
    ServedSsh <$> Ssh.new (name p) host path
      (Ssh.mkSshLogCaps (caps_line_bytes default_caps) (caps_bytes default_caps) (caps_timeout default_caps))
  | LocalLog path =>
    ServedLocal <$> Local.new (name p) (str_bytes path)
      (Local.mkLocalLogCaps (caps_line_bytes default_caps) (caps_bytes default_caps) (caps_timeout default_caps))
  | Profile.Mysql _ | Profile.Postgres _ | Profile.Sqlite _ _ _ =>
    profile_error ["profile `"; name p; "` is not a log source"]%string
  end.
Definition build_source (b : SourceBuild) : Flow Host ServedSource :=
  match b with BuildDb p => build_db_source p | BuildLog p => lift (build_log_source p) end.
End Sources.

Definition source_class (s : SourceSpec) : SourceClass :=
  match s with
  | Profile.Mysql _ | Profile.Postgres _ | Profile.Sqlite _ _ _ => Database
  | SshLog _ _ | LocalLog _ | RemoteMcpLog _ => Log
  end.
Definition builder_of (p : Profile) : SourceBuild :=
  match source_class (source p) with Database => BuildDb p | Log => BuildLog p end.

(** ** The session *)
Section Prepare.
Context `{GazeBuilder, PolicyToml, Ulids} (expand : string → result string string).
Abbreviation Served := (Session Pipeline ServedSource SourceBuild).

Definition register_lazy (s : Served) (p : Profile) : Served :=
  register_source_lazy s (source_class (source p)) (name p) (BuildWith (builder_of p)).
Definition register (s : Served) (p : Profile) (rt : Runtime) : result LensError Served :=
  s ← register_pipeline s (name p) (rt_pipeline rt);
  s ← register_column_action_policy s (name p) (rt_actions rt);
  s ← register_profile_production s (name p) (production p);
  Ok (register_lazy s p).
Fixpoint register_all (s : Served) (runtime : list (Profile * Runtime)) : result LensError Served :=
  match runtime with
  | [] => Ok s
  | (p, rt) :: runtime => s ← register s p rt; register_all s runtime
  end.
Fixpoint runtimes (profiles : list Profile) : IO Db LensError (list (Profile * Runtime)) :=
  match profiles with
  | [] => mret []
  | p :: profiles => rt ← runtime_policy expand p; runtime ← runtimes profiles; mret ((p, rt) :: runtime)
  end.

(** [gaze]: what [gaze::Session::new] answers under the first policy; [ids]: the
    session's identifiers.  Without profiles the default policy is taken *)
Definition prepare_selected_session (manifest_arg snapshot_dir_arg : string) (profiles : list Profile) (now : option N)
    (clock : string → option N) (gaze : GazePolicy → result string unit) (ids : string * string)
  : IO Db LensError (Served * list string) :=
  manifest ← of_result (expand_path expand manifest_arg);
  _ ← of_result (expand_path expand snapshot_dir_arg);
  _ ← apply_multi_profile_retention profiles manifest now clock;
  runtime ← runtimes profiles;
  first_policy ← of_result (match runtime with
    | (_, rt) :: _ => Ok (rt_policy rt)
    | [] => file ← default_policy_file; map_err (to_gaze_policy file) policy_error
    end);
  _ ← of_result (build_gaze_session Conversation (gaze first_policy));
  _ ← manifest_new manifest ids.1 ids.2 now;
  session ← of_result (new_for_multi_profile Conversation (gaze first_policy) (Ok tt));
  session ← of_result (register_all session runtime);
  mret (session, name <$> profiles).
End Prepare.

Definition loaded_profiles_banner (profile_names : list string) : string :=
  concat_str ["gaze-lens serve: loaded profiles: ["; String.concat ", " profile_names; "]"]%string.

(** ** The command *)

(** what is started: the raw log service, the inventory, or a session whose
    start is under the privacy deadline if its profiles are remote *)
Inductive Serving := RemoteService (path : string) | Inventory | Serving_ (supervised : bool) (profiles : list Profile).
Definition MIXED : string :=
  "remote profiles require a dedicated process; mixed direct and remote profiles are rejected".
(** [tracing], [enable]: what the tracing library and the watchdog answer;
    [startup]: the admission of the start *)
Definition serve_start (args : ServeArgs) (project_config user_config : option string)
    (profiles : result LensError (list Profile)) (tracing enable startup : result LensError unit) : result LensError Serving :=
  match remote_service_config args with
  | Some path => if negb (bool_decide (project_config = None ∧ user_config = None)) then Err failure else Ok (RemoteService path)
  | None =>
    match (profiles ← profiles; select_profiles profiles (sv_profile args)) with
    | Err err => _ ← tracing; Err err
    | Ok profiles =>
      let remote := count_remote profiles in
      if (0 <? remote) && negb (remote =? len profiles) then Err (Errors.Profile MIXED)
      else
        _ ← (if 0 <? remote then enable else tracing);
        _ ← startup;
        if print_discovery args then Ok Inventory else Ok (Serving_ (0 <? remote) profiles)
    end
  end.

(** the frontend ends by itself or after the signal that asked it to: the error
    of its task, then its own *)
Definition frontend_result (task : result string (result string unit)) : result LensError unit :=
  let failed err := FrontendError "mcp" err in
  result ← map_err task failed;
  map_err result failed.

(** ** The discovery inventory

    Models the rest of src/src/cli/serve.rs: what [serve --print-discovery] lists
    of each profile, in an order and with a hash that do not depend on the order
    in which a database lists its tables and columns. *)

Definition supported_tools (c : SourceClass) : list string :=
  match c with Database => ["query"; "schema"; "list_tables"] | Log => ["log_tail"; "log_grep"] end%string.

Record TableDiscovery := mkTableDiscovery { td_name : string; td_allowed_columns : list string }.
Inductive DiscoveryScope := DatabaseScope (tables : list TableDiscovery) | LogScope (host path : string).
Record ProfileDiscovery := mkProfileDiscovery {
  pd_name : string; pd_source_class : string; pd_supported_tools : list string; pd_scope : DiscoveryScope;
  pd_schema_hash : string }.
(** what is hashed *)
Record TableHashDescriptor := mkTableHash { th_name : string; th_columns : list ColumnDiscoveryDescriptor }.
Record DatabaseInventoryDescriptor := mkDatabaseInventory {
  di_profile : string; di_source_class : string; di_supported_tools : list string; di_tables : list TableHashDescriptor }.
Record LogInventoryDescriptor := mkLogInventory {
  li_profile : string; li_source_class : string; li_supported_tools : list string; li_host : string; li_path : string }.
Class InventorySerde := {
  database_text : DatabaseInventoryDescriptor → result string string;
  log_text : LogInventoryDescriptor → result string string;
  (** [to_writer_pretty] of the inventory *)
  inventory_text : list ProfileDiscovery → result string string;
}.

(** columns by name, then hidden before allowed; tables by name *)
Definition table_le (a b : TableDiscovery) : Prop := name_le (td_name a) (td_name b).
#[global] Instance table_le_dec : RelDecision table_le.
Proof. intros a b. unfold table_le. apply _. Defined.
Definition table_hash_le (a b : TableHashDescriptor) : Prop := name_le (th_name a) (th_name b).
#[global] Instance table_hash_le_dec : RelDecision table_hash_le.
Proof. intros a b. unfold table_hash_le. apply _. Defined.
Definition profile_le (a b : Profile) : Prop := name_le (name a) (name b).
#[global] Instance profile_le_dec : RelDecision profile_le.
Proof. intros a b. unfold profile_le. apply _. Defined.

Definition presented_table_name (t : TableSchema) : string :=
  if String.eqb (ts_table_token t) "" then ts_table t else ts_table_token t.
Definition column_descriptors (t : TableSchema) : list ColumnDiscoveryDescriptor :=
  merge_sort descriptor_le ((fun c => mkColumnDescriptor (ci_name_token c) (ci_allowed c)) <$> ts_columns t).
Definition table_hash (t : TableSchema) : TableHashDescriptor := mkTableHash (presented_table_name t) (column_descriptors t).
Definition table_discovery (h : TableHashDescriptor) : TableDiscovery :=
  mkTableDiscovery (th_name h) (d_column <$> filter (fun c => d_allowed c = true) (th_columns h)).

Definition present_schema_for_discovery (p : Profile) (t : TableSchema) (tokens : Inner) : TableSchema * Inner :=
  if schema_tokenize_or_default p then tokenize_table_schema t (Profile.schema_allowlist p) tokens else (t, tokens).

Section Inventory.
Context `{Sqlx, !Server, DiscoverySerde, InventorySerde} (w : Processes) (secrets : Secrets).

Fixpoint discover_tables (p : Profile) (source : DbSource) (raw_tables : list string) (tokens : Inner)
  : Sql (list TableHashDescriptor) :=
  match raw_tables with
  | [] => mret []
  | raw_table :: raw_tables =>
    t ← schema source raw_table;
    let '(presented, tokens) := present_schema_for_discovery p t tokens in
    hashes ← discover_tables p source raw_tables tokens;
    mret (table_hash presented :: hashes)
  end.

Definition database_discovery (p : Profile) (hashes : list TableHashDescriptor) : result LensError ProfileDiscovery :=
  let tables := merge_sort table_le (table_discovery <$> hashes) in
  let hash_tables := merge_sort table_hash_le hashes in
  hash ← schema_hash (database_text
    (mkDatabaseInventory (name p) (class_str Database) (supported_tools Database) hash_tables));
  Ok (mkProfileDiscovery (name p) (class_str Database) (supported_tools Database) (DatabaseScope tables) hash).
Definition discover_database_profile (p : Profile) : Flow Host ProfileDiscovery :=
  '(source, tunnel) ← connect_db_source w secrets p default_db_limit_cap;
  dropping w tunnel (
    hashes ← on_pool (raw_tables ← list_tables source;
                      discover_tables p source (merge_sort name_le raw_tables) inner_default);
    lift (database_discovery p hashes)).
Definition discover_log_profile (p : Profile) (host path : string) : result LensError ProfileDiscovery :=
  hash ← schema_hash (log_text (mkLogInventory (name p) (class_str Log) (supported_tools Log) host path));
  Ok (mkProfileDiscovery (name p) (class_str Log) (supported_tools Log) (LogScope host path) hash).
Definition discover_profile (p : Profile) : Flow Host ProfileDiscovery :=
  match source p with
  | Profile.Mysql _ | Profile.Postgres _ | Profile.Sqlite _ _ _ => discover_database_profile p
  | RemoteMcpLog _ => lift (profile_error ["remote discovery is unavailable; use the fixed log_tail operation"]%string)
  | SshLog host path => lift (discover_log_profile p host path)
  | LocalLog path => lift (discover_log_profile p "local" path)
  end.

(** [policy_of]: what the policy of a profile comes to; each profile has a pool
    of its own *)
Fixpoint discover_all (policy_of : Profile → result LensError unit) (fates : Profile → list Handed)
    (profiles : list Profile) : Flow Host (list ProfileDiscovery) :=
  match profiles with
  | [] => mret []
  | p :: profiles =>
    _ ← lift (policy_of p);
    d ← (fun h => discover_profile p (mkHost (new_pool (fates p)) (h_ssh h)));
    ds ← discover_all policy_of fates profiles;
    mret (d :: ds)
  end.
Definition build_discovery_inventory (args : ServeArgs) (policy_of : Profile → result LensError unit)
    (fates : Profile → list Handed) (profiles : result LensError (list Profile)) : Flow Host (list ProfileDiscovery) :=
  profiles ← lift (profiles ← profiles; select_profiles profiles (sv_profile args));
  discover_all policy_of fates (merge_sort profile_le profiles).
(** the text and the newline after it *)
Definition print_discovery_inventory (inventory : list ProfileDiscovery) : result LensError string :=
  text ← map_err (inventory_text inventory) (fun err =>
    Internal (String.append "failed to serialize discovery inventory: " err));
  Ok (String.append text newline).
End Inventory.
