(* ===== verification/ServeFacts.v ===== *)
(** * What is served

    A session that [serve] prepares is closed before the first call: every
    profile has the pipeline and the actions of its own policy, a remote or a
    production profile only with a policy that passed its check, and no source
    is connected. *)

From S2P Require Import Prelude Utf8 Str SqlQuery SchemaTok Errors LensValue SshArgs LogSource Output Profile Policy Session SessionFacts Tools RemoteWire RemoteService Disk DiskFacts Manifest Retention Toml Flow Driver Drivers Database Serve.

(** ** Profiles *)
Lemma merged_once users projects p q :
  p ∈ (merge_profiles users projects).1 → q ∈ (merge_profiles users projects).1 → name p = name q → p = q.
Proof.
  assert (H : ∀ p, p ∈ (merge_profiles users projects).1 → ∃ w, merge_name users projects (name p) = Some (p, w)).
  { intros r Hr. unfold merge_profiles in Hr. cbn [fst] in Hr.
    apply list_elem_of_fmap in Hr as ([r' w] & -> & (n & _ & E)%list_elem_of_omap). cbn [fst].
    apply merge_name_name in E as En. subst n. by exists w. }
  intros (w & Hp)%H (w' & Hq)%H E. rewrite E, Hq in Hp. by injection Hp.
Qed.

Lemma loaded_once user project loaded warnings p q :
  load_profiles_with_warnings user project = Ok (loaded, warnings) →
  p ∈ loaded → q ∈ loaded → name p = name q → p = q.
Proof.
  unfold load_profiles_with_warnings. intros H. open_bind H as us Hus. open_bind H as ps Hps.
  destruct (merge_profiles us ps) as [merged ws] eqn:Em. open_bind H as u Hu. injection H as <- <-.
  pose proof (merged_once us ps p q) as Ho. rewrite Em in Ho. exact Ho.
Qed.

Lemma names_valid ps : validate_names ps = Ok tt → Forall (fun p => is_safe_profile_name (name p) = true) ps.
Proof.
  induction ps as [|p ps IH]; cbn [validate_names]; [constructor|]. intros H. open_bind H as u Hu.
  constructor; [|by apply IH]. unfold validate_profile_name in Hu. by destruct (is_safe_profile_name (name p)).
Qed.

Lemma found ps n p : find_profile ps n = Ok p → p ∈ ps ∧ name p = n.
Proof.
  unfold find_profile. intros H%ok_or_ok. apply List.find_some in H as [Hin E].
  apply String.eqb_eq in E. split; [by apply list_elem_of_In|done].
Qed.

(** what is selected: loaded profiles with valid names, those asked for in the
    order asked for *)
Lemma selected loaded asked ps :
  select_profiles loaded asked = Ok ps →
  Forall (fun p => is_safe_profile_name (name p) = true) ps ∧ (∀ p, p ∈ ps → p ∈ loaded) ∧
  (if is_nil asked then ps = loaded else name <$> ps = asked).
Proof.
  unfold select_profiles. intros H. open_bind H as u Hu. destruct u. apply names_valid in Hu.
  destruct (is_nil asked); [injection H as <-; auto|]. open_bind H as v Hv. apply collect_each in H.
  assert (Hin : ∀ p, p ∈ ps → p ∈ loaded).
  { intros p Hp. apply list_elem_of_lookup in Hp as [i Hi].
    destruct (Forall2_lookup_r _ _ _ _ _ H Hi) as (n & _ & E). by apply found in E as [? _]. }
  split_and!; [|done|].
  - apply Forall_forall. intros p Hp. rewrite Forall_forall in Hu. auto.
  - clear -H. induction H as [|n p ns ps Hn _ IH]; [done|]. apply found in Hn as [_ <-]. cbn. by f_equal.
Qed.

(** a served process has only remote profiles or none *)
Lemma not_mixed args pc uc loaded tracing enable startup supervised profiles :
  serve_start args pc uc (Ok loaded) tracing enable startup = Ok (Serving_ supervised profiles) →
  select_profiles loaded (sv_profile args) = Ok profiles ∧ ∀ p, p ∈ profiles → is_remote p = supervised.
Proof.
  unfold serve_start. destruct (remote_service_config args); [by destruct (negb _)|]. cbn [mbind result_bind].
  destruct (select_profiles loaded (sv_profile args)) as [ps|e]; [|by destruct tracing].
  destruct ((0 <? count_remote ps) && negb (count_remote ps =? len ps)) eqn:Em; [done|].
  intros H. open_bind H as u Hu. open_bind H as v Hv. destruct (print_discovery args); [done|]. injection H as <- <-.
  split; [done|]. intros p Hp. destruct (0 <? count_remote ps) eqn:E0.
  - cbn [andb] in Em. apply negb_false_iff, N.eqb_eq in Em. unfold count_remote, len in Em.
    destruct (is_remote p) eqn:Er; [done|exfalso].
    assert (Hlt : (length (filter (fun p => is_remote p = true) ps) < length ps)%nat); [|lia].
    apply (length_filter_lt _ _ p); [done|by rewrite Er].
  - apply N.ltb_ge in E0. unfold count_remote, len in E0. destruct (is_remote p) eqn:Er; [exfalso|done].
    assert (Hin : p ∈ filter (fun p => is_remote p = true) ps) by by apply list_elem_of_filter.
    destruct (filter (fun p => is_remote p = true) ps); [by apply elem_of_nil in Hin|cbn in E0; lia].
Qed.

(** ** Policies *)
Section Policies.
Context `{GazeBuilder, PolicyToml} (expand : string → result string string).

(** the policy file of a profile, as the files are *)
Definition policy_at (ns : Nodes) (p : Profile) : option PolicyFile :=
  match policy p with
  | None => match default_policy_file with Ok file => Some file | Err _ => None end
  | Some path =>
    match expand path with
    | Ok path =>
      match read_node ns path with
      | Ok c => match from_utf8 c, from_toml (str_of c) with Some _, Ok file => Some file | _, _ => None end
      | Err _ => None
      end
    | Err _ => None
    end
  end.

Lemma load_policy_at {D} p (w w' : World D) file :
  load_policy expand p w = (Some (Ok file), w') → policy_at (nodes w) p = Some file ∧ nodes w' = nodes w.
Proof.
  unfold load_policy, policy_at. destruct (policy p) as [path|].
  - intros Hl. io_open Hl path' w1 Hp. apply io_result_ok in Hp as [Hp ->]. apply map_err_ok in Hp. rewrite Hp.
    io_open Hl input w1 Hi. apply io_result_ok in Hl as [Hf ->]. apply map_err_ok in Hf. apply io_err_ok in Hi.
    unfold read_to_string in Hi. io_open Hi b w2 Hb. apply io_look_ok in Hb as [-> En].
    destruct (from_utf8 b); [|done]. injection Hi as <- <-. by rewrite Hf.
  - intros [Hf ->]%io_result_ok. by rewrite Hf.
Qed.

Lemma runtimes_at profiles (w w' : World Db) runtime :
  runtimes expand profiles w = (Some (Ok runtime), w') →
  runtime.*1 = profiles ∧
  ∀ p rt, (p, rt) ∈ runtime → ∃ file, policy_at (nodes w) p = Some file ∧ runtime_of p file = Ok rt.
Proof.
  revert w w' runtime. induction profiles as [|p ps IH]; intros w w' runtime; cbn [runtimes].
  - intros [= <- <-]. split; [done|]. by intros ?? ?%elem_of_nil.
  - intros Hl. io_open Hl rt w1 Hrt. io_open Hl rest w2 Hrest. injection Hl as <- <-.
    unfold runtime_policy in Hrt. io_open Hrt file w3 Hf. apply io_result_ok in Hrt as [Hrt ->].
    apply load_policy_at in Hf as [Hf En]. destruct (IH _ _ _ Hrest) as [<- Hall].
    split; [done|]. intros q rt' [[= -> ->]|Hin]%elem_of_cons; [by exists file|]. rewrite <- En. by apply Hall.
Qed.

(** what a profile's policy had to pass *)
Definition Checked (p : Profile) (file : PolicyFile) (rt : Runtime) : Prop :=
  (∃ steps, pipeline_steps file = Ok steps ∧ build_steps steps = Ok (rt_pipeline rt) ∧
    (is_remote p = true → all_hide steps)) ∧
  (is_remote p = true → ∀ c ca, action_for (rt_actions rt) c = Some ca → hides (ca_action ca)) ∧
  (production p = true → model_dir (pf_ner file) ≠ None).

Lemma actions_hide (rules : list ColumnRule) actions out :
  Forall (fun r => safe (Some (default "tokenize"%string (cr_action r))) = true) rules →
  map_Forall (fun _ ca => hides (ca_action ca)) actions → actions_from rules actions = Ok out →
  map_Forall (fun _ ca => hides (ca_action ca)) out.
Proof.
  intros Hs. revert actions out. induction Hs as [|r rules Hr _ IH]; intros actions out Ha; cbn [actions_from].
  - by intros [= <-].
  - intros H'. open_bind H' as a Ea. open_bind H' as c Ec. apply IH in H'; [done|].
    apply map_Forall_insert_2; [|done]. cbn. by eapply safe_hides.
Qed.

Lemma runtime_checked p file rt : runtime_of p file = Ok rt → Checked p file rt.
Proof.
  unfold runtime_of. intros H'. open_bind H' as u Hr. destruct u. open_bind H' as v Hn. apply map_err_ok in Hn. destruct v.
  open_bind H' as g Hg. open_bind H' as pl Hp. apply map_err_ok in Hp. open_bind H' as ac Ha. apply map_err_ok in Ha.
  injection H' as <-. unfold build_pipeline in Hp. open_bind Hp as steps Hs. apply map_err_ok in Hp.
  assert (Hk : is_remote p = true → source_kind (source p) = 0) by (unfold is_remote; by destruct (source p)).
  unfold Checked. split_and!; cbn [rt_pipeline rt_actions].
  - exists steps. split_and!; [done|done|]. intros Hk'%Hk. by apply (remote_steps_hide p file).
  - intros Hk'%Hk. destruct (remote_policy_ok p file Hr Hk') as (_ & _ & Hc). unfold from_policy_file in Ha.
    apply actions_hide in Ha; [exact Ha|done|apply map_Forall_empty].
  - intros Hprod. unfold enforce_production_ner in Hn. rewrite Hprod in Hn. by destruct (model_dir (pf_ner file)).
Qed.
End Policies.

(** ** Registration *)
Section Registered.
Context `{GazeBuilder}.
Abbreviation Served := (Session Pipeline ServedSource SourceBuild).

(** a profile is known by what was registered for it, and by nothing else *)
Definition Known (s : Served) (p : Profile) (rt : Runtime) : Prop :=
  pipeline_for s (name p) = Ok (rt_pipeline rt) ∧ column_actions_for s (name p) = Ok (rt_actions rt) ∧
  profile_is_production s (name p) = production p ∧
  sources s !! (source_class (source p), name p) = Some (lazy_new (BuildWith (builder_of p))) ∧
  sources s !! (other_class (source_class (source p)), name p) = None.
Definition Unknown (s : Served) (n : string) : Prop :=
  pipeline_for s n = Err (ProfileUnknown n (match pipeline_mode s with
    | MultiPipeline m => sorted_names (elements (dom m)) | SinglePipeline _ _ => [] end)) ∧
  ∀ c, sources s !! (c, n) = None.

(** how a session of several profiles has registered [done] *)
Record Registered (s : Served) (done : list (Profile * Runtime)) : Prop := {
  registered_modes : ∃ pipelines actions, pipeline_mode s = MultiPipeline pipelines ∧ column_action_mode s = MultiActions actions;
  registered_known : ∀ p rt, (p, rt) ∈ done → Known s p rt;
  registered_only : ∀ n, n ∉ name <$> done.*1 → Unknown s n;
  registered_sources : legacy_sources s = ∅ ∧ map_Forall (fun _ l => cell l = None) (sources s);
}.

Lemma registered_none caps : Registered (from_parts (MultiPipeline ∅) (MultiActions ∅) caps) [].
Proof.
  split; [by eexists _, _|by intros ?? ?%elem_of_nil| |split; [done|apply map_Forall_empty]].
  intros n _. split; [|done]. unfold pipeline_for. cbn [from_parts pipeline_mode]. by rewrite lookup_empty.
Qed.

(** the runtimes of one name are one *)
Definition Once (l : list (Profile * Runtime)) : Prop :=
  ∀ e e', e ∈ l → e' ∈ l → name e.1 = name e'.1 → e = e'.

Lemma other_class_ne c : other_class c ≠ c.
Proof. by destruct c. Qed.

(** the parts of a session after a registration *)
Lemma register_parts (s s' : Served) p rt pipelines actions :
  pipeline_mode s = MultiPipeline pipelines → column_action_mode s = MultiActions actions → register s p rt = Ok s' →
  pipeline_mode s' = MultiPipeline (<[name p := rt_pipeline rt]> pipelines) ∧
  column_action_mode s' = MultiActions (<[name p := rt_actions rt]> actions) ∧
  production_profiles s' = (if production p then {[name p]} ∪ production_profiles s else production_profiles s ∖ {[name p]}) ∧
  sources s' = <[(source_class (source p), name p) := lazy_new (BuildWith (builder_of p))]> (sources s) ∧
  legacy_sources s' = legacy_sources s.
Proof.
  intros Em Ea Hr. unfold register, register_pipeline in Hr. rewrite Em in Hr. cbn [mbind result_bind] in Hr.
  unfold register_column_action_policy in Hr. cbn [with_pipeline_mode column_action_mode] in Hr. rewrite Ea in Hr.
  cbn [mbind result_bind] in Hr. open_bind Hr as s1 Hs. injection Hr as <-.
  unfold register_profile_production in Hs. open_bind Hs as u Hu. by injection Hs as <-.
Qed.

Lemma register_known s s' done p rt :
  Registered s done → Once (done ++ [(p, rt)]) → register s p rt = Ok s' → Registered s' (done ++ [(p, rt)]).
Proof.
  intros [(pipelines & actions & Em & Ea) Hk Hu [Hl Hc]] Ho Hr.
  destruct (register_parts _ _ _ _ _ _ Em Ea Hr) as (Em' & Ea' & Ep & Es & El).
  unfold Known, Unknown, pipeline_for, column_actions_for, profile_is_production in *. rewrite Em, Ea in *.
  split; unfold Known, Unknown, pipeline_for, column_actions_for, profile_is_production; rewrite ?Em', ?Ea', ?Ep, ?Es.
  - by eexists _, _.
  - intros q rt' Hq. destruct (decide (name q = name p)) as [E|E].
    + assert (Eq : (q, rt') = (p, rt)) by (apply Ho; set_solver). injection Eq as -> ->.
      rewrite !lookup_insert_eq, lookup_insert_ne by (intros [=]; by eapply other_class_ne).
      split_and!; [done|done| |done|].
      * destruct (production p); [apply bool_decide_eq_true_2|apply bool_decide_eq_false_2]; set_solver.
      * destruct (decide (name p ∈ name <$> done.*1)) as [Hd|Hd]; [|apply Hu, Hd].
        apply list_elem_of_fmap in Hd as (q & E' & ([q' rt''] & -> & Hd)%list_elem_of_fmap). cbn in E'.
        assert (Eq : (q', rt'') = (p, rt)) by (apply Ho; [set_solver..|done]). injection Eq as -> ->. by apply (Hk p rt).
    + assert (Hd : (q, rt') ∈ done) by set_solver. destruct (Hk q rt' Hd) as (H1 & H2 & H3 & H4 & H5).
      rewrite !lookup_insert_ne by congruence. split_and!; [|done| |done|done].
      * apply ok_or_ok. by apply ok_or_ok in H1.
      * rewrite <- H3. apply bool_decide_ext. destruct (production p); set_solver.
  - intros n Hn. rewrite !fmap_app in Hn. cbn in Hn. assert (Hnp : n ≠ name p) by set_solver.
    destruct (Hu n) as [H1 H2]; [set_solver|]. split.
    + rewrite lookup_insert_ne by congruence. by destruct (pipelines !! n).
    + intros c. rewrite lookup_insert_ne by congruence. apply H2.
  - split; [by rewrite El|]. by apply map_Forall_insert_2.
Qed.

Lemma register_all_known s s' done rest :
  Registered s done → Once (done ++ rest) → register_all s rest = Ok s' → Registered s' (done ++ rest).
Proof.
  revert s done. induction rest as [|[p rt] rest IH]; intros s done Hr Ho; cbn [register_all].
  - intros [= <-]. by rewrite app_nil_r.
  - intros H'. open_bind H' as s1 Hs. rewrite cons_middle, app_assoc in Ho |- *. eapply IH; [|done|done].
    eapply register_known; [done| |done]. intros e e' He He'. apply Ho; set_solver.
Qed.
End Registered.

(** ** Retention before the session *)
Lemma merged_mildest profiles d p :
  p ∈ profiles → rank (merged_purge profiles d) <= rank (auto_purge p).
Proof.
  assert (H : ∀ modes m a, a ∈ m :: modes → rank (fold_left cap_with modes m) <= rank a).
  { induction modes as [|b modes IH]; intros m a Ha; cbn [fold_left]; [by apply list_elem_of_singleton in Ha as ->|].
    destruct (cap_with_le m b) as [Hm Hb]. pose proof (IH (cap_with m b) (cap_with m b)) as Hc.
    apply elem_of_cons in Ha as [->|[->|Ha]%elem_of_cons]; [etrans; [apply Hc; set_solver|done]..|].
    apply IH. set_solver. }
  intros Hp. unfold merged_purge. destruct profiles as [|q profiles]; [by apply elem_of_nil in Hp|].
  apply H. change (auto_purge p ∈ auto_purge <$> q :: profiles). apply list_elem_of_fmap. by exists p.
Qed.

Lemma off_sweeps_nothing `{Ulids} profiles manifest now clock p (w : World Db) :
  p ∈ profiles → auto_purge p = Off →
  apply_multi_profile_retention profiles manifest now clock w = (Some (Ok tt), w).
Proof.
  intros Hp Ho. unfold apply_multi_profile_retention. destruct (min_days profiles); [|done].
  destruct profiles as [|q profiles]; [done|]. pose proof (merged_mildest (q :: profiles) (auto_purge q) p Hp) as Hm.
  unfold apply_retention_policy, with_retention. cbn [snapshot_retention_days auto_purge].
  rewrite Ho in Hm. destruct (merged_purge _ _); cbn in Hm; [done|lia..].
Qed.

(** ** The session *)
Section Session.
Context `{GazeBuilder, PolicyToml, Ulids} (expand : string → result string string).

(** C21. A served session is closed before its first call: a process serves
    valid names of the loaded configuration only, and only remote profiles or
    none; the retention sweep changes nothing as soon as one profile turns
    purging off; the policy in force for a profile is that of its file as it is
    after the sweep, and passed the checks, so a remote profile's pipeline and
    columns hide whatever they act on and a production profile has a model;
    each profile is registered under its own class with its own pipeline,
    actions and flag, no other name answers, and no source is connected. *)
Theorem served_fail_closed user project loaded warnings args pc uc tracing enable startup supervised profiles
    manifest snapshot_dir now clock gaze ids w session served w' :
  load_profiles_with_warnings user project = Ok (loaded, warnings) →
  serve_start args pc uc (Ok loaded) tracing enable startup = Ok (Serving_ supervised profiles) →
  prepare_selected_session expand manifest snapshot_dir profiles now clock gaze ids w = (Some (Ok (session, served)), w') →
  served = name <$> profiles ∧
  (∀ p, p ∈ profiles → p ∈ loaded ∧ is_safe_profile_name (name p) = true ∧ is_remote p = supervised) ∧
  (∃ path w1, expand manifest = Ok path ∧
    apply_multi_profile_retention profiles path now clock w = (Some (Ok tt), w1) ∧
    ((∃ p, p ∈ profiles ∧ auto_purge p = Off) → w1 = w) ∧
    ∀ p, p ∈ profiles → ∃ file rt,
      policy_at expand (nodes w1) p = Some file ∧ runtime_of p file = Ok rt ∧ Checked p file rt ∧ Known session p rt) ∧
  (∀ n, n ∉ served → Unknown session n) ∧
  legacy_sources session = ∅ ∧ map_Forall (fun _ l => cell l = None) (sources session).
Proof.
  intros Hload Hstart Hp. destruct (not_mixed _ _ _ _ _ _ _ _ _ Hstart) as [Hsel Hrem].
  destruct (selected _ _ _ Hsel) as (Hvalid & Hin & _). rewrite Forall_forall in Hvalid.
  unfold prepare_selected_session in Hp.
  io_open Hp path w0 Hm. apply io_result_ok in Hm as [Hm ->]. apply map_err_ok in Hm.
  io_open Hp sd w0 Hsd. apply io_result_ok in Hsd as [_ ->]. io_open Hp u w1 Hret. destruct u.
  io_open Hp runtime w2 Hrt. io_open Hp gp w3 Hgp. io_open Hp u w4 Hg. io_open Hp mw w5 Hmw.
  io_open Hp s0 w6 Hs0. apply io_result_ok in Hs0 as [Hs0 ->]. io_open Hp s1 w7 Hs1. apply io_result_ok in Hs1 as [Hs1 ->].
  injection Hp as <- <- <-. apply runtimes_at in Hrt as [<- Hrt].
  unfold new_for_multi_profile in Hs0. open_bind Hs0 as v Hv. cbn [mbind result_bind] in Hs0. injection Hs0 as <-.
  assert (Hone : ∀ p rt, (p, rt) ∈ runtime → ∃ file, policy_at expand (nodes w1) p = Some file ∧ runtime_of p file = Ok rt) by done.
  assert (Honce : Once ([] ++ runtime)).
  { intros [p rt] [q rt'] Hp Hq E. cbn in *.
    assert (p = q) as ->.
    { eapply loaded_once; [exact Hload|apply Hin; apply list_elem_of_fmap; by eexists (_, _)..|done]. }
    destruct (Hone _ _ Hp) as (f & Hf & Er), (Hone _ _ Hq) as (f' & Hf' & Er'). congruence. }
  destruct (register_all_known _ _ _ _ (registered_none _) Honce Hs1) as [_ Hk Hu [Hl Hc]]. cbn [app] in *.
  split_and!; [done| | |exact Hu|exact Hl|exact Hc].
  - intros p Hpin. auto.
  - exists path, w1. split_and!; [done|done| |].
    + intros (p & Hpin & Ho). pose proof (off_sweeps_nothing _ path now clock p w Hpin Ho) as E. congruence.
    + intros p ([q rt] & -> & Hpin)%list_elem_of_fmap. destruct (Hone _ _ Hpin) as (file & Hf & Hr).
      exists file, rt. split_and!; [done|done|by eapply runtime_checked|by apply Hk].
Qed.
End Session.

(** ** A concrete start: a remote profile with a policy file *)
Module Run.
#[local] Instance gaze : GazeBuilder := sample_gaze.
#[local] Instance toml : PolicyToml := {| from_toml _ := Ok sample_policy |}.
#[local] Instance ulids : Ulids := {| ulid_timestamp_ms _ := None |}.
Definition api : Profile :=
  mkProfile "api" (RemoteMcpLog (mkRemoteConfig "10.0.0.1:9000" "logs" "/ca.pem" "app" (SecretEnv "TOKEN")))
    None None None None None (Some "/p.toml"%string) None None false (Some 7) Off.
Definition args : ServeArgs := mkServeArgs None ["api"%string] "/m/manifest.sqlite" "/m/snap" false None.
Definition files : World Db :=
  mkWorld {["/p.toml"%string := FileNode [] 420; "/m"%string := DirNode 448]} (mkDb 0 None None) [].
Definition prepared :=
  prepare_selected_session Ok (sv_manifest args) (sv_snapshot_dir args) [api] (Some 5) (fun _ => Some 5) (fun _ => Ok tt)
    ("L", "G")%string files.
Definition session := match prepared with (Some (Ok (s, _)), _) => s | _ => from_parts (MultiPipeline ∅) (MultiActions ∅) default_caps end.

Lemma served_fail_closed_witness :
  (∃ rt, Checked api sample_policy rt ∧ Known session api rt) ∧ Unknown session "db".
Proof.
  assert (Hl : load_profiles_with_warnings (Ok []) (Ok [api]) = Ok ([api], [])) by (vm_compute; reflexivity).
  assert (Hs : serve_start args None None (Ok [api]) (Ok tt) (Ok tt) (Ok tt) = Ok (Serving_ true [api]))
    by (vm_compute; reflexivity).
  assert (Hp : prepared = (Some (Ok (session, ["api"%string])), prepared.2)) by (vm_compute; reflexivity).
  destruct (served_fail_closed Ok (Ok []) (Ok [api]) [api] [] args None None (Ok tt) (Ok tt) (Ok tt) true [api]
    (sv_manifest args) (sv_snapshot_dir args) (Some 5) (fun _ => Some 5) (fun _ => Ok tt) ("L", "G")%string files
    session ["api"%string] prepared.2 Hl Hs Hp) as (_ & _ & (path & w1 & _ & _ & _ & Hk) & Hu & _).
  split.
  - destruct (Hk api) as (file & rt & Hf & _ & Hc & Hkn); [by left|].
    exists rt. assert (file = sample_policy) as <-; [|by split].
    unfold policy_at, api in Hf. cbn [policy toml from_toml] in Hf. unfold read_node in Hf.
    repeat case_match; by simplify_eq.
  - apply Hu. set_solver.
Defined.
End Run.
