(* ===== verification/Dto.v ===== *)
(** * The JSON of calls and of results

    The derived readers and writers of src/src/source/db/query_dto.rs (the
    canned query), of [CleanOutput], [TruncatedAt] and the result of a tool in
    src/src/session/mod.rs, and the arguments of the tools of
    src/src/frontend/mcp.rs.  A reader that fails gives nothing: its text is
    [serde_json]'s.  The text of a float is [serde_json]'s, too.

    The theorem: what a tool method writes for a query it read, the source
    reads back as the same query. *)

From S2P Require Import Prelude Str SqlQuery Errors LensValue LogSource Output Keyword Policy Session Tools.

(** ** Readers *)
(** an externally tagged variant without fields: its name, or a map to null *)
Definition assoc {A} (k : string) (l : list (string * A)) : option A := snd <$> List.find (fun p => String.eqb k p.1) l.
Definition unit_variant {A} (names : list (string * A)) (v : json) : option A :=
  match v with
  | JString s => assoc s names
  | JObject [(s, JNull)] => assoc s names
  | _ => None
  end.
(** one field by its names: absent, there, or there twice *)
Definition field_in (m : json_map) (names : list string) : option (option json) :=
  match omap (fun k => map_get k m) names with
  | [] => Some None
  | [v] => Some (Some v)
  | _ => None
  end.
(** the fields of a struct; an array gives them by position.  Other keys are ignored *)
Definition struct_fields (names : list (list string)) (v : json) : option (bool * list (option json)) :=
  match v with
  | JObject m => pair false <$> mapM (field_in m) names
  | JArray vs =>
    if (length vs <=? length names)%nat
    then Some (true, (Some <$> vs) ++ replicate (length names - length vs) None) else None
  | _ => None
  end.
Definition option_of {A} (read : json → option A) (v : json) : option (option A) :=
  match v with JNull => Some None | v => Some <$> read v end.
(** an absent field is [None] *)
Definition or_none {A} (read : json → option A) (v : option json) : option (option A) :=
  match v with None => Some None | Some v => option_of read v end.
Definition list_of {A} (read : json → option A) (v : json) : option (list A) :=
  match v with JArray l => mapM read l | _ => None end.
Definition u32_of (v : json) : option N := match v with JNumber n => parse_unsigned U32_MAX (str_bytes n) | _ => None end.

(** ** The canned query *)
Class FloatText := {
  (** [to_value] of an [f64] by its bits: null if it is not finite *)
  f64_to_value : N → json;
  (** the [f64] of the text of a number that is no integer of 64 bits *)
  f64_of_text : string → option N;
}.
Definition WHERE_OPS : list (string * WhereOp) :=
  [("eq", WEq); ("ne", WNe); ("gt", WGt); ("gte", WGte); ("lt", WLt); ("lte", WLte); ("in", WIn); ("like", WLike);
   ("is_null", WIsNull); ("is_not_null", WIsNotNull)]%string.
Definition COMBINATORS : list (string * WhereCombinator) := [("and", WAnd); ("or", WOr)]%string.
Definition DIRECTIONS : list (string * OrderDir) := [("asc", DAsc); ("desc", DDesc)]%string.

Definition op_to_value (op : WhereOp) : json :=
  JString match op with
  | WEq => "eq" | WNe => "ne" | WGt => "gt" | WGte => "gte" | WLt => "lt" | WLte => "lte" | WIn => "in" | WLike => "like"
  | WIsNull => "is_null" | WIsNotNull => "is_not_null"
  end.
Definition combinator_to_value (c : WhereCombinator) : json := JString match c with WAnd => "and" | WOr => "or" end.
Definition dir_to_value (d : OrderDir) : json := JString match d with DAsc => "asc" | DDesc => "desc" end.
Definition or_null {A} (write : A → json) (v : option A) : json := match v with Some v => write v | None => JNull end.
Definition list_to_value {A} (write : A → json) (l : list A) : json := JArray (write <$> l).

Section Canned.
Context `{FloatText}.

(** untagged: the first variant that fits *)
Definition scalar_of (v : json) : option ScalarValue :=
  match v with
  | JString s => Some (ScString s)
  | JNumber n =>
    match parse_i64 (str_bytes n), parse_unsigned U64_MAX (str_bytes n) with
    | Some z, _ => Some (ScI64 z)
    | None, Some u => Some (ScU64 u)
    | None, None => ScF64 <$> f64_of_text n
    end
  | JBool b => Some (ScBool b)
  | JNull => Some ScNull
  | JArray _ | JObject _ => None
  end.
Definition scalar_or_list_of (v : json) : option ScalarOrList :=
  match scalar_of v with Some s => Some (SlScalar s) | None => SlList <$> list_of scalar_of v end.
Definition where_clause_of (v : json) : option WhereClause :=
  '(_, fields) ← struct_fields [["col"]; ["op"]; ["val"; "value"]]%string v;
  match fields with
  | [Some col; Some op; val] =>
    col ← as_str col; op ← unit_variant WHERE_OPS op; val ← or_none scalar_or_list_of val; Some (mkClause col op val)
  | _ => None
  end.
Definition order_by_of (v : json) : option OrderBy :=
  '(_, fields) ← struct_fields [["col"]; ["dir"]]%string v;
  match fields with
  | [Some col; Some dir] => col ← as_str col; dir ← unit_variant DIRECTIONS dir; Some (mkOrderBy col dir)
  | _ => None
  end.
(** [columns] has no default: it may be absent from a map, not from an array *)
Definition canned_of_value (v : json) : option CannedQuery :=
  '(by_position, fields) ← struct_fields
    [["profile"]; ["table"]; ["columns"]; ["where"]; ["where_combinator"]; ["order_by"]; ["limit"]]%string v;
  match fields with
  | [Some profile; Some table; columns; wh; combinator; order; limit] =>
    profile ← as_str profile; table ← as_str table;
    columns ← (if by_position && negb (bool_decide (is_Some columns)) then None else or_none (list_of as_str) columns);
    wh ← or_none (list_of where_clause_of) wh;
    combinator ← or_none (unit_variant COMBINATORS) combinator;
    order ← or_none (list_of order_by_of) order;
    limit ← or_none u32_of limit;
    Some (mkCanned profile table columns wh combinator order limit)
  | _ => None
  end.

Definition scalar_to_value (v : ScalarValue) : json :=
  match v with
  | ScString s => JString s
  | ScI64 z => JNumber (str_of (print_i64 z))
  | ScU64 n => json_number n
  | ScF64 bits => f64_to_value bits
  | ScBool b => JBool b
  | ScNull => JNull
  end.
Definition scalar_or_list_to_value (v : ScalarOrList) : json :=
  match v with SlScalar s => scalar_to_value s | SlList l => list_to_value scalar_to_value l end.
Definition where_clause_to_value (c : WhereClause) : json :=
  json_object [("col", JString (wc_col c)); ("op", op_to_value (wc_op c));
    ("val", or_null scalar_or_list_to_value (wc_val c))]%string.
Definition order_by_to_value (o : OrderBy) : json :=
  json_object [("col", JString (ob_col o)); ("dir", dir_to_value (ob_dir o))]%string.
Definition canned_to_value (q : CannedQuery) : json :=
  json_object [("profile", JString (cq_profile q)); ("table", JString (cq_table q));
    ("columns", or_null (list_to_value JString) (cq_columns q));
    ("where", or_null (list_to_value where_clause_to_value) (cq_where q));
    ("where_combinator", or_null combinator_to_value (cq_where_combinator q));
    ("order_by", or_null (list_to_value order_by_to_value) (cq_order_by q));
    ("limit", or_null json_number (cq_limit q))]%string.
End Canned.

(** ** The arguments of the other tools *)
Record SchemaArgs := mkSchemaArgs { sa_profile : string; sa_table : string }.
Record ListTablesArgs := mkListTablesArgs { lt_profile : string }.
Record LogTailArgs := mkLogTailArgs { ta_profile : string; ta_lines : option N }.
Record LogGrepArgs := mkLogGrepArgs {
  ga_profile : string; ga_pattern : string; ga_level : option string; ga_limit : option N; ga_mode : option string;
  ga_refresh : option bool }.
Definition schema_args_to_value (a : SchemaArgs) : json :=
  json_object [("profile", JString (sa_profile a)); ("table", JString (sa_table a))]%string.
Definition list_tables_args_to_value (a : ListTablesArgs) : json := json_object [("profile"%string, JString (lt_profile a))].
Definition log_tail_args_to_value (a : LogTailArgs) : json :=
  json_object [("profile", JString (ta_profile a)); ("lines", or_null json_number (ta_lines a))]%string.
Definition log_grep_args_to_value (a : LogGrepArgs) : json :=
  json_object [("profile", JString (ga_profile a)); ("pattern", JString (ga_pattern a));
    ("level", json_option (ga_level a)); ("limit", or_null json_number (ga_limit a));
    ("mode", json_option (ga_mode a)); ("refresh", or_null JBool (ga_refresh a))]%string.

(** ** Clean output *)
Definition REASONS : list (string * TruncatedAt) :=
  [("Rows", TrRows); ("Bytes", TrBytes); ("CellBytes", TrCellBytes); ("LineBytes", TrLineBytes); ("Timeout", TrTimeout)]%string.
Definition reasons_of : json → option (list TruncatedAt) := list_of (unit_variant REASONS).
Definition object_of (v : json) : option json_map := match v with JObject m => Some m | _ => None end.
Definition clean_to_value (c : CleanOutput) : json :=
  match c with
  | CleanRows rows truncated_at =>
    JObject [("Rows", json_object [("rows", list_to_value JObject rows); ("truncated_at", json_reasons truncated_at)])]
  | CleanText text truncated_at =>
    JObject [("Text", json_object [("text", JString text); ("truncated_at", json_reasons truncated_at)])]
  end%string.
Definition clean_of_value (v : json) : option CleanOutput :=
  match v with
  | JObject [(variant, body)] =>
    if String.eqb variant "Rows" then
      '(_, fields) ← struct_fields [["rows"]; ["truncated_at"]]%string body;
      match fields with
      | [Some rows; Some reasons] => rows ← list_of object_of rows; reasons ← reasons_of reasons; Some (CleanRows rows reasons)
      | _ => None
      end
    else if String.eqb variant "Text" then
      '(_, fields) ← struct_fields [["text"]; ["truncated_at"]]%string body;
      match fields with
      | [Some text; Some reasons] => text ← as_str text; reasons ← reasons_of reasons; Some (CleanText text reasons)
      | _ => None
      end
    else None
  | _ => None
  end.

(** ** The result of a tool *)
Record ToolResult := mkToolResult {
  tr_clean : CleanOutput; tr_snapshot : string; tr_observability : option DiscoveryMetadata }.
Definition discovery_to_value (m : DiscoveryMetadata) : json :=
  json_object ([("profile"%string, JString (dm_profile m)); ("source_class"%string, JString (dm_source_class m))] ++
    match allowed_columns m with Some columns => [("allowed_columns"%string, list_to_value JString columns)] | None => [] end ++
    [("schema_hash"%string, JString (dm_schema_hash m))]).
Definition NO_OBJECT : string := "clean output did not serialize to an object".
Definition clean_with_observability (clean : CleanOutput) (observability : option DiscoveryMetadata) : result string json :=
  let v := clean_to_value clean in
  match observability with
  | None => Ok v
  | Some m =>
    match v with
    | JObject fields => Ok (JObject (map_insert "observability" (json_object [("discovery"%string, discovery_to_value m)]) fields))
    | _ => Err NO_OBJECT
    end
  end.
(** a struct is written in the order of its fields *)
Definition tool_result_to_value (r : ToolResult) : result string json :=
  clean ← clean_with_observability (tr_clean r) (tr_observability r);
  Ok (JObject [("clean", clean); ("snapshot_ref", JObject [("path", JString (tr_snapshot r))])]%string).

(** ** Reading back what was written *)
Lemma mapM_back {A} (write : A → json) (read : json → option A) l :
  Forall (fun x => read (write x) = Some x) l → mapM read (write <$> l) = Some l.
Proof. induction 1 as [|x l Hx _ IH]; [done|]. cbn. by rewrite Hx, IH. Qed.
Lemma list_back {A} (write : A → json) (read : json → option A) l :
  Forall (fun x => read (write x) = Some x) l → list_of read (list_to_value write l) = Some l.
Proof. apply mapM_back. Qed.
Lemma option_back {A} (write : A → json) (read : json → option A) (v : option A) :
  (∀ x, v = Some x → write x ≠ JNull ∧ read (write x) = Some x) → or_none read (Some (or_null write v)) = Some v.
Proof.
  destruct v as [x|]; [|done]. intros Hx. destruct (Hx x eq_refl) as [Hn Hr]. cbn. unfold option_of.
  destruct (write x); rewrite ?Hr; done.
Qed.
Lemma mapM_all {A} (read : json → option A) (P : A → Prop) vs l :
  (∀ v x, read v = Some x → P x) → mapM read vs = Some l → Forall P l.
Proof. intros HP Hm. apply mapM_Some in Hm. induction Hm; constructor; eauto. Qed.
Lemma list_all {A} (read : json → option A) (P : A → Prop) v l :
  (∀ v x, read v = Some x → P x) → list_of read v = Some l → Forall P l.
Proof. intros HP. destruct v; try done. by apply mapM_all. Qed.
Lemma option_all {A} (read : json → option A) (P : A → Prop) v o :
  (∀ v x, v ≠ JNull → read v = Some x → P x) → or_none read v = Some o → ∀ x, o = Some x → P x.
Proof.
  intros HP Ho x ->. destruct v as [v|]; [|done]. destruct v; cbn in Ho; try done;
    apply fmap_Some in Ho as (y & Hy & [= ->]); by eapply HP in Hy.
Qed.

Lemma option_read_back {A} (write : A → json) (read : json → option A) v o :
  (∀ v x, v ≠ JNull → read v = Some x → write x ≠ JNull ∧ read (write x) = Some x) →
  or_none read v = Some o → or_none read (Some (or_null write o)) = Some o.
Proof.
  intros Hb Ho. apply option_back. intros x ->.
  by eapply (option_all read (fun x => write x ≠ JNull ∧ read (write x) = Some x)).
Qed.

Lemma op_back op : unit_variant WHERE_OPS (op_to_value op) = Some op.
Proof. by destruct op. Qed.
Lemma combinator_back c : unit_variant COMBINATORS (combinator_to_value c) = Some c.
Proof. by destruct c. Qed.
Lemma dir_back d : unit_variant DIRECTIONS (dir_to_value d) = Some d.
Proof. by destruct d. Qed.
Lemma reasons_back l : reasons_of (json_reasons l) = Some l.
Proof. apply (mapM_back (JString ∘ truncated_debug)). apply Forall_forall. by intros [] _. Qed.

(** clean output is read back as it was *)
Lemma clean_back c : clean_of_value (clean_to_value c) = Some c.
Proof.
  destruct c as [rows reasons|text reasons]; lazy -[json_reasons reasons_of list_of object_of list_to_value].
  - rewrite (list_back JObject), reasons_back; [done|]. by apply Forall_forall.
  - by rewrite reasons_back.
Qed.

Section CannedFacts.
Context `{FloatText}.
(** what is relied on of floats: the text of a float that was read is read as
    the same float, and as no integer *)
Definition FloatsBack : Prop := ∀ n bits, f64_of_text n = Some bits →
  ∃ n', f64_to_value bits = JNumber n' ∧ f64_of_text n' = Some bits ∧
    parse_i64 (str_bytes n') = None ∧ parse_unsigned U64_MAX (str_bytes n') = None.

(** an integer that is read as unsigned is too great for [i64] *)
Lemma unsigned_is_great s n :
  parse_i64 s = None → parse_unsigned U64_MAX s = Some n → parse_i64 (print_u64 n) = None.
Proof.
  unfold parse_i64, parse_unsigned. intros Hi Hu. rewrite (print_u64_no_sign n "-"), (print_u64_no_sign n "+") by done.
  cbn [default]. rewrite parse_digits_print. cbn [mbind option_bind].
  destruct (strip_prefix "-" s) as [t|] eqn:E.
  - apply strip_prefix_some in E as ->. cbn in Hu. done.
  - destruct (parse_digits _) as [m|] eqn:Em; [|done]. cbn in Hi, Hu. destruct (m <=? U64_MAX); [|done]. injection Hu as ->.
    by destruct (n <=? _).
Qed.

(** what a reader gives is written and read back *)
Lemma scalar_back (Hf : FloatsBack) v s : scalar_of v = Some s → scalar_of (scalar_to_value s) = Some s.
Proof.
  destruct v as [|b|n|t|l|m]; cbn; try (by intros [= <-]); [|done..].
  destruct (parse_i64 (str_bytes n)) as [z|] eqn:Ez; [|destruct (parse_unsigned U64_MAX (str_bytes n)) as [u|] eqn:Eu].
  - intros [= <-]. cbn. rewrite bytes_of_str, parse_print_i64; [done|]. by eapply parse_i64_range.
  - intros [= <-]. cbn. unfold num. rewrite bytes_of_str, (unsigned_is_great _ _ Ez Eu), parse_print_u64; [done|].
    by eapply parse_unsigned_le.
  - intros (bits & Hb & ->)%fmap_Some. destruct (Hf _ _ Hb) as (n' & Hn & Hb' & Hi & Hu). cbn. rewrite Hn. cbn.
    by rewrite Hi, Hu, Hb'.
Qed.
Lemma scalar_or_list_back (Hf : FloatsBack) v s :
  v ≠ JNull → scalar_or_list_of v = Some s →
  scalar_or_list_to_value s ≠ JNull ∧ scalar_or_list_of (scalar_or_list_to_value s) = Some s.
Proof.
  unfold scalar_or_list_of. intros Hn. destruct (scalar_of v) as [c|] eqn:E.
  - intros [= <-]. cbn. pose proof (scalar_back Hf _ _ E) as Hb. rewrite Hb. split; [|done]. intros Hnull.
    rewrite Hnull in Hb. injection Hb as <-. destruct v; try done. cbn in E.
    repeat case_match; try done. by apply fmap_Some in E as (? & _ & ?).
  - intros (l & Hl & ->)%fmap_Some. cbn. split; [done|]. unfold list_to_value. cbn.
    rewrite (mapM_back scalar_to_value scalar_of); [done|]. eapply (list_all scalar_of); [|exact Hl]. intros ??. by eapply scalar_back.
Qed.
Lemma where_clause_back (Hf : FloatsBack) v c :
  where_clause_of v = Some c → where_clause_of (where_clause_to_value c) = Some c.
Proof.
  unfold where_clause_of at 1. intros Hc. apply bind_Some in Hc as ([b fields] & _ & Hc).
  repeat case_match; try done. apply bind_Some in Hc as (col & _ & Hc). apply bind_Some in Hc as (op & _ & Hc).
  apply bind_Some in Hc as (val & Hv & [= <-]).
  unfold where_clause_of, where_clause_to_value.
  lazy -[as_str op_to_value or_none or_null unit_variant scalar_or_list_to_value scalar_or_list_of WHERE_OPS].
  rewrite op_back, (option_read_back _ _ _ _ (scalar_or_list_back Hf) Hv). done.
Qed.
Lemma order_by_back v o : order_by_of v = Some o → order_by_of (order_by_to_value o) = Some o.
Proof.
  intros _. unfold order_by_of, order_by_to_value. lazy -[as_str dir_to_value unit_variant DIRECTIONS].
  rewrite dir_back. by destruct o.
Qed.

(** a list of what a reader gives *)
Lemma lists_back {A} (write : A → json) (read : json → option A) v o :
  (∀ v x, read v = Some x → read (write x) = Some x) → or_none (list_of read) v = Some o →
  or_none (list_of read) (Some (or_null (list_to_value write) o)) = Some o.
Proof.
  intros Hb Ho. eapply option_read_back; [|exact Ho]. intros v' l _ Hl. split; [done|].
  apply list_back. by eapply list_all.
Qed.
Lemma limit_back v o : or_none u32_of v = Some o → or_none u32_of (Some (or_null json_number o)) = Some o.
Proof.
  apply option_read_back. intros v' n _ Hn. split; [done|].
  destruct v'; try done. cbn in *. unfold num. rewrite bytes_of_str. apply parse_print_u64. by eapply parse_unsigned_le.
Qed.
Lemma text_list_back o : or_none (list_of as_str) (Some (or_null (list_to_value JString) o)) = Some o.
Proof. apply option_back. intros l _. split; [done|]. apply list_back. by apply Forall_forall. Qed.

(** what a reader made of any JSON is written and read back as the same query *)
Lemma canned_back (Hf : FloatsBack) v q : canned_of_value v = Some q → canned_of_value (canned_to_value q) = Some q.
Proof.
  unfold canned_of_value at 1. intros Hq. apply bind_Some in Hq as ([by_position fields] & _ & Hq).
  destruct fields as [|[f1|] [|[f2|] [|f3 [|f4 [|f5 [|f6 [|f7 [|]]]]]]]]; try done.
  apply bind_Some in Hq as (profile & _ & Hq). apply bind_Some in Hq as (table & _ & Hq).
  apply bind_Some in Hq as (columns & _ & Hq). apply bind_Some in Hq as (wh & Hwh & Hq).
  apply bind_Some in Hq as (combinator & _ & Hq). apply bind_Some in Hq as (order & Ho & Hq).
  apply bind_Some in Hq as (limit & Hl & [= <-]).
  unfold canned_of_value, canned_to_value.
  lazy -[as_str list_of list_to_value where_clause_of where_clause_to_value combinator_to_value order_by_of
    order_by_to_value json_number u32_of or_none or_null unit_variant COMBINATORS].
  rewrite text_list_back, (lists_back _ _ _ _ (where_clause_back Hf) Hwh), (lists_back _ _ _ _ order_by_back Ho),
    (limit_back _ _ Hl).
  rewrite (option_back combinator_to_value); [done|]. intros c _. split; [by destruct c|apply combinator_back].
Qed.
End CannedFacts.

(** ** The tools behind the envelope

    Models src/src/mcp/tools/{query,schema,list_tables,log_tail,log_grep}.rs as
    the five implementations of [gaze_mcp_core]'s [Tool], and
    src/src/mcp/auth.rs.  The context of a call is its redacted arguments, its
    id and the pattern that is scoped for it. *)

(** ** [LensAuthHook] *)
Inductive AuthError := Denied (reason : string).
Definition authorize_agent (principal tool_name : string) : result AuthError unit := Ok tt.
Definition authorize_operator (principal tool_name : string) : result AuthError unit :=
  Err (Denied "operator-tier tools are not part of gaze-lens v1").

(** ** The descriptors *)
Inductive CoreTool := QueryTool | SchemaTool | ListTablesTool | LogTailTool | LogGrepTool.
Definition tool_name (t : CoreTool) : string :=
  match t with
  | QueryTool => "query" | SchemaTool => "schema" | ListTablesTool => "list_tables" | LogTailTool => "log_tail"
  | LogGrepTool => "log_grep"
  end.
Definition tool_description (t : CoreTool) : string :=
  match t with
  | QueryTool => "Run a canned structured DB query."
  | SchemaTool => "Describe one raw configured table schema. Table/column labels are raw by default; schema_tokenize = true tokenizes presentation output, schema_allowlist only keeps selected labels raw for presentation, and profile edits require restarting/reloading the MCP server."
  | ListTablesTool => "List table names. Names are raw by default; schema_tokenize = true tokenizes presentation output, schema_allowlist only keeps selected names raw for presentation, and profile edits require restarting/reloading the MCP server."
  | LogTailTool => "Tail a configured SSH log source."
  | LogGrepTool => "Search a configured SSH log source. mode=regex (default) evaluates the pattern over RAW log text (only displayed lines are redacted), so a regex can act as a presence/absence oracle for raw PII; prefer mode=keyword (matches over redacted text) for sensitive or production logs."
  end.
Definition core_tools : list CoreTool := [QueryTool; SchemaTool; ListTablesTool; LogTailTool; LogGrepTool].

(** ** The calls *)
Section Invoke.
Context {Pl Src B : Type} `{GazeBuilder, JsonText, Unicode, RegexLib}.
Variable debug_str : string → string.
(** the lenient restoring of the session, and its core call *)
Variable restore : string → result string string.
Variable core : Session Pl Src B → string → json → result LensError CleanOutput * Session Pl Src B.
Context (session_id : string).

Definition written (clean : CleanOutput) : result string json := Ok (clean_to_value clean).
Definition invoke_plain (t : CoreTool) (s : Session Pl Src B) (args : json) : result ToolError json * Session Pl Src B :=
  invoke_session_tool written debug_str restore (fun s args => core s (tool_name t) args) s args.

(** the pattern of the call as it was before redaction, and the request *)
Definition keyword_request (args : json) (raw_pattern : option (option string)) : result ToolError KeywordRequest :=
  raw_pattern ← ok_or raw_pattern (tool_internal (Internal "keyword log_grep raw pattern task-local was not scoped"));
  raw_pattern ← ok_or raw_pattern (InvalidArgs "log_grep `pattern` is required");
  keyword_request_from_args args raw_pattern.
(** the session is asked unless a fresh window of it is there *)
Definition keyword_asks (args : json) (raw_pattern : option (option string)) (cache : KeywordIndexCache) (now : N) : bool :=
  match keyword_request args raw_pattern with
  | Err _ => false
  | Ok request =>
    match (if negb (rq_refresh request) then fresh cache (session_id, rq_profile_key request) now else None) with
    | Some _ => false
    | None => true
    end
  end.
(** the redacted arguments go to the session as they are *)
Definition tool_keyword (s : Session Pl Src B) (call_id : string) (args : json) (raw_pattern : option (option string))
    (cache : KeywordIndexCache) (now at_ : N) : result ToolError json * Session Pl Src B * KeywordIndexCache :=
  let '(clean, asked) := core s "log_grep" args in
  let s := if keyword_asks args raw_pattern cache now then asked else s in
  let '(clean, cache, hit) := invoke_keyword debug_str session_id args raw_pattern cache now clean at_ in
  (clean ← clean; clean_output_response written clean,
   match hit with Some summary => record_core_summary s call_id summary | None => s end, cache).

Definition REGEX_WARNING : string :=
  quoted "production log_grep regex mode can act as a raw-text presence/absence oracle; use mode='keyword' for production logs".
(** the profile and the message that are logged *)
Definition warn_if_production_regex_mode (profile : string) (production : bool) (mode : LogGrepMode) : list (string * string) :=
  match mode with ModeRegex => if production then [(profile, REGEX_WARNING)] else [] | ModeKeyword => [] end.

Definition tool_invoke (t : CoreTool) (s : Session Pl Src B) (call_id : string) (args : json)
    (raw_pattern : option (option string)) (cache : KeywordIndexCache) (now at_ : N)
  : result ToolError json * Session Pl Src B * KeywordIndexCache * list (string * string) :=
  match t with
  | LogGrepTool =>
    match log_grep_mode args with
    | Err e => (Err e, s, cache, [])
    | Ok mode =>
      let profile := profile_key_from_args args in
      let warnings := warn_if_production_regex_mode profile (profile_is_production s profile) mode in
      match mode with
      | ModeRegex => (invoke_plain LogGrepTool s args, cache, warnings)
      | ModeKeyword => (tool_keyword s call_id args raw_pattern cache now at_, warnings)
      end
    end
  | t => (invoke_plain t s args, cache, [])
  end.

(** a production log is searched by a regex only with a warning *)
Lemma production_regex_warns s call_id args raw_pattern cache now at_ r s' cache' warnings :
  tool_invoke LogGrepTool s call_id args raw_pattern cache now at_ = (r, s', cache', warnings) →
  log_grep_mode args = Ok ModeRegex → profile_is_production s (profile_key_from_args args) = true →
  warnings = [(profile_key_from_args args, REGEX_WARNING)].
Proof.
  unfold tool_invoke. intros E Hm Hp. rewrite Hm, Hp in E. cbn in E.
  destruct (invoke_plain _ _ _). by injection E as _ _ _ <-.
Qed.
(** what a keyword search finds fresh is answered without the session *)
Lemma fresh_window_keeps_session s call_id args raw_pattern cache now at_ r s' cache' :
  tool_keyword s call_id args raw_pattern cache now at_ = (r, s', cache') → keyword_asks args raw_pattern cache now = false →
  sources s' = sources s ∧ pipeline_mode s' = pipeline_mode s.
Proof.
  unfold tool_keyword. destruct (core s _ args) as [clean asked]. intros E Ha. rewrite Ha in E.
  destruct (invoke_keyword _ _ _ _ _ _ _ _) as [[c k] [m|]]; by injection E as _ <- _.
Qed.
End Invoke.
