(* ===== verification/Frontend.v ===== *)
(** * The MCP front end

    Models src/src/frontend/mcp.rs and src/src/frontend/mod.rs: the five public
    tools, the answers a client gets and the admission each call holds; and
    [ToolResult] of src/src/session/mod.rs with the registry of its tools.

    The protocol ([rmcp]), the envelope and the registry of [gaze_mcp_core] and
    Gaze's restoring are arguments; so are the moments of the clock. *)

From S2P Require Import Prelude Str Errors LensValue Policy SqlQuery Output Session Tools RemoteWire Watchdog Disk Dto.

Definition PUBLIC_TOOLS : list string := ["query"; "schema"; "list_tables"; "log_tail"; "log_grep"]%string.
Definition public_tool_names : list string := PUBLIC_TOOLS.

(** ** What a client gets *)
Inductive ErrorCode := InternalError | InvalidParams.
(** [ErrorData] without data; [CallToolResult::success] of texts *)
Record ErrorData := mkErrorData { ed_code : ErrorCode; ed_message : string }.
Definition internal_error (message : string) : ErrorData := mkErrorData InternalError message.
Definition invalid_params (message : string) : ErrorData := mkErrorData InvalidParams message.
Record CallToolResult := mkCallToolResult { content : list string }.

(** ** The registry of the session's tools *)
Definition tool_registry_error (detail : string) : LensError := Internal detail.
Definition core_tool_registry {R} (register : R → string → result string R) (new : R) : result LensError R :=
  r ← map_err (register new "query"%string) tool_registry_error;
  r ← map_err (register r "schema"%string) tool_registry_error;
  r ← map_err (register r "list_tables"%string) tool_registry_error;
  r ← map_err (register r "log_tail"%string) tool_registry_error;
  map_err (register r "log_grep"%string) tool_registry_error.

Section Mcp.
Context {Pl Src B : Type} `{GazeBuilder, DiscoverySerde, JsonText, FloatText}.
(** the text of an error of [serde_json] for a payload that is no clean output *)
Variable no_clean : json → string.
(** [{:?}] of a text *)
Variable debug_str : string → string.
Variable registry : result string unit.
Variable envelope : Session Pl Src B → Pl → string → json → option string → result DispatchError json * Session Pl Src B.
Variable restore : Pl → string → result string string.
(** the session's directory and id *)
Context (snapshot_dir lens_session_id : string).

Definition snapshot_path : string := join_path snapshot_dir (String.append lens_session_id ".snap").
Definition read_clean (v : json) : result string CleanOutput := ok_or (clean_of_value v) (no_clean v).
(** [Session::dispatch_tool] with the reference of the snapshot *)
Definition session_dispatch (s : Session Pl Src B) (tool_name : string) (args : json)
  : result LensError ToolResult * Session Pl Src B :=
  let '(r, s) := dispatch_tool read_clean registry envelope restore s tool_name args in
  ('(clean, observability) ← r; Ok (mkToolResult clean snapshot_path observability), s).

(** *** [McpFrontend], and the watchdog of the process *)
Record McpFrontend := mkFrontend { attached : option (Session Pl Src B); supervisor : option State }.
Definition with_session (s : Session Pl Src B) (sup : option State) : McpFrontend := mkFrontend (Some s) sup.
Definition UNKNOWN_TOOL (tool_name : string) : LensError :=
  FrontendError "mcp" (concat_str ["unknown tool `"; tool_name; "`"]%string).
Definition NOT_ATTACHED : LensError := FrontendError "mcp" "session not attached".
Definition dispatch (f : McpFrontend) (tool_name : string) (args : json) : result LensError ToolResult * McpFrontend :=
  if negb (bool_decide (tool_name ∈ PUBLIC_TOOLS)) then (Err (UNKNOWN_TOOL tool_name), f)
  else
    match attached f with
    | None => (Err NOT_ATTACHED, f)
    | Some s =>
      let '(r, s) := session_dispatch s tool_name args in
      (r, mkFrontend (Some s) (supervisor f))
    end.

Definition response_of (r : result LensError ToolResult) : result ErrorData CallToolResult :=
  match r with
  | Ok result =>
    match tool_result_to_value result with
    | Ok v => Ok (mkCallToolResult [json_to_string v])
    | Err e => Err (internal_error e)
    end
  | Err e => if is_invalid_params e then Err (invalid_params (sanitize_error debug_str e)) else Err (internal_error (sanitize_error debug_str e))
  end.
(** [t0], [t1]: the moments of the admission and of its completion; [None]:
    the process exits *)
Definition to_call_tool_result (t0 t1 : N) (f : McpFrontend) (tool_name : string) (args : result string json)
  : option (result ErrorData CallToolResult * McpFrontend) :=
  match args with
  | Err e => Some (Err (internal_error e), f)
  | Ok args =>
    match admit_now t0 (supervisor f) with
    | (Err _, sup) => Some (Err (internal_error "remote operation unavailable"), mkFrontend (attached f) sup)
    | (Ok admission, sup) =>
      let '(r, f) := dispatch (mkFrontend (attached f) sup) tool_name args in
      let response := response_of r in
      match admission, supervisor f with
      | Some deadline, Some state =>
        state ← complete deadline t1 state; Some (response, mkFrontend (attached f) (Some state))
      | _, _ => Some (response, f)
      end
    end
  end.
(** without an admission *)
Definition call_tool_json (f : McpFrontend) (tool_name : string) (args : json) : result string json * McpFrontend :=
  let '(r, f) := dispatch f tool_name args in
  (result ← map_err r (sanitize_error debug_str); tool_result_to_value result, f).

(** *** The tool methods *)
Inductive ToolRequest :=
| QueryRequest (q : CannedQuery) | SchemaRequest (a : SchemaArgs) | ListTablesRequest (a : ListTablesArgs)
| LogTailRequest (a : LogTailArgs) | LogGrepRequest (a : LogGrepArgs).
Definition request_tool (r : ToolRequest) : string :=
  match r with
  | QueryRequest _ => "query" | SchemaRequest _ => "schema" | ListTablesRequest _ => "list_tables"
  | LogTailRequest _ => "log_tail" | LogGrepRequest _ => "log_grep"
  end.
Definition request_args (r : ToolRequest) : json :=
  match r with
  | QueryRequest q => canned_to_value q
  | SchemaRequest a => schema_args_to_value a
  | ListTablesRequest a => list_tables_args_to_value a
  | LogTailRequest a => log_tail_args_to_value a
  | LogGrepRequest a => log_grep_args_to_value a
  end.
Definition call_tool (t0 t1 : N) (f : McpFrontend) (r : ToolRequest) : option (result ErrorData CallToolResult * McpFrontend) :=
  to_call_tool_result t0 t1 f (request_tool r) (Ok (request_args r)).
End Mcp.

(** ** Shutting down *)
(** a watch channel: its value, how often it was sent, and what the token's
    own receiver has seen of it, which is what its clones have seen *)
Record ShutdownToken := mkToken { cancelled_value : bool; version : N; seen : N }.
Definition new_token : ShutdownToken := mkToken false 0 0.
Definition cancel (t : ShutdownToken) : ShutdownToken := mkToken true (version t + 1) (seen t).
(** the future [cancelled]: done at once, or waiting for a version other than this *)
Inductive Waiter := Done | WaitsPast (seen : N).
Definition cancelled (t : ShutdownToken) : Waiter := if cancelled_value t then Done else WaitsPast (seen t).
Definition poll (w : Waiter) (t : ShutdownToken) : bool :=
  match w with Done => true | WaitsPast v => negb (version t =? v) end.

(** [serve]: what the handshake and the session answer, if they end, and
    whether the token is cancelled meanwhile; either may win *)
Inductive FrontendFailure := McpFailed (detail : string).
Inductive serves (handshake waiting : option (result string unit)) (early late : bool) : result FrontendFailure unit → Prop :=
| serves_cancelled_early : early = true → serves handshake waiting early late (Ok tt)
| serves_no_handshake e : handshake = Some (Err e) → serves handshake waiting early late (Err (McpFailed e))
| serves_ended : handshake = Some (Ok tt) → waiting = Some (Ok tt) → serves handshake waiting early late (Ok tt)
| serves_broke e : handshake = Some (Ok tt) → waiting = Some (Err e) → serves handshake waiting early late (Err (McpFailed e))
| serves_cancelled : handshake = Some (Ok tt) → late = true → serves handshake waiting early late (Ok tt).
Lemma cancels n :
  let t := Nat.iter n cancel new_token in
  version t = N.of_nat n ∧ seen t = 0 ∧ cancelled_value t = negb (N.of_nat n =? 0).
Proof.
  cbn zeta. induction n as [|n (Hv & Hs & _)]; [done|]. rewrite Nat.iter_succ. unfold cancel at 1 3 5. cbn [version seen cancelled_value].
  rewrite Hv, Hs. split; [lia|]. split; [done|]. destruct (N.eqb_spec (N.of_nat (S n)) 0); [lia|done].
Qed.
(** no cancellation is missed: the future made after [n] of them is done after
    [k] more exactly if there was one at all *)
Lemma cancellation_is_seen n k :
  poll (cancelled (Nat.iter n cancel new_token)) (Nat.iter k cancel (Nat.iter n cancel new_token)) = true ↔ (0 < n + k)%nat.
Proof.
  rewrite <- Nat.iter_add. destruct (cancels n) as (_ & Hs & Hc), (cancels (k + n)) as (Hv & _ & _).
  unfold cancelled. rewrite Hc, Hs. destruct (N.eqb_spec (N.of_nat n) 0); cbn [negb poll].
  - rewrite Hv, negb_true_iff, N.eqb_neq. lia.
  - split; [lia|done].
Qed.
