(* ===== verification/FrontendFacts.v ===== *)
(** * What a client of the MCP front end gets

    Answers have the shape of their tool, show of an error its public part
    only, and are given under the admission of the privacy deadline; a query
    reaches the source as it was sent. *)

From S2P Require Import Prelude Str Errors LensValue Policy SqlQuery Output Session SessionFacts Tools RemoteWire Disk Watchdog Dto Frontend.

(** ** Shapes of JSON *)
Inductive Shape :=
| AnyText | OneOf (texts : list string) | AnyObject | ListOf (s : Shape) | Fields (fields : list (string * Shape)).
Fixpoint conforms (s : Shape) (v : json) : bool :=
  match s, v with
  | AnyText, JString _ | AnyObject, JObject _ => true
  | OneOf texts, JString t => bool_decide (t ∈ texts)
  | ListOf s, JArray l => forallb (conforms s) l
  | Fields fields, JObject m =>
    (fix go fields m := match fields, m with
     | [], [] => true
     | (k, s) :: fields, (k', v) :: m => String.eqb k k' && conforms s v && go fields m
     | _, _ => false
     end) fields m
  | _, _ => false
  end.

Definition reasons_shape : Shape := ListOf (OneOf REASONS.*1).
Definition rows_shape : string * Shape :=
  ("Rows", Fields [("rows", ListOf AnyObject); ("truncated_at", reasons_shape)])%string.
Definition text_shape : string * Shape :=
  ("Text", Fields [("text", AnyText); ("truncated_at", reasons_shape)])%string.
Definition discovery_shape (columns : bool) : string * Shape :=
  ("observability"%string, Fields [("discovery"%string, Fields ((if columns then [("allowed_columns"%string, ListOf AnyText)] else []) ++
    [("profile"%string, AnyText); ("schema_hash"%string, AnyText); ("source_class"%string, OneOf ["database"%string])]))]).
(** the shapes of [clean] in the result of a tool *)
Definition clean_shapes (tool : string) : list (list (string * Shape)) :=
  if String.eqb tool "schema" then [[text_shape; discovery_shape true]]
  else if String.eqb tool "list_tables" then [[text_shape; discovery_shape false]]
  else [[rows_shape]; [text_shape]].
Definition result_shapes (path tool : string) : list Shape :=
  (fun clean => Fields [("clean", Fields clean); ("snapshot_ref", Fields [("path", OneOf [path])])]%string) <$> clean_shapes tool.

Lemma reasons_conform l : conforms reasons_shape (json_reasons l) = true.
Proof. unfold json_reasons. cbn. induction l as [|[] l IH]; [done|..]; exact IH. Qed.
Lemma texts_conform l : conforms (ListOf AnyText) (list_to_value JString l) = true.
Proof. unfold list_to_value. cbn. by induction l. Qed.
Lemma objects_conform l : conforms (ListOf AnyObject) (list_to_value JObject l) = true.
Proof. unfold list_to_value. cbn. by induction l. Qed.

Lemma fields_nil : conforms (Fields []) (JObject []) = true.
Proof. done. Qed.
Lemma fields_cons k s l v m :
  conforms s v = true → conforms (Fields l) (JObject m) = true → conforms (Fields ((k, s) :: l)) (JObject ((k, v) :: m)) = true.
Proof. intros Hs Hl. cbn. by rewrite String.eqb_refl, Hs. Qed.
Lemma one_conforms t : conforms (OneOf [t]) (JString t) = true.
Proof. apply bool_decide_eq_true_2. by left. Qed.
Lemma text_conforms t : conforms AnyText (JString t) = true.
Proof. done. Qed.
Create HintDb shapes.
#[export] Hint Resolve reasons_conform texts_conform objects_conform fields_nil fields_cons one_conforms text_conforms : shapes.

(** clean output, and what discovery adds to it *)
Definition clean_entry (c : CleanOutput) : string * json :=
  match c with
  | CleanRows rows reasons => ("Rows", JObject [("rows", list_to_value JObject rows); ("truncated_at", json_reasons reasons)])
  | CleanText text reasons => ("Text", JObject [("text", JString text); ("truncated_at", json_reasons reasons)])
  end%string.
Lemma clean_value c : clean_to_value c = JObject [clean_entry c].
Proof. destruct c; lazy -[list_to_value json_reasons]; done. Qed.
Lemma discovery_value m :
  discovery_to_value m = JObject (match allowed_columns m with
    | Some columns => [("allowed_columns"%string, list_to_value JString columns)] | None => [] end ++
    [("profile", JString (dm_profile m)); ("schema_hash", JString (dm_schema_hash m));
     ("source_class", JString (dm_source_class m))]%string).
Proof. destruct m as [p c [cols|] h]; lazy -[list_to_value]; done. Qed.
Lemma result_value r :
  tool_result_to_value r = Ok (JObject [("clean"%string, JObject (clean_entry (tr_clean r) ::
      match tr_observability r with
      | Some m => [("observability"%string, JObject [("discovery"%string, discovery_to_value m)])] | None => [] end));
    ("snapshot_ref"%string, JObject [("path"%string, JString (tr_snapshot r))])]).
Proof.
  destruct r as [c path [m|]]; unfold tool_result_to_value, clean_with_observability; cbn [tr_clean tr_observability];
    rewrite clean_value; [|done].
  destruct c; lazy -[list_to_value json_reasons discovery_to_value]; done.
Qed.

(** what discovery says of a tool's output *)
Definition Discovered (tool : string) (c : CleanOutput) (o : option DiscoveryMetadata) : Prop :=
  if String.eqb tool "schema" || String.eqb tool "list_tables" then
    ∃ m text reasons, o = Some m ∧ c = CleanText text reasons ∧ dm_source_class m = "database"%string ∧
      (allowed_columns m = None ↔ tool ≠ "schema"%string)
  else o = None.
Lemma result_conforms tool r :
  Discovered tool (tr_clean r) (tr_observability r) →
  ∃ v, tool_result_to_value r = Ok v ∧ Exists (fun s => conforms s v = true) (result_shapes (tr_snapshot r) tool).
Proof.
  intros Hd. rewrite result_value. eexists. split; [done|]. unfold Discovered in Hd.
  unfold result_shapes, clean_shapes, text_shape, rows_shape, discovery_shape.
  destruct (String.eqb_spec tool "schema") as [->|Hs]; [|destruct (String.eqb_spec tool "list_tables") as [->|Ht]]; cbn [orb] in Hd.
  1-2: destruct Hd as (m & text & reasons & -> & -> & Hc & Ha); rewrite discovery_value, Hc; apply Exists_cons_hd.
  - destruct (allowed_columns m) as [cols|]; [|by destruct (proj1 Ha eq_refl)]. cbn [app clean_entry]. auto 20 with shapes.
  - rewrite (proj2 Ha ltac:(done)). cbn [app clean_entry]. auto 20 with shapes.
  - rewrite Hd. destruct (tr_clean r); [apply Exists_cons_hd|apply Exists_cons_tl, Exists_cons_hd]; cbn [clean_entry]; auto 20 with shapes.
Qed.

Lemma clean_text_ok c tool t : clean_text c tool = Ok t → ∃ reasons, c = CleanText t reasons.
Proof. destruct c; [done|]. intros [= <-]. eauto. Qed.
Lemma schema_observed `{DiscoverySerde} profile class c m :
  schema_discovery_metadata profile class c = Ok m →
  ∃ text reasons, c = CleanText text reasons ∧ dm_source_class m = class_str class ∧ allowed_columns m ≠ None.
Proof.
  unfold schema_discovery_metadata. intros Hm. open_bind Hm as t Ht. apply clean_text_ok in Ht as (reasons & ->).
  open_bind Hm as sc Hsc. open_bind Hm as h Hh. injection Hm as <-. by exists t, reasons.
Qed.
Lemma tables_observed `{DiscoverySerde} profile class c m :
  list_tables_discovery_metadata profile class c = Ok m →
  ∃ text reasons, c = CleanText text reasons ∧ dm_source_class m = class_str class ∧ allowed_columns m = None.
Proof.
  unfold list_tables_discovery_metadata. intros Hm. open_bind Hm as t Ht. apply clean_text_ok in Ht as (reasons & ->).
  open_bind Hm as sc Hsc. open_bind Hm as h Hh. injection Hm as <-. by exists t, reasons.
Qed.
Lemma observed `{DiscoverySerde} tool profile c o :
  discovery_observability_for_clean tool profile c = Ok o → Discovered tool c o.
Proof.
  unfold discovery_observability_for_clean, Discovered, tool_kind.
  destruct (String.eqb_spec tool "schema") as [->|Hs].
  - cbn. unfold fmap, result_fmap. destruct (schema_discovery_metadata _ _ _) as [m|] eqn:Em; [|done]. intros [= <-].
    apply schema_observed in Em as (t & reasons & -> & Hc & Ha). exists m, t, reasons. naive_solver.
  - destruct (String.eqb_spec tool "list_tables") as [->|Ht].
    + cbn. unfold fmap, result_fmap. destruct (list_tables_discovery_metadata _ _ _) as [m|] eqn:Em; [|done]. intros [= <-].
      apply tables_observed in Em as (t & reasons & -> & Hc & Ha). exists m, t, reasons. naive_solver.
    + cbn [orb]. repeat case_match; by intros [= <-].
Qed.

(** ** The front end *)
Section Facts.
Context {Pl Src B : Type} `{GazeBuilder, DiscoverySerde, JsonText, FloatText}.
Variable no_clean : json → string.
Variable debug_str : string → string.
Variable registry : result string unit.
Variable envelope : Session Pl Src B → Pl → string → json → option string → result DispatchError json * Session Pl Src B.
Variable restore : Pl → string → result string string.
Context (snapshot_dir lens_session_id : string).
Abbreviation Front := (McpFrontend (Pl := Pl) (Src := Src) (B := B)).
Abbreviation dispatched := (dispatch no_clean registry envelope restore snapshot_dir lens_session_id).
Abbreviation answer := (to_call_tool_result no_clean debug_str registry envelope restore snapshot_dir lens_session_id).
Abbreviation path := (snapshot_path snapshot_dir lens_session_id).

(** what a call that succeeded came from: the envelope's answer in the session,
    for the profile of the call and its pipeline, with the tokens of table and
    column names restored, and what discovery says of it *)
Inductive Came (s s' : Session Pl Src B) (tool : string) (args : json) : ToolResult → Prop :=
| came profile args' pl payload clean shown o :
    extract_profile s tool args = Ok (profile, args') → pipeline_for s profile = Ok pl →
    envelope s pl tool args' (json_get args' "pattern" ≫= as_str) = (Ok payload, s') →
    clean_of_value payload = Some clean →
    (if String.eqb tool "schema" || String.eqb tool "list_tables"
     then restore_gaze_tokens (restore pl) clean else Ok clean) = Ok shown →
    discovery_observability_for_clean tool profile shown = Ok o →
    Came s s' tool args (mkToolResult shown path o).
Lemma came_discovered s s' tool args r : Came s s' tool args r → tr_snapshot r = path ∧ Discovered tool (tr_clean r) (tr_observability r).
Proof. intros [profile args' pl payload clean shown o _ _ _ _ _ Ho]. split; [done|]. by eapply observed. Qed.
Lemma session_result s tool args r s' :
  session_dispatch no_clean registry envelope restore snapshot_dir lens_session_id s tool args = (Ok r, s') →
  Came s s' tool args r.
Proof.
  unfold session_dispatch, dispatch_tool. destruct (extract_profile s tool args) as [[profile args']|] eqn:Ep; [|done].
  destruct (pipeline_for s profile) as [pl|] eqn:El, (map_err registry Internal); try done.
  destruct (envelope s pl tool args' _) as [response s1] eqn:Ee. intros [= Hr <-].
  open_bind Hr as co Hco. destruct co as [c o]. injection Hr as <-.
  open_bind Hco as payload ->%map_err_ok. open_bind Hco as c1 Hc1. apply map_err_ok, ok_or_ok in Hc1.
  open_bind Hco as c2 Hc2. open_bind Hco as o' Ho. injection Hco as <- <-. by econstructor.
Qed.
Lemma dispatch_result (f f' : Front) tool args r :
  dispatched f tool args = (Ok r, f') →
  tool ∈ PUBLIC_TOOLS ∧ ∃ s s', attached f = Some s ∧ attached f' = Some s' ∧ Came s s' tool args r.
Proof.
  unfold dispatch. case_bool_decide as Ht; cbn [negb]; [|done]. destruct (attached f) as [s|]; [|done].
  destruct (session_dispatch _ _ _ _ _ _ _ _ _) as [r' s'] eqn:E. intros [= -> <-]. split; [done|].
  exists s, s'. split_and!; [done|done|by eapply session_result].
Qed.
Lemma dispatch_keeps_supervisor (f : Front) tool args : supervisor (dispatched f tool args).2 = supervisor f.
Proof.
  unfold dispatch. repeat case_match; done.
Qed.

(** what the answer is, when the process lives *)
Lemma reply_spec t0 t1 (f f' : Front) tool args r :
  answer t0 t1 f tool (Ok args) = Some (r, f') →
  (∃ s, supervisor f = Some s ∧ s ≠ Idle ∧ f' = f ∧ r = Err (internal_error "remote operation unavailable")) ∨
  ((supervisor f = None ∨ supervisor f = Some Idle ∧ t1 < t0 + ADMISSION_TIMEOUT) ∧ supervisor f' = supervisor f ∧
   ∃ f0 f1 d, f0 = mkFrontend (attached f) (snd (admit_now t0 (supervisor f))) ∧
     dispatched f0 tool args = (d, f1) ∧ attached f' = attached f1 ∧ r = response_of debug_str d).
Proof.
  unfold to_call_tool_result, admit_now, admit_for. destruct f as [a [[| |]|]]; cbn [supervisor attached].
  - destruct (dispatched _ tool args) as [d f1] eqn:Ed. pose proof (dispatch_keeps_supervisor (mkFrontend a (Some (Running (t0 + ADMISSION_TIMEOUT)))) tool args) as Hk.
    rewrite Ed in Hk. cbn in Hk. rewrite Hk. destruct (complete _ _ _) as [st|] eqn:Ec; [|done]. intros [= <- <-].
    apply complete_some in Ec as (-> & Hlt & _). right. split; [by right|]. split; [done|]. eauto 10.
  - intros [= <- <-]. left. by eexists.
  - intros [= <- <-]. left. by eexists.
  - destruct (dispatched _ tool args) as [d f1] eqn:Ed. intros [= <- <-]. right. split; [by left|].
    pose proof (dispatch_keeps_supervisor (mkFrontend a None) tool args) as Hk. rewrite Ed in Hk. split; [done|]. eauto 10.
Qed.

(** C25. Answers are typed.  A call that is answered with a result named a
    public tool, and the text is the JSON of exactly the fields of that tool:
    rows or text with the reasons of truncation, for [schema] and [list_tables]
    text with discovery metadata of the database, the columns for [schema]
    only; and the reference of this session's snapshot.  It is the result of
    this call in the session that was attached: the clean output in it is read
    back as the one that the envelope answered, under the pipeline of the call's
    profile, with the tokens of schema names restored for those two tools, and
    the metadata are those of this output and this profile. *)
Theorem reply_is_typed t0 t1 (f f' : Front) tool args reply :
  answer t0 t1 f tool (Ok args) = Some (Ok reply, f') →
  tool ∈ PUBLIC_TOOLS ∧
  ∃ v clean rest snap s s' r, content reply = [json_to_string v] ∧
    Exists (fun s => conforms s v = true) (result_shapes path tool) ∧
    v = JObject [("clean"%string, JObject (clean :: rest)); snap] ∧
    attached f = Some s ∧ attached f' = Some s' ∧ Came s s' tool args r ∧
    clean_of_value (JObject [clean]) = Some (tr_clean r) ∧ tool_result_to_value r = Ok v.
Proof.
  intros [(s & _ & _ & _ & [=])|(_ & _ & f0 & f1 & d & -> & Hd & Ha & Hr)]%reply_spec.
  destruct d as [r|e]; [|cbn in Hr; by destruct (is_invalid_params e)].
  destruct (dispatch_result _ _ _ _ _ Hd) as (Ht & s & s' & Hs & Hs' & Hc). split; [done|].
  destruct (came_discovered _ _ _ _ _ Hc) as [Hp Hob].
  destruct (result_conforms _ _ Hob) as (v & Hv & Hshape). cbn in Hr. rewrite Hv in Hr. injection Hr as ->.
  rewrite Hp in Hshape. pose proof Hv as Hv'. rewrite result_value in Hv. injection Hv as <-.
  eexists _, _, _, _, s, s', r. split_and!; [done|exact Hshape|done|done|congruence|done| |done].
  rewrite <- clean_value. apply clean_back.
Qed.

(** two outcomes that look the same from outside *)
Definition same_public (r r' : result LensError ToolResult) : Prop :=
  match r, r' with Ok a, Ok b => a = b | Err e, Err e' => public e = public e' | _, _ => False end.
Lemma response_public r r' : same_public r r' → response_of debug_str r = response_of debug_str r'.
Proof.
  destruct r as [a|e], r' as [b|e']; cbn; try done; [by intros ->|]. intros E.
  by rewrite (invalid_params_public e), (invalid_params_public e'), (sanitize_public _ e), (sanitize_public _ e'), E.
Qed.
Lemma dispatch_any_supervisor (f : Front) sup tool args :
  (dispatched (mkFrontend (attached f) sup) tool args).1 = (dispatched f tool args).1.
Proof. unfold dispatch. cbn [attached]. repeat case_match; by simplify_eq/=. Qed.

(** the answer, as a function of the outcome *)
Lemma answer_of_outcome t0 t1 (f : Front) tool args :
  fst <$> answer t0 t1 f tool (Ok args) =
    match supervisor f with
    | None => Some (response_of debug_str (dispatched f tool args).1)
    | Some Idle => if t0 + ADMISSION_TIMEOUT <=? t1 then None else Some (response_of debug_str (dispatched f tool args).1)
    | Some _ => Some (Err (internal_error "remote operation unavailable"))
    end.
Proof.
  unfold to_call_tool_result, admit_now, admit_for. destruct f as [a [[| |]|]]; cbn [supervisor attached]; try done.
  - pose proof (dispatch_any_supervisor (mkFrontend a (Some Idle)) (Some (Running (t0 + ADMISSION_TIMEOUT))) tool args) as Ha.
    pose proof (dispatch_keeps_supervisor (mkFrontend a (Some (Running (t0 + ADMISSION_TIMEOUT)))) tool args) as Hk.
    cbn [attached supervisor] in Ha, Hk. rewrite <- Ha. destruct (dispatched _ tool args) as [d f1]. cbn in Hk |- *.
    rewrite Hk. unfold complete. destruct (N.leb_spec (t0 + ADMISSION_TIMEOUT) t1); [done|]. cbn [orb]. by rewrite N.eqb_refl.
  - pose proof (dispatch_keeps_supervisor (mkFrontend a None) tool args) as Hk.
    destruct (dispatched _ tool args) as [d f1]. done.
Qed.

(** C24. What leaves the front end.  The answer to a call shows of a failure
    its public part only: front ends whose dispatches differ only in details,
    SQL, remote output, ids or paths of their errors give the same answer.  The
    admission is the one of the privacy deadline: while another call holds it
    the session is not asked; the process ends rather than answer exactly when
    the call took as long as the deadline, as the supervised process of the
    watchdog does; and an answered call leaves it free again.  A name that is
    no public tool reaches no session. *)
Theorem frontend_answers t0 t1 (f g : Front) tool args latency :
  supervisor f = supervisor g → same_public (dispatched f tool args).1 (dispatched g tool args).1 →
  t0 <= t1 → t1 <= t0 + ADMISSION_TIMEOUT + latency →
  fst <$> answer t0 t1 f tool (Ok args) = fst <$> answer t0 t1 g tool (Ok args) ∧
  (answer t0 t1 f tool (Ok args) = None ↔ supervisor f = Some Idle ∧ t0 + ADMISSION_TIMEOUT <= t1) ∧
  (supervisor f = Some Idle → ∃ last,
    run latency (mkWorld t0 Idle Forever [])
      [Admit ADMISSION_TIMEOUT; Wake; Pass t1; Complete (t0 + ADMISSION_TIMEOUT)] last ∧
    (last = None ↔ answer t0 t1 f tool (Ok args) = None)) ∧
  ∀ r f', answer t0 t1 f tool (Ok args) = Some (r, f') →
    supervisor f' = supervisor f ∧
    (∀ s, supervisor f = Some s → s ≠ Idle → f' = f ∧ r = Err (internal_error "remote operation unavailable")) ∧
    (tool ∉ PUBLIC_TOOLS → attached f' = attached f ∧
       (supervisor f = None ∨ supervisor f = Some Idle → r = response_of debug_str (Err (UNKNOWN_TOOL tool)))).
Proof.
  intros Hsup Hd Ht Hl.
  assert (Hnone : answer t0 t1 f tool (Ok args) = None ↔ supervisor f = Some Idle ∧ t0 + ADMISSION_TIMEOUT <= t1).
  { rewrite <- (fmap_None fst), answer_of_outcome. destruct (supervisor f) as [[| |]|]; try (split; [done|by intros [[=] _]]).
    destruct (N.leb_spec (t0 + ADMISSION_TIMEOUT) t1); [done|]. split; [done|lia]. }
  split; [|split; [exact Hnone|split]].
  - rewrite !answer_of_outcome, Hsup. by rewrite (response_public _ _ Hd).
  - intros Hi. set (d := t0 + ADMISSION_TIMEOUT) in *. assert (t0 < d) by (unfold d, ADMISSION_TIMEOUT; lia).
    exists ((fun s => mkWorld t1 s (notify t1 (Until d)) []) <$> complete d t1 (Running d)). split.
    + eapply run_cons; [by apply (step_admit _ (mkWorld t0 Idle Forever []) _ d)|].
      eapply run_cons; [|eapply (run_cons _ (mkWorld t0 (Running d) (Until d) [d])); [apply step_pass; cbn; [done|by intros u <-]|]].
      * pose proof (step_wake latency (mkWorld t0 (Running d) (notify t0 Forever) [d])) as Hw. cbn in Hw.
        destruct (N.leb_spec d t0); [lia|exact Hw].
      * pose proof (step_complete latency (mkWorld t1 (Running d) (Until d) [d]) [] d [] eq_refl) as Hc.
        cbn -[complete notify] in Hc. destruct (complete d t1 (Running d)); [eapply run_cons; [exact Hc|constructor]|by apply run_exit].
    + rewrite fmap_None, Hnone. unfold complete. rewrite N.eqb_refl. cbn [negb]. rewrite orb_false_r.
      destruct (N.leb_spec d t1); [done|]. split; [done|]. intros [_ ?]. lia.
  - intros r f' Ha. apply reply_spec in Ha as [(s & Hs & Hn & -> & ->)|(Hs & Hk & f0 & f1 & o & -> & Ho & Hat & ->)].
    + split_and!; [done|by intros|]. intros _. split; [done|]. rewrite Hs. intros [|[= ->]]; done.
    + split_and!; [done| |].
      * intros s Es Hn. rewrite Es in Hs. destruct Hs as [|[[= ->] _]]; done.
      * intros Hu. unfold dispatch in Ho. rewrite bool_decide_eq_false_2 in Ho by done. cbn [negb] in Ho.
        injection Ho as <- <-. split; [done|]. done.
Qed.

(** what a request asks for: the tool, the profile, and the fields of its
    arguments besides (a query is read as a whole) *)
Definition asked_for (r : ToolRequest) : string * string * list (string * json) :=
  match r with
  | QueryRequest q => ("query", cq_profile q, [])
  | SchemaRequest a => ("schema", sa_profile a, [("table", JString (sa_table a))])
  | ListTablesRequest a => ("list_tables", lt_profile a, [])
  | LogTailRequest a => ("log_tail", ta_profile a, [("lines", or_null json_number (ta_lines a))])
  | LogGrepRequest a => ("log_grep", ga_profile a,
      [("pattern", JString (ga_pattern a)); ("level", or_null JString (ga_level a)); ("limit", or_null json_number (ga_limit a));
       ("mode", or_null JString (ga_mode a)); ("refresh", or_null JBool (ga_refresh a))])
  end%string.
Lemma request_profile r : json_get (request_args r) "profile" = Some (JString (asked_for r).1.2).
Proof.
  destruct r; lazy -[list_to_value or_null where_clause_to_value order_by_to_value combinator_to_value json_number json_option]; done.
Qed.
Lemma request_fields r k v : (k, v) ∈ (asked_for r).2 → json_get (request_args r) k = Some v.
Proof.
  destruct r; cbn [asked_for snd]; rewrite ?elem_of_cons, elem_of_nil;
    intros Hk; destruct_or?; simplify_eq; lazy -[or_null json_number json_option]; done.
Qed.
Lemma request_routed (s : Session Pl Src B) r profile args :
  extract_profile s (request_tool r) (request_args r) = Ok (profile, args) →
  profile = (asked_for r).1.2 ∧ args = request_args r.
Proof.
  pose proof (request_profile r) as Hp. unfold extract_profile, json_get in *.
  destruct (request_args r) as [| | | | |m]; try done. rewrite Hp. cbn [mbind option_bind as_str].
  destruct (pipeline_mode s) as [n pl|pls]; [destruct (String.eqb_spec (asked_for r).1.2 n)|];
    repeat case_match; try done; by intros [= <- <-].
Qed.

(** C26. A request reaches the source as it was sent.  A tool method asks for
    the tool of its name, and for no other; the arguments it writes hold the
    fields of the request, select the profile of the request, in a session of
    one profile that profile or none, and are left as they are; and those it
    writes for a query it read are read by the source as the same query. *)
Theorem query_reaches_source (Hf : FloatsBack) (s : Session Pl Src B) r profile args :
  extract_profile s (request_tool r) (request_args r) = Ok (profile, args) →
  request_tool r = (asked_for r).1.1 ∧ request_tool r ∈ PUBLIC_TOOLS ∧
  profile = (asked_for r).1.2 ∧ args = request_args r ∧
  (∀ k v, (k, v) ∈ (asked_for r).2 → json_get args k = Some v) ∧
  ∀ v q, r = QueryRequest q → canned_of_value v = Some q → canned_of_value args = Some q.
Proof.
  intros [-> ->]%request_routed. split_and!; [by destruct r| |done|done|intros k v; apply request_fields|].
  - by destruct r; apply (bool_decide_unpack _); vm_compute.
  - intros v q -> Hq. by eapply canned_back.
Qed.
End Facts.

(** ** A concrete front end *)
Module FrontRun.
#[local] Instance gaze : GazeBuilder := sample_gaze.
#[local] Instance texts : JsonText := sample_json.
#[local] Instance discovery : DiscoverySerde := {|
  presented_schema _ := Err "not a schema"%string; presented_tables _ := Ok ["users"; "orders"]%string;
  schema_descriptor_text d := Ok (sd_table d); tables_descriptor_text d := Ok (String.concat "," (td_tables d));
  sha256_hex s := s |}.
(** one float: 0.5 *)
#[local] Instance half : FloatText := {|
  f64_to_value b := if b =? 4602678819172646912 then JNumber "0.5" else JNull;
  f64_of_text s := if String.eqb s "0.5" then Some 4602678819172646912 else None |}.
(** the pipeline's name is the detail of every failure of redaction *)
Definition session (pipeline : string) : Session string string string :=
  from_parts (MultiPipeline {["crm"%string := pipeline]}) (MultiActions ∅) default_caps.
Definition envelope (s : Session string string string) (pipeline tool : string) (args : json) (pattern : option string)
  : result DispatchError json * Session string string string :=
  (if String.eqb tool "list_tables" then Ok (clean_to_value (CleanText "users orders" [TrRows])) else Err (DispatchRedaction pipeline), s).
Definition call (t1 : N) (pipeline tool : string) :=
  to_call_tool_result (fun _ => "no clean output"%string) (fun s => s) (Ok tt) envelope (fun _ => Ok) "/snap" "L" 0 t1
    (with_session (session pipeline) (Some Idle)) tool (Ok (JObject [("profile"%string, JString "crm")])).

Lemma reply_is_typed_witness :
  ∃ reply f', call 5 "p" "list_tables" = Some (Ok reply, f') ∧
    ∃ v, content reply = [json_to_string v] ∧
      conforms (Fields [("clean", Fields [text_shape; discovery_shape false]);
                        ("snapshot_ref", Fields [("path", OneOf ["/snap/L.snap"])])])%string v = true.
Proof.
  assert (Hr : ∃ reply f', call 5 "p" "list_tables" = Some (Ok reply, f')) by (eexists _, _; vm_compute; reflexivity).
  destruct Hr as (reply & f' & Hr). exists reply, f'. split; [exact Hr|].
  destruct (reply_is_typed (fun _ => "no clean output"%string) (fun s => s) (Ok tt) envelope (fun _ => Ok) "/snap" "L" 0 5
    _ _ _ _ _ Hr) as (_ & v & clean & rest & snap & s & s' & r & Hc & Hs & _).
  exists v. split; [exact Hc|]. apply Exists_cons in Hs as [Hs|Hs]; [exact Hs|by apply Exists_nil in Hs].
Defined.

(** two failures that differ in their detail *)
Lemma frontend_answers_witness :
  fst <$> call 5 "alice@example.com" "query" = fst <$> call 5 "bob@example.com" "query" ∧ call 90000 "p" "query" = None.
Proof.
  split.
  - apply (frontend_answers (fun _ => "no clean output"%string) (fun s => s) (Ok tt) envelope (fun _ => Ok) "/snap" "L" 0 5
      (with_session (session "alice@example.com") (Some Idle)) (with_session (session "bob@example.com") (Some Idle))
      "query" _ 10); [reflexivity|vm_compute; reflexivity|vm_compute; discriminate..].
  - apply (frontend_answers (fun _ => "no clean output"%string) (fun s => s) (Ok tt) envelope (fun _ => Ok) "/snap" "L" 0 90000
      (with_session (session "p") (Some Idle)) (with_session (session "p") (Some Idle))
      "query" _ 10); [reflexivity|vm_compute; reflexivity|vm_compute; discriminate..|].
    split; [reflexivity|vm_compute; discriminate].
Defined.

Definition sent : json := JObject [
  ("columns", JArray [JString "email"]); ("profile", JString "crm"); ("table", JString "users");
  ("where", JArray [JObject [("col", JString "score"); ("op", JString "gt"); ("value", JNumber "0.5")]])]%string.
Definition read_query : CannedQuery :=
  mkCanned "crm" "users" (Some ["email"%string]) (Some [mkClause "score" WGt (Some (SlScalar (ScF64 4602678819172646912)))]) None None None.
Lemma query_reaches_source_witness :
  canned_of_value sent = Some read_query ∧ canned_of_value (request_args (QueryRequest read_query)) = Some read_query.
Proof.
  assert (Hq : canned_of_value sent = Some read_query) by (vm_compute; reflexivity). split; [exact Hq|].
  assert (Hf : FloatsBack).
  { intros n bits. cbn. destruct (String.eqb n "0.5"); [|done]. intros [= <-]. exists "0.5"%string. by vm_compute. }
  destruct (query_reaches_source Hf (session "p") (QueryRequest read_query) "crm" (request_args (QueryRequest read_query)))
    as (_ & _ & _ & _ & _ & Hb); [vm_compute; reflexivity|]. exact (Hb sent read_query eq_refl Hq).
Defined.
End FrontRun.
