(* ===== verification/Trust.v ===== *)
(** * The trust report

    Models src/src/cli/check_trust.rs: what [check --explain-risk] says of a
    profile, and the lines of its text.

    The expansion of a path, the mode of a file and SHA-256 are given.  A parsed
    TOML document is its tables; a value that is no table is its text. *)

From stdpp Require Import sorting.
From S2P Require Import Prelude Str Errors LensValue Profile Policy LogSource Output Session SessionFacts Tools Frontend.

Inductive TrustFormat := TrustText | TrustJson.
Inductive toml := TTable (entries : list (string * toml)) | TLeaf (text : string).

(** ** The report *)
Record CodeEvidence := mkEvidence { ev_file : string; ev_line : N; ev_claim : string }.
Record InputSurface := mkInputSurface {
  mcp_tools : list string; cli_subcommands : list string; query_mode : string; raw_sql : string; is_source_kind : string;
  is_source_transport : json; is_json_text_policy : option (list string); is_evidence : list CodeEvidence }.
Record ProcessSurface := mkProcessSurface {
  process_model : string; profile_under_review : string; serve_default_scope : string;
  cross_profile_correlation : string; connect_lifecycle : string; ps_evidence : list CodeEvidence }.
Record SchemaPolicy := mkSchemaPolicy { table_allowlist : option (list string); column_redaction_mode : string }.
Record RecognizerPack := mkRecognizerPack {
  rp_source : string; rp_policy_path : option string; policy_sha256 : option string; recognizer_keys : list string;
  recognizer_classes : list string; default_empty : bool }.
Record OutputCapsView := mkCapsView { cv_rows : N; cv_bytes : N; cv_cell_bytes : N; cv_line_bytes : N; timeout_secs : N }.
Record OutputSurface := mkOutputSurface {
  dispatch_chokepoint : CodeEvidence; tool_arg_redaction : string; schema_policy : SchemaPolicy;
  recognizer_pack : RecognizerPack; output_caps : OutputCapsView; os_evidence : list CodeEvidence }.
Record PathArtifact := mkPathArtifact { pa_path : string; pa_exists : bool; mode_ok : option bool; expected_mode : string }.
Record SecretLocator := mkSecretLocator { backend : string; identity : string }.
Record AtRestSurface := mkAtRestSurface {
  ar_manifest : PathArtifact; ar_snapshot_dir : PathArtifact; ar_retention_days : option N; ar_auto_purge : string;
  snapshot_encryption_at_rest : string; secret_backend : SecretLocator; ar_evidence : list CodeEvidence }.
Record ResidualRisk := mkResidualRisk { risk_id : string; risk_summary : string; mitigation : string }.
Record HandoffSurface := mkHandoffSurface { residual_risks : list ResidualRisk }.
Record TrustReport := mkTrustReport {
  report_version : N; tr_profile : string; input_surface : InputSurface; process_surface : ProcessSurface;
  output_surface : OutputSurface; at_rest_surface : AtRestSurface; handoff_surface : HandoffSurface }.

(** ** What is collected *)
Definition CLI_SUBCOMMANDS : list string := ["init"; "query"; "replay"; "check"; "serve"; "demo"]%string.
Definition REPORT_VERSION : N := 1.

Definition source_kind_name (s : SourceSpec) : string :=
  match s with
  | RemoteMcpLog _ => "remote_mcp_log" | Mysql _ => "mysql" | Postgres _ => "postgres" | Sqlite _ _ _ => "sqlite"
  | SshLog _ _ => "ssh_log" | LocalLog _ => "local_log"
  end.
Definition json_number_option (n : option N) : json := match n with Some n => json_number n | None => JNull end.
Definition db_transport (db : DbSource) : json :=
  json_object [("host", JString (db_host db)); ("port", json_number (db_port db)); ("database", JString (database db));
    ("username", JString (username db)); ("ssh_host", json_option (db_ssh_host db));
    ("local_port", json_number_option (db_local_port db)); ("readonly_required", JBool (readonly_required db))]%string.
Definition source_transport (s : SourceSpec) : json :=
  match s with
  | RemoteMcpLog c =>
    json_object [("endpoint", JString (endpoint c)); ("server_name", JString (server_name c));
      ("trust_root", JString (trust_root c)); ("resource", JString (resource c))]%string
  | Mysql db | Postgres db => db_transport db
  | Sqlite path readonly _ => json_object [("path", JString path); ("readonly_required", JBool readonly)]%string
  | SshLog host path => json_object [("host", JString host); ("path", JString path)]%string
  | LocalLog path => json_object [("path", JString path)]%string
  end.

(** where a secret is, never what it is *)
Definition env_locator (var : string) : SecretLocator := mkSecretLocator "env" (String.append "var=" var).
Definition keyring_locator (service account : string) : SecretLocator :=
  mkSecretLocator "keyring" (concat_str ["service="; service; " account="; account]%string).
Definition no_secret : SecretLocator := mkSecretLocator "none" "not required".
Definition spec_locator (s : SecretSpec) : SecretLocator :=
  match s with SecretEnv var => env_locator var | SecretKeyring service account => keyring_locator service account end.
Definition db_locator (db : DbSource) : SecretLocator :=
  match password_env db, db_secret db with
  | Some var, None => env_locator var
  | None, Some s => spec_locator s
  | _, _ => mkSecretLocator "profile" "invalid"
  end.
Definition secret_locator (s : SourceSpec) : SecretLocator :=
  match s with
  | RemoteMcpLog c => spec_locator (secret c)
  | Mysql db | Postgres db => db_locator db
  | Sqlite _ _ _ | SshLog _ _ | LocalLog _ => no_secret
  end.
Definition sqlite_json_text_policy (s : SourceSpec) : option (list string) :=
  match s with Sqlite _ _ columns => Some columns | _ => None end.

Definition collect_input_surface (p : Profile) : InputSurface :=
  mkInputSurface public_tool_names CLI_SUBCOMMANDS "canned-structured" "disabled (v1 lock, D5)" (source_kind_name (source p))
    (source_transport (source p)) (sqlite_json_text_policy (source p))
    [mkEvidence "src/frontend/mcp.rs" 19 "locked public MCP tools";
     mkEvidence "src/source/db/query.rs" 1 "canned structured query model"].
Definition collect_process_surface (p : Profile) : ProcessSurface :=
  mkProcessSurface "single-process MCP stdio (no daemon, D17)" (name p)
    "all configured profiles unless serve --profile restrict-list" "default (Conversation; D10)"
    "eager-parse, lazy-connect" [mkEvidence "src/cli/serve.rs" 67 "serve loads configured profiles before MCP startup"].
Definition collect_handoff_surface : HandoffSurface := mkHandoffSurface
  [mkResidualRisk "disk_encryption" "snapshot files rely on operator-managed disk encryption"
     "enable FileVault, LUKS, or equivalent full-disk encryption on hosts that store snapshots";
   mkResidualRisk "db_user_privileges" "database credentials can still expose anything their role may read"
     "use least-privilege read-only users and narrow schema allowlists";
   mkResidualRisk "ssh_auth" "ssh_log profiles inherit the operator's SSH trust and host-key posture"
     "use dedicated read-only log access and pinned host verification";
   mkResidualRisk "backup_exclusion" "local backups may copy manifests and raw token snapshots"
     "exclude ~/.gaze-lens/snapshots from unmanaged backups or encrypt those backups";
   mkResidualRisk "cross_profile_correlation"
     "conversation-scoped tokens can correlate repeated values across profiles in one session"
     "run separate sessions when cross-profile correlation is undesirable";
   mkResidualRisk "binary_attestation" "v1 source installs do not prove binary provenance to agents"
     "build from reviewed source or use future signed release artifacts when available"]%string.
Definition collect_output_surface (p : Profile) (pack : RecognizerPack) : OutputSurface :=
  mkOutputSurface (mkEvidence "src/session/mod.rs" 304 "dispatch_tool redacts source results") "on (D7)"
    (mkSchemaPolicy (Profile.schema_allowlist p)
       "schema/list_tables raw by default; query values use Gaze recognizer pack")
    pack
    (mkCapsView (caps_rows default_caps) (caps_bytes default_caps) (caps_cell_bytes default_caps)
       (caps_line_bytes default_caps) (caps_timeout default_caps / NANOS))
    [mkEvidence "src/session/mod.rs" 304 "dispatch_tool is the redaction chokepoint"].

(** the keys of the policy that are no tables, with their path *)
Fixpoint collect_policy_classes (prefix : string) (v : toml) : list string :=
  match v with
  | TLeaf _ => []
  | TTable entries =>
    (fix go l := match l with
     | [] => []
     | (key, nested) :: l =>
       let next := concat_str [prefix; "."; key]%string in
       (match nested with TTable _ => collect_policy_classes next nested | TLeaf _ => [next] end) ++ go l
     end) entries
  end.
Definition policy_entries (parsed : toml) : list (string * toml) :=
  match parsed with
  | TTable entries =>
    match List.find (fun e => String.eqb e.1 "policy") entries with Some (_, TTable policy) => policy | _ => [] end
  | TLeaf _ => []
  end.

Definition mode_label (mode : N) : string :=
  if mode =? 384 then "0600" else if mode =? 448 then "0700" else "custom".

Section Report.
(** [expand]: shellexpand; [mode_of]: the permission bits of the file a path
    leads to, if there is one *)
Context (expand : string → result string string) (mode_of : string → option N) (sha256 : bytes → string).

Definition expand_path_lossy (path : string) : string := match expand path with Ok path => path | Err _ => path end.
Definition inspect_path (path : string) (expected : N) : PathArtifact :=
  let expanded := expand_path_lossy path in
  let mode := mode_of expanded in
  mkPathArtifact expanded (match mode with Some _ => true | None => false end)
    ((fun actual => actual =? expected) <$> mode) (mode_label expected).
Definition collect_at_rest_surface (p : Profile) (manifest snapshot_dir : string) : AtRestSurface :=
  mkAtRestSurface (inspect_path manifest 384) (inspect_path snapshot_dir 448) (snapshot_retention_days p)
    (auto_purge_str (auto_purge p)) "none (v1) - operator must run FileVault/LUKS" (secret_locator (source p))
    [mkEvidence "src/session/manifest.rs" 1 "manifest stores tokenized audit rows"].

Definition recognizer_pack_from_parsed (parsed : option (string * bytes * toml)) : RecognizerPack :=
  match parsed with
  | None => mkRecognizerPack "default-empty" None None ["database"%string] [] true
  | Some (path, raw_bytes, parsed) =>
    let policy := policy_entries parsed in
    mkRecognizerPack "policy-toml" (Some (expand_path_lossy path)) (Some (sha256 raw_bytes))
      (merge_sort name_le policy.*1)
      (merge_sort name_le (policy ≫= (fun '(section, v) => collect_policy_classes section v))) false
  end.
Definition build_report (p : Profile) (manifest snapshot_dir : string) (parsed : option (string * bytes * toml)) : TrustReport :=
  mkTrustReport REPORT_VERSION (name p) (collect_input_surface p) (collect_process_surface p)
    (collect_output_surface p (recognizer_pack_from_parsed parsed)) (collect_at_rest_surface p manifest snapshot_dir)
    collect_handoff_surface.
End Report.

(** ** Its text *)
Definition validate_rendered_profile_name (field n : string) : result LensError unit :=
  if is_safe_profile_name n then Ok tt
  else profile_error ["trust report "; field; " contains unsupported profile-name characters; expected ";
         PROFILE_NAME_PATTERN]%string.
Definition validate_text_report (r : TrustReport) : result LensError unit :=
  _ ← validate_rendered_profile_name "profile" (tr_profile r);
  _ ← validate_rendered_profile_name "process_surface.profile_under_review" (profile_under_review (process_surface r));
  if String.eqb (tr_profile r) (profile_under_review (process_surface r)) then Ok tt
  else profile_error ["trust report profile fields disagree"]%string.

Definition comma (l : list string) : string := String.concat ", " l.
Definition evidence_refs (l : list CodeEvidence) : string :=
  comma ((fun e => concat_str ["(see "; ev_file e; ":"; num (ev_line e); ")"]%string) <$> l).
Definition format_list (l : list string) : string := if is_nil l then "none" else comma l.
Definition format_optional_list (l : option (list string)) : string :=
  match l with None => "n/a" | Some l => format_list l end.
Definition format_mode (m : option bool) : string :=
  match m with Some true => "ok" | Some false => "mismatch" | None => "not present" end.

(** a line [label: text] *)
Definition field (label text : string) : string := concat_str [label; ": "; text]%string.
Definition risk_line (r : ResidualRisk) : string :=
  concat_str ["risk."; risk_id r; ": "; risk_summary r; " mitigation="; mitigation r]%string.
Definition input_lines (s : InputSurface) : list string :=
  ["Input surface"; field "mcp_tools" (comma (mcp_tools s)); field "cli_subcommands" (comma (cli_subcommands s));
   field "query_mode" (query_mode s); field "raw_sql" (raw_sql s); field "source_kind" (is_source_kind s);
   field "sqlite_json_text_policy" (format_optional_list (is_json_text_policy s));
   field "evidence" (evidence_refs (is_evidence s)); ""]%string.
Definition process_lines (s : ProcessSurface) : list string :=
  ["Process surface"; field "process_model" (process_model s); field "profile_under_review" (profile_under_review s);
   field "serve_default_scope" (serve_default_scope s);
   field "cross_profile_correlation" (cross_profile_correlation s); field "connect_lifecycle" (connect_lifecycle s);
   field "evidence" (evidence_refs (ps_evidence s)); ""]%string.
Definition output_lines (s : OutputSurface) : list string :=
  let c := dispatch_chokepoint s in
  ["Output surface"; field "dispatch_chokepoint" (concat_str ["(see "; ev_file c; ":"; num (ev_line c); ")"]);
   field "tool_arg_redaction" (tool_arg_redaction s);
   field "table_allowlist" (format_optional_list (table_allowlist (schema_policy s)));
   field "column_redaction_mode" (column_redaction_mode (schema_policy s));
   field "recognizer_pack" (rp_source (recognizer_pack s));
   field "recognizer_keys" (format_list (recognizer_keys (recognizer_pack s)));
   field "recognizer_classes" (format_list (recognizer_classes (recognizer_pack s)));
   field "evidence" (evidence_refs (os_evidence s)); ""]%string.
Definition at_rest_lines (s : AtRestSurface) : list string :=
  ["At-rest surface"; field "manifest" (pa_path (ar_manifest s));
   field "manifest_mode_ok" (format_mode (mode_ok (ar_manifest s)));
   field "snapshot_dir" (pa_path (ar_snapshot_dir s));
   field "snapshot_dir_mode_ok" (format_mode (mode_ok (ar_snapshot_dir s)));
   field "snapshot_retention_days" (match ar_retention_days s with Some days => num days | None => "unlimited" end);
   field "auto_purge" (ar_auto_purge s); field "snapshot_encryption_at_rest" (snapshot_encryption_at_rest s);
   field "secret_backend" (concat_str [backend (secret_backend s); " "; identity (secret_backend s)]);
   field "evidence" (evidence_refs (ar_evidence s)); ""]%string.
(** what is written, call by call of [writeln!] *)
Definition report_lines (r : TrustReport) : list string :=
  (if default_empty (recognizer_pack (output_surface r))
   then ["WARN: no recognizer pack - running with default-empty policy"] else []) ++
  [String.append "Trust report v" (num (report_version r)); field "profile" (tr_profile r); ""] ++
  input_lines (input_surface r) ++ process_lines (process_surface r) ++ output_lines (output_surface r) ++
  at_rest_lines (at_rest_surface r) ++ ["Operator handoff"] ++ (risk_line <$> residual_risks (handoff_surface r)).
