(* ===== verification/Check.v ===== *)
(** * Checking a profile

    Models src/src/cli/check.rs: the policy of a profile, its model, its secret
    and its source, checked in this order with a line for each; or, with
    [--explain-risk], the trust report of [Trust] and nothing else.

    What is outside answers by the arguments of the section: files, the model's
    verifier, secrets, databases, ssh.  Everything that is asked beyond the
    policy file is logged in [touched], statements and tunnels in [host]. *)

From S2P Require Import Prelude Utf8 Str SqlQuery SchemaTok Errors LensValue SshArgs LogSource Output Profile Policy Session SessionFacts Tools RemoteWire RemoteService Disk Toml Flow Driver Drivers Database Serve Trust.

Inductive ModelCheckMode := Full | Deferred.
Record CheckArgs := mkCheckArgs { ck_profile : string; explain_risk : bool; format : TrustFormat }.

(** ** The terminal and what is touched *)
Inductive Touch :=
| TouchModel (dir : string) | TouchSecret (profile : string) | TouchSsh (argv : list string) | TouchFile (path : string).
Inductive Stream := Out | Err_.
(** [writes]: the error of each write to come, if it has one; a write that fails
    leaves nothing *)
Record Shell := mkShell {
  out : string; err : string; writes : list (option string); touched : list Touch; host : Host }.
Definition write_error (e : string) : LensError := Internal (String.append "failed to write check output: " e).
(** [fail]: what becomes of the error *)
Definition put_or (fail : string → LensError) (to : Stream) (text : string) : Flow Shell unit := fun s =>
  let rest := match writes s with _ :: l => l | [] => [] end in
  match writes s with
  | Some e :: _ => (Err (fail e), mkShell (out s) (err s) rest (touched s) (host s))
  | _ =>
    (Ok tt, match to with
            | Out => mkShell (String.append (out s) text) (err s) rest (touched s) (host s)
            | Err_ => mkShell (out s) (String.append (err s) text) rest (touched s) (host s)
            end)
  end.
Definition writeln (to : Stream) (line : string) : Flow Shell unit := put_or write_error to (String.append line newline).
Fixpoint write_lines (to : Stream) (lines : list string) : Flow Shell unit :=
  match lines with [] => mret tt | line :: lines => _ ← writeln to line; write_lines to lines end.
Definition touch (t : Touch) : Flow Shell unit := fun s =>
  (Ok tt, mkShell (out s) (err s) (writes s) (touched s ++ [t]) (host s)).
Definition at_host {A} (m : Flow Host A) : Flow Shell A := fun s =>
  let '(r, h) := m (host s) in (r, mkShell (out s) (err s) (writes s) (touched s) h).
(** [r] as a value: what is done with an error *)
Definition caught {P A} (m : Flow P A) : Flow P (result LensError A) := fun p =>
  let '(r, p) := m p in (Ok r, p).

Definition status_stream (json_mode : bool) : Stream := if json_mode then Err_ else Out.
Definition write_status_line (json_mode : bool) (line : string) : Flow Shell unit := writeln (status_stream json_mode) line.

(** ** The policy *)
Class TomlValue := {
  (** [toml::from_str::<Value>], and [try_into] a policy *)
  toml_value : string → result string toml;
  policy_of_value : toml → result string PolicyFile;
  (** the text of a [Utf8Error] *)
  utf8_error : bytes → string;
}.
Record ParsedPolicy := mkParsedPolicy { pp_path : string; raw_bytes : bytes; pp_toml : toml }.
Record ValidatedPolicy := mkValidatedPolicy { parsed : option ParsedPolicy; vp_policy : PolicyFile }.

Section Policy.
Context `{GazeBuilder, PolicyToml, TomlValue} (expand : string → result string string).
(** [read]: what reading a file answers *)
Variable read : string → result IoError bytes.

Definition failed_to_parse (e : string) : LensError := Errors.Profile (String.append "failed to parse policy: " e).
Definition checked_policy (p : Profile) (policy : PolicyFile) : result LensError unit :=
  _ ← map_err (validate_policy_file policy) policy_error;
  _ ← enforce_remote_output_policy p policy;
  map_err (enforce_production_ner (name p) (production p) policy) policy_error.
Definition load_policy_only (p : Profile) : result LensError ValidatedPolicy :=
  match policy p with
  | None =>
    file ← map_err (from_toml (String.append "[policy.database]" newline)) failed_to_parse;
    _ ← checked_policy p file;
    Ok (mkValidatedPolicy None file)
  | Some path =>
    path ← map_err (expand path) Errors.Profile;
    raw_bytes ← map_err (read path) (fun e =>
      Errors.Profile (concat_str ["failed to read policy "; path; ": "; io_text e]%string));
    _ ← ok_or (from_utf8 raw_bytes) (failed_to_parse (utf8_error raw_bytes));
    value ← map_err (toml_value (str_of raw_bytes)) failed_to_parse;
    file ← map_err (policy_of_value value) failed_to_parse;
    _ ← checked_policy p file;
    Ok (mkValidatedPolicy (Some (mkParsedPolicy path raw_bytes value)) file)
  end.
Definition build_pipeline_late (file : PolicyFile) : result LensError Pipeline :=
  map_err (build_pipeline file) (fun e =>
    Errors.Profile (String.append "failed to build policy pipeline: " (policy_error_display e))).
End Policy.

Definition should_build_pipeline_before_policy_status (p : Profile) (explain_risk : bool) (mode : ModelCheckMode) : bool :=
  negb (production p) && negb explain_risk && match mode with Full => true | Deferred => false end.

(** ** Warnings *)
Definition is_log (s : SourceSpec) : bool :=
  match s with SshLog _ _ | LocalLog _ | RemoteMcpLog _ => true | _ => false end.
(** every kind of source is listed *)
Definition should_warn_email_regex_only_redaction (file : PolicyFile) : bool :=
  negb (negb (is_nil (column_rules file)) || match model_dir (pf_ner file) with Some _ => true | None => false end ||
        match logs file with Some l => negb (is_nil (strip_patterns l)) | None => false end).

Definition RAW_NOTE : string :=
  "but undetected PII (for example names without an NER model) still passes RAW.".
Definition span_note (action : string) : string :=
  if String.eqb action "preserve" then
    quoted "Detected-span action gap: policy.default_action is preserve (the default), so even DETECTED spans, including emails, pass through RAW; set policy.default_action = 'tokenize' or 'redact' to fail closed on detected spans."
  else if String.eqb action "tokenize" then
    String.append (quoted "Detected-span action: policy.default_action = 'tokenize', so detected spans are tokenized, ") RAW_NOTE
  else if String.eqb action "redact" then
    String.append (quoted "Detected-span action: policy.default_action = 'redact', so detected spans are redacted, ") RAW_NOTE
  else
    concat_str [quoted "Detected-span action: policy.default_action = '"; action;
      quoted "', so detected spans no longer use the preserve default, "; RAW_NOTE]%string.
Definition email_regex_only_redaction_warning (p : Profile) (file : PolicyFile) : string :=
  let is_log_profile := is_log (source p) in
  let severity := if is_log_profile || production p then "CRITICAL WARNING" else "WARNING" in
  let context := match is_log_profile, production p with
    | true, true => " for this log production profile"
    | true, false => " for this log profile"
    | false, true => " for this production profile"
    | false, false => ""
    end in
  concat_str [severity; ": profile `"; name p; "` uses email-regex-only detection"; context;
    ". Detection gap: only email-shaped text is detected; person names and other PII are NOT detected without [ner].model_dir, [policy.database].columns rules, or policy.logs.strip_patterns, so they pass through RAW. ";
    span_note (default "preserve" (default_action file))]%string.
Definition ALLOWLIST_WARNING : string :=
  "warning: schema_allowlist has no presentation-tokenization effect in raw schema mode; set schema_tokenize = true to use it for schema/list_tables presentation, then restart/reload the MCP server".
Definition allowlist_without_effect (p : Profile) : bool :=
  match Profile.schema_allowlist p with Some (_ :: _) => negb (schema_tokenize_or_default p) | _ => false end.

(** ** Errors *)
Definition secret_error_line (e : LensError) : string :=
  match e with
  | SecretKeyringMissing service account =>
    concat_str ["secret: NOT FOUND (keyring service="; service; " account="; account;
      "); create the entry via your OS keychain or rerun `gaze-lens init --secret-backend keyring`"]
  | SecretKeyringDenied service account =>
    concat_str ["secret: ACCESS DENIED (keyring service="; service; " account="; account;
      "); unlock the OS keychain or approve access, then retry"]
  | SecretBackendUnavailable backend _ =>
    concat_str ["secret: BACKEND UNAVAILABLE (backend="; backend;
      "); on Linux start a DBus session with an unlocked Secret Service agent, or fall back to password_env"]
  | _ => "secret: ERROR"
  end%string.
Definition source_error_hint (s : SourceSpec) : string :=
  match s with
  | RemoteMcpLog _ => "verify remote endpoint, TLS trust root/name and credential grant"
  | Profile.Mysql _ | Profile.Postgres _ | Profile.Sqlite _ _ _ =>
    "If the database host is private, configure source ssh_host/local_port or rerun `gaze-lens init` with tunnel settings."
  | SshLog _ _ =>
    "verify the SSH host is reachable (`ssh <host>`), the remote log path exists and is readable, and the host is defined in ~/.ssh/config; rerun `gaze-lens init` to reconfigure the log source."
  | LocalLog _ =>
    "verify the local log path exists and is readable; rerun `gaze-lens init` to reconfigure the log source."
  end.
Definition render_source_error (p : Profile) (e : LensError) : Flow Shell unit :=
  match e with
  | SourceError _ _ _ _ =>
    writeln Err_ (concat_str ["source failed while connecting/querying profile `"; name p; "`. ";
      source_error_hint (source p)]%string)
  | _ => mret tt
  end.

(** ** The checks *)
Class ReportSerde := { report_text : TrustReport → result string string }.
(** what answers: the model's verifier, the environment and the keyring, the
    processes and ssh, and the opening of a file *)
Record Outside := mkOutside {
  o_verify : string → result LensError unit;
  o_secrets : Secrets;
  o_processes : Processes;
  o_ssh : list string → Ssh.Run;
  o_open : string → result IoError unit }.

Definition DEFERRED_BUNDLE : string :=
  "model bundle verification is deferred until --fetch-model ships with gaze-model-setup".
(** [DeferredBundleVerifier] *)
Definition deferred_verify (model_dir : string) : result LensError unit := Err (FeatureDeferred DEFERRED_BUNDLE).
Definition PROVISION : string :=
  "run `gaze-lens init --production --fetch-model` after the gaze-model-setup release or run `gaze setup`".
Definition default_manifest_path : string := "~/.gaze-lens/manifest.sqlite".
Definition default_snapshot_dir : string := "~/.gaze-lens/snapshots".

Section Checks.
Context `{GazeBuilder, PolicyToml, TomlValue, ReportSerde, Sqlx, !Server, RemoteEnv} (expand : string → result string string).
Context (read : string → result IoError bytes) (mode_of : string → option N) (sha256 : bytes → string).
Context (debug_list : list string → string) (o : Outside).

Definition verify_model_if_required (json_mode : bool) (p : Profile) (file : PolicyFile) (explain_risk : bool)
    (mode : ModelCheckMode) : Flow Shell unit :=
  if negb (production p) then mret tt
  else
    match model_dir (pf_ner file) with
    | None => mret tt
    | Some dir =>
      if explain_risk then write_status_line json_mode "model: skipped (--explain-risk local-only)"
      else
        match mode with
        | Deferred => write_status_line json_mode (String.append "model: deferred (not installed) - " PROVISION)
        | Full =>
          _ ← touch (TouchModel dir);
          match o_verify o dir with
          | Ok _ => writeln Out (concat_str ["model: ok ("; dir; ")"]%string)
          | Err e =>
            _ ← writeln Err_ (concat_str ["model: NOT PROVISIONED ("; dir; "): "; lens_error_display debug_list e; "; "; PROVISION]%string);
            lift (profile_error ["production NER model is not provisioned at "; dir; "; "; PROVISION]%string)
          end
        end
    end.

Definition validate_secret_for_check (p : Profile) : Flow Shell (SecretLocator * option string) :=
  match source p with
  | RemoteMcpLog _ => mret (mkSecretLocator "deferred" "remote credential checked on connection", None)
  | Profile.Mysql db | Profile.Postgres db =>
    _ ← touch (TouchSecret (name p));
    password ← lift (password_of (o_secrets o) p);
    mret (db_locator db, Some password)
  | Profile.Sqlite _ _ _ | SshLog _ _ | LocalLog _ => mret (no_secret, None)
  end.

Definition validate_database (p : Profile) (db_password : option string) : Flow Host unit :=
  '(source, tunnel) ← connect_db_source_with_password (o_processes o) (o_secrets o) p default_db_limit_cap db_password;
  _ ← dropping (o_processes o) tunnel (on_pool (list_tables source));
  mret tt.
Definition validate_source (p : Profile) (db_password : option string) : Flow Shell unit :=
  match source p with
  | RemoteMcpLog c => lift (remote_validate c)
  | Profile.Mysql _ | Profile.Postgres _ | Profile.Sqlite _ _ _ => at_host (validate_database p db_password)
  | SshLog host path =>
    source ← lift (Ssh.new (name p) host path
      (Ssh.mkSshLogCaps (caps_line_bytes default_caps) (caps_bytes default_caps) (caps_timeout default_caps)));
    _ ← touch (TouchSsh (Ssh.source_argv source 1));
    _ ← lift (Ssh.tail source 1 (o_ssh o));
    mret tt
  | LocalLog path =>
    if String.eqb path "" then lift (Err (SourceError (name p) "local_log path must not be empty" None None))
    else
      _ ← touch (TouchFile path);
      lift (map_err (o_open o path) (fun e =>
        SourceError (name p) (concat_str ["failed to open local log "; path; ": "; io_text e]%string) None None))
  end.

(** the report, after a second look at its names *)
Definition render_text (r : TrustReport) : Flow Shell unit :=
  match validate_text_report r with
  | Err e => lift (Err (write_error (lens_error_display debug_list e)))
  | Ok _ => write_lines Out (report_lines r)
  end.
Definition write_report (format : TrustFormat) (r : TrustReport) : Flow Shell unit :=
  match format with
  | TrustText => _ ← lift (validate_text_report r); render_text r
  | TrustJson =>
    let failed e := Internal (String.append "serialize trust report: " e) in
    text ← lift (map_err (report_text r) failed);
    _ ← put_or failed Out text;
    writeln Out ""
  end.
Definition explain (args : CheckArgs) (json_mode : bool) (p : Profile) (v : ValidatedPolicy) : Flow Shell unit :=
  _ ← write_status_line json_mode "secret: skipped (--explain-risk local-only)";
  _ ← write_status_line json_mode "source: skipped (--explain-risk local-only)";
  _ ← write_status_line json_mode "pipeline: skipped (--explain-risk local-only)";
  write_report (format args)
    (build_report expand mode_of sha256 p default_manifest_path default_snapshot_dir
       ((fun pp => (pp_path pp, raw_bytes pp, pp_toml pp)) <$> parsed v)).

(** the secret, the source, and the pipeline unless it was built before *)
Definition check_contacts (p : Profile) (file : PolicyFile) (mode : ModelCheckMode) (pipeline_built : bool) : Flow Shell unit :=
  secret ← caught (validate_secret_for_check p);
  match secret with
  | Err e => _ ← writeln Out (secret_error_line e); lift (Err e)
  | Ok (meta, db_password) =>
    _ ← writeln Out (concat_str ["secret: ok ("; backend meta; " "; identity meta; ")"]%string);
    checked ← caught (validate_source p db_password);
    match checked with
    | Err e => _ ← render_source_error p e; lift (Err e)
    | Ok _ =>
      _ ← writeln Out "source: ok";
      match mode with
      | Deferred => mret tt
      | Full =>
        _ ← (if pipeline_built then mret tt else _ ← lift (build_pipeline_late file); mret tt);
        writeln Out "pipeline: ok"
      end
    end
  end.

(** [profile]: what [load_profile] answers for [ck_profile args] *)
Definition check (args : CheckArgs) (profile : result LensError Profile) (mode : ModelCheckMode) : Flow Shell unit :=
  p ← lift profile;
  let json_mode := explain_risk args && match format args with TrustJson => true | TrustText => false end in
  _ ← write_status_line json_mode (concat_str ["profile: ok ("; name p; ")"]%string);
  _ ← (if allowlist_without_effect p then write_status_line json_mode ALLOWLIST_WARNING else mret tt);
  v ← lift (load_policy_only expand read p);
  pipeline_built ← (if should_build_pipeline_before_policy_status p (explain_risk args) mode
                    then _ ← lift (build_pipeline_late (vp_policy v)); mret true else mret false);
  _ ← write_status_line json_mode "policy: ok";
  _ ← verify_model_if_required json_mode p (vp_policy v) (explain_risk args) mode;
  _ ← (if should_warn_email_regex_only_redaction (vp_policy v)
       then write_status_line json_mode (email_regex_only_redaction_warning p (vp_policy v)) else mret tt);
  if explain_risk args then explain args json_mode p v
  else check_contacts p (vp_policy v) mode pipeline_built.
End Checks.
