(* ===== verification/CheckFacts.v ===== *)
(** * What a check shows

    A profile that passes [check] is one that [serve] accepts, and
    [--explain-risk] looks at the policy file and at nothing else. *)

From S2P Require Import Prelude Utf8 Str SqlQuery SchemaTok Errors LensValue SshArgs LogSource Output Profile Policy Session SessionFacts Tools RemoteWire RemoteService Disk DiskFacts Toml Flow Driver Drivers Database DatabaseFacts Serve ServeFacts Trust Check.

(** ** Flows on the terminal *)

(** the same with another continuation *)
Lemma flow_bind_ext {P A B} (m : Flow P A) (f g : A → Flow P B) p : (∀ x q, f x q = g x q) → (m ≫= f) p = (m ≫= g) p.
Proof. intros E. unfold mbind, Flow_bind. destruct (m p) as [[x|e] q]; [apply E|done]. Qed.

(** nothing is asked of the outside, and only [to] is written *)
Definition Untouched (s s' : Shell) : Prop := touched s' = touched s ∧ host s' = host s.
Definition Grew (to : Stream) (s s' : Shell) : Prop :=
  Untouched s s' ∧ match to with Out => err s' = err s | Err_ => out s' = out s end.
#[export] Instance untouched_preorder : PreOrder Untouched.
Proof. split; [done|]. intros a b c [H1 H2] [H3 H4]. split; congruence. Qed.
#[export] Instance grew_preorder to : PreOrder (Grew to).
Proof.
  split; [by destruct to|]. intros a b c [H1 H2] [H3 H4]. split; [by etrans|]. destruct to; congruence.
Qed.
Lemma put_grows fail to text : Keeps (Grew to) (put_or fail to text).
Proof. intros s. unfold put_or. destruct (writes s) as [|[e|] l], to; done. Qed.
Lemma writeln_grows to line : Keeps (Grew to) (writeln to line).
Proof. apply put_grows. Qed.
Lemma write_lines_grows to lines : Keeps (Grew to) (write_lines to lines).
Proof.
  induction lines as [|line lines IH]; cbn [write_lines]; [apply flow_keeps_ret, _|].
  apply flow_keeps_bind; [apply _|apply writeln_grows|done].
Qed.
Lemma keeps_weaken {P A} (R R' : relation P) (m : Flow P A) : (∀ p q, R p q → R' p q) → Keeps R m → Keeps R' m.
Proof. intros Hr Hm p. apply Hr, Hm. Qed.
#[export] Hint Resolve put_grows writeln_grows write_lines_grows : keeps.
Ltac keeps := repeat (apply flow_keeps_bind; [apply _| |intros ?]); first [apply flow_keeps_ret; apply _|apply keeps_lift; apply _|auto with keeps].

(** what a write adds when it succeeds *)
Lemma put_ok fail to text s s' u :
  put_or fail to text s = (Ok u, s') →
  match to with Out => out s' = String.append (out s) text | Err_ => err s' = String.append (err s) text end.
Proof. unfold put_or. destruct (writes s) as [|[e|] l], to; intros E; by simplify_eq/=. Qed.

(** lines as text *)
Definition unlines (lines : list string) : string := concat_str ((fun l => String.append l newline) <$> lines).
Lemma append_nil a : String.append a "" = a.
Proof. induction a as [|c a IH]; [done|]. change (String c (String.append a "") = String c a). by rewrite IH. Qed.
Lemma append_app a b c : String.append a (String.append b c) = String.append (String.append a b) c.
Proof. induction a as [|x a IH]; [done|]. change (String x (String.append a (String.append b c)) = String x (String.append (String.append a b) c)). by rewrite IH. Qed.
Lemma unlines_app a b : unlines (a ++ b) = String.append (unlines a) (unlines b).
Proof.
  unfold unlines. induction a as [|x a IH]; [done|]. cbn [app fmap list_fmap concat_str].
  by rewrite IH, append_app.
Qed.
Lemma unlines_one l : unlines [l] = String.append l newline.
Proof. unfold unlines. cbn. apply append_nil. Qed.

(** [lines] were added to one of the streams, and nothing else happened *)
Definition text_on (to : Stream) (s : Shell) : string := match to with Out => out s | Err_ => err s end.
Definition Wrote (to : Stream) (lines : list string) (s s' : Shell) : Prop :=
  text_on to s' = String.append (text_on to s) (unlines lines) ∧ Grew to s s'.
Lemma wrote_nil to s : Wrote to [] s s.
Proof. split; [by rewrite append_nil|reflexivity]. Qed.
Lemma wrote_trans to s t u a b : Wrote to a s t → Wrote to b t u → Wrote to (a ++ b) s u.
Proof. intros [Ha ?] [Hb ?]. split; [by rewrite Hb, Ha, unlines_app, append_app|by etrans]. Qed.
Lemma writeln_ok to line s s' u : writeln to line s = (Ok u, s') → Wrote to [line] s s'.
Proof.
  intros E. split.
  - apply put_ok in E. rewrite unlines_one. by destruct to.
  - pose proof (writeln_grows to line s) as Hg. by rewrite E in Hg.
Qed.
Lemma write_lines_ok to lines s s' u : write_lines to lines s = (Ok u, s') → Wrote to lines s s'.
Proof.
  revert s u. induction lines as [|line lines IH]; intros s u; cbn [write_lines].
  - intros [= _ <-]. apply wrote_nil.
  - intros H. flow_open H v q Hv. eapply (wrote_trans _ _ _ _ [line]); [by eapply writeln_ok|by eapply IH].
Qed.
Lemma wrote_if (b : bool) to line s s' u :
  (if b then writeln to line else mret tt) s = (Ok u, s') → Wrote to (if b then [line] else []) s s'.
Proof. destruct b; [apply writeln_ok|]. intros [= _ <-]. apply wrote_nil. Qed.
Lemma wrote_touched to lines s s' : Wrote to lines s s' → touched s' = touched s.
Proof. by intros (_ & [] & _). Qed.

(** ** The policy, checked and served *)
Section Policies.
Context `{GazeBuilder, PolicyToml, TomlValue} (expand : string → result string string).

(** the two ways a policy is read agree: as a document that becomes a policy, or
    at once; spaces around a table's header do not matter *)
Record SameReader : Prop := {
  reads_same : ∀ input file, (∃ v, toml_value input = Ok v ∧ policy_of_value v = Ok file) ↔ from_toml input = Ok file;
  default_same : ∀ file, from_toml (String.append "[policy.database]" newline) = Ok file ↔ default_policy_file = Ok file;
}.

(** what a policy must pass: the checks and the builder decide as [serve] does *)
Lemma checked_decides p file :
  (∃ rt, runtime_of p file = Ok rt) ↔ checked_policy p file = Ok tt ∧ ∃ pl, build_pipeline_late file = Ok pl.
Proof.
  unfold runtime_of, checked_policy, build_pipeline_late, build_pipeline, validate_policy_file.
  destruct (enforce_remote_output_policy p file) as [[]|er]; cbn [mbind result_bind];
    [|split; [by intros (? & [=])|]; intros [Hc _]; by open_bind Hc as v Hv].
  destruct (enforce_production_ner (name p) (production p) file) as [[]|en]; cbn [map_err mbind result_bind];
    [|split; [by intros (? & [=])|]; intros [Hc _]; by open_bind Hc as v Hv].
  destruct (to_gaze_policy file) as [g|eg]; cbn [map_err mbind result_bind]; [|split; [by intros (? & [=])|by intros [[=] _]]].
  destruct (pipeline_steps file) as [steps|es] eqn:Es; cbn [map_err mbind result_bind];
    [|split; [by intros (? & [=])|by intros (_ & ? & [=])]].
  destruct (build_steps steps) as [pl|eb]; cbn [map_err mbind result_bind];
    [|split; [by intros (? & [=])|by intros (_ & ? & [=])]].
  destruct (from_policy_file file) as [ac|ea]; cbn [map_err mbind result_bind];
    [|split; [by intros (? & [=])|by intros [[=] _]]].
  split; [|by eauto]. intros _. split; [|by eauto].
  unfold pipeline_steps in Es. open_bind Es as u Hu. open_bind Es as ner Hner. open_bind Es as cols Hcols.
  open_bind Es as ls Hls. open_bind Es as a Ha. rewrite Ha. cbn [mbind result_bind].
  unfold logs_steps in Hls. destruct (logs file) as [l|]; [|done]. open_bind Hls as st Hst. rewrite Hst. cbn [mbind result_bind].
  destruct (is_nil _); [done|]. open_bind Hls as la Hla. rewrite Hla. done.
Qed.

Lemma calm_read {D} ns (d : D) path :
  read_to_string path (mkWorld ns d []) =
    (Some (b ← read_node ns path;
           match from_utf8 b with Some _ => Ok (str_of b) | None => Err (IoOther "stream did not contain valid UTF-8") end),
     mkWorld ns d []).
Proof.
  unfold read_to_string, mbind at 1, IO_bind, read_file, file_call, call_with. cbn [fates nodes store].
  destruct (read_node ns path) as [c|]; [|done]. cbn [mbind result_bind]. by destruct (from_utf8 c).
Qed.
Lemma calm_load {D} ns (d : D) p file :
  load_policy expand p (mkWorld ns d []) = (Some (Ok file), mkWorld ns d []) ↔ policy_at expand ns p = Some file.
Proof.
  split; [by intros [Hl _]%load_policy_at|]. unfold policy_at, load_policy. destruct (policy p) as [path|].
  - unfold expand_path, of_result. destruct (expand path) as [path'|]; [|done]. cbn [map_err].
    unfold mbind at 1, IO_bind at 1, mbind at 1, IO_bind at 1, io_err, mbind at 1, IO_bind at 1, outcome. rewrite calm_read.
    destruct (read_node ns path') as [c|]; [|done]. cbn [mbind result_bind]. destruct (from_utf8 c); [|done]. unfold of_result.
    cbn [map_err]. destruct (from_toml (str_of c)); [|done]. by intros [= ->].
  - unfold of_result. destruct default_policy_file; [|done]. by intros [= ->].
Qed.

Lemma loaded_decides (Hs : SameReader) ns p file :
  (∃ v, load_policy_only expand (read_node ns) p = Ok v ∧ vp_policy v = file) ↔
  policy_at expand ns p = Some file ∧ checked_policy p file = Ok tt.
Proof.
  unfold load_policy_only, policy_at. destruct (policy p) as [path|].
  - destruct (expand path) as [path'|]; cbn [map_err mbind result_bind]; [|naive_solver].
    destruct (read_node ns path') as [c|]; cbn [map_err mbind result_bind]; [|naive_solver].
    destruct (from_utf8 c); cbn [ok_or mbind result_bind]; [|naive_solver].
    pose proof (reads_same Hs (str_of c)) as Hr. split.
    + intros (v & Hv & <-). open_bind Hv as val Hval. apply map_err_ok in Hval.
      open_bind Hv as f Hf. apply map_err_ok in Hf. open_bind Hv as u Hu. destruct u. injection Hv as <-.
      assert (from_toml (str_of c) = Ok f) as -> by (apply Hr; eauto). done.
    + intros [Hf Hc]. destruct (from_toml (str_of c)) as [f|] eqn:Ef; [|done]. injection Hf as ->.
      destruct (proj2 (Hr file) eq_refl) as (val & -> & Hp). cbn [map_err mbind result_bind]. rewrite Hp.
      cbn [map_err mbind result_bind]. rewrite Hc. cbn [mbind result_bind]. by eexists.
  - pose proof (default_same Hs file) as Hd. split.
    + intros (v & Hv & <-). open_bind Hv as f Hf. apply map_err_ok in Hf. open_bind Hv as u Hu. destruct u.
      injection Hv as <-. cbn [vp_policy] in *. apply Hd in Hf. by rewrite Hf.
    + intros [Hf Hc]. destruct default_policy_file as [f|] eqn:Ef; [|done]. injection Hf as ->.
      rewrite (proj2 Hd eq_refl). cbn [map_err mbind result_bind]. rewrite Hc. cbn [mbind result_bind]. by eexists.
Qed.

(** [check] and [serve] agree on the policies they accept *)
Lemma serve_decides (Hs : SameReader) {D} ns (d : D) p :
  (∃ rt, runtime_policy expand p (mkWorld ns d []) = (Some (Ok rt), mkWorld ns d [])) ↔
  ∃ v pl, load_policy_only expand (read_node ns) p = Ok v ∧ build_pipeline_late (vp_policy v) = Ok pl.
Proof.
  split.
  - intros (rt & Hrt). unfold runtime_policy in Hrt. io_open Hrt file w1 Hf. apply io_result_ok in Hrt as [Hrt <-].
    apply calm_load in Hf. destruct (proj1 (checked_decides p file) (ex_intro _ _ Hrt)) as (Hc & pl & Hpl).
    destruct (proj2 (loaded_decides Hs ns p file) (conj Hf Hc)) as (v & Hv & <-). by exists v, pl.
  - intros (v & pl & Hv & Hpl). destruct (proj1 (loaded_decides Hs ns p (vp_policy v)) (ex_intro _ _ (conj Hv eq_refl))) as [Hf Hc].
    destruct (proj2 (checked_decides p (vp_policy v)) (conj Hc (ex_intro _ _ Hpl))) as (rt & Hrt).
    exists rt. apply (calm_load ns d) in Hf. unfold runtime_policy, mbind, IO_bind. rewrite Hf. unfold of_result. by rewrite Hrt.
Qed.
End Policies.

(** ** The command *)
Section Commands.
Context `{GazeBuilder, PolicyToml, TomlValue, ReportSerde, Sqlx, !Server, RemoteEnv} (expand : string → result string string).
Context (mode_of : string → option N) (sha256 : bytes → string) (debug_list : list string → string).
Abbreviation run ns o := (check expand (read_node ns) mode_of sha256 debug_list o).

(** what a check asks about a source that passes *)
Definition contacts (p : Profile) : list Touch :=
  match source p with
  | Profile.Mysql _ | Profile.Postgres _ => [TouchSecret (name p)]
  | SshLog host path => [TouchSsh (default [] (Ssh.tail_argv host path 1))]
  | LocalLog path => [TouchFile path]
  | RemoteMcpLog _ | Profile.Sqlite _ _ _ => []
  end.
Definition model_contact (p : Profile) (mode : ModelCheckMode) (file : PolicyFile) : list Touch :=
  match model_dir (pf_ner file), mode with
  | Some dir, Full => if production p then [TouchModel dir] else []
  | _, _ => []
  end.

Lemma at_host_touched {A} (m : Flow Host A) s s' r : at_host m s = (r, s') → touched s' = touched s.
Proof. unfold at_host. destruct (m (host s)). by intros [= _ <-]. Qed.
Lemma caught_ok {P A} (m : Flow P A) p q r : caught m p = (Ok r, q) → m p = (r, q).
Proof. unfold caught. destruct (m p) as [r' p']. by intros [= -> ->]. Qed.

Lemma secret_touched o p s s' meta password :
  validate_secret_for_check o p s = (Ok (meta, password), s') →
  touched s' = touched s ++ match source p with Profile.Mysql _ | Profile.Postgres _ => [TouchSecret (name p)] | _ => [] end.
Proof.
  unfold validate_secret_for_check. destruct (source p); intros Hs;
    try (injection Hs as _ _ <-; by rewrite app_nil_r).
  all: flow_open Hs u q Hu; injection Hu as _ <-; flow_open Hs pw q' Hpw; apply flow_lift_ok in Hpw as [_ ->];
    by injection Hs as _ _ <-.
Qed.
Lemma source_touched o p password s s' u :
  validate_source o p password s = (Ok u, s') →
  touched s' = touched s ++ match source p with
    | SshLog host path => [TouchSsh (default [] (Ssh.tail_argv host path 1))]
    | LocalLog path => [TouchFile path] | _ => [] end.
Proof.
  unfold validate_source. destruct (source p) as [c|db|db|path ro cols|h path|path]; intros Hs.
  - apply flow_lift_ok in Hs as [_ ->]. by rewrite app_nil_r.
  - rewrite app_nil_r. by eapply at_host_touched.
  - rewrite app_nil_r. by eapply at_host_touched.
  - rewrite app_nil_r. by eapply at_host_touched.
  - flow_open Hs src q Hsrc. apply flow_lift_ok in Hsrc as [Hsrc ->].
    flow_open Hs v q Hv. injection Hv as _ <-. flow_open Hs w q Hw. apply flow_lift_ok in Hw as [_ ->].
    injection Hs as _ <-. cbn [touched]. unfold Ssh.new in Hsrc.
    open_bind Hsrc as a Ha. open_bind Hsrc as b Hb. by injection Hsrc as <-.
  - destruct (String.eqb path ""); [by apply flow_lift_ok in Hs as [[=] _]|].
    flow_open Hs v q Hv. injection Hv as _ <-. by apply flow_lift_ok in Hs as [_ ->].
Qed.

Lemma contacts_ok o p file mode built s s' u :
  check_contacts o p file mode built s = (Ok u, s') →
  touched s' = touched s ++ contacts p ∧ (built = false → mode = Full → ∃ pl, build_pipeline_late file = Ok pl).
Proof.
  unfold check_contacts. intros Hc. flow_open Hc sec q Hsec. apply caught_ok in Hsec.
  destruct sec as [[meta pw]|e]; [|flow_open Hc v q' Hv; by apply flow_lift_ok in Hc as [[=] _]].
  apply secret_touched in Hsec. flow_open Hc v1 q1 Hv1. apply writeln_ok, wrote_touched in Hv1.
  flow_open Hc src q2 Hsrc. apply caught_ok in Hsrc.
  destruct src as [v2|e]; [|flow_open Hc v q' Hv; by apply flow_lift_ok in Hc as [[=] _]].
  apply source_touched in Hsrc. flow_open Hc v3 q3 Hv3. apply writeln_ok, wrote_touched in Hv3.
  assert (Ht : touched q3 = touched s ++ contacts p).
  { rewrite Hv3, Hsrc, Hv1, Hsec, <- app_assoc. f_equal. unfold contacts. by destruct (source p). }
  destruct mode; [|by injection Hc as _ <-]. flow_open Hc v4 q4 Hv4. apply writeln_ok, wrote_touched in Hc. destruct built.
  - injection Hv4 as _ <-. split; [congruence|done].
  - flow_open Hv4 pl q5 Hpl. apply flow_lift_ok in Hpl as [Hpl ->]. injection Hv4 as _ <-. split; [congruence|by eauto].
Qed.
(** the model of a production profile is looked at, and is what the verifier accepts *)
Lemma verified o json_mode p file mode s s' u :
  verify_model_if_required debug_list o json_mode p file false mode s = (Ok u, s') →
  touched s' = touched s ++ model_contact p mode file ∧
  (mode = Full → production p = true → ∀ dir, model_dir (pf_ner file) = Some dir → o_verify o dir = Ok tt).
Proof.
  unfold verify_model_if_required, model_contact. intros Hv. destruct (production p); cbn [negb] in *;
    [|injection Hv as _ <-; split; [destruct (model_dir _), mode; by rewrite app_nil_r|done]].
  destruct (model_dir (pf_ner file)) as [dir|]; [|injection Hv as _ <-; split; [by rewrite app_nil_r|done]].
  destruct mode; [|apply writeln_ok, wrote_touched in Hv; by rewrite app_nil_r].
  flow_open Hv v q Hq. injection Hq as _ <-. destruct (o_verify o dir) as [[]|e] eqn:Ev.
  - apply writeln_ok, wrote_touched in Hv. split; [exact Hv|]. by intros _ _ ? [= <-].
  - flow_open Hv w q Hw. by apply flow_lift_ok in Hv as [? _].
Qed.

(** what a check that passes has done, in either mode *)
Lemma checked_ok ns o args pr mode s u s' :
  explain_risk args = false → run ns o args pr mode s = (Ok u, s') →
  ∃ p v, pr = Ok p ∧ load_policy_only expand (read_node ns) p = Ok v ∧
    (mode = Full → ∃ pl, build_pipeline_late (vp_policy v) = Ok pl) ∧
    touched s' = touched s ++ model_contact p mode (vp_policy v) ++ contacts p ∧
    (mode = Full → production p = true → ∀ dir, model_dir (pf_ner (vp_policy v)) = Some dir → o_verify o dir = Ok tt).
Proof.
  unfold check. intros Hx Hc. rewrite Hx in Hc. cbn [andb] in Hc.
  flow_open Hc p q Hp. apply flow_lift_ok in Hp as [-> ->].
  flow_open Hc u1 q1 Hw1. apply writeln_ok, wrote_touched in Hw1.
  flow_open Hc u2 q2 Hw2. apply wrote_if, wrote_touched in Hw2.
  flow_open Hc v q3 Hv. apply flow_lift_ok in Hv as [Hv ->].
  flow_open Hc built q4 Hb.
  assert (q4 = q2 ∧ (built = true → ∃ pl, build_pipeline_late (vp_policy v) = Ok pl)) as [-> Hbuilt].
  { destruct (should_build_pipeline_before_policy_status _ _ _); [|by injection Hb as <- <-].
    flow_open Hb pl q5 Hpl. apply flow_lift_ok in Hpl as [Hpl ->]. injection Hb as <- <-. by eauto. }
  flow_open Hc u4 q4 Hw4. apply writeln_ok, wrote_touched in Hw4.
  flow_open Hc u5 q5 Hw5. apply verified in Hw5 as [Hw5 Hver].
  flow_open Hc u6 q6 Hw6. apply wrote_if, wrote_touched in Hw6.
  apply contacts_ok in Hc as [Hc Hlate].
  exists p, v. split_and!; [done|done|intros ->; destruct built; auto| |done].
  rewrite Hc, Hw6, Hw5, Hw4, Hw2, Hw1. by rewrite <- !app_assoc.
Qed.

(** C22. A profile that passes the whole of [check] is one that [serve] accepts:
    its policy file loads, a pipeline is built of it, and it passed the checks
    of [served_fail_closed]; what is refused there is refused by [check].  What
    was asked beyond the policy file is the verifier, for the model of a
    production profile, which it accepts, and then the secret and the source
    of this profile, once each and in this order: one [ssh] command of an ssh
    log, the file of a local log.  The verifier that is shipped accepts no
    model, so with it no production profile passes. *)
Theorem check_predicts_serve (Hs : SameReader) {D} ns (d : D) o args pr s u s' :
  explain_risk args = false → run ns o args pr Full s = (Ok u, s') →
  ∃ p file rt, pr = Ok p ∧ policy_at expand ns p = Some file ∧
    runtime_policy expand p (mkWorld ns d []) = (Some (Ok rt), mkWorld ns d []) ∧ Checked p file rt ∧
    touched s' = touched s ++ model_contact p Full file ++ contacts p ∧
    (production p = true → ∃ dir, model_dir (pf_ner file) = Some dir ∧ o_verify o dir = Ok tt) ∧
    (o_verify o = deferred_verify → production p = false).
Proof.
  intros Hx Hc. destruct (checked_ok _ _ _ _ _ _ _ _ Hx Hc) as (p & v & -> & Hv & Hlate & Ht & Hver).
  destruct (Hlate eq_refl) as (pl & Hpl).
  destruct (proj1 (loaded_decides expand Hs ns p _) (ex_intro _ _ (conj Hv eq_refl))) as [Hf _].
  destruct (proj2 (serve_decides expand Hs ns d p) (ex_intro _ _ (ex_intro _ _ (conj Hv Hpl)))) as (rt & Hrt).
  assert (Hck : Checked p (vp_policy v) rt).
  { unfold runtime_policy in Hrt. io_open Hrt file w1 Hl. apply io_result_ok in Hrt as [Hrt _].
    apply load_policy_at in Hl as [Hl _]. cbn [nodes] in Hl. rewrite Hf in Hl. injection Hl as <-. by apply runtime_checked. }
  assert (Hmodel : production p = true → ∃ dir, model_dir (pf_ner (vp_policy v)) = Some dir ∧ o_verify o dir = Ok tt).
  { intros Hprod. destruct Hck as (_ & _ & Hm). destruct (model_dir _) as [dir|] eqn:Em; [|by destruct (Hm Hprod)].
    exists dir. split; [done|]. by eapply Hver. }
  exists p, (vp_policy v), rt. split_and!; [done|done|done|done| |done|].
  - exact Ht.
  - intros Ho. destruct (production p); [|done]. destruct Hmodel as (dir & _ & Hd); [done|]. by rewrite Ho in Hd.
Qed.

(** ** [--explain-risk] *)
Lemma put_untouched fail to text : Keeps Untouched (put_or fail to text).
Proof. eapply keeps_weaken; [|apply put_grows]. by intros p q []. Qed.
Lemma writeln_untouched to line : Keeps Untouched (writeln to line).
Proof. apply put_untouched. Qed.
Lemma write_lines_untouched to lines : Keeps Untouched (write_lines to lines).
Proof. eapply keeps_weaken; [|apply write_lines_grows]. by intros p q []. Qed.
#[local] Hint Resolve put_untouched writeln_untouched write_lines_untouched : keeps.

(** what is asked of the outside does not matter, nor whether the model is looked at *)
Lemma explain_any_outside ns o o' args pr mode mode' s :
  explain_risk args = true → run ns o args pr mode s = run ns o' args pr mode' s.
Proof.
  intros Hx. unfold check. rewrite Hx. cbn [andb]. do 3 (apply flow_bind_ext; intros ??).
  apply flow_bind_ext. intros ??. unfold should_build_pipeline_before_policy_status.
  cbn [negb]. rewrite andb_false_r. cbn [andb]. do 2 (apply flow_bind_ext; intros ??).
  apply flow_bind_ext. intros ??. done.
Qed.
Lemma explain_keeps_untouched ns o args pr mode :
  explain_risk args = true → Keeps Untouched (run ns o args pr mode).
Proof.
  intros Hx. unfold check. rewrite Hx. unfold should_build_pipeline_before_policy_status. cbn [negb].
  unfold verify_model_if_required, explain, write_report, render_text, write_status_line.
  do 3 (keeps; repeat case_match).
  all: by rewrite andb_false_r in *.
Qed.

(** the lines before the report *)
Definition model_lines (p : Profile) (file : PolicyFile) : list string :=
  if production p && bool_decide (is_Some (model_dir (pf_ner file)))
  then ["model: skipped (--explain-risk local-only)"%string] else [].
Definition explain_status (p : Profile) (file : PolicyFile) : list string :=
  [concat_str ["profile: ok ("; name p; ")"]%string] ++
  (if allowlist_without_effect p then [ALLOWLIST_WARNING] else []) ++ ["policy: ok"%string] ++ model_lines p file ++
  (if should_warn_email_regex_only_redaction file then [email_regex_only_redaction_warning p file] else []) ++
  ["secret: skipped (--explain-risk local-only)"; "source: skipped (--explain-risk local-only)";
   "pipeline: skipped (--explain-risk local-only)"]%string.
Definition report_of (p : Profile) (v : ValidatedPolicy) : TrustReport :=
  build_report expand mode_of sha256 p default_manifest_path default_snapshot_dir
    ((fun pp => (pp_path pp, raw_bytes pp, pp_toml pp)) <$> parsed v).

Lemma model_skipped o json_mode p file mode s s' u :
  verify_model_if_required debug_list o json_mode p file true mode s = (Ok u, s') →
  Wrote (status_stream json_mode) (model_lines p file) s s'.
Proof.
  unfold verify_model_if_required, model_lines. destruct (production p); cbn [negb andb];
    [|intros [= _ <-]; apply wrote_nil].
  destruct (model_dir _); cbn; [apply writeln_ok|intros [= _ <-]; apply wrote_nil].
Qed.
Lemma explain_wrote ns o args pr mode s u s' :
  explain_risk args = true → run ns o args pr mode s = (Ok u, s') →
  ∃ p v t, pr = Ok p ∧ load_policy_only expand (read_node ns) p = Ok v ∧
    let json := match format args with TrustJson => true | TrustText => false end in
    Wrote (status_stream json) (explain_status p (vp_policy v)) s t ∧
    write_report debug_list (format args) (report_of p v) t = (Ok u, s').
Proof.
  unfold check. intros Hx Hc. rewrite Hx in Hc. cbn [andb] in Hc.
  flow_open Hc p q Hp. apply flow_lift_ok in Hp as [-> ->].
  flow_open Hc u1 q1 Hw1. apply writeln_ok in Hw1.
  flow_open Hc u2 q2 Hw2. apply wrote_if in Hw2.
  flow_open Hc v q3 Hv. apply flow_lift_ok in Hv as [Hv ->].
  flow_open Hc built q4 Hb. unfold should_build_pipeline_before_policy_status in Hb. cbn [negb] in Hb.
  rewrite andb_false_r in Hb. injection Hb as _ <-.
  flow_open Hc u4 q4 Hw4. apply writeln_ok in Hw4.
  flow_open Hc u5 q5 Hw5. apply model_skipped in Hw5.
  flow_open Hc u6 q6 Hw6. apply wrote_if in Hw6. unfold explain in Hc.
  flow_open Hc u7 q7 Hw7. apply writeln_ok in Hw7. flow_open Hc u8 q8 Hw8. apply writeln_ok in Hw8.
  flow_open Hc u9 q9 Hw9. apply writeln_ok in Hw9.
  exists p, v, q9. split_and!; [done|done| |exact Hc]. unfold explain_status.
  do 5 (eapply wrote_trans; [eassumption|]).
  eapply (wrote_trans _ _ _ _ [_]); [eassumption|]. eapply (wrote_trans _ _ _ _ [_]); eassumption.
Qed.
Lemma report_wrote p v fmt s s' u :
  write_report debug_list fmt (report_of p v) s = (Ok u, s') →
  match fmt with
  | TrustJson => ∃ text, report_text (report_of p v) = Ok text ∧ Wrote Out [text] s s'
  | TrustText => is_safe_profile_name (name p) = true ∧ Wrote Out (report_lines (report_of p v)) s s'
  end.
Proof.
  unfold write_report. destruct fmt; intros Hr.
  - flow_open Hr u1 q1 Hv. apply flow_lift_ok in Hv as [Hv ->]. unfold render_text in Hr. rewrite Hv in Hr.
    split; [|by eapply write_lines_ok]. unfold validate_text_report, validate_rendered_profile_name in Hv.
    change (tr_profile (report_of p v)) with (name p) in Hv. by destruct (is_safe_profile_name (name p)).
  - flow_open Hr txt q1 Ht. apply flow_lift_ok in Ht as [Ht ->]. apply map_err_ok in Ht. exists txt. split; [done|].
    flow_open Hr u2 q2 Hp. split.
    + apply put_ok in Hp, Hr. cbn [text_on]. by rewrite Hr, Hp, unlines_one, (append_app (out s)).
    + pose proof (put_grows (fun e => Internal (String.append "serialize trust report: " e)) Out txt s) as G. rewrite Hp in G. etrans; [exact G|].
      pose proof (writeln_grows Out "" q2) as G'. by rewrite Hr in G'.
Qed.

(** C38. [check --explain-risk] is local: the answer is the same whatever the
    verifier, the environment, the keyring, ssh, the databases and the files
    would answer, and whether or not the model is to be looked at; none of them
    is asked, in a failing run neither.  A run that succeeds has loaded and
    checked the policy, and shows what it skipped and the trust report of this
    profile and this policy: as text on standard output, under a name of the
    allowed form; or as JSON, with nothing but the report on standard output
    and the other lines on standard error. *)
Theorem explain_risk_is_local ns o o' args pr mode mode' s :
  explain_risk args = true →
  run ns o args pr mode s = run ns o' args pr mode' s ∧
  Untouched s (run ns o args pr mode s).2 ∧
  ∀ u s', run ns o args pr mode s = (Ok u, s') →
    ∃ p v, pr = Ok p ∧ load_policy_only expand (read_node ns) p = Ok v ∧
    let status := explain_status p (vp_policy v) in
    match format args with
    | TrustText =>
      is_safe_profile_name (name p) = true ∧
      out s' = String.append (out s) (unlines (status ++ report_lines (report_of p v))) ∧ err s' = err s
    | TrustJson =>
      ∃ text, report_text (report_of p v) = Ok text ∧
      out s' = String.append (out s) (unlines [text]) ∧ err s' = String.append (err s) (unlines status)
    end.
Proof.
  intros Hx. split_and!; [by apply explain_any_outside|by apply explain_keeps_untouched|].
  intros u s' Hr. destruct (explain_wrote _ _ _ _ _ _ _ _ Hx Hr) as (p & v & t & Hp & Hv & Hw & Ht). cbv zeta in Hw.
  exists p, v. split; [done|]. split; [done|]. cbv zeta. apply report_wrote in Ht. destruct (format args).
  - destruct Ht as [Hn Ht]. split; [done|]. destruct (wrote_trans _ _ _ _ _ _ Hw Ht) as [Ho [_ He]]. done.
  - destruct Ht as (txt & Hj & [Ho [_ He]]), Hw as [Ho' [_ He']]. exists txt. cbn in *.
    split_and!; [done|by rewrite Ho, He'|by rewrite He].
Qed.
End Commands.

(** ** A production profile of an ssh log *)
Module CheckRun.
#[local] Instance gaze : GazeBuilder := sample_gaze.
Definition file : PolicyFile :=
  mkPolicyFile (pf_session sample_policy) (mkNerSection (Some "/models/ner"%string) None) (default_action sample_policy)
    (column_rules sample_policy) (logs sample_policy).
#[local] Instance a_toml : PolicyToml := {| from_toml _ := Ok file |}.
#[local] Instance a_value : TomlValue :=
  {| toml_value s := Ok (TLeaf s); policy_of_value _ := Ok file; utf8_error _ := "bad byte"%string |}.
#[local] Instance a_serde : ReportSerde := {| report_text r := Ok (tr_profile r) |}.
#[local] Existing Instances DatabaseFacts.Run.texts DatabaseFacts.Run.server.
#[local] Instance nowhere : RemoteEnv := {|
  socket_addr_ok _ := false; server_name_ok _ := false; RemoteService.env_var _ := None; RemoteService.keyring_password _ _ := None; tail_args_of _ := None |}.
Definition app : Profile :=
  mkProfile "app" (SshLog "deploy@app01" "/var/log/app.log") None None None None None (Some "/p.toml"%string) None None true None Off.
Definition nodes_ : Nodes := {["/p.toml"%string := FileNode [] 420]}.
Definition accepting : Outside :=
  mkOutside (fun _ => Ok tt) (mkSecrets (fun _ => None) (fun _ _ => Err (Internal "no keyring")))
    (mkProcesses "/tmp" 7 (fun _ _ => Ok (Some 0%Z)) (fun _ => None) (fun _ => Ok tt)) (fun _ => Ssh.Exited (Some 0%Z) [] []) (fun _ => Ok tt).
Definition fresh_shell : Shell := mkShell "" "" [] [] (mkHost (new_pool []) []).
Definition checked (o : Outside) (args : CheckArgs) :=
  check Ok (read_node nodes_) (fun _ => None) (fun _ => "ab"%string) (String.concat ",") o args (Ok app) Full fresh_shell.
Definition whole : CheckArgs := mkCheckArgs "app" false TrustText.
Definition local : CheckArgs := mkCheckArgs "app" true TrustJson.
Definition ssh_touch : Touch := TouchSsh (default [] (Ssh.tail_argv "deploy@app01" "/var/log/app.log" 1)).

Lemma check_predicts_serve_witness :
  (∃ rt, Checked app file rt) ∧ touched (checked accepting whole).2 = [TouchModel "/models/ner"; ssh_touch].
Proof.
  assert (Hs : SameReader) by (split; [intros ? ?; split; [by intros (? & _ & [= <-])|intros [= <-]; by eexists]|intros ?; split; by intros [= <-]]).
  assert (Hr : checked accepting whole = (Ok tt, (checked accepting whole).2)) by (vm_compute; reflexivity).
  destruct (check_predicts_serve Ok (fun _ => None) (fun _ => "ab"%string) (String.concat ",") Hs nodes_ tt accepting
    whole (Ok app) fresh_shell tt _ eq_refl Hr) as (p & f & rt & Hp & Hf & _ & Hc & Ht & _).
  injection Hp as <-. vm_compute in Hf. injection Hf as <-. split; [by exists rt|]. exact Ht.
Defined.

Lemma explain_risk_is_local_witness :
  (checked accepting local).1 = Ok tt ∧ out (checked accepting local).2 = String.append "app" newline ∧
  touched (checked accepting local).2 = [].
Proof.
  assert (Hr : checked accepting local = (Ok tt, (checked accepting local).2)) by (vm_compute; reflexivity).
  destruct (explain_risk_is_local Ok (fun _ => None) (fun _ => "ab"%string) (String.concat ",") nodes_ accepting accepting
    local (Ok app) Full Full fresh_shell eq_refl) as (_ & Hu & Hok).
  destruct (Hok _ _ Hr) as (p & v & [= <-] & _ & text & [= <-] & Ho & _).
  split; [by rewrite Hr|]. split; [exact Ho|]. exact (proj1 Hu).
Defined.
End CheckRun.
