(* ===== verification/Config.v ===== *)
(** * Profile files

    The reading of profiles in src/src/profile.rs: which files, in which order,
    the look at their shape before they are read, the position in an error.
    TOML and the expansion of paths are arguments. *)

From S2P Require Import Prelude Utf8 Str Errors LensValue Profile Policy Disk DiskFacts Toml Serve.

Class ConfigToml := {
  (** the [name] and whether there is a [source], of each profile; and the profiles *)
  profile_shapes : string → result TomlError (list (option string * bool));
  profile_file : string → result TomlError (list Profile);
}.

Definition profile_parse_error (label path input : string) (e : TomlError) : LensError :=
  let location := match span_start e with
    | Some start =>
      let '(line, column) := line_column_from_input input start in
      concat_str [" at line "; num line; ", column "; num column]
    | None => ""
    end%string in
  Errors.Profile (concat_str ["failed to parse "; label; " "; path; location; ": "; toml_message e]%string).

Section Files.
Context `{ConfigToml} {D : Type} (expand : string → result string string).

Fixpoint shapes_ok (label path : string) (index : N) (shapes : list (option string * bool)) : result LensError unit :=
  match shapes with
  | [] => Ok tt
  | (n, has_source) :: shapes =>
    let n := default (concat_str ["<profile "; num (index + 1); ">"]%string) n in
    if has_source then shapes_ok label path (index + 1) shapes
    else profile_error [label; " "; path; " profile `"; n; "` is missing required field `source`"]%string
  end.
Definition validate_profile_shape (input label path : string) : result LensError unit :=
  shapes ← map_err (profile_shapes input) (profile_parse_error label path input);
  shapes_ok label path 0 shapes.

Definition expand_config_path (path : string) : result LensError string :=
  map_err (expand path) (fun e => Errors.Profile (concat_str ["failed to expand path "; path; ": "; e]%string)).
Definition read_profiles_if_exists (path label : string) (required : bool) : IO D LensError (list Profile) :=
  expanded ← of_result (expand_config_path path);
  there ← io_err (exists_ expanded) (fun e => Errors.Profile (io_text e));
  if negb there then of_result (if required then Err (ProfileNotFound label expanded) else Ok [])
  else
    input ← io_err (read_to_string expanded) (fun e =>
      Errors.Profile (concat_str ["failed to read "; label; " "; expanded; ": "; io_text e]%string));
    _ ← of_result (validate_profile_shape input label expanded);
    of_result (map_err (profile_file input) (profile_parse_error label expanded input)).

Definition default_user_config_path : string := "~/.gaze-lens/profiles.toml".
Definition default_project_config_path : string := ".gaze-lens.toml".
(** the user's file, then the project's, which must be there if it was named *)
Definition load_configs (project_config user_config : option string) : IO D LensError (list Profile * list MergeWarning) :=
  user ← read_profiles_if_exists (default default_user_config_path user_config) "user profile config" false;
  project ← read_profiles_if_exists (default default_project_config_path project_config) "project profile config"
    (bool_decide (is_Some project_config));
  of_result (load_profiles_with_warnings (Ok user) (Ok project)).
(** with the lines that are written to standard error *)
Definition load_profiles (project_config user_config : option string) : IO D LensError (list Profile * list string) :=
  '(profiles, warnings) ← load_configs project_config user_config;
  mret (profiles, warning_message <$> warnings).
Definition load_profile_from (n : string) (project_config user_config : option string) : IO D LensError (Profile * list string) :=
  '(profiles, lines) ← load_profiles project_config user_config;
  p ← of_result (ok_or (head (filter (fun p => name p = n) profiles))
        (Errors.Profile (concat_str ["profile `"; n; "` not found"]%string)));
  mret (p, lines).

End Files.

(** ** Reading profiles

    What is loaded was in a file, passed the check of its shape, and no file
    is changed. *)

Section Facts.
Context `{ConfigToml} {D : Type} (expand : string → result string string).

(** the profiles of a file as it is *)
Definition In_file (ns : Nodes) (path label : string) (ps : list Profile) : Prop :=
  ∃ q b, expand path = Ok q ∧ read_node ns q = Ok b ∧ from_utf8 b ≠ None ∧
    validate_profile_shape (str_of b) label q = Ok tt ∧ profile_file (str_of b) = Ok ps.
Lemma read_ok path label required (w w' : World D) ps :
  read_profiles_if_exists expand path label required w = (Some (Ok ps), w') →
  nodes w' = nodes w ∧ (required = false ∧ ps = [] ∨ In_file (nodes w) path label ps).
Proof.
  unfold read_profiles_if_exists. intros Hr. io_open Hr q w1 Hq. apply io_result_ok in Hq as [Hq ->]. apply map_err_ok in Hq.
  io_open Hr there w1 Ht. apply io_err_ok in Ht. assert (nodes w1 = nodes w) as En1.
  { unfold exists_ in Ht. io_open Ht r w2 Hx. injection Ht as _ <-. unfold outcome, file_call, call_with in Hx.
    destruct (fates w) as [|[] fs]; cbn in Hx; by simplify_eq/=. }
  destruct there; cbn [negb] in Hr.
  - io_open Hr input w2 Hi. apply io_err_ok in Hi. unfold read_to_string in Hi. io_open Hi b w3 Hb.
    apply io_look_ok in Hb as [Hb En]. destruct (from_utf8 b) eqn:Eu; [|done]. injection Hi as <- <-.
    io_open Hr u w4 Hs. apply io_result_ok in Hs as [Hs ->]. apply io_result_ok in Hr as [Hf ->]. apply map_err_ok in Hf.
    destruct u. split; [congruence|]. right. exists q, b. rewrite En1 in Hb. split_and!; [done|done|congruence|done|done].
  - apply io_result_ok in Hr as [Hr ->]. split; [done|]. left. destruct required; [done|]. by injection Hr as <-.
Qed.

(** the profiles of both files, merged *)
Lemma configs_ok project user (w w' : World D) merged warnings :
  load_configs expand project user w = (Some (Ok (merged, warnings)), w') →
  nodes w' = nodes w ∧ ∃ us ps,
    load_profiles_with_warnings (Ok us) (Ok ps) = Ok (merged, warnings) ∧
    (us = [] ∨ In_file (nodes w) (default default_user_config_path user) "user profile config" us) ∧
    (ps = [] ∧ project = None ∨ In_file (nodes w) (default default_project_config_path project) "project profile config" ps).
Proof.
  unfold load_configs. intros Hl. io_open Hl us w1 Hu. io_open Hl ps w2 Hp. apply io_result_ok in Hl as [Hm ->].
  apply read_ok in Hu as [En1 Hu], Hp as [En2 Hp]. rewrite En1 in *. split; [done|]. exists us, ps.
  split_and!; [done|naive_solver|]. destruct Hp as [[Hn ->]|Hp]; [|by right]. left. split; [done|].
  apply bool_decide_eq_false in Hn. by apply eq_None_not_Some.
Qed.
Lemma profile_ok n project user (w w' : World D) p lines :
  load_profile_from expand n project user w = (Some (Ok (p, lines)), w') →
  nodes w' = nodes w ∧ name p = n ∧ ∃ merged warnings w1,
    load_configs expand project user w = (Some (Ok (merged, warnings)), w1) ∧ p ∈ merged ∧
    head (filter (fun p => name p = n) merged) = Some p.
Proof.
  unfold load_profile_from. intros Hl. io_open Hl pl w1 Hp. destruct pl as [ps ls]. io_open Hl q w2 Hq.
  apply io_result_ok in Hq as [Hq ->]. injection Hl as -> <- <-. unfold load_profiles in Hp.
  io_open Hp mw w2 Hm. destruct mw as [merged warnings]. injection Hp as <- _ <-.
  pose proof (configs_ok _ _ _ _ _ _ Hm) as [En _]. apply ok_or_ok in Hq.
  assert (Hin : p ∈ filter (fun p => name p = n) merged) by (destruct (filter _ merged); [done|injection Hq as ->; by left]).
  apply list_elem_of_filter in Hin as [Hn Hin]. split_and!; [done|done|]. by exists merged, warnings, w2.
Qed.
End Facts.
