(* ===== verification/QueryCli.v ===== *)
(** * The query command

    Models src/src/cli/query.rs: the session of one database profile, built
    at once, and one call of its [query] tool, printed as JSON.

    What the call itself does to the manifest and the database is the envelope's,
    an argument; the signal that interrupts the command is an argument, too. *)

From S2P Require Import Prelude Str SqlQuery SchemaTok Errors LensValue SshArgs LogSource Output Profile Policy Session SessionFacts Tools RemoteWire RemoteService Disk DiskFacts Manifest Retention Toml Flow Driver Drivers Database DatabaseFacts Serve ServeFacts Dto Frontend Config.

Inductive QueryFormat := PrettyJson | CompactJson.
Inductive QueryWhereCombinator := CliAnd | CliOr.
Definition where_combinator_of (c : QueryWhereCombinator) : WhereCombinator := match c with CliAnd => WAnd | CliOr => WOr end.
Record QueryArgs := mkQueryArgs {
  q_profile : string; q_manifest : string; q_snapshot_dir : string; q_table : string; q_columns : list string;
  where_json : option string; q_combinator : option QueryWhereCombinator; order_by_json : option string;
  q_limit : option N; q_format : QueryFormat }.

Definition validate_query_limit (limit : option N) (cap : N) : result LensError unit :=
  match limit with
  | Some requested =>
    if cap <? requested
    then profile_error ["query limit "; num requested; " exceeds row cap "; num cap]%string
    else Ok tt
  | None => Ok tt
  end.
(** [from_str]: the reader of the argument, or the text of its error *)
Definition parse_json_arg {A} (from_str : string → result string A) (input : option string) (n : string)
  : result LensError (option A) :=
  match input with
  | None => Ok None
  | Some input =>
    Some <$> map_err (from_str input) (fun e => Errors.Profile (concat_str ["failed to parse "; n; ": "; e]%string))
  end.
Class CliJson := {
  where_from_str : string → result string (list WhereClause);
  order_from_str : string → result string (list OrderBy);
  pretty : json → string;
}.

(** ** The process: files, hosts and the terminal *)
Record Process := mkProcess { disk : World Db; net : Host; printed : list string; complained : list string }.
(** [None]: the process halted *)
Definition Cmd (A : Type) : Type := Process → option (result LensError A) * Process.
#[export] Instance Cmd_ret : MRet Cmd := fun A a p => (Some (Ok a), p).
#[export] Instance Cmd_bind : MBind Cmd := fun A B f m p =>
  match m p with
  | (Some (Ok a), p) => f a p
  | (Some (Err e), p) => (Some (Err e), p)
  | (None, p) => (None, p)
  end.
Definition pure {A} (r : result LensError A) : Cmd A := fun p => (Some r, p).
Definition on_disk {A} (m : IO Db LensError A) : Cmd A := fun p =>
  let '(r, w) := m (disk p) in (r, mkProcess w (net p) (printed p) (complained p)).
Definition on_net {A} (m : Flow Host A) : Cmd A := fun p =>
  let '(r, h) := m (net p) in (Some r, mkProcess (disk p) h (printed p) (complained p)).
Definition println (line : string) : Cmd unit := fun p =>
  (Some (Ok tt), mkProcess (disk p) (net p) (printed p ++ [line]) (complained p)).
Definition eprintlns (lines : list string) : Cmd unit := fun p =>
  (Some (Ok tt), mkProcess (disk p) (net p) (printed p) (complained p ++ lines)).

Definition SOURCE_HINT (n : string) : string :=
  concat_str ["source failed while connecting/querying profile `"; n;
    "`. If the database host is private, configure source ssh_host/local_port or rerun `gaze-lens init` with tunnel settings."]%string.
Definition annotate_source_error {A} (n : string) (m : Cmd A) : Cmd A := fun p =>
  match m p with
  | (Some (Err (SourceError a b c d)), p) =>
    (Some (Err (SourceError a b c d)), mkProcess (disk p) (net p) (printed p) (complained p ++ [SOURCE_HINT n]))
  | out => out
  end.
(** [QueryStatus::start]: on a terminal a line that is wiped again *)
Definition query_status (terminal : bool) : Cmd unit := if terminal then mret tt else eprintlns ["Running query..."%string].

Section Command.
Context `{GazeBuilder, PolicyToml, ConfigToml, Ulids, Sqlx, !Server, RemoteEnv, CliJson, FloatText, JsonText, DiscoverySerde}.
Context (expand : string → result string string) (now : option N) (clock : string → option N).
Context (gaze : GazePolicy → result string unit) (ids : string * string) (w : Processes) (secrets : Secrets).
Definition Connected : Type := DbSourceWrapper * option SshTunnel.
Abbreviation DbSession := (Session Pipeline Connected Connected).

(** everything of [build_db_session] before the connection, with the directory
    the session keeps *)
Definition prepare_db_session (n : string) (project_config user_config : option string) (manifest_arg snapshot_dir_arg : string)
  : Cmd (Profile * DbSession * string) :=
  '(p, warnings) ← on_disk (load_profile_from expand n project_config user_config);
  _ ← eprintlns warnings;
  manifest ← pure (Serve.expand_path expand manifest_arg);
  snapshot_dir ← pure (Serve.expand_path expand snapshot_dir_arg);
  _ ← on_disk (apply_retention_policy p manifest now clock);
  rt ← on_disk (runtime_policy expand p);
  _ ← pure (build_gaze_session Conversation (gaze (rt_policy rt)));
  _ ← on_disk (manifest_new manifest ids.1 ids.2 now);
  s ← pure (new_with_pipeline_for_profile Conversation (gaze (rt_policy rt)) (Ok tt) (rt_pipeline rt) (name p));
  s ← pure (register_column_action_policy s (name p) (rt_actions rt));
  mret (p, s, snapshot_dir).
Definition not_a_database (n : string) : LensError :=
  Errors.Profile (concat_str ["profile `"; n; "` is not a database source"]%string).
Definition connect_profile (n : string) (p : Profile) : Flow Host Connected :=
  match source p with
  | Profile.Mysql _ | Profile.Postgres _ | Profile.Sqlite _ _ _ =>
    '(inner, tunnel) ← connect_db_source w secrets p default_db_limit_cap;
    let view := if schema_tokenize_or_default p then TokenizedSchema (Profile.schema_allowlist p) else RawSchema in
    mret (mkWrapper inner view, tunnel)
  | SshLog _ _ | LocalLog _ | RemoteMcpLog _ => lift (Err (not_a_database n))
  end.
Definition build_db_session (n : string) (project_config user_config : option string) (manifest_arg snapshot_dir_arg : string)
  : Cmd (DbSession * string) :=
  '(p, s, snapshot_dir) ← prepare_db_session n project_config user_config manifest_arg snapshot_dir_arg;
  source ← on_net (connect_profile n p);
  mret (register_source_for_profile s Database (name p) source, snapshot_dir).

Variable no_clean : json → string.
Variable registry : result string unit.
Variable envelope : DbSession → Pipeline → string → json → option string → result DispatchError json * DbSession.
Variable restore : Pipeline → string → result string string.

Definition canned_query (args : QueryArgs) : result LensError CannedQuery :=
  wh ← parse_json_arg where_from_str (where_json args) "where-json";
  order ← parse_json_arg order_from_str (order_by_json args) "order-by-json";
  Ok (mkCanned (q_profile args) (q_table args) (if is_nil (q_columns args) then None else Some (q_columns args)) wh
    (where_combinator_of <$> q_combinator args) order (q_limit args)).
Definition tool_result_text (format : QueryFormat) (r : ToolResult) : result LensError string :=
  v ← map_err (tool_result_to_value r) Internal;
  Ok (match format with PrettyJson => pretty v | CompactJson => json_to_string v end).
Definition run_query (args : QueryArgs) (project_config user_config : option string) (terminal : bool) : Cmd unit :=
  _ ← pure (validate_query_limit (q_limit args) default_db_limit_cap);
  query ← pure (canned_query args);
  _ ← query_status terminal;
  '(s, snapshot_dir) ← annotate_source_error (q_profile args)
        (build_db_session (q_profile args) project_config user_config (q_manifest args) (q_snapshot_dir args));
  result ← annotate_source_error (q_profile args)
             (pure (session_dispatch no_clean registry envelope restore snapshot_dir ids.1 s "query" (canned_to_value query)).1);
  line ← pure (tool_result_text (q_format args) result);
  println line.
(** [interrupted]: the signal comes first *)
Definition query_command (interrupted : bool) (args : QueryArgs) (project_config user_config : option string)
    (terminal : bool) : Cmd unit :=
  if interrupted then pure (Err (Internal "query interrupted by shutdown signal"))
  else run_query args project_config user_config terminal.
End Command.

(** ** What the query command does

    It refuses a limit above the cap before anything else, and what it prints
    was dispatched in a session of one checked database profile. *)

(** ** Runs *)
Lemma cmd_bind_ok {A B} (m : Cmd A) (f : A → Cmd B) p p' b :
  (m ≫= f) p = (Some (Ok b), p') → ∃ a q, m p = (Some (Ok a), q) ∧ f a q = (Some (Ok b), p').
Proof. unfold mbind, Cmd_bind. destruct (m p) as [[[a|e]|] q]; [|done..]. intros Hf. by exists a, q. Qed.
Ltac cmd_open H x q Hx := apply cmd_bind_ok in H as (x & q & Hx & H).
Lemma pure_ok {A} (r : result LensError A) p p' a : pure r p = (Some (Ok a), p') → r = Ok a ∧ p' = p.
Proof. by intros [= -> ->]. Qed.
Lemma on_disk_ok {A} (m : IO Db LensError A) p p' a :
  on_disk m p = (Some (Ok a), p') → m (disk p) = (Some (Ok a), disk p') ∧ printed p' = printed p ∧ net p' = net p.
Proof. unfold on_disk. destruct (m (disk p)) as [r w]. by intros [= -> <-]. Qed.
Lemma on_net_ok {A} (m : Flow Host A) p p' a :
  on_net m p = (Some (Ok a), p') → m (net p) = (Ok a, net p') ∧ printed p' = printed p ∧ disk p' = disk p.
Proof. unfold on_net. destruct (m (net p)) as [r w]. by intros [= -> <-]. Qed.
Lemma annotate_ok {A} n (m : Cmd A) p p' a : annotate_source_error n m p = (Some (Ok a), p') → m p = (Some (Ok a), p').
Proof. unfold annotate_source_error. destruct (m p) as [[[x|[]]|] q]; try done; by intros [= -> ->]. Qed.

Section Facts.
Context `{GazeBuilder, PolicyToml, ConfigToml, Ulids, Sqlx, !Server, RemoteEnv, CliJson, FloatText, JsonText, DiscoverySerde}.
Context (expand : string → result string string) (now : option N) (clock : string → option N).
Context (gaze : GazePolicy → result string unit) (ids : string * string) (w : Processes) (secrets : Secrets).
Abbreviation DbSession := (Session Pipeline Connected Connected).
Variable no_clean : json → string.
Variable registry : result string unit.
Variable envelope : DbSession → Pipeline → string → json → option string → result DispatchError json * DbSession.
Variable restore : Pipeline → string → result string string.
Abbreviation query_run := (run_query expand now clock gaze ids w secrets no_clean registry envelope restore).

(** the profile of a name in the two files as they are, merged *)
Definition Configured (ns : World Db) (project user : option string) (n : string) (p : Profile) : Prop :=
  ∃ us ps merged warnings ns',
    load_configs expand project user ns = (Some (Ok (merged, warnings)), ns') ∧
    (us = [] ∨ In_file expand (nodes ns) (default default_user_config_path user) "user profile config" us) ∧
    (ps = [] ∧ project = None ∨
     In_file expand (nodes ns) (default default_project_config_path project) "project profile config" ps) ∧
    merge_profiles us ps = (merged, warnings) ∧ head (filter (fun p => name p = n) merged) = Some p.
Lemma profile_configured n project user ns ns' p lines :
  load_profile_from expand n project user ns = (Some (Ok (p, lines)), ns') → name p = n ∧ Configured ns project user n p.
Proof.
  intros (_ & Hn & merged & warnings & w1 & Hl & _ & Hp)%profile_ok. split; [done|].
  pose proof (configs_ok _ _ _ _ _ _ _ Hl) as (_ & us & ps & Hm & Hu & Hps). exists us, ps, merged, warnings, w1.
  split_and!; [done..| |done]. unfold load_profiles_with_warnings in Hm. cbn [mbind result_bind] in Hm.
  destruct (merge_profiles us ps) as [m ws]. open_bind Hm as u Hv. by injection Hm as -> ->.
Qed.

(** the session of one profile, closed over its policy and one connection *)
Definition Only (s : DbSession) (p : Profile) (rt : Runtime) (c : Connected) : Prop :=
  pipeline_mode s = SinglePipeline (name p) (rt_pipeline rt) ∧
  column_action_mode s = SingleActions (name p) (rt_actions rt) ∧
  sources s = {[(Database, name p) := lazy_ready c]} ∧ legacy_sources s = ∅ ∧ caps s = default_caps.

Lemma prepared_ok n project user manifest_arg snapshot_dir_arg P P' p s dir :
  prepare_db_session expand now clock gaze ids n project user manifest_arg snapshot_dir_arg P = (Some (Ok (p, s, dir)), P') →
  printed P' = printed P ∧ net P' = net P ∧ name p = n ∧ Configured (disk P) project user n p ∧ expand snapshot_dir_arg = Ok dir ∧
  ∃ path w1 w2 file rt, expand manifest_arg = Ok path ∧ nodes w1 = nodes (disk P) ∧
    apply_retention_policy p path now clock w1 = (Some (Ok tt), w2) ∧
    policy_at expand (nodes w2) p = Some file ∧ runtime_of p file = Ok rt ∧ Checked p file rt ∧
    s = with_column_action_mode (from_parts (SinglePipeline (name p) (rt_pipeline rt)) (SingleActions (name p) ∅) default_caps)
          (SingleActions (name p) (rt_actions rt)).
Proof.
  unfold prepare_db_session. intros Hp. cmd_open Hp pl P1 Hl. destruct pl as [p0 lines].
  apply on_disk_ok in Hl as (Hl & Hp1 & Hn1). pose proof (profile_configured _ _ _ _ _ _ _ Hl) as [_ Hcf].
  apply profile_ok in Hl as (En & Hname & _).
  cmd_open Hp u P2 Hw. injection Hw as _ <-. cmd_open Hp path P2 Hm. apply pure_ok in Hm as [Hm ->]. apply map_err_ok in Hm.
  cmd_open Hp sd P2 Hs. apply pure_ok in Hs as [Hs ->]. apply map_err_ok in Hs.
  cmd_open Hp u2 P2 Hr. apply on_disk_ok in Hr as (Hr & Hp2 & Hn2). destruct u2. cbn [disk printed net] in *.
  cmd_open Hp rt P3 Hrt. apply on_disk_ok in Hrt as (Hrt & Hp3 & Hn3).
  cmd_open Hp u3 P4 Hg. apply pure_ok in Hg as [_ ->]. cmd_open Hp mw P5 Hmw. apply on_disk_ok in Hmw as (_ & Hp5 & Hn5).
  cmd_open Hp s0 P6 Hs0. apply pure_ok in Hs0 as [Hs0 ->]. cmd_open Hp s1 P7 Hs1. apply pure_ok in Hs1 as [Hs1 ->].
  injection Hp as <- <- <- <-.
  unfold runtime_policy in Hrt. io_open Hrt file w3 Hf. apply io_result_ok in Hrt as [Hrt _]. apply load_policy_at in Hf as [Hf _].
  unfold new_with_pipeline_for_profile in Hs0. open_bind Hs0 as v Hv. cbn [mbind result_bind] in Hs0. injection Hs0 as <-.
  unfold register_column_action_policy in Hs1. cbn [from_parts column_action_mode] in Hs1. rewrite String.eqb_refl in Hs1.
  injection Hs1 as <-. split_and!; [congruence|congruence|done|done|done|].
  exists path, (disk P1), (disk P2), file, rt. split_and!; [done|done|exact Hr|done|done|by eapply runtime_checked|done].
Qed.

(** C39. The query command is guarded.  A limit above the row cap is refused
    before a file is read or a host is asked.  A command that succeeds printed
    one line, the result of its [query] call, which was dispatched in a session
    that knows one profile: the one of the name it was given in the merge of the
    user's and the project's file as they were when it started, with all that
    the merge makes of it; a database, under the checks of its policy as it is
    after the retention sweep, with the one source that was connected for it;
    what was asked is the query of the arguments. *)
Theorem query_command_guarded args project user terminal P r P' :
  query_run args project user terminal P = (Some r, P') →
  ((∃ l, q_limit args = Some l ∧ caps_rows default_caps < l) → P' = P ∧ r ≠ Ok tt) ∧
  (r = Ok tt →
    (∀ l, q_limit args = Some l → l <= caps_rows default_caps) ∧
    ∃ p file rt s c q dir result line,
      Configured (disk P) project user (q_profile args) p ∧ name p = q_profile args ∧ source_class (source p) = Database ∧
      (∃ path w1 w2, expand (q_manifest args) = Ok path ∧ nodes w1 = nodes (disk P) ∧
        apply_retention_policy p path now clock w1 = (Some (Ok tt), w2) ∧ policy_at expand (nodes w2) p = Some file) ∧
      runtime_of p file = Ok rt ∧ Checked p file rt ∧
      connect_profile w secrets (q_profile args) p (net P) = (Ok c, net P') ∧ Only s p rt c ∧
      canned_query args = Ok q ∧ cq_profile q = name p ∧ expand (q_snapshot_dir args) = Ok dir ∧
      (session_dispatch no_clean registry envelope restore dir ids.1 s "query" (canned_to_value q)).1 = Ok result ∧
      tool_result_text (q_format args) result = Ok line ∧ printed P' = printed P ++ [line]).
Proof.
  intros Hq. unfold run_query in Hq. unfold default_db_limit_cap in Hq.
  assert (Hlim : (∃ l, q_limit args = Some l ∧ caps_rows default_caps < l) → P' = P ∧ r ≠ Ok tt).
  { intros (l & Hl & Hcap). rewrite Hl in Hq. cbn [validate_query_limit] in Hq.
    change (N.min (caps_rows default_caps) U32_MAX) with (caps_rows default_caps) in Hq.
    destruct (N.ltb_spec (caps_rows default_caps) l); [|lia]. by injection Hq as <- <-. }
  split; [exact Hlim|]. intros ->. split.
  { intros l Hl. destruct (N.le_gt_cases l (caps_rows default_caps)); [done|]. destruct Hlim as [_ []]; [by exists l|done]. }
  cmd_open Hq u P1 Hv. apply pure_ok in Hv as [_ ->]. cmd_open Hq q P1 Hc. apply pure_ok in Hc as [Hc ->].
  cmd_open Hq u2 P1 Hst. assert (disk P1 = disk P ∧ net P1 = net P ∧ printed P1 = printed P) as (Ed & En & Ep)
    by (destruct terminal; injection Hst as _ <-; done).
  cmd_open Hq sd P2 Hs. destruct sd as [s dir]. apply annotate_ok in Hs. unfold build_db_session in Hs.
  cmd_open Hs psd P3 Hp. destruct psd as [[p s0] dir0]. apply prepared_ok in Hp as (Hp3 & Hn3 & Hname & Hcf & Hdir & path & w1 & w2 & file & rt & Hm & Hw1 & Hr & Hf & Hrt & Hck & ->).
  cmd_open Hs c P4 Hcon. apply on_net_ok in Hcon as (Hcon & Hp4 & _). injection Hs as <- <- <-.
  cmd_open Hq res P5 Hd. apply annotate_ok, pure_ok in Hd as [Hd ->]. cmd_open Hq line P6 Hl. apply pure_ok in Hl as [Hl ->].
  injection Hq as <-. cbn [printed net disk].
  exists p, file, rt, (register_source_for_profile (with_column_action_mode (from_parts (SinglePipeline (name p) (rt_pipeline rt)) (SingleActions (name p) ∅) default_caps)
    (SingleActions (name p) (rt_actions rt))) Database (name p) c), c, q, dir0, res, line.
  split_and!; try done.
  - by rewrite <- Ed.
  - unfold connect_profile in Hcon. by destruct (source p).
  - exists path, w1, w2. by rewrite <- Ed.
  - by rewrite <- En, <- Hn3.
  - unfold canned_query in Hc. open_bind Hc as wh Hwh. open_bind Hc as o Ho. by injection Hc as <-.
  - congruence.
Qed.
End Facts.

(** ** A query of a SQLite database *)
Module QueryRun.
#[local] Instance a_gaze : GazeBuilder := sample_gaze.
#[local] Instance a_policy : PolicyToml := {| from_toml _ := Ok sample_policy |}.
Definition app : Profile :=
  mkProfile "app" (Profile.Sqlite "/app.sqlite" true []) None None None None None (Some "/p.toml"%string) None None false None Off.
#[local] Instance a_config : ConfigToml := {| profile_shapes _ := Ok [(Some "app"%string, true)]; profile_file _ := Ok [app] |}.
#[local] Instance a_ulids : Ulids := {| ulid_timestamp_ms _ := None |}.
#[local] Existing Instances DatabaseFacts.Run.texts DatabaseFacts.Run.server.
#[local] Instance a_remote : RemoteEnv := {|
  socket_addr_ok _ := false; server_name_ok _ := false; RemoteService.env_var _ := None; RemoteService.keyring_password _ _ := None; tail_args_of _ := None |}.
#[local] Instance a_cli : CliJson := {| where_from_str _ := Ok []; order_from_str _ := Ok []; pretty _ := "pretty"%string |}.
#[local] Instance a_float : FloatText := {| f64_to_value _ := JNull; f64_of_text _ := None |}.
#[local] Instance a_json : JsonText := {| json_to_string v := match json_get v "clean" with Some _ => "rows" | None => "?" end; json_from_str _ := None |}.
#[local] Instance a_discovery : DiscoverySerde := {|
  presented_schema _ := Err "no"%string; presented_tables _ := Err "no"%string; schema_descriptor_text _ := Err "no"%string;
  tables_descriptor_text _ := Err "no"%string; sha256_hex s := s |}.
Definition started : Process :=
  mkProcess (mkWorld {[".gaze-lens.toml"%string := FileNode [] 420; "/p.toml"%string := FileNode [] 420; "/m"%string := DirNode 448]}
    (mkDb 0 None None) []) (mkHost (new_pool []) []) [] [].
Definition envelope (s : Session Pipeline Connected Connected) (pl : Pipeline) (tool : string) (args : json) (pattern : option string)
  : result DispatchError json * Session Pipeline Connected Connected :=
  (Ok (clean_to_value (CleanRows [[("id"%string, JNumber "7")]] [])), s).
Definition outside : Processes := mkProcesses "/tmp" 7 (fun _ _ => Ok (Some 0%Z)) (fun _ => None) (fun _ => Ok tt).
Definition no_secrets : Secrets := mkSecrets (fun _ => None) (fun _ _ => Err (Internal "no keyring")).
Definition queried (limit : N) :=
  run_query Ok (Some 5) (fun _ => Some 5) (fun _ => Ok tt) ("L", "G")%string outside no_secrets (fun _ => "no clean output"%string)
    (Ok tt) envelope (fun _ => Ok)
    (mkQueryArgs "app" "/m/manifest.sqlite" "/m/snap" "users" [] None None None (Some limit) CompactJson) None None false started.

Lemma query_command_guarded_witness :
  (∃ P', queried 5 = (Some (Ok tt), P') ∧
     ∃ p line, Configured Ok (disk started) None None "app" p ∧ printed P' = [line]) ∧ (queried 5000).2 = started.
Proof.
  split.
  - assert (Hr : ∃ P', queried 5 = (Some (Ok tt), P')) by (eexists; vm_compute; reflexivity).
    destruct Hr as [P' Hr]. exists P'. split; [exact Hr|].
    destruct (query_command_guarded _ _ _ _ _ _ _ _ _ _ _ _ _ _ _ _ _ _ Hr) as [_ Hok].
    destruct (Hok eq_refl) as (_ & p & file & rt & s & c & q & dir & result & line & Hcf & _ & _ & _ & _ & _ & _ & _ & _ & _ & _ & _ & _ & Hp).
    exists p, line. split; [exact Hcf|exact Hp].
  - assert (Hr : ∃ r, queried 5000 = (Some r, (queried 5000).2)) by (eexists; vm_compute; reflexivity).
    destruct Hr as [r Hr].
    destruct (query_command_guarded _ _ _ _ _ _ _ _ _ _ _ _ _ _ _ _ _ _ Hr) as [Hlim _].
    apply Hlim. exists 5000. split; [reflexivity|vm_compute; reflexivity].
Defined.
End QueryRun.
