(* ===== verification/ServerStart.v ===== *)
(** * Starting the server

    Models crates/gaze-lens-server/src/config.rs and main.rs, the file operations
    of src/history.rs ([History::open], [History::check], [lock], [persist]) and
    what service.rs does before its first connection.

    The files are those of [Disk]: a call may fail, and the process may halt at
    any call.  What [private.rs] checks is [Private], on what the file system
    answers at that moment; who owns what stands at a path and which inode it is
    is the class [Inodes].  The rest of the world is the set of the paths that
    some process has locked. *)

From S2P Require Import Prelude Utf8 Str Bounds JsonGrammar Serde Wire Private Auth History HistoryFacts Service Disk DiskFacts.

(** who owns the node at a path, its inode and its device *)
Class Inodes := { euid : N; uid_of : string → N; ino_of : string → N; dev_of : string → N }.
(** [toml::from_str::<Config>] *)
Record Config := mkConfig {
  listen : string; certificate : string; private_key : string; authority_path : string; history_path : string }.
Class ServerToml := { config_from_str : string → option Config }.
(** rustls and its PEM reader: the certificates and the key of a file, and the
    configuration for TLS 1.3 they make *)
Class Rustls := {
  Certificate : Type; PrivateKey : Type; Acceptor : Type;
  pem_certificates : bytes → option (list Certificate);
  pem_private_key : bytes → option PrivateKey;
  tls13_server : list Certificate → PrivateKey → option Acceptor }.

Record Checked `{Rustls} := mkChecked {
  ck_listen : string; ck_authority : string; ck_history : string; ck_acceptor : Acceptor }.

Abbreviation Locks := (gset string).
Abbreviation Server := (IO Locks Error).

(** a call whose failure is [Error::Unavailable] *)
Definition unavailable {A} (m : IO Locks IoError A) : Server A := io_err m (fun _ => Unavailable).

(** ** [private.rs] on these files *)
Section Trusted.
Context `{Inodes}.

Definition node_metadata (p : string) (n : Node) : Metadata :=
  match n with
  | FileNode _ mode => mkMetadata false true mode (uid_of p) (ino_of p) (dev_of p)
  | DirNode mode => mkMetadata true false mode (uid_of p) (ino_of p) (dev_of p)
  | LinkNode _ => mkMetadata false false 511 (uid_of p) (ino_of p) (dev_of p)
  end.
(** [path.parent()], and the working directory for a bare name *)
Definition containing (p : string) : string :=
  match parent p with Some q => if String.eqb q "" then "."%string else q | None => "."%string end.
Definition view (ns : Nodes) (p : string) : FileView := {|
  fv_parent := node_metadata (containing p) <$> ns !! containing p;
  fv_link := node_metadata p <$> ns !! p;
  fv_opened := match follow ns p with Ok (q, n) => Some (node_metadata q n) | Err _ => None end;
  fv_reads := match read_node ns p with Ok c => [Some c] | Err _ => [None] end |}.

(** calls that only look; each failure of theirs is [Error::Unavailable] *)
Definition trusted {A} (f : Nodes → Result A) : Server A :=
  call_with (fun _ => Unavailable) (fun ns held => (f ns, (ns, held))) whole.
Definition private_directory (p : string) : Server unit := trusted (fun ns => Private.directory euid (view ns p)).
Definition private_open (p : string) : Server unit := trusted (fun ns => Private.open euid (view ns p)).
Definition private_read (p : string) : Server bytes := trusted (fun ns => Private.read euid (view ns p)).

(** ** [history.rs] *)
Definition already_exists (e : IoError) : bool :=
  match e with IoOther detail => String.eqb detail "File exists (os error 17)" | NotFound => false end.
Definition lock (path : string) : Server string :=
  _ ← private_directory path;
  fresh ← outcome (open_new path PRIVATE_FILE);
  match fresh with
  | Ok file => mret file
  | Err error => if already_exists error then _ ← private_open path; mret path
                 else of_result (Err Unavailable)
  end.
(** [File::try_lock]: held by another process, or this one's from now on *)
Definition try_lock (path : string) : Server unit :=
  call_with (fun _ => Unavailable) (fun ns held =>
    if decide (path ∈ held) then (Err Unavailable, (ns, held)) else (Ok tt, (ns, {[path]} ∪ held))) whole.
(** the lock goes with the handle, which an error drops *)
Definition or_unlocked {A} (path : string) (m : Server A) : Server A := fun w =>
  match m w with
  | (Some (Err e), w) => (Some (Err e), mkWorld (nodes w) (store w ∖ {[path]}) (fates w))
  | r => r
  end.

Context `{SerdeJson, AuthLibs, LedgerSerde}.

Fixpoint write_chunks (file : string) (chunks : list bytes) : IO Locks IoError unit :=
  match chunks with
  | [] => mret tt
  | c :: chunks => _ ← write_all file c; write_chunks file chunks
  end.
(** [rnd]: the random part of the temporary file's name *)
Definition ledger_temporary (rnd directory : string) : string := join_path directory (String.append ".tmp" rnd).
Definition persist_ledger (rnd path : string) (ledger : Ledger) : Server unit :=
  _ ← of_result (serialized_size (writes ledger) FILE_BYTES);
  _ ← private_directory path;
  temporary ← unavailable (open_new (ledger_temporary rnd (containing path)) PRIVATE_FILE);
  _ ← or_removed temporary (
        _ ← unavailable (write_chunks temporary (writes ledger));
        _ ← unavailable sync;
        _ ← unavailable sync;
        unavailable (rename temporary path));
  unavailable (_ ← open_dir (containing path); sync).

Definition read_ledger (path : string) : Server Ledger :=
  b ← outcome (private_read path);
  of_result (history_read b).
(** [History::open]: the identities this process enrolled, the lock held *)
Definition open_history (rnd path : string) (authority : Authority) : Server (list Identity) :=
  _ ← private_directory path;
  file ← lock (String.append path ".lock");
  _ ← try_lock file;
  or_unlocked file (
    enrolled ← of_result (identities authority);
    ledger ← read_ledger path;
    updated ← of_result (enroll ledger enrolled);
    let '(changed, ledger) := updated in
    _ ← (if changed : bool then persist_ledger rnd path ledger else mret tt);
    mret enrolled).
(** [History::check] *)
Definition check_history (path : string) (authority : Authority) : Server unit :=
  _ ← private_directory path;
  ledger ← read_ledger path;
  enrolled ← of_result (identities authority);
  _ ← of_result (enroll ledger enrolled);
  mret tt.

(** ** [config.rs] *)
Context `{ServerToml, Rustls}.

Definition check_config (path : string) : Server Checked :=
  b ← private_read path;
  _ ← of_result (ok_or (from_utf8 b) InvalidRequest);
  config ← of_result (ok_or (config_from_str (str_of b)) InvalidRequest);
  authority_bytes ← private_read (authority_path config);
  authority ← of_result (authority_parse authority_bytes);
  _ ← check_history (history_path config) authority;
  cert_bytes ← private_read (certificate config);
  key_bytes ← private_read (private_key config);
  certs ← of_result (ok_or (pem_certificates cert_bytes) InvalidRequest);
  key ← of_result (ok_or (pem_private_key key_bytes) InvalidRequest);
  tls ← of_result (ok_or (tls13_server certs key) InvalidRequest);
  mret (mkChecked _ (listen config) (authority_path config) (history_path config) tls).

(** ** [service.rs], until the first connection *)
Definition serve_start (rnd : string) (config : Checked) : Server (list Identity) :=
  b ← private_read (ck_authority config);
  authority ← of_result (authority_parse b);
  open_history rnd (ck_history config) authority.
(** [bind]: whether the address can be bound; [accepts]: what the listener answers, up
    to now: the consecutive failures, or the end *)
Definition serve_with (rnd : string) (accepts : list Accepted) (config : Checked) : Server N :=
  _ ← serve_start rnd config;
  of_result (accept_loop 0 accepts).
Definition run (rnd : string) (bind : string → bool) (accepts : list Accepted) (path : string) : Server N :=
  config ← check_config path;
  _ ← of_result (if bind (ck_listen config) then Ok tt else Err Unavailable);
  serve_with rnd accepts config.

(** ** [main.rs] *)
Inductive Command := CmdServe (config : string) | CmdCheck (config : string).
(** what is printed on stderr, and the exit code: none while the server serves *)
Record Exit := mkExit { stderr : list string; exit_code : option N }.
Definition main (rnd : string) (bind : string → bool) (accepts : list Accepted) (command : Command)
    : IO Locks Error Exit :=
  result ← outcome (match command with
                    | CmdServe config => _ ← run rnd bind accepts config; mret None
                    | CmdCheck config => _ ← check_config config; mret (Some 0)
                    end);
  mret (match result with
        | Ok code => mkExit [] code
        | Err error => mkExit [error_display error] (Some 1)
        end).
End Trusted.

(** ** What a start of the server leaves on disk

    A start enrolls the identities of the authority in the ledger.  Whatever
    call of it fails and wherever it halts, the ledger file holds the old ledger
    or the enrolled one; over any sequence of starts nothing enrolled is ever
    forgotten, and what a running server enforces is what the file says. *)

(** ** Looking does not change anything *)
Section Looking.
Context `{Inodes}.

Lemma spec_trusted {A} (f : Nodes → Result A) (P : Nodes → Locks → Prop) :
  spec P (trusted f) (fun r ns d => P ns d ∧ ∀ a, r = Ok a → f ns = Ok a) P.
Proof. apply spec_call; cbn; intros; [by split|by split|done]. Qed.

Lemma read_view ns p c m b : ns !! p = Some (FileNode c m) → Private.read euid (view ns p) = Ok b → b = c.
Proof.
  intros Hp Hr. unfold Private.read in Hr. open_bind Hr as [] _. open_bind Hr as x Hx.
  destruct (N.ltb_spec FILE_BYTES (len x)) as [|Hl]; [done|]. injection Hr as ->.
  apply read_loop_ok in Hx; [|done]. rewrite Hx. cbn [fv_reads view app]. unfold read_node, follow, MAX_LINKS.
  cbn [resolve]. rewrite Hp. cbn. rewrite Hp. cbn. destruct c; [done|cbn [contents]; by rewrite app_nil_r].
Qed.
End Looking.

(** ** Enrolling on disk *)
Section Enrolling.
Context `{Inodes, SerdeJson, AuthLibs, LedgerSerde}.
(** the ledger's path, and the locks at this moment *)
Context (h : string) (d0 : Locks).

(** the ledger file holds [c], and the locks are [d0] *)
Definition Stands (c : bytes) : Nodes → Locks → Prop := OnFiles (eq c) (eq h) d0.

Lemma stands_at c ns d : Stands c ns d ↔ (∃ m, ns !! h = Some (FileNode c m)) ∧ d = d0.
Proof.
  unfold Stands, OnFiles, FilesHeld. split.
  - intros [Hh ->]. destruct (Hh h eq_refl) as (? & m & ? & <-). split; [by exists m|done].
  - intros [(m & Hc) ->]. split; [|done]. intros ? <-. by exists c, m.
Qed.

Lemma spec_chunks file c b chunks :
  spec (Temp (eq c) (eq h) d0 file (Some b)) (write_chunks file chunks)
    (fun r => match r with Ok _ => Temp (eq c) (eq h) d0 file (Some (b ++ concat chunks))
                         | Err _ => Temp (eq c) (eq h) d0 file None end) (Stands c).
Proof.
  revert b. induction chunks as [|x chunks IH]; intros b; cbn [write_chunks concat].
  - apply spec_ret. intros ns d Ht. by rewrite app_nil_r.
  - eapply (spec_bind _ _ _ (fun _ => Temp (eq c) (eq h) d0 file (Some (b ++ x)))).
    + eapply spec_conseq; [apply (held_write_more (G := eq c) (ps := eq h) (d0 := d0) file b x)|done| |done]. by intros [[]|e].
    + intros _. specialize (IH (b ++ x)). by rewrite <- app_assoc in IH.
Qed.

(** the file that is renamed holds the ledger *)
Lemma spec_written file c l :
  spec (Temp (eq c) (eq h) d0 file (Some []))
    (_ ← unavailable (write_chunks file (writes l)); _ ← unavailable sync; _ ← unavailable sync;
     unavailable (rename file h))
    (fun r => match r with Ok _ => Stands (to_text l) | Err _ => Temp (eq c) (eq h) d0 file None end) (Stands c).
Proof.
  set (W := Temp (eq c) (eq h) d0 file (Some (to_text l))).
  assert (HW : ∀ ns d, W ns d → Temp (eq c) (eq h) d0 file None ns d) by (intros ns d (? & ? & _); by split_and!).
  eapply (spec_bind _ _ _ (fun _ => W)).
  { apply spec_io_err. eapply spec_conseq; [apply (spec_chunks file c [] (writes l))|done| |done]. by intros [[]|e]. }
  intros _. assert (Hsync : spec W (unavailable sync)
    (fun r ns d => match r with Ok _ => W ns d | Err _ => Temp (eq c) (eq h) d0 file None ns d end) (Stands c)).
  { apply spec_io_err, spec_quiet; [done| |by intros ns d [? _]]. intros [[]|e] ns d Ht; [done|by apply HW]. }
  eapply (spec_bind _ _ _ (fun _ => W)); [exact Hsync|intros _].
  eapply (spec_bind _ _ _ (fun _ => W)); [exact Hsync|intros _].
  apply spec_io_err, spec_file_call; cbn; [|by intros; apply HW|by intros ?? ? [? _]].
  intros ns d ([Hh ->] & Hf & Hc). rewrite (Hc _ eq_refl).
  destruct (Hh h eq_refl) as (x & m & Hx & <-). rewrite Hx. cbn. apply stands_at.
  split; [|done]. exists PRIVATE_FILE. by rewrite lookup_insert_eq.
Qed.

(** the old ledger, or the new one *)
Definition Either (c : bytes) (l : Ledger) (ns : Nodes) (d : Locks) : Prop := Stands c ns d ∨ Stands (to_text l) ns d.

Lemma spec_persist rnd c l :
  spec (Stands c) (persist_ledger rnd h l)
    (fun r ns d => Either c l ns d ∧ (r = Ok tt → Stands (to_text l) ns d)) (Either c l).
Proof.
  unfold persist_ledger.
  eapply (spec_bind _ _ _ (fun _ => Stands c)); [apply spec_result; intros; by destruct (serialized_size _ _); [|split; [left|]]|intros _].
  eapply (spec_bind _ _ _ (fun _ => Stands c)).
  { eapply spec_conseq; [apply (spec_trusted _ (Stands c))|done| |by left]. intros [[]|e] ns d [Hs _]; [done|by split; [left|]]. }
  intros _. eapply (spec_bind _ _ _ (fun f => Temp (eq c) (eq h) d0 f (Some []))).
  { apply spec_io_err. eapply spec_conseq; [apply (held_open_new (G := eq c) (ps := eq h) (d0 := d0))|done| |by left].
    intros [f|e] ns d; [by intros [-> ?]|by split; [left|]]. }
  intros file. eapply (spec_bind _ _ _ (fun _ => Stands (to_text l))).
  { eapply spec_conseq; [apply (held_or_removed (G := eq c) (ps := eq h) (d0 := d0) file None _ (fun _ => Stands (to_text l)) _ (spec_written file c l))|done| |by left].
    intros [[]|e] ns d Hs; [done|by split; [left|]]. }
  intros _. apply spec_io_err. eapply (spec_bind _ _ _ (fun _ => Stands (to_text l))).
  - apply spec_quiet; [done|by intros [] ns d Hs; [|split; [right|]]|by right].
  - intros _. apply spec_quiet; [done|by intros [] ns d Hs; (split; [right|])|by right].
Qed.

Lemma spec_read_ledger c :
  spec (Stands c) (read_ledger h) (fun r ns d => Stands c ns d ∧ ∀ l, r = Ok l → history_read (Ok c) = Ok l) (Stands c).
Proof.
  unfold read_ledger.
  eapply (spec_bind _ _ _ (fun b ns d => Stands c ns d ∧ ∀ x, b = Ok x → x = c)).
  - apply spec_outcome. eapply spec_conseq; [apply (spec_trusted _ (Stands c))|done| |done].
    intros r ns d [Hs Hr]. split; [done|]. intros x ->. apply stands_at in Hs as [(m & Hm) _].
    by eapply read_view; [exact Hm|apply Hr].
  - intros b. apply spec_result. intros ns d [Hs Hb]. split; [done|]. intros l Hl.
    destruct b as [x|e]; [by rewrite <- (Hb x eq_refl)|done].
Qed.

Lemma spec_lock path c :
  spec (Stands c) (lock path) (fun r ns d => Stands c ns d ∧ ∀ f, r = Ok f → f = path) (Stands c).
Proof.
  unfold lock. eapply (spec_bind _ _ _ (fun _ => Stands c)).
  { eapply spec_conseq; [apply (spec_trusted _ (Stands c))|done| |done]. intros [[]|e] ns d [Hs _]; [done|by split]. }
  intros _. eapply (spec_bind _ _ _ (fun r ns d => Stands c ns d ∧ ∀ f, r = Ok f → f = path)).
  { apply spec_outcome. eapply spec_conseq; [apply (held_open_new (G := eq c) (ps := eq h) (d0 := d0))|done| |done].
    intros [f|e] ns d; [intros [-> [Hp _]]; split; [done|by intros ? [= <-]]|by split]. }
  intros [f|e].
  - apply spec_ret. intros ns d [Hs Hf]. split; [done|]. intros ? [= <-]. by apply Hf.
  - destruct (already_exists e); [|apply spec_result; intros ns d [Hs _]; by split].
    eapply (spec_bind _ _ _ (fun _ => Stands c)); [|intros _; apply spec_ret; intros ns d Hs; split; [done|by intros ? [= <-]]].
    eapply spec_conseq; [apply (spec_trusted _ (Stands c))|by intros ns d [? _]| |done].
    intros [[]|e'] ns d [Hs _]; [done|by split].
Qed.
End Enrolling.

Section Opening.
Context `{Inodes, SerdeJson, AuthLibs, LedgerSerde}.
Context (h : string) (held : Locks) (a : Authority) (c : bytes).
Abbreviation lock_path := (String.append h ".lock").

(** what the ledger file may hold after a start that read [c] from it *)
Definition Persisted (x : bytes) : Prop :=
  x = c ∨ lock_path ∉ held ∧ ∃ l ids l', history_read (Ok c) = Ok l ∧ identities a = Ok ids ∧
    enroll l ids = Ok (true, l') ∧ x = to_text l'.
Definition LeftOnDisk (ns : Nodes) : Prop := ∃ x m, Persisted x ∧ ns !! h = Some (FileNode x m).
(** what it holds after a start that enrolled [ids] *)
Definition Enrolled (ids : list Identity) (ns : Nodes) : Prop :=
  identities a = Ok ids ∧ ∃ l changed l', history_read (Ok c) = Ok l ∧ enroll l ids = Ok (changed, l') ∧
    ∃ m, ns !! h = Some (FileNode (if changed then to_text l' else c) m).

Lemma stands_left d0 ns d : Stands h d0 c ns d → LeftOnDisk ns.
Proof. intros [(m & Hm) _]%stands_at. exists c, m. by split; [left|]. Qed.

Lemma spec_or_unlocked {A} path (m : Server A) P Q C :
  spec P m Q C →
  spec P (or_unlocked path m)
    (fun r ns d => match r with Ok _ => Q r ns d | Err _ => ∃ d', Q r ns d' ∧ d = d' ∖ {[path]} end) C.
Proof.
  intros Hm w Hw. specialize (Hm w Hw). unfold or_unlocked.
  destruct (m w) as [[[x|e]|] w']; [done| |done]. by exists (store w').
Qed.

(** the part of a start that holds the lock *)
Lemma spec_enroll rnd d0 :
  lock_path ∉ held →
  spec (Stands h d0 c)
    (enrolled ← of_result (identities a); ledger ← read_ledger h; updated ← of_result (enroll ledger enrolled);
     let '(changed, ledger) := updated in
     _ ← (if changed : bool then persist_ledger rnd h ledger else mret tt); mret enrolled)
    (fun r ns d => d = d0 ∧ match r with Ok ids => Enrolled ids ns | Err _ => LeftOnDisk ns end)
    (fun ns _ => LeftOnDisk ns).
Proof.
  intros Hfree.
  assert (Hold : ∀ ns d, Stands h d0 c ns d → d = d0 ∧ LeftOnDisk ns) by (intros ns d Hs; split; [by apply stands_at in Hs as []|by eapply stands_left]).
  destruct (identities a) as [ids|e] eqn:Hids; [apply spec_pure|apply spec_stop; by intros ns d ?%Hold].
  eapply (spec_bind _ _ _ (fun l ns d => Stands h d0 c ns d ∧ history_read (Ok c) = Ok l)).
  { eapply spec_conseq; [apply spec_read_ledger|done| |by intros ns d []%Hold].
    intros [l|e] ns d [Hs Hl]; [split; [done|by apply Hl]|by apply Hold]. }
  intros l. destruct (enroll l ids) as [[changed l']|e] eqn:He; [apply spec_pure|apply spec_stop; by intros ns d [?%Hold _]].
  intros w [Hs Hread]. revert w Hs. change (spec (Stands h d0 c)
    (_ ← (if changed then persist_ledger rnd h l' else mret tt); mret ids)
    (fun r ns d => d = d0 ∧ match r with Ok ids => Enrolled ids ns | Err _ => LeftOnDisk ns end) (fun ns _ => LeftOnDisk ns)).
  assert (Hnew : ∀ ns d, changed = true → Stands h d0 (to_text l') ns d → d = d0 ∧ LeftOnDisk ns ∧ Enrolled ids ns).
  { intros ns d -> Hn. apply stands_at in Hn as [(m & Hm) ->]. split_and!; [done| |].
    - exists (to_text l'), m. split; [|done]. right. split; [done|]. by exists l, ids, l'.
    - split; [done|]. exists l, true, l'. split_and!; [done..|]. by exists m. }
  destruct changed.
  - eapply (spec_bind _ _ _ (fun _ => Stands h d0 (to_text l'))); [|intros _; apply spec_ret; intros ns d Hs; by destruct (Hnew ns d eq_refl Hs) as (? & _ & ?)].
    assert (He' : ∀ ns d, Either h d0 c l' ns d → d = d0 ∧ LeftOnDisk ns).
    { intros ns d [Hs|Hs]; [by apply Hold|]. by destruct (Hnew ns d eq_refl Hs) as (? & ? & _). }
    eapply spec_conseq; [apply spec_persist|done| |by intros ns d []%He'].
    intros [[]|e] ns d [Hei Hok]; [by apply Hok|by apply He'].
  - eapply (spec_bind _ _ _ (fun _ => Stands h d0 c)); [by apply spec_ret|]. intros _. apply spec_ret.
    intros ns d [(m & Hm) ->]%stands_at. split; [done|]. split; [done|]. exists l, false, l'. split_and!; [done..|]. by exists m.
Qed.

Lemma spec_open_history rnd :
  spec (Stands h held c) (open_history rnd h a)
    (fun r ns d => match r with
       | Ok ids => lock_path ∉ held ∧ d = {[lock_path]} ∪ held ∧ Enrolled ids ns
       | Err _ => d = held ∧ LeftOnDisk ns
       end)
    (fun ns _ => LeftOnDisk ns).
Proof.
  unfold open_history.
  assert (Hold : ∀ ns d, Stands h held c ns d → d = held ∧ LeftOnDisk ns) by (intros ns d Hs; split; [by apply stands_at in Hs as []|by eapply stands_left]).
  eapply (spec_bind _ _ _ (fun _ => Stands h held c)).
  { eapply spec_conseq; [apply (spec_trusted _ (Stands h held c))|done| |by intros ns d []%Hold].
    intros [[]|e] ns d [Hs _]; [done|by apply Hold]. }
  intros _. eapply (spec_bind _ _ _ (fun f ns d => Stands h held c ns d ∧ f = lock_path)).
  { eapply spec_conseq; [apply spec_lock|done| |by intros ns d []%Hold].
    intros [f|e] ns d [Hs Hf]; [split; [done|by apply Hf]|by apply Hold]. }
  intros f. eapply (spec_bind _ _ _ (fun _ ns d => lock_path ∉ held ∧ f = lock_path ∧ Stands h ({[lock_path]} ∪ held) c ns d)).
  { apply spec_call; cbn.
    - intros ns d [Hs ->]. pose proof (Hold _ _ Hs) as [-> Hl]. destruct (decide (lock_path ∈ held)) as [|Hn]; cbn; [by split|].
      split_and!; [done|done|]. by apply stands_at in Hs as [? _]; apply stands_at.
    - intros n detail ns d [Hs _]. by apply Hold.
    - intros n ns d [Hs _]. by apply Hold in Hs as []. }
  intros _ w (Hfree & -> & Hs). revert w Hs. change (spec (Stands h ({[lock_path]} ∪ held) c)
    (or_unlocked lock_path (enrolled ← of_result (identities a); ledger ← read_ledger h; updated ← of_result (enroll ledger enrolled);
     let '(changed, ledger) := updated in
     _ ← (if changed : bool then persist_ledger rnd h ledger else mret tt); mret enrolled))
    (fun r ns d => match r with
       | Ok ids => lock_path ∉ held ∧ d = {[lock_path]} ∪ held ∧ Enrolled ids ns
       | Err _ => d = held ∧ LeftOnDisk ns end) (fun ns _ => LeftOnDisk ns)).
  eapply spec_conseq; [apply spec_or_unlocked, (spec_enroll rnd ({[lock_path]} ∪ held) Hfree)|done| |done].
  intros [ids|e] ns d; [by intros [-> ?]|]. intros (d' & [-> Hl] & ->). split; [|done]. set_solver.
Qed.
End Opening.

(** ** Starts, stops and what operators do between them *)
Section Life.
Context `{Inodes, SerdeJson, AuthLibs, LedgerSerde, ServerToml, Rustls}.
Context (h : string).
Abbreviation lock_path := (String.append h ".lock").

(** [serving]: what the running server enrolled *)
Record Life := mkLife { files : Nodes; locks : Locks; serving : option (list Identity) }.

(** a start that was refused or halted is a process that is gone, and its
    locks with it; operators may change every file but the ledger, and the lock
    file of a running server *)
Inductive life_step : Life → Life → Prop :=
| life_started rnd config ns d fs w ids sv : ck_history config = h →
    serve_start rnd config (mkWorld ns d fs) = (Some (Ok ids), w) →
    life_step (mkLife ns d sv) (mkLife (nodes w) (store w) (Some ids))
| life_refused rnd config ns d fs w e sv : ck_history config = h →
    serve_start rnd config (mkWorld ns d fs) = (Some (Err e), w) →
    life_step (mkLife ns d sv) (mkLife (nodes w) (store w) sv)
| life_halted rnd config ns d fs w sv : ck_history config = h →
    serve_start rnd config (mkWorld ns d fs) = (None, w) →
    life_step (mkLife ns d sv) (mkLife (nodes w) d sv)
| life_checked path ns d fs r w sv :
    check_config path (mkWorld ns d fs) = (r, w) →
    life_step (mkLife ns d sv) (mkLife (nodes w) d sv)
| life_stopped ns d ids :
    life_step (mkLife ns d (Some ids)) (mkLife ns (d ∖ {[lock_path]}) None)
| life_edited ns ns' d sv : ns' !! h = ns !! h → (is_Some sv → ns' !! lock_path = ns !! lock_path) →
    life_step (mkLife ns d sv) (mkLife ns' d sv).

(** a step that only looks, or gives an answer of its own *)
Lemma looks_bind {A B} (P : Nodes → Locks → Prop) (m : Server A) (f : A → Server B) :
  spec P m (fun _ => P) P → (∀ x, spec P (f x) (fun _ => P) P) → spec P (m ≫= f) (fun _ => P) P.
Proof.
  intros Hm Hf. eapply (spec_bind _ _ _ (fun _ => P)); [|exact Hf]. eapply spec_conseq; [exact Hm|done| |done]. by intros [x|e].
Qed.
Lemma looks_trusted {A} (f : Nodes → Result A) (P : Nodes → Locks → Prop) : spec P (trusted f) (fun _ => P) P.
Proof. eapply spec_conseq; [apply spec_trusted|done|by intros r ns d [? _]|done]. Qed.
Lemma looks_result {A} (r : Result A) (P : Nodes → Locks → Prop) : spec P (of_result r) (fun _ => P) P.
Proof. by apply spec_result. Qed.

Lemma check_config_looks path (P : Nodes → Locks → Prop) : spec P (check_config path) (fun _ => P) P.
Proof.
  unfold check_config, check_history, read_ledger.
  repeat first [apply looks_trusted|apply looks_result|by apply spec_ret|apply spec_outcome, looks_trusted|apply looks_bind; [|intros ?]].
Qed.

(** ** What is on disk *)
(** serde_json reads back what it wrote of a valid ledger *)
Definition LedgerReadsBack : Prop := ∀ l, ledger_validate l = Ok tt → ledger_from_slice (to_text l) = Some l.
Context (Hdigest : DigestIsHex) (Hback : LedgerReadsBack).

(** the file holds the text [x] of a valid ledger [l] that extends [l0] *)
Record Durable (l0 l : Ledger) (x : bytes) (ns : Nodes) : Prop := {
  durable_file : ∃ m, ns !! h = Some (FileNode x m);
  durable_text : ledger_from_slice x = Some l;
  durable_valid : ledger_validate l = Ok tt;
  durable_extends : Extends (l_entries l0) (l_entries l) }.
(** nothing is active but what is enrolled *)
Definition Active (ids : list Identity) (l : Ledger) : Prop := ∀ v, enrolled_entry v ∈ l_entries l ↔ v ∈ ids.

Lemma history_read_is c l0 l : ledger_from_slice c = Some l0 → history_read (Ok c) = Ok l → l = l0.
Proof.
  intros Hc Hr. unfold history_read in Hr. open_bind Hr as b [= <-]. open_bind Hr as [] _.
  open_bind Hr as x Hx%ok_or_ok. open_bind Hr as [] _. congruence.
Qed.

Lemma enroll_extends l ids changed l' : Enrollable ids → enroll l ids = Ok (changed, l') → Extends (l_entries l) (l_entries l').
Proof.
  intros Hr He. destruct (enroll_inv _ _ _ _ Hr He) as (_ & es & c1 & [Hx _ _ _ _] & _ & _ & -> & _).
  etrans; [exact Hx|]. apply extends_weaker, retire_weaker.
Qed.

Lemma enrolled_durable l0 l c input a ids ns :
  authority_parse input = Ok a → Durable l0 l c ns → ∀ ns', Enrolled h a c ids ns' →
  ∃ l' x, Durable l0 l' x ns' ∧ Active ids l'.
Proof.
  intros Ha [_ Hc Hv Hx] ns' (Hids & l1 & changed & l' & Hread & He & m & Hm).
  pose proof (history_read_is _ _ _ Hc Hread) as ->. pose proof (identities_enrollable _ _ _ Hdigest Ha Hids) as Hr.
  pose proof (enroll_valid _ _ _ _ Hr He) as Hv'. destruct (enroll_active _ _ _ _ Hr He) as (Hact & Hsame & _).
  exists l', (if changed then to_text l' else c). split; [|done]. split; [by exists m| |done|].
  - destruct changed; [by apply Hback|]. by rewrite Hsame.
  - etrans; [exact Hx|]. by eapply enroll_extends.
Qed.

Lemma left_durable l0 l c d input a ns :
  authority_parse input = Ok a → Durable l0 l c ns → ∀ ns', LeftOnDisk h d a c ns' →
  ∃ l' x, Durable l0 l' x ns' ∧ (lock_path ∈ d → l' = l).
Proof.
  intros Ha [_ Hc Hv Hx] ns' (x & m & [->|(Hfree & l1 & ids & l' & Hread & Hids & He & ->)] & Hm).
  - exists l, c. split; [|done]. split; [by exists m|done..].
  - pose proof (history_read_is _ _ _ Hc Hread) as ->. pose proof (identities_enrollable _ _ _ Hdigest Ha Hids) as Hr.
    pose proof (enroll_valid _ _ _ _ Hr He) as Hv'. exists l', (to_text l'). split; [|done].
    split; [by exists m|by apply Hback|done|]. etrans; [exact Hx|]. by eapply enroll_extends.
Qed.

Lemma spec_serve_start rnd config d c l0 l ns :
  ck_history config = h → Durable l0 l c ns →
  spec (fun ns' d' => ns' = ns ∧ d' = d) (serve_start rnd config)
    (fun r ns' d' => match r with
       | Ok ids => lock_path ∉ d ∧ d' = {[lock_path]} ∪ d ∧ ∃ l' x, Durable l0 l' x ns' ∧ Active ids l'
       | Err _ => d' = d ∧ ∃ l' x, Durable l0 l' x ns' ∧ (lock_path ∈ d → l' = l)
       end)
    (fun ns' _ => ∃ l' x, Durable l0 l' x ns' ∧ (lock_path ∈ d → l' = l)).
Proof.
  intros Hh Hd. unfold serve_start. rewrite Hh.
  assert (Hsame : ∀ ns' d', ns' = ns ∧ d' = d → d' = d ∧ ∃ l' x, Durable l0 l' x ns' ∧ (lock_path ∈ d → l' = l))
    by (intros ns' d' [-> ->]; split; [done|by exists l, c]).
  eapply (spec_bind _ _ _ (fun _ ns' d' => ns' = ns ∧ d' = d)).
  { eapply spec_conseq; [apply (spec_trusted _ (fun ns' d' => ns' = ns ∧ d' = d))|done| |by intros ?? [_ ?]%Hsame]. intros [b|e] ns' d' [Hs _]; [done|by apply Hsame]. }
  intros b. destruct (authority_parse b) as [a|e] eqn:Ha; [apply spec_pure|apply spec_stop; by intros ?? ?%Hsame].
  assert (Hst : ∀ ns' d', ns' = ns ∧ d' = d → Stands h d c ns' d') by (intros ns' d' [-> ->]; apply stands_at; split; [apply Hd|done]).
  eapply spec_conseq; [apply spec_open_history|exact Hst| |].
  - intros [ids|e] ns' d'; [intros (? & ? & He)|intros [-> Hl]].
    + split_and!; [done..|]. by eapply enrolled_durable.
    + split; [done|]. by eapply left_durable.
  - intros ns' d' Hl. by eapply left_durable.
Qed.

(** what holds of the ledger at every moment of the servers' lives *)
Definition Alive (l0 : Ledger) (s : Life) : Prop :=
  ∃ l x, Durable l0 l x (files s) ∧ ∀ ids, serving s = Some ids → lock_path ∈ locks s ∧ Active ids l.

Lemma life_step_alive l0 s s' : life_step s s' → Alive l0 s → Alive l0 s'.
Proof.
  intros Hstep (l & x & Hd & Hsv). unfold Alive in *.
  destruct Hstep as [rnd config ns d fs w ids sv Hh Hrun|rnd config ns d fs w e sv Hh Hrun|rnd config ns d fs w sv Hh Hrun
    |path ns d fs r w sv Hrun|ns d ids|ns ns' d sv Hn _]; cbn [files locks serving] in *.
  - pose proof (spec_serve_start rnd config d x l0 l ns Hh Hd (mkWorld ns d fs) (conj eq_refl eq_refl)) as Hs.
    rewrite Hrun in Hs. destruct Hs as (_ & -> & l' & x' & Hd' & Ha). exists l', x'. split; [done|]. intros ? [= <-]. split; [set_solver|done].
  - pose proof (spec_serve_start rnd config d x l0 l ns Hh Hd (mkWorld ns d fs) (conj eq_refl eq_refl)) as Hs.
    rewrite Hrun in Hs. destruct Hs as (-> & l' & x' & Hd' & Hl). exists l', x'. split; [done|]. intros ids ?.
    destruct (Hsv ids) as [? ?]; [done|]. by rewrite Hl.
  - pose proof (spec_serve_start rnd config d x l0 l ns Hh Hd (mkWorld ns d fs) (conj eq_refl eq_refl)) as Hs.
    rewrite Hrun in Hs. destruct Hs as (l' & x' & Hd' & Hl). exists l', x'. split; [done|]. intros ids ?.
    destruct (Hsv ids) as [? ?]; [done|]. by rewrite Hl.
  - pose proof (check_config_looks path (fun ns' _ => ns' = ns) (mkWorld ns d fs) eq_refl) as Hs. rewrite Hrun in Hs.
    assert (nodes w = ns) as -> by by destruct r. by exists l, x.
  - exists l, x. by split.
  - exists l, x. split; [|done]. destruct Hd as [[m Hm] ? ? ?]. split; [exists m; congruence|done..].
Qed.
End Life.

(** the ledger that the file says, when it is a valid one *)
Definition OnDisk (h : string) `{LedgerSerde} (s : Life) (l : Ledger) : Prop :=
  ∃ x m, files s !! h = Some (FileNode x m) ∧ ledger_from_slice x = Some l ∧ ledger_validate l = Ok tt.

(** C4. Enrollment is durable. Whatever starts, refused starts, checks, stops
    and edits of other files follow each other, whatever call of them fails and
    wherever one halts with part of its bytes written: from a valid ledger on,
    the ledger file always holds a valid one, in which every entry it ever held
    keeps its place and its identity and is never active again once retired.
    While a server runs, the active entries are exactly the identities it
    serves, though other starts be tried. *)
Theorem enrollment_is_durable `{Inodes, SerdeJson, AuthLibs, LedgerSerde, ServerToml, Rustls} h s l0 s1 s2 :
  DigestIsHex → LedgerReadsBack →
  OnDisk h s l0 → serving s = None → rtc (life_step h) s s1 → rtc (life_step h) s1 s2 →
  ∃ l1 l2, OnDisk h s1 l1 ∧ OnDisk h s2 l2 ∧
    (∀ i e, l_entries l1 !! i = Some e →
       ∃ e', l_entries l2 !! i = Some e' ∧ e_identity e' = e_identity e ∧ (e_active e = false → e_active e' = false)) ∧
    (∀ ids, serving s2 = Some ids → ∀ v, enrolled_entry v ∈ l_entries l2 ↔ v ∈ ids).
Proof.
  intros Hdig Hback (x & m & Hx & Hl & Hv) Hs Hs1 Hs2.
  assert (Hkeep : ∀ l a b, rtc (life_step h) a b → Alive h l a → Alive h l b).
  { intros l a b Hab. induction Hab as [|a b c Hab _ IH]; [done|]. intros Ha. apply IH. by eapply life_step_alive. }
  destruct (Hkeep l0 s s1 Hs1) as (l1 & x1 & Hd1 & Hsv1).
  { exists l0, x. split; [split; [by exists m|done..]|]. intros ids. by rewrite Hs. }
  destruct (Hkeep l1 s1 s2 Hs2) as (l2 & x2 & [[m2 Hm2] Ht2 Hv2 He2] & Hsv2).
  { exists l1, x1. split; [|exact Hsv1]. destruct Hd1 as [? ? ? _]. by split. }
  exists l1, l2. split_and!.
  - destruct Hd1 as [[m1 Hm1] ? ? _]. by exists x1, m1.
  - by exists x2, m2.
  - intros i e Hi. destruct (extends_lookup _ _ _ _ He2 Hi) as (e' & He' & Hid & Hact). exists e'. split_and!; [done..|].
    intros Ha. destruct (e_active e'); [|done]. by rewrite Hact in Ha.
  - intros ids Hids. by apply Hsv2.
Qed.

(** ** A server that is upgraded and halts in the middle *)
Module Run.
(** a closed text for ledgers: two letters for each byte, a point after each string *)
Definition letter (n : N) : ascii := ascii_of_N (97 + n).
Definition letters (s : bytes) : bytes := s ≫= fun c => [letter (code c / 16); letter (code c mod 16)].
Definition byte_of_letters (a b : ascii) : ascii := ascii_of_N ((code a - 97) * 16 + (code b - 97)).
Definition write_strings (ss : list bytes) : bytes := ss ≫= fun s => letters s ++ ["."%char].
Fixpoint read_strings (cur t : bytes) : option (list bytes) :=
  match t with
  | [] => match cur with [] => Some [] | _ => None end
  | a :: t =>
    if bool_decide (a = "."%char) then cons cur <$> read_strings [] t
    else match t with b :: t => read_strings (cur ++ [byte_of_letters a b]) t | [] => None end
  end.

Lemma letters_back c : byte_of_letters (letter (code c / 16)) (letter (code c mod 16)) = c.
Proof.
  unfold byte_of_letters, letter, code in *. pose proof (N_ascii_bounded c).
  assert (N_of_ascii c / 16 < 16) by (apply N.Div0.div_lt_upper_bound; lia).
  pose proof (N.mod_upper_bound (N_of_ascii c) 16 ltac:(lia)).
  rewrite !N_ascii_embedding by lia. transitivity (ascii_of_N (N_of_ascii c)); [f_equal|apply ascii_N_embedding].
  rewrite !(N.add_comm 97), !N.add_sub, N.mul_comm. symmetry. by apply N.div_mod.
Qed.
Lemma letter_not_point n : n < 16 → letter n ≠ "."%char.
Proof. intros Hn E%(f_equal N_of_ascii). unfold letter in E. rewrite N_ascii_embedding in E by lia. cbn in E. lia. Qed.
Lemma strings_back ss : read_strings [] (write_strings ss) = Some ss.
Proof.
  unfold write_strings. induction ss as [|s ss IH]; [done|]. rewrite bind_cons, <- app_assoc. cbn [app].
  assert (Hs : ∀ cur t, read_strings cur (letters s ++ "."%char :: t) = cons (cur ++ s) <$> read_strings [] t).
  { clear IH. induction s as [|c s IH]; intros cur t.
    - cbn. by rewrite app_nil_r.
    - cbn [letters mbind list_bind app read_strings]. pose proof (N_ascii_bounded c).
      rewrite bool_decide_false.
      + rewrite letters_back. unfold letters in IH. rewrite IH. by rewrite <- app_assoc.
      + apply letter_not_point. apply N.Div0.div_lt_upper_bound. unfold code. lia. }
  rewrite Hs, IH. done.
Qed.

Definition entry_strings (e : Entry) : list bytes :=
  let i := e_identity e in
  [str_bytes (if bool_decide (id_kind i = KPrincipal) then "p" else "r"); str_bytes (id_id i); str_bytes (id_generation i);
   str_bytes (id_fingerprint i); str_bytes (if e_active e then "a" else "-")].
Fixpoint entries_of (ss : list bytes) : option (list Entry) :=
  match ss with
  | [] => Some []
  | k :: i :: g :: f :: a :: ss =>
    cons (mkEntry (mkIdentity (if bytes_eqb k (str_bytes "p") then KPrincipal else KResource) (str_of i) (str_of g) (str_of f))
            (bytes_eqb a (str_bytes "a"))) <$> entries_of ss
  | _ => None
  end.
Lemma entries_back es : entries_of (es ≫= entry_strings) = Some es.
Proof.
  induction es as [|[[k i g f] a] es IH]; [done|]. rewrite bind_cons. cbn [entry_strings e_identity e_active id_kind id_id id_generation id_fingerprint app entries_of].
  rewrite IH, !str_of_bytes. by destruct k, a.
Qed.

#[export] Instance ledger_serde : LedgerSerde := {|
  ledger_ser l := [["034"%char]; write_strings (l_entries l ≫= entry_strings); ["034"%char]];
  ledger_from_slice b :=
    match b with
    | _ :: b => t ← strip_suffix "034"%char b; ss ← read_strings [] t; mkLedger 1 <$> entries_of ss
    | [] => None
    end |}.
Lemma ledger_back : LedgerReadsBack.
Proof.
  intros [v es] [Hv _]%ledger_validate_ok. cbn in Hv. subst v.
  change (to_text _) with ("034"%char :: write_strings (es ≫= entry_strings) ++ ["034"%char]). cbn [ledger_from_slice ledger_serde].
  rewrite (proj2 (strip_suffix_some _ _ (write_strings (es ≫= entry_strings)))) by done.
  cbn [mbind option_bind]. rewrite strings_back. cbn [mbind option_bind]. by rewrite entries_back.
Qed.

#[export] Instance inodes : Inodes := {| euid := 7; uid_of _ := 7; ino_of _ := 1; dev_of _ := 1 |}.
#[export] Instance no_toml : ServerToml := {| config_from_str _ := None |}.
#[export] Instance no_rustls : Rustls := {|
  Certificate := unit; PrivateKey := unit; Acceptor := unit;
  pem_certificates _ := None; pem_private_key _ := None; tls13_server _ _ := Some tt |}.
(** the second authority replaces the key of the principal and drops the resource *)
Definition upgraded : Authority := mkAuthority [mkPrincipal (rep 32 "a") (rep 32 "e") (rep 64 "d")] [] [].
#[export] Instance auth_libs : AuthLibs := {|
  sha256_hex _ := rep 64 "c";
  authority_from_slice b := Some (if bytes_eqb b (str_bytes "2") then upgraded else sample_authority);
  principal_to_vec p := Some (str_bytes (p_id p));
  resource_to_vec r := Some (str_bytes (r_id r)) |}.
#[export] Existing Instance sample_serde.

Definition ledger_path : string := "/srv/history.json".
Definition config : Checked := mkChecked _ "127.0.0.1:7443" "/srv/authority.json" ledger_path tt.
Definition with_authority (text : string) (ns : Nodes) : Nodes := <["/srv/authority.json"%string := FileNode (str_bytes text) PRIVATE_FILE]> ns.
Definition empty : Ledger := mkLedger 1 [].
Definition disk : Nodes :=
  with_authority "1" {["/srv"%string := DirNode PRIVATE_DIR; ledger_path := FileNode (to_text empty) PRIVATE_FILE]}.
Definition first : option (Result (list Identity)) * World Locks := serve_start "aa" config (mkWorld disk ∅ []).
Definition stopped : Life := mkLife (nodes first.2) ∅ None.
(** the second start halts at the call after the rename *)
Definition second : option (Result (list Identity)) * World Locks :=
  serve_start "bb" config (mkWorld (with_authority "2" (nodes first.2)) ∅ (replicate 15 Goes ++ [Halts 0])).

Definition enrolled_ids : list Identity :=
  [mkIdentity KPrincipal (rep 32 "a") (rep 32 "b") (rep 64 "c"); mkIdentity KResource (rep 32 "c") (rep 32 "d") (rep 64 "c")].
(** both entries are retired, the new key of the principal is enrolled *)
Definition final : list Entry :=
  (deactivate ∘ enrolled_entry <$> enrolled_ids) ++ [enrolled_entry (mkIdentity KPrincipal (rep 32 "a") (rep 32 "e") (rep 64 "c"))].

Lemma enrollment_is_durable_witness :
  first.1 = Some (Ok enrolled_ids) ∧ second.1 = None ∧
  ∃ l1 l2, OnDisk ledger_path stopped l1 ∧ OnDisk ledger_path (mkLife (nodes second.2) ∅ None) l2 ∧ l_entries l2 = final ∧
    ∀ i e, l_entries l1 !! i = Some e → ∃ e', l_entries l2 !! i = Some e' ∧ e_identity e' = e_identity e ∧ (e_active e = false → e_active e' = false).
Proof.
  assert (Efirst : first.1 = Some (Ok enrolled_ids)) by (vm_compute; reflexivity).
  assert (Esecond : second.1 = None) by (vm_compute; reflexivity).
  split; [exact Efirst|]. split; [exact Esecond|].
  assert (Hstart : OnDisk ledger_path (mkLife disk ∅ None) empty).
  { exists (to_text empty), PRIVATE_FILE. split_and!; vm_compute; reflexivity. }
  assert (Hfirst : first = (Some (Ok enrolled_ids), first.2)) by (rewrite <- Efirst; apply surjective_pairing).
  assert (Hsecond : second = (None, second.2)) by (rewrite <- Esecond; apply surjective_pairing).
  destruct (enrollment_is_durable ledger_path (mkLife disk ∅ None) empty stopped (mkLife (nodes second.2) ∅ None))
    as (l1 & l2 & Hl1 & Hl2 & Hkept & _).
  - intros b. vm_compute. reflexivity.
  - apply ledger_back.
  - exact Hstart.
  - reflexivity.
  - eapply rtc_l; [by eapply (life_started ledger_path "aa" config disk ∅ []); [|exact Hfirst]|].
    assert (Hst : stopped = mkLife (nodes first.2) (store first.2 ∖ {[String.append ledger_path ".lock"]}) None).
    { vm_compute. reflexivity. }
    rewrite Hst. apply rtc_once, life_stopped.
  - eapply rtc_l; [apply (life_edited ledger_path _ (with_authority "2" (nodes first.2))); [vm_compute; reflexivity|by intros []]|].
    apply rtc_once. eapply (life_halted ledger_path "bb" config); [reflexivity|exact Hsecond].
  - exists l1, l2. split; [exact Hl1|]. split; [exact Hl2|]. split; [|exact Hkept].
    destruct Hl2 as (x & m & Hx & Hl & _). vm_compute in Hx. injection Hx as <- <-. vm_compute in Hl. injection Hl as <-.
    vm_compute. reflexivity.
Defined.
End Run.
