(* ===== verification/SshExec.v ===== *)
(** * The processes of the discovery, and its terminal

    Models, of src/src/cli/init/ssh_exec.rs, [RealSsh]: the reading of the remote
    file and the fingerprint of the host's key, over the outcomes of ssh,
    ssh-keyscan and ssh-keygen; and of prompter.rs [DialoguerPrompter], whose
    terminal is a class. *)

From S2P Require Import Prelude Utf8 Str Errors LensValue SshArgs LogSource Output Keyword InitData EnvFile InitFlow.

(** ** The fingerprint of a host key *)
Definition lossy_text (b : bytes) : text := default [] (from_utf8 (from_utf8_lossy b)).
Definition KEY_STDOUT_CAP_BYTES : N := 4096.
(** the first line that is neither blank nor a comment *)
Definition is_key_line (line : text) : bool := negb (is_nil (trim line)) && negb (has_prefix [35] line).

(** [run]: what became of ssh-keyscan *)
Definition scanned_line (run : Ssh.Run) : result LensError text :=
  match run with
  | Ssh.SpawnError err => refuse ["ssh-keyscan spawn failed: "%string; err]
  | Ssh.IoError err => refuse ["ssh-keyscan failed: "%string; err]
  | Ssh.TimedOut => refuse ["ssh-keyscan timed out"%string]
  | Ssh.Exited code stdout _ =>
    if negb (bool_decide (code = Some 0%Z)) then refuse ["ssh-keyscan returned "%string; Ssh.debug_code code]
    else
      let stdout := read_capped stdout KEY_STDOUT_CAP_BYTES in
      ok_or (head (filter (fun l => is_key_line l = true) (text_lines (lossy_text stdout))))
        (Errors.Profile "ssh-keyscan returned no host key")
  end.

(** what became of ssh-keygen: the line could not be written to it, or it ran *)
Inductive Fed := StdinError (err : string) | Ran (run : Ssh.Run).
Definition SHA256_PREFIX : text := chars "SHA256:".
Definition fingerprint_of (fed : Fed) : result LensError string :=
  match fed with
  | Ran (Ssh.SpawnError err) => refuse ["ssh-keygen spawn failed: "%string; err]
  | StdinError err => refuse ["ssh-keygen stdin failed: "%string; err]
  | Ran (Ssh.IoError err) => refuse ["ssh-keygen failed: "%string; err]
  | Ran Ssh.TimedOut => refuse ["ssh-keygen timed out"%string]
  | Ran (Ssh.Exited code stdout stderr) =>
    let stdout := read_capped stdout KEY_STDOUT_CAP_BYTES in
    let stderr := read_capped stderr CAT_STDERR_CAP_BYTES in
    if negb (bool_decide (code = Some 0%Z))
    then refuse ["ssh-keygen returned "%string; Ssh.debug_code code; ": "%string; str_of (from_utf8_lossy stderr)]
    else
      string_of <$> ok_or (head (filter (fun w => has_prefix SHA256_PREFIX w = true) (split_whitespace (lossy_text stdout))))
        (Errors.Profile "ssh-keygen output did not include a SHA256 fingerprint")
  end.

Section Processes.
(** what becomes of a process, and of one that is fed text *)
Context (exec : list string → Ssh.Run) (feed : list string → bytes → Fed).

Definition KEYGEN_ARGV : list string := ["ssh-keygen"; "-lf"; "-"]%string.
Definition fingerprint_host_key (host_key_line : text) : result LensError string :=
  fingerprint_of (feed KEYGEN_ARGV (to_utf8 host_key_line ++ [ascii_of_N 10])).
Definition real_host_key_fingerprint (host : string) : result LensError string :=
  argv ← keyscan_argv host;
  line ← scanned_line (exec argv);
  fingerprint_host_key line.

(** [RealSsh]; [runtime]: whether its own runtime is built *)
Definition build_runtime (runtime : result string unit) : result LensError unit :=
  map_err runtime (fun err => Internal (String.append "failed to build ssh runtime: " err)).
Definition real_ssh (runtime : result string unit) : SshExec := {|
  cat_capped host path allow_new_host :=
    _ ← build_runtime runtime;
    argv ← hardened_cat_env_argv host path allow_new_host;
    real_cat_capped host path allow_new_host (exec argv);
  host_key_fingerprint host _ := _ ← build_runtime runtime; real_host_key_fingerprint host |}.
End Processes.
(** the trait's own method: no fingerprint *)
Definition no_fingerprint (host : string) (allow_new_host : bool) : result LensError string :=
  Err (Errors.Profile "host-key fingerprint unavailable").

(** ** What the processes see *)
Lemma has_prefix_app pat t : has_prefix pat t = true → ∃ rest, t = pat ++ rest.
Proof.
  unfold has_prefix. revert t. induction pat as [|a pat IH]; intros t; [by exists t|].
  destruct t as [|b t]; cbn [strip_chars]; [done|]. destruct (N.eqb_spec a b) as [->|]; [|done].
  intros (rest & ->)%IH. by exists rest.
Qed.

#[local] Opaque read_capped lossy_text text_lines split_whitespace.
(** A fingerprint is that of the key the host itself showed: ssh-keyscan was
    run for the part of the accepted login after its user, as an operand; the
    line that was passed on, alone, is one of its output, neither blank nor a
    comment; and the answer is a word of ssh-keygen's output that begins with
    [SHA256:]. *)
Theorem fingerprint_is_scanned exec feed host f :
  real_host_key_fingerprint exec feed host = Ok f →
  ∃ key line word out err,
    keyscan_argv host = Ok ["ssh-keyscan"; "-t"; "ed25519"; "--"; after_at host]%string ∧
    exec ["ssh-keyscan"; "-t"; "ed25519"; "--"; after_at host]%string = Ssh.Exited (Some 0%Z) key err ∧
    line ∈ text_lines (lossy_text (read_capped key KEY_STDOUT_CAP_BYTES)) ∧ is_key_line line = true ∧
    feed KEYGEN_ARGV (to_utf8 line ++ [ascii_of_N 10]) = Ran (Ssh.Exited (Some 0%Z) out word) ∧
    ∃ w rest, w ∈ split_whitespace (lossy_text (read_capped out KEY_STDOUT_CAP_BYTES)) ∧ w = SHA256_PREFIX ++ rest ∧ f = string_of w.
Proof.
  unfold real_host_key_fingerprint. intros H. open_bind H as argv Hargv. open_bind H as line Hline.
  assert (argv = ["ssh-keyscan"; "-t"; "ed25519"; "--"; after_at host]%string) as ->.
  { unfold keyscan_argv in Hargv. open_bind Hargv as u _. by injection Hargv as <-. }
  unfold scanned_line in Hline. destruct (exec _) as [e|e| |code key err] eqn:He; [done..|].
  destruct (bool_decide_reflect (code = Some 0%Z)) as [->|]; [|done]. cbn [negb] in Hline. apply ok_or_ok in Hline.
  apply head_Some_elem_of, list_elem_of_filter in Hline as [Hk Hin].
  unfold fingerprint_host_key, fingerprint_of in H. destruct (feed _ _) as [e|[e|e| |code out word]] eqn:Hf; [done..|].
  destruct (bool_decide_reflect (code = Some 0%Z)) as [->|]; [|done]. cbn [negb] in H.
  destruct (ok_or _ _) as [w|] eqn:Hw; [|done]. injection H as <-. apply ok_or_ok in Hw. apply head_Some_elem_of, list_elem_of_filter in Hw as [Hp Hw].
  destruct (has_prefix_app _ _ Hp) as (rest & ->).
  exists key, line, word, out, err. split_and!; [done..|]. by exists (SHA256_PREFIX ++ rest), rest.
Qed.

(** ** The terminal of [dialoguer] *)
Class Terminal (T : Type) := {
  (** the prompts, with the error of the terminal *)
  t_input : string → option string → T → result string string * T;
  t_confirm : string → bool → T → result string bool * T;
  (** the index of the first choice is the default *)
  t_select : string → list string → nat → T → result string nat * T;
  t_password : string → T → result string string * T }.
Record DialoguerPrompter (T : Type) := mkDialoguer { theme : T }.
Arguments mkDialoguer {T}.
Arguments theme {T}.

Section Dialoguer.
Context `{Terminal T}.
Definition prompted {A} (r : result string A * T) : result PromptError A * DialoguerPrompter T :=
  (map_err r.1 PromptIo, mkDialoguer r.2).
#[export] Instance dialoguer_prompter : Prompter (DialoguerPrompter T) := {|
  ask_input msg dflt p := prompted (t_input msg dflt (theme p));
  ask_confirm msg dflt p := prompted (t_confirm msg dflt (theme p));
  ask_select msg choices p := prompted (t_select msg choices 0 (theme p));
  ask_password msg p := prompted (t_password msg (theme p)) |}.
End Dialoguer.
