(* ===== verification/Cli.v ===== *)
(** * The command line

    Models src/src/cli/mod.rs and src/src/main.rs, which command runs with which
    configuration files and how the process ends; and, of src/src/cli/init/mod.rs,
    the smoke check: the check command on the profile that was written.

    The commands are an interface, [Commands]; each is modelled in its own file. *)

From S2P Require Import Prelude Utf8 Str SqlQuery Errors LensValue Profile Policy Tools RemoteWire RemoteService Disk DiskFacts Retention InitData Toml McpConfig EnvFile Flow InitFlow Commit CommitFacts Driver Drivers Database Serve ServeFacts Trust Check CheckFacts Config QueryCli.

(** ** The commands *)
Inductive CliCmd :=
| CliInit (a : InitArgs) | CliQuery (a : QueryArgs) | CliReplay (a : ReplayArgs) | CliCheck (a : CheckArgs)
| CliServe (a : ServeArgs) | CliDemo.
Record Cli := mkCli { cli_project : option string; cli_user : option string; cli_log : option string; cli_cmd : CliCmd }.
(** what the commands do to the world; [set_var]: [std::env::set_var] *)
Class Commands (W : Type) := {
  set_var : string → string → W → W;
  run_init : InitArgs → option string → option string → Flow W unit;
  run_query_command : QueryArgs → option string → option string → Flow W unit;
  run_replay : ReplayArgs → Flow W unit;
  run_check : CheckArgs → option string → option string → Flow W unit;
  run_serve : ServeArgs → option string → option string → Flow W unit;
  run_demo : Flow W unit }.

Section Dispatch.
Context `{Commands W}.
(** [runtime]: whether tokio's runtime is built *)
Definition in_runtime {A} (runtime : result string unit) (m : Flow W A) : Flow W A :=
  _ ← lift (map_err runtime Internal); m.
Definition set_log (log : option string) : Flow W unit := fun w =>
  (Ok tt, match log with Some log => set_var "RUST_LOG" log w | None => w end).
Definition cli_run (runtime : result string unit) (cli : Cli) : Flow W unit :=
  _ ← set_log (cli_log cli);
  match cli_cmd cli with
  | CliInit a => run_init a (cli_project cli) (cli_user cli)
  | CliQuery a => in_runtime runtime (run_query_command a (cli_project cli) (cli_user cli))
  | CliReplay a => run_replay a
  | CliCheck a => in_runtime runtime (run_check a (cli_project cli) (cli_user cli))
  | CliServe a => in_runtime runtime (run_serve a (cli_project cli) (cli_user cli))
  | CliDemo => in_runtime runtime run_demo
  end.
End Dispatch.

(** ** [main.rs] *)
Record ProcessExit := mkProcessExit { exit_success : bool; exit_stderr : option string }.
Section Exit.
Context (debug_str : string → string) (replace_urls : (bytes → bytes) → string → option string)
  (replace_patterns : list (string → option string)).
(** [verbose]: [GAZE_LENS_VERBOSE_ERRORS] *)
Definition exit_of (verbose : option string) (r : result LensError unit) : ProcessExit :=
  match r with
  | Ok _ => mkProcessExit true None
  | Err err =>
    mkProcessExit false
      (Some (format_cli_error debug_str replace_urls replace_patterns err (bool_decide (verbose = Some "1"%string))))
  end.
Definition main `{Commands W} (runtime : result string unit) (verbose : option string) (cli : Cli) (w : W) : ProcessExit * W :=
  let '(r, w) := cli_run runtime cli w in (exit_of verbose r, w).
End Exit.

(** ** The smoke check *)
Definition smoke_configs (plan : InitPlan) : option string * option string :=
  match profile_scope plan with
  | ProjectScope | ProjectAutoPurge => (Some (profile_path plan), None)
  | UserScope => (None, Some (profile_path plan))
  end.
Definition smoke_args (plan : InitPlan) : CheckArgs := mkCheckArgs (s_name (profile_section plan)) false TrustText.
Definition smoke_mode (plan : InitPlan) : ModelCheckMode :=
  if s_production (profile_section plan) && is_some (policy_write plan) && negb (is_some (fetch_intent plan))
  then Deferred else Full.

Section Smoke.
Context `{GazeBuilder, PolicyToml, TomlValue, ReportSerde, Sqlx, !Server, RemoteEnv, ConfigToml}.
Context (expand : string → result string string) (mode_of : string → option N) (sha256 : bytes → string)
  (debug_list : list string → string) (o : Outside).

(** the check of what was loaded, on the files as they are: the lines of the
    loading, what the check came to, and its terminal *)
Definition check_loaded {D} (loaded : result LensError (Profile * list string)) (args : CheckArgs) (mode : ModelCheckMode) (s : Shell)
    : IO D LensError (list string * result LensError unit * Shell) := fun w =>
  let '(r, s) := Check.check expand (read_node (nodes w)) mode_of sha256 debug_list o args (fst <$> loaded) mode s in
  (Some (Ok (match loaded with Ok (_, lines) => lines | Err _ => [] end, r, s)), w).
Definition check_command {D} (args : CheckArgs) (project_config user_config : option string) (mode : ModelCheckMode) (s : Shell)
    : IO D LensError (list string * result LensError unit * Shell) :=
  loaded ← outcome (load_profile_from expand (ck_profile args) project_config user_config);
  check_loaded loaded args mode s.

(** [s]: the terminal and the hosts; the standard error of a check in full is
    not shown *)
Definition run_smoke_check_with_writer {P} (runtime : result string unit) (s : Shell) (plan : InitPlan)
    : IO (Desk P) LensError unit :=
  _ ← of_result (map_err runtime Internal);
  checked ← check_command (smoke_args plan) (smoke_configs plan).1 (smoke_configs plan).2 (smoke_mode plan) s;
  let '(lines, r, s) := checked in
  _ ← at_desk (fun d => (Ok tt, mkDesk (ring d) (prompter d)
        (said d ++ lines ++ [out s] ++ match smoke_mode plan with Deferred => [err s] | Full => [] end) (written d)));
  of_result r.
End Smoke.

(** ** What the command line promises

    The smoke check of [init] is the check command on the file that was written:
    when it passes, the profile is one that [serve] accepts.  What a process
    prints of an error is its public part. *)

(** ** The end of a process *)
Section Exits.
Context `{Commands W} (debug_str : string → string) (replace_urls : (bytes → bytes) → string → option string)
  (replace_patterns : list (string → option string)).

(** Without the verbose flag, commands whose errors differ in details only
    end alike. *)
Theorem exit_shows_public verbose e e' :
  verbose ≠ Some "1"%string → public e = public e' →
  exit_of debug_str replace_urls replace_patterns verbose (Err e) =
  exit_of debug_str replace_urls replace_patterns verbose (Err e').
Proof.
  intros Hv He. unfold exit_of, format_cli_error. rewrite bool_decide_false by done. cbn [negb].
  by rewrite (sanitize_public debug_str e), (sanitize_public debug_str e'), He.
Qed.
End Exits.

Lemma exit_shows_public_witness :
  exit_of (fun s => s) (fun _ s => Some s) [] None (Err (SourceError "db" "password=hunter2" None None)) =
  exit_of (fun s => s) (fun _ s => Some s) [] None (Err (SourceError "x" "y" None None)).
Proof. apply exit_shows_public; [done|reflexivity]. Defined.

(** ** The smoke check *)
Section SmokeRun.
Context `{GazeBuilder, PolicyToml, TomlValue, ReportSerde, Sqlx, !Server, RemoteEnv, ConfigToml}.
Context (expand : string → result string string) (mode_of : string → option N) (sha256 : bytes → string)
  (debug_list : list string → string) (o : Outside).
Abbreviation smoke := (run_smoke_check_with_writer expand mode_of sha256 debug_list o).

(** the profile that a command finds under a name in the configuration files *)
Definition Configured {D} (w : World D) (n : string) (configs : option string * option string) (p : Profile) : Prop :=
  ∃ lines w', load_profile_from expand n configs.1 configs.2 w = (Some (Ok (p, lines)), w').

(** what a profile has passed whose check passed *)
Definition Vouched (ns : Nodes) (mode : ModelCheckMode) (p : Profile) : Prop :=
  ∃ file, policy_at expand ns p = Some file ∧ checked_policy p file = Ok tt ∧
    (mode = Full → ∃ rt, runtime_of p file = Ok rt ∧
       (production p = true → ∀ dir, model_dir (pf_ner file) = Some dir → o_verify o dir = Ok tt)).

Lemma smoke_ok (Hs : SameReader) {P} runtime s plan (w w' : World (Desk P)) u :
  smoke runtime s plan w = (Some (Ok u), w') →
  nodes w' = nodes w ∧ ∃ p, Configured w (s_name (profile_section plan)) (smoke_configs plan) p ∧
    Vouched (nodes w) (smoke_mode plan) p.
Proof.
  unfold run_smoke_check_with_writer, check_command. intros Hr. io_open Hr u0 w0 Hrt. apply io_result_ok in Hrt as [_ ->].
  io_open Hr x w1 Hx. destruct x as [[lines r] s']. io_open Hx loaded w2 Hl.
  unfold outcome in Hl. destruct (load_profile_from _ _ _ _ w) as [[l|] w3] eqn:El; [|done]. injection Hl as -> ->.
  unfold check_loaded in Hx. destruct (Check.check _ _ _ _ _ _ _ _ _ _) as [r' s''] eqn:Ec. injection Hx as _ -> _ <-.
  io_open Hr u1 w4 Hd. apply io_result_ok in Hr as [-> ->].
  assert (nodes w4 = nodes w2) as -> by by (unfold at_desk in Hd; injection Hd as _ <-).
  apply checked_ok in Ec as (p & v & Hp & Hv & Hlate & _ & Hver); [|done].
  destruct loaded as [[p' ls]|e]; [|done]. injection Hp as ->.
  pose proof (profile_ok _ _ _ _ _ _ _ _ El) as (En & _). split; [done|]. exists p. split; [by exists ls, w2|].
  rewrite En in Hv. destruct (proj1 (loaded_decides expand Hs (nodes w) p _) (ex_intro _ _ (conj Hv eq_refl))) as [Hf Hc].
  exists (vp_policy v). split_and!; [done|done|]. intros Hm. destruct (Hlate Hm) as (pl & Hpl).
  destruct (proj2 (checked_decides p (vp_policy v)) (conj Hc (ex_intro _ _ Hpl))) as (rt & Hrt). exists rt. split; [done|by apply Hver].
Qed.

Context `{TomlEdit, JsonFile, ProfileToml, Times, Prompter P, KeyringLib}.
(** A smoke check vouches for what was written: an [init] that was asked for
    one and succeeds leaves files from which the commands load a profile of the
    plan's name, its policy loads and passes the checks of [serve]; a check in
    full also built the pipeline, and its verifier accepted the model of a
    production profile. *)
Theorem smoke_check_vouches (Hs : SameReader) debug_str pid ulid runtime s a env (w w' : World (Desk P)) u :
  a_print_only a = false → a_smoke_check a = true →
  run_with_prompter_and_env debug_str pid ulid (smoke runtime s) a env w = (Some (Ok u), w') →
  ∃ plan p (w1 : World (Desk P)), (run_guided a env (prompter (store w))).1 = Ok plan ∧ nodes w1 = nodes w' ∧
    Configured w1 (s_name (profile_section plan)) (smoke_configs plan) p ∧ name p = s_name (profile_section plan) ∧
    Vouched (nodes w') (smoke_mode plan) p.
Proof.
  intros Hp Hc. unfold run_with_prompter_and_env. rewrite Hp, Hc. intros Hr.
  io_open Hr plan w1 Hg. unfold guided, at_desk in Hg. destruct (run_guided a env (prompter (store w))) as [r q] eqn:Eg.
  injection Hg as -> <-. io_open Hr u1 w2 Hw1. io_open Hr u2 w3 Hw2. io_open Hr u3 w4 Hw3.
  apply smoke_ok in Hr as (En & p & Hconf & Hv); [|done]. exists plan, p, w4. rewrite En.
  split_and!; [done|done|done| |done]. destruct Hconf as (ls & w5 & Hl). by apply profile_ok in Hl as (_ & ? & _).
Qed.
End SmokeRun.
