(* ===== verification/Demo.v ===== *)
(** * The demonstration

    Models src/src/cli/demo.rs: a session of its own in a temporary directory, one
    call on seeded rows, and what it shows: the tokens, and the text restored
    from the snapshot that the call left. *)

From S2P Require Import Prelude Utf8 Str Errors LensValue Profile Policy SqlQuery LogSource Output Session SessionFacts Tools Disk DiskFacts Toml Manifest Retention Flow Driver Serve Dto Frontend QueryCli.

(** Gaze's import of a snapshot, and [restore_strict_text] *)
Class DemoGaze := {
  Imported : Type;
  import_snapshot : bytes → result string Imported;
  restore_strict_text : Imported → string → result string string }.

(** the rows of [DemoSource] *)
Definition seed_row (id : Z) (email : string) (phone : LensValue) (note : string) : LensRow :=
  row_insert "note" (LString note) (row_insert "phone" phone (row_insert "email" (LString email) (row_insert "id" (LI64 id) []))).
Definition seed_rows : list LensRow :=
  [seed_row 1 "alice@example.com" (LString "555-123-4567") "primary contact";
   seed_row 2 "bob@beta.io" (LString "555-987-6543") "ssn on file: 123-45-6789";
   seed_row 3 "carol@example.net" LNull "archived"].

Record DemoOutcome := mkDemoOutcome {
  tokenized_section : string; restored_section : string; do_manifest_path : string; do_snapshot_dir : string;
  do_snapshot_path : string; do_session_id : string }.

Section Demo.
Context `{GazeBuilder, PolicyToml, Ulids, DemoGaze, CliJson, FloatText, JsonText, DiscoverySerde}.
Context (gaze : GazePolicy → result string unit) (ids : string * string) (now : option N).
(** the fake source, and what reaches it: the arguments of [session_dispatch] *)
Abbreviation DemoSession := (Session Pipeline (list LensRow) (list LensRow)).
Variable no_clean : json → string.
Variable registry : result string unit.
Variable envelope : DemoSession → Pipeline → string → json → option string → result DispatchError json * DemoSession.
Variable restore : Pipeline → string → result string string.

Definition demo_steps : list BuilderStep :=
  let phone := pii_custom "phone" in
  let ssn := pii_custom "ssn" in
  [AddDetector Emails; AddDetector (PlainPattern "\b\d{3}-\d{3}-\d{4}\b" phone); AddDetector (PlainPattern "\b\d{3}-\d{2}-\d{4}\b" ssn);
   AddClassRule Email Tokenize; AddClassRule phone Tokenize; AddClassRule ssn Tokenize; AddDefaultRule Preserve].
Definition demo_load (d : Detector) : result LensError unit := map_err (load_detector d) RedactionFailed.
Definition build_demo_pipeline : result LensError Pipeline :=
  _ ← demo_load Emails;
  _ ← demo_load (PlainPattern "\b\d{3}-\d{3}-\d{4}\b" (pii_custom "phone"));
  _ ← demo_load (PlainPattern "\b\d{3}-\d{2}-\d{4}\b" (pii_custom "ssn"));
  map_err (build_steps demo_steps) RedactionFailed.
Definition restore_tokens (session : Imported) (input : string) : result LensError string :=
  map_err (restore_strict_text session input) (fun err => Internal (String.append "restore tokens: " err)).
Definition demo_args : json :=
  json_object [("profile", JString "demo"); ("table", JString "users"); ("limit", JNumber "5")]%string.

(** the session of the demonstration, its manifest under [workdir] *)
Definition demo_session (workdir : string) : IO Db LensError DemoSession :=
  let manifest_path := join_path workdir "manifest.sqlite" in
  file ← of_result (map_err (from_toml (String.append "[policy.database]" newline)) Errors.Profile);
  policy ← of_result (map_err (to_gaze_policy file) policy_error);
  pipeline ← of_result build_demo_pipeline;
  _ ← of_result (build_gaze_session Conversation (gaze policy));
  _ ← manifest_new manifest_path ids.1 ids.2 now;
  s ← of_result (new_with_pipeline_for_profile Conversation (gaze policy) (Ok tt) pipeline "demo");
  mret (register_fake_source_for_profile (fun rows => rows) s Database "demo" seed_rows).
Definition run_with_workdir (workdir : string) : IO Db LensError DemoOutcome :=
  let manifest_path := join_path workdir "manifest.sqlite" in
  let snapshot_dir := join_path workdir "snapshots" in
  s ← demo_session workdir;
  result ← of_result (session_dispatch no_clean registry envelope restore snapshot_dir ids.1 s "query" demo_args).1;
  let tokenized_section := pretty (clean_to_value (tr_clean result)) in
  snapshot_bytes ← io_err (read_file (tr_snapshot result)) (fun err =>
    Internal (concat_str ["read snapshot "; tr_snapshot result; ": "; io_text err]%string));
  gaze_session ← of_result (map_err (import_snapshot snapshot_bytes) (fun err => Internal (String.append "import snapshot: " err)));
  restored_section ← of_result (restore_tokens gaze_session tokenized_section);
  mret (mkDemoOutcome tokenized_section restored_section manifest_path snapshot_dir (tr_snapshot result) ids.1).

Definition DEMO_LINES (o : DemoOutcome) : list string :=
  ["=== Tokenized output (what an agent sees) ==="; tokenized_section o; "";
   "=== Restored output (what `gaze-lens replay` would show on a real session) ==="; restored_section o; "";
   "(demo state lived in a tempdir and was cleaned up; nothing was written to ~/.gaze-lens/)"]%string.
(** [tempdir]: the temporary directory, which is removed afterwards *)
Definition demo_run (tempdir : result string string) : IO Db LensError (list string) :=
  temp ← of_result (map_err tempdir (fun err => Internal (String.append "demo tempdir: " err)));
  outcome ← run_with_workdir temp;
  mret (DEMO_LINES outcome).

Lemma recorded_session_result s tool args r snapshot_dir id :
  (session_dispatch no_clean registry envelope restore snapshot_dir id s tool args).1 = Ok r →
  tr_snapshot r = Frontend.snapshot_path snapshot_dir id.
Proof.
  unfold session_dispatch. destruct (dispatch_tool _ _ _ _ _ _ _) as [r0 s0]. cbn [fst]. intros Hr.
  open_bind Hr as x Hx. destruct x as [clean obs]. by injection Hr as <-.
Qed.

(** The demonstration restores what it shows: its second text is the first one,
    restored by the session that the call's own snapshot holds, a file under
    the temporary directory named after the session; nothing else is read. *)
Theorem demo_restores_its_snapshot workdir (w w' : World Db) o :
  run_with_workdir workdir w = (Some (Ok o), w') →
  ∃ s w1 r b session,
    demo_session workdir w = (Some (Ok s), w1) ∧
    (session_dispatch no_clean registry envelope restore (join_path workdir "snapshots") ids.1 s "query" demo_args).1 = Ok r ∧
    tokenized_section o = pretty (clean_to_value (tr_clean r)) ∧
    do_snapshot_path o = join_path (join_path workdir "snapshots") (String.append ids.1 ".snap") ∧
    read_node (nodes w1) (do_snapshot_path o) = Ok b ∧ import_snapshot b = Ok session ∧
    restore_strict_text session (tokenized_section o) = Ok (restored_section o) ∧ nodes w' = nodes w1.
Proof.
  unfold run_with_workdir. intros Hr. io_open Hr s w1 Hs. io_open Hr r w2 Hd. apply io_result_ok in Hd as [Hd ->].
  io_open Hr b w3 Hb. apply io_err_ok, io_look_ok in Hb as [Hb En]. io_open Hr session w4 Hi. apply io_result_ok in Hi as [Hi ->].
  apply map_err_ok in Hi. io_open Hr shown w5 Ht. apply io_result_ok in Ht as [Ht ->]. unfold restore_tokens in Ht. apply map_err_ok in Ht.
  injection Hr as <- <-. exists s, w1, r, b, session. cbn [tokenized_section restored_section do_snapshot_path].
  split_and!; [done|done|done| |done|done|done|done]. by apply recorded_session_result in Hd.
Qed.
End Demo.
