(* ===== verification/Chokepoint.v ===== *)
(** * The chokepoint

    [Session::dispatch_tool] hands every call to the envelope of
    [gaze_mcp_core], which is not part of the repository.  [Passes] is what
    docs/reference/mcp-tools.md and docs/explanation/pseudonymization-and-replay.md
    say of it, as an interface between the session and the tools: the redacted
    arguments are recorded before the tool runs, the record is finished before
    the answer is given, and the answer is the tool's, its texts at most redacted
    once more.  Other calls may change the manifest meanwhile, but keep the
    record.  The theorem composes the front end, the session, the tools, the
    manifest and the snapshot behind it.

    A search in the keyword index may be answered from the window of an earlier
    one; for it the calls of the tools are a sequence over the cache of the
    process. *)

From S2P Require Import Prelude Str Text Errors LensValue Profile Policy LogSource LogFacts SqlQuery Output Keyword KeywordFacts Session SessionFacts Tools RemoteWire Watchdog Disk DiskFacts Manifest Retention ManifestFacts SnapshotFacts Dto Frontend FrontendFacts.

(** ** What the manifest says of a call that passed *)
Section Records.
Context `{ManifestText, JsonText}.

Lemma statement_ok {A} (act : Db → result string A * Db) w a w' :
  statement act w = (Some (Ok a), w') → act (store w) = (Ok a, store w') ∧ nodes w' = nodes w.
Proof.
  unfold statement, call_with. destruct (act (store w)) as [r d] eqn:E.
  destruct (fates w) as [|[|n detail|n] fs]; try done; intros [= -> <-]; done.
Qed.

(** the record of a call that began *)
Definition begun_row (s call_id tool text : string) (at_ : Z) : CallRow :=
  mkCallRow call_id s tool text "in-progress" None None at_ None None.
Lemma begin_ok a call args clock w w' :
  adapter_begin a call args clock w = (Some (Ok tt), w') →
  ∃ text, args_to_text (json_to_string args) = Ok text ∧
    (∀ r, r ∈ rows_of (store w) → row_id r ≠ tc_call_id call) ∧
    rows_of (store w') = rows_of (store w) ++
      [begun_row (mw_session (ad_writer a)) (tc_call_id call) (tc_tool_name call) text (current_epoch_ms clock)].
Proof.
  unfold adapter_begin, begin_call. intros Hb. io_open Hb t1 w1 Ht. apply io_result_ok in Ht as [Ht%map_err_ok ->].
  apply io_err_ok, statement_ok in Hb as [Hb _]. exists t1. split; [done|]. unfold insert_call in Hb.
  apply on_calls_rows in Hb as [[_ (e & [=])]|(tb & Et & _ & Hr & Hd)]. rewrite Hd.
  assert (Hrows : rows_of (store w) = call_rows tb) by (unfold rows_of; by rewrite Et).
  destruct (existsb _ _) eqn:Ex; [done|]. unfold rows_of at 2. cbn [snd call_table with_calls call_rows]. rewrite Hrows.
  split; [|done]. intros r Hin Hid. apply not_true_iff_false in Ex. apply Ex, existsb_exists. exists r.
  split; [by apply list_elem_of_In|by apply String.eqb_eq].
Qed.

Lemma finish_ok a rnd call_id locked joined exported byte_len clock w a' w' :
  adapter_finish a rnd call_id locked joined exported byte_len clock w = (Some (Ok (Ok tt, a')), w') →
  let path := Manifest.snapshot_path (ad_dir a) (mw_session (ad_writer a)) in
  ∃ b text, exported = Ok b ∧ nodes w' !! path = Some (FileNode b PRIVATE_FILE) ∧
    summary_to_text (default (mkResultSummary 0 byte_len []) (ad_summaries a !! call_id)) = Ok text ∧
    ∀ r, r ∈ rows_of (store w) → row_id r = call_id → finished_row text path (current_epoch_ms clock) r ∈ rows_of (store w').
Proof.
  cbv zeta. unfold adapter_finish. intros Hf. io_open Hf wr w1 Hw.
  pose proof (held_persist (fun _ => True) (fun _ => False) (store w) rnd (ad_dir a) (mw_session (ad_writer a)) locked exported
    (fun _ _ => I) w ltac:(split; [by intros ? []|done])) as Hp.
  unfold outcome in Hw. destruct (persist_snapshot _ _ _ _ _ w) as [[rp|] wp]; [|done]. injection Hw as -> ->.
  destruct Hp as [[_ Hst] Href]. destruct (if joined then wr else _) as [ref|e] eqn:Ej; [|discriminate Hf].
  assert (wr = Ok ref) as -> by by destruct joined.
  destruct (Href ref eq_refl) as (Hpath & b & Hb & Hn). io_open Hf rf w2 Hrf. injection Hf as -> <- <-.
  unfold outcome in Hrf. destruct (finish_call _ _ _ _ _ w1) as [[q|] wq] eqn:Eq; [|done]. injection Hrf as -> ->.
  unfold finish_call in Eq. io_open Eq tx w3 Ht. apply io_result_ok in Ht as [Ht%map_err_ok ->].
  io_open Eq n w4 Hu. apply io_err_ok, statement_ok in Hu as [Hu Hnodes].
  assert (w2 = w4) as -> by (destruct (n =? 1); by injection Eq).
  exists b, tx. rewrite Hnodes. split_and!; [done|done|done|]. intros r Hr Hid. unfold update_call in Hu.
  apply on_calls_rows in Hu as [[_ (e & [=])]|(tb & Et & _ & _ & Hd)]. rewrite Hd.
  rewrite <- Hst in Hr. unfold rows_of in Hr. rewrite Et in Hr. unfold rows_of. cbn [call_table with_calls call_rows].
  apply list_elem_of_fmap. exists r. split; [|done]. by rewrite Hid, String.eqb_refl, Hpath.
Qed.
End Records.

(** ** Reading an answer back *)
Lemma shape_string v : json_shape v = JString "" → ∃ s, v = JString s.
Proof. destruct v; try done. eauto. Qed.
Lemma shape_object v m : json_shape v = JObject m → ∃ m', v = JObject m' ∧ (fun e => (e.1, json_shape e.2)) <$> m' = m.
Proof. destruct v; try done. intros [= <-]. eauto. Qed.
Lemma shape_one v k w : json_shape v = JObject [(k, w)] → ∃ b, v = JObject [(k, b)] ∧ json_shape b = w.
Proof.
  intros (m & -> & Hm)%shape_object. destruct m as [|[k' b] [|? ?]]; try done. injection Hm as <- <-. eauto.
Qed.
Lemma shape_two v k w k' w' : json_shape v = JObject [(k, w); (k', w')] →
  ∃ b b', v = JObject [(k, b); (k', b')] ∧ json_shape b = w ∧ json_shape b' = w'.
Proof.
  intros (m & -> & Hm)%shape_object. destruct m as [|[k0 b] [|[k1 b'] [|? ?]]]; try done. injection Hm as <- <- <- <-. eauto 6.
Qed.
Lemma shape_array v l : json_shape v = JArray l → ∃ l', v = JArray l' ∧ json_shape <$> l' = l.
Proof. destruct v; try done. intros [= <-]. eauto. Qed.

Lemma objects_written vs rows : list_of object_of (JArray vs) = Some rows → list_to_value JObject rows = JArray vs.
Proof.
  cbn [list_of]. intros Hm. unfold list_to_value. f_equal. apply mapM_Some in Hm.
  induction Hm as [|v m vs ms Hv _ IH]; [done|]. rewrite fmap_cons, IH. destruct v; try done. by injection Hv as ->.
Qed.
Lemma reasons_written l vs reasons :
  json_shape (JArray vs) = json_shape (json_reasons l) → reasons_of (JArray vs) = Some reasons → json_reasons reasons = JArray vs.
Proof.
  unfold reasons_of, json_reasons. cbn [list_of json_shape]. intros [= Hs] Hm. apply mapM_Some in Hm. f_equal.
  revert l Hs. induction Hm as [|v r vs rs Hv _ IH]; intros [|a l] Hs; try done. cbn in Hs. injection Hs as Hs0 Hs.
  apply shape_string in Hs0 as [s ->]. cbn in Hv. unfold assoc, REASONS in Hv. cbn. f_equal; [|by eapply IH].
  cbn [List.find fst] in Hv.
  repeat match type of Hv with
    context [String.eqb s ?x] => destruct (String.eqb_spec s x) as [E|_]; [rewrite E; cbn in Hv; by injection Hv as <-|]
  end. cbn in Hv. discriminate Hv.
Qed.

(** a value of the shape of clean output that is read as clean output is what
    that output is written as *)
Lemma clean_written c v c' :
  json_shape v = json_shape (clean_to_value c) → clean_of_value v = Some c' → clean_to_value c' = v.
Proof.
  assert (Ha : ∀ l : list TruncatedAt, json_shape (json_reasons l) = JArray (json_shape <$> (JString ∘ truncated_debug <$> l))) by done.
  destruct c as [rows reasons|t reasons]; intros Hs; lazy -[json_reasons list_to_value json_shape] in Hs;
    cbn [json_shape fmap list_fmap fst snd] in Hs; apply shape_one in Hs as (body & -> & Hb);
    apply shape_two in Hb as (v1 & v2 & -> & H1 & H2); intros Hr; lazy -[reasons_of list_of object_of] in Hr;
    (rewrite Ha in H2; pose proof H2 as Hw; apply shape_array in H2 as (ws & -> & _)).
  - apply shape_array in H1 as (vs & -> & _).
    destruct (list_of object_of (JArray vs)) as [rows'|] eqn:E1; [|done].
    destruct (reasons_of (JArray ws)) as [rs|] eqn:E2; [|done]. injection Hr as <-.
    apply objects_written in E1. apply (reasons_written reasons) in E2; [|by rewrite Ha].
    lazy -[json_reasons list_to_value]. by rewrite E1, E2.
  - apply shape_string in H1 as [s ->]. destruct (reasons_of (JArray ws)) as [rs|] eqn:E2; [|done]. injection Hr as <-.
    apply (reasons_written reasons) in E2; [|by rewrite Ha]. lazy -[json_reasons list_to_value]. by rewrite E2.
Qed.

(** ** What is shown of a source's output *)
Section Shown.
Context `{GazeSession, JsonText}.
Context (caps : OutputCaps) (actions : ColumnActionPolicy).

(** rows are maps: their keys differ *)
Definition Keyed (output : SourceOutput) : Prop :=
  match output with OutRows rows => Forall (fun row => NoDup row.*1) rows | _ => True end.
(** the pipeline's answers, cell by cell, or for the whole text as it was cut *)
Definition ShownOf (output : SourceOutput) (clean : CleanOutput) : Prop :=
  match output, clean with
  | OutRows rows, CleanRows out _ =>
    Forall2 (RowShown caps actions) (take (length out) rows) out ∧ total_size out <= caps_bytes caps
  | OutText t, CleanText t' _ | OutTextWithTruncation t _, CleanText t' _ => Redacted gz_redact (cap_string t (caps_bytes caps)).1 t'
  | OutSchemaText t, CleanText t' _ => t' = (cap_string t (caps_bytes caps)).1
  | _, _ => False
  end.

Lemma text_shown t reasons clean :
  redact_text_output caps t reasons = Ok clean →
  ∃ t' tr, clean = CleanText t' tr ∧ Redacted gz_redact (cap_string t (caps_bytes caps)).1 t'.
Proof.
  unfold redact_text_output. destruct (cap_string t _) as [c cut]. intros E. open_bind E as d Hd%map_err_ok.
  destruct d as [t'| |]; try done. injection E as <-. by eexists _, _.
Qed.
Lemma result_shown output clean :
  KeepsKeys → caps_bytes caps < USIZE_MAX → Keyed output → redact_result caps actions output = Ok clean → ShownOf output clean.
Proof.
  intros Hk Hc Hd. destruct output as [rows|t|t|t reasons]; cbn [redact_result].
  - unfold redact_rows. intros E. open_bind E as [out tr] Hl. injection E as <-.
    destruct (rows_loop_spec caps actions _ _ _ _ _ _ Hk Hc (Forall_take _ _ _ Hd) (N.le_0_l _) Hl)
      as (new & -> & Hf & Hb & _ & _). cbn [app ShownOf] in *. split; [|lia]. rewrite take_take in Hf.
    assert (Hlen : (length new <= N.to_nat (caps_rows caps))%nat).
    { apply Forall2_length in Hf. rewrite length_take in Hf. lia. }
    by replace (length new `min` N.to_nat (caps_rows caps))%nat with (length new) in Hf by lia.
  - intros E. by apply text_shown in E as (t' & tr & -> & Ht).
  - unfold schema_text_output. intros E. destruct (cap_string t _) as [c cut] eqn:Ec. injection E as <-. cbn [ShownOf]. by rewrite Ec.
  - intros E. by apply text_shown in E as (t' & tr & -> & Ht).
Qed.
End Shown.

(** ** The envelope, and what an answer shows *)
Section Chokepoint.
Context {Pl Src B : Type} `{GazeBuilder, DiscoverySerde, JsonText, FloatText, Unicode, RegexLib, ManifestText}.
(** the pipelines, the sources and their builders *)
Context (gaze : Pl → GazeSession) (run : B → result LensError Src).
Context (ask : Src → string → json → result LensError SourceOutput).
Variable no_clean : json → string.
Variable debug_str : string → string.
Variable registry : result string unit.
(** restoring: of a pipeline, and the lenient one of the tools *)
Variable restore : Pl → string → result string string.
Variable lenient : string → result string string.
Context (manifest_path snapshot_dir lens_session_id : string).
Abbreviation Sess := (Session Pl Src B).
(** [w]: the disk and the manifest when the call is made; [after]: when the
    envelope has answered *)
Context (w : Disk.World Db).
Variable envelope : Sess → Pl → string → json → option string → result DispatchError json * Sess.
Variable after : Sess → Pl → string → json → option string → Disk.World Db.

Definition adapter (s : Sess) : Adapter := mkAdapter (mkWriter manifest_path lens_session_id) snapshot_dir (core_summaries s).
Definition core (deadline : Deadline) (late : bool) (call_id : string) (s : Sess) (tool : string) (args : json)
  : result LensError CleanOutput * Sess :=
  invoke_core_tool gaze run ask deadline late s tool call_id args.
(** a text as it was, or the pipeline's answer for it *)
Definition Kept (pl : Pl) (t t' : string) : Prop := t' = t ∨ Redacted (gz_redact (GazeSession := gaze pl)) t t'.
Definition Resealed (pl : Pl) (v v' : json) : Prop := json_shape v' = json_shape v ∧ Forall2 (Kept pl) (json_texts v) (json_texts v').
(** the texts of the arguments as they are recorded *)
Definition ArgsRedacted (pl : Pl) (args args1 : json) : Prop :=
  json_shape args1 = json_shape args ∧ Forall2 (Redacted (gz_redact (GazeSession := gaze pl))) (json_texts args) (json_texts args1).

(** the payload, the session and the disk an envelope answers with *)
Inductive Passes (s : Sess) (pl : Pl) (tool : string) (args : json) (pattern : option string)
  : json → Sess → Disk.World Db → Prop :=
| passes t call_id args1 clock w1 deadline late cache cache' now at_ warnings s1 value w2
    rnd locked joined exported byte_len clock' a w' payload :
    tool_name t = tool →
    ArgsRedacted pl args args1 →
    adapter_begin (adapter s) (mkToolCall call_id tool) args1 clock w = (Some (Ok tt), w1) →
    tool_invoke debug_str lenient (core deadline late call_id) lens_session_id t s call_id args1 (Some pattern) cache now at_ =
      (Ok value, s1, cache', warnings) →
    (∀ r, r ∈ rows_of (store w1) → row_id r = call_id → r ∈ rows_of (store w2)) →
    adapter_finish (adapter s1) rnd call_id locked joined exported byte_len clock' w2 = (Some (Ok (Ok tt, a)), w') →
    Resealed pl value payload →
    Passes s pl tool args pattern payload (with_core_summaries s1 (ad_summaries a)) w'.
Definition EnvelopePasses : Prop :=
  ∀ s pl tool args pattern payload s',
    envelope s pl tool args pattern = (Ok payload, s') → Passes s pl tool args pattern payload s' (after s pl tool args pattern).

(** a call that is not answered from the keyword index *)
Definition plain (tool : string) (args1 : json) : Prop :=
  tool = "query"%string ∨ tool = "log_tail"%string ∨ tool = "log_grep"%string ∧ log_grep_mode args1 = Ok ModeRegex.
Lemma plain_invoked id session_id t (s s1 : Sess) deadline late args1 pattern cache now at_ value cache' warnings :
  tool_invoke debug_str lenient (core deadline late id) session_id t s id args1 pattern cache now at_ =
    (Ok value, s1, cache', warnings) →
  plain (tool_name t) args1 →
  ∃ args2 clean, restore_tokens_in_json lenient args1 = Ok args2 ∧
    core deadline late id s (tool_name t) args2 = (Ok clean, s1) ∧ value = clean_to_value clean.
Proof.
  intros Hi Hp. assert (Hpl : invoke_plain debug_str lenient (core deadline late id) t s args1 = (Ok value, s1)).
  { destruct Hp as [Ht|[Ht|[Ht Hm]]]; destruct t; try done; unfold tool_invoke in Hi; try (by injection Hi).
    rewrite Hm in Hi. by injection Hi. }
  clear Hi. unfold invoke_plain, invoke_session_tool in Hpl. destruct (restore_tokens_in_json lenient args1) as [args2|]; [|done].
  destruct (core _ _ _ s _ args2) as [c s2] eqn:Ec. injection Hpl as Hv ->. open_bind Hv as clean Hc%map_err_ok.
  injection Hv as <-. subst c. by exists args2, clean.
Qed.

(** what the manifest holds of an answered call *)
Record Recorded (pl : Pl) (tool : string) (args args1 : json) (path : string) (row : CallRow) (w' : Disk.World Db) : Prop := {
  rec_new : ∀ r, r ∈ rows_of (store w) → row_id r ≠ row_id row;
  rec_there : row ∈ rows_of (store w');
  rec_call : row_session row = lens_session_id ∧ row_tool row = tool ∧ row_status row = "ok"%string;
  rec_args : args_to_text (json_to_string args1) = Ok (row_args row) ∧ ArgsRedacted pl args args1;
  rec_snapshot : row_snapshot row = Some path ∧ ∃ b, nodes w' !! path = Some (FileNode b PRIVATE_FILE) }.
(** what is shown of the source of a call's profile *)
Record CoreShown (s : Sess) (tool : string) (args2 : json) (clean : CleanOutput) : Prop := {
  core_shown : ∃ profile pipeline actions source args3 output,
    ProfileOf s args2 profile ∧
    (∀ k, k ≠ "profile"%string → json_get args3 k = json_get args2 k) ∧
    HasPipeline s profile pipeline ∧ column_actions_for s profile = Ok actions ∧
    Serves run s tool profile source ∧ ask source tool args3 = Ok output ∧
    ShownOf (H := gaze pipeline) (caps s) actions output clean }.
(** ... for the arguments as they are restored *)
Definition ShownFrom (s : Sess) (tool : string) (args1 : json) (clean : CleanOutput) : Prop :=
  ∃ args2, restore_tokens_in_json lenient args1 = Ok args2 ∧ CoreShown s tool args2 clean.

Hypothesis keeps_keys : ∀ pl, KeepsKeys (H := gaze pl).
Hypothesis keyed : ∀ source tool args output, ask source tool args = Ok output → Keyed output.

Lemma core_shows deadline late id s tool args clean s1 :
  core deadline late id s tool args = (Ok clean, s1) → caps_bytes (caps s) < USIZE_MAX →
  CoreShown s tool args clean ∧ core_summaries s1 = <[id := summary clean]> (core_summaries s).
Proof.
  intros Hc Hcaps. destruct (call_stays_in_its_profile gaze run ask _ _ _ _ _ _ _ _ Hc)
    as (profile & pipeline & actions & source & args3 & output & Hprof & _ & Hk & Hpipe & Hact & Hserves & Hask & Hred & _ & _ & Hsum & _).
  split; [|exact Hsum]. split. exists profile, pipeline, actions, source, args3, output. split_and!; try done.
  apply result_shown; [apply keeps_keys|exact Hcaps|by eapply keyed|exact Hred].
Qed.

(** one pass *)
Lemma pass_shown s pl tool args pattern payload s' w' :
  Passes s pl tool args pattern payload s' w' →
  ∃ args1 row, Recorded pl tool args args1 (Manifest.snapshot_path snapshot_dir lens_session_id) row w' ∧
    (caps_bytes (caps s) < USIZE_MAX → plain tool args1 → ∃ clean ts,
      ShownFrom s tool args1 clean ∧ Resealed pl (clean_to_value clean) payload ∧
      summary_to_text (summary clean) = Ok ts ∧ row_summary row = Some ts).
Proof.
  intros Hp. destruct Hp as [t call_id args1 clock w1 deadline late cache cache' now at_ warnings s1 value w2
    rnd locked joined exported byte_len clock' a w' payload <- Hargs Hb Hi Hkeep Hf Hs].
  apply begin_ok in Hb as (tx & Htx & Hnew & Hrows). apply finish_ok in Hf as (b & ts & _ & Hn & Hts & Hrow).
  set (r0 := begun_row _ _ _ _ _) in Hrows.
  assert (Hr0 : r0 ∈ rows_of (store w2)) by (apply Hkeep; [rewrite Hrows; apply elem_of_app; right; by left|done]).
  apply Hrow in Hr0; [|done].
  exists args1, (finished_row ts (Manifest.snapshot_path snapshot_dir lens_session_id) (current_epoch_ms clock') r0). split.
  { split; [exact Hnew|exact Hr0|done|done|]. split; [done|]. by exists b. }
  intros Hcaps Hpl. destruct (plain_invoked _ _ _ _ _ _ _ _ _ _ _ _ _ _ _ Hi Hpl) as (args2 & clean & Hr & Hc & ->).
  apply core_shows in Hc as [Hsh Hsum]; [|exact Hcaps].
  exists clean, ts. split_and!; [|exact Hs| |done].
  - by exists args2.
  - cbn [ad_summaries adapter] in Hts. by rewrite Hsum, lookup_insert_eq in Hts.
Qed.

Abbreviation answer := (to_call_tool_result no_clean debug_str registry envelope restore snapshot_dir lens_session_id).

(** what a session answers went through its envelope *)
Lemma dispatched_passed s tool args r s' :
  EnvelopePasses → session_dispatch no_clean registry envelope restore snapshot_dir lens_session_id s tool args = (Ok r, s') →
  ∃ routed pl args0 payload,
    ProfileOf s args routed ∧ HasPipeline s routed pl ∧ (∀ k, k ≠ "profile"%string → json_get args0 k = json_get args k) ∧
    Passes s pl tool args0 (json_get args0 "pattern" ≫= as_str) payload s' (after s pl tool args0 (json_get args0 "pattern" ≫= as_str)) ∧
    tr_snapshot r = Frontend.snapshot_path snapshot_dir lens_session_id ∧
    (tool ≠ "schema"%string → tool ≠ "list_tables"%string → clean_of_value payload = Some (tr_clean r)).
Proof.
  intros Henv. unfold session_dispatch, dispatch_tool. destruct (extract_profile s tool args) as [[routed args0]|] eqn:Ep; [|done].
  destruct (pipeline_for s routed) as [pl|] eqn:Epl, (map_err registry Internal); try done.
  destruct (envelope s pl tool args0 _) as [response s1] eqn:Ee. intros [= Hr <-].
  open_bind Hr as co Hco. destruct co as [c o]. injection Hr as <-.
  open_bind Hco as payload Hp%map_err_ok. subst response. open_bind Hco as c1 Hc1%map_err_ok. open_bind Hco as c2 Hc2.
  open_bind Hco as o' Ho. injection Hco as -> ->. apply ok_or_ok in Hc1.
  apply extract_profile_spec in Ep as (Hprof & _ & Hk). apply pipeline_for_spec in Epl. apply Henv in Ee.
  exists routed, pl, args0, payload. split_and!; try done. cbn [tr_clean]. intros Hs%String.eqb_neq Ht%String.eqb_neq.
  rewrite Hs, Ht in Hc2. by injection Hc2 as <-.
Qed.

(** C1. An answer is redacted, and recorded before it is given.  If the front
    end answers a call with a result, the call named a profile of the session,
    or the session has only one, and the envelope was given that profile's
    pipeline.  The manifest then holds a record of the call that was not there
    before: under this session's id, with the tool, the status [ok], the
    redaction of the arguments by that pipeline, and the reference of the
    snapshot that the answer carries, which is a private file on the disk.  A
    query, a log tail and a regex grep show what the source of the profile
    gave for the arguments as they were restored: each cell of a row as the
    pipeline of that profile answers for it after the column's action, each
    text as the pipeline answers for it, within the byte cap, and at most
    redacted once more; and the record's summary is that of this output. *)
Theorem answer_is_redacted_and_recorded t0 t1 f f' tool args reply :
  EnvelopePasses →
  answer t0 t1 f tool (Ok args) = Some (Ok reply, f') →
  ∃ s routed pl args0 args1 r v row,
    let w' := after s pl tool args0 (json_get args0 "pattern" ≫= as_str) in
    attached f = Some s ∧ ProfileOf s args routed ∧ HasPipeline s routed pl ∧
    (∀ k, k ≠ "profile"%string → json_get args0 k = json_get args k) ∧
    content reply = [json_to_string v] ∧ tool_result_to_value r = Ok v ∧
    Recorded pl tool args0 args1 (tr_snapshot r) row w' ∧
    (caps_bytes (caps s) < USIZE_MAX → plain tool args1 → ∃ clean ts,
      ShownFrom s tool args1 clean ∧ Resealed pl (clean_to_value clean) (clean_to_value (tr_clean r)) ∧
      summary_to_text (summary clean) = Ok ts ∧ row_summary row = Some ts).
Proof.
  intros Henv [(? & _ & _ & _ & [=])|(_ & _ & f0 & f1 & d & -> & Hd & _ & Hr)]%reply_spec.
  destruct d as [r|e]; [|cbn in Hr; by destruct (is_invalid_params e)].
  unfold dispatch in Hd. case_bool_decide as Ht; cbn [negb] in Hd; [|done]. cbn [attached] in Hd.
  destruct (attached f) as [s|]; [|done].
  destruct (session_dispatch _ _ _ _ _ _ s tool args) as [d s'] eqn:Es. injection Hd as -> <-.
  destruct (dispatched_passed _ _ _ _ _ Henv Es) as (routed & pl & args0 & payload & Hprof & Hpipe & Hk & Hpass & Hsnap & Hclean).
  destruct (pass_shown _ _ _ _ _ _ _ _ Hpass) as (args1 & row & Hrec & Hshown).
  cbn in Hr. destruct (tool_result_to_value r) as [v|] eqn:Ev; [|done]. injection Hr as ->.
  exists s, routed, pl, args0, args1, r, v, row. rewrite Hsnap. split_and!; try done.
  intros Hcaps Hpl. destruct (Hshown Hcaps Hpl) as (clean & ts & Hs & Hse & Hsum & Hrow). exists clean, ts.
  rewrite (clean_written clean payload (tr_clean r)); [done|apply Hse|].
  apply Hclean; intros ->; by destruct Hpl as [?|[?|[? _]]].
Qed.

(** ** Searches in the keyword index *)

(** a call of a tool, on the session as it is then; the cache of windows is one
    for the process *)
Record Step := mkStep {
  st_tool : CoreTool; st_id : string; st_session : Sess; st_args : json; st_pattern : option (option string);
  st_deadline : Deadline; st_late : bool; st_now : N; st_at : N }.
Definition step_core (q : Step) := core (st_deadline q) (st_late q) (st_id q).
Definition tool_step (cache : KeywordIndexCache) (q : Step) : result ToolError json * KeywordIndexCache :=
  let '(value, _, cache, _) :=
    tool_invoke debug_str lenient (step_core q) lens_session_id (st_tool q) (st_session q) (st_id q) (st_args q) (st_pattern q)
      cache (st_now q) (st_at q) in
  (value, cache).
Fixpoint tool_run (cache : KeywordIndexCache) (qs : list Step) : list (result ToolError json) :=
  match qs with [] => [] | q :: qs => let '(value, cache) := tool_step cache q in value :: tool_run cache qs end.

Definition is_search (q : Step) : Prop := st_tool q = LogGrepTool ∧ log_grep_mode (st_args q) = Ok ModeKeyword.
(** [text] is what the session answered when the call asked it *)
Definition Asked (q : Step) (text : string) (reasons : list TruncatedAt) : Prop :=
  (step_core q (st_session q) "log_grep" (st_args q)).1 = Ok (CleanText text reasons).
Definition step_key (q : Step) : KeywordCacheKey := (lens_session_id, profile_key_from_args (st_args q)).
(** every window of the cache is one that an earlier call was answered *)
Definition CacheHolds (before : list Step) (cache : KeywordIndexCache) : Prop :=
  ttl cache = KEYWORD_INDEX_CACHE_TTL ∧ ∀ key e, entries cache !! key = Some e →
    ∃ j q text reasons, before !! j = Some q ∧ Asked q text reasons ∧ key = step_key q ∧ minted_at e = st_at q ∧
      output e = indexed_window (window_of text reasons).
(** the answer of a search [q] over a window [text] *)
Definition SearchShown (q : Step) (request : KeywordRequest) (text : string) (reasons : list TruncatedAt) (value : json) : Prop :=
  ∃ level_re, keyword_level_regex (rq_level request) = Ok level_re ∧
    let w := window_of text reasons in
    let found := filter (fun l => wanted (keyword_query_terms (chars (match_pattern request))) level_re l = true) (w_lines w) in
    let shown := take (N.to_nat (rq_limit request)) found in
    let truncated_at := if rq_limit request <? len found then push_truncation reasons TrRows else reasons in
    value = clean_to_value (CleanText (render_keyword_output (w_metadata w) request shown (len found) truncated_at) truncated_at).

Lemma holds_weaker before q cache : CacheHolds before cache → CacheHolds (before ++ [q]) cache.
Proof.
  intros [Ht Hh]. split; [done|]. intros key e He. destruct (Hh key e He) as (j & q' & text & reasons & Hj & Hrest).
  exists j, q', text, reasons. split; [by apply lookup_app_l_Some|done].
Qed.
Lemma window_reasons text reasons : w_truncated_at (window_of text reasons) = reasons.
Proof. unfold window_of. by destruct (split_redacted_window_text text). Qed.

Lemma tool_step_cases cache q value cache' :
  tool_step cache q = (value, cache') →
  ¬ is_search q ∧ cache' = cache ∨
  is_search q ∧ ∃ r hit,
    invoke_keyword debug_str lens_session_id (st_args q) (st_pattern q) cache (st_now q)
      (step_core q (st_session q) "log_grep" (st_args q)).1 (st_at q) = (r, cache', hit) ∧
    value = (clean ← r; clean_output_response written clean).
Proof.
  unfold tool_step, tool_invoke. intros E.
  destruct (st_tool q) eqn:Et;
    try (left; split; [intros [Hs _]; congruence|destruct (invoke_plain _ _ _ _ _ _); by injection E as _ <-]).
  destruct (log_grep_mode (st_args q)) as [[]|] eqn:Em.
  - left. split; [intros [_ Hs]; congruence|]. by destruct (invoke_plain _ _ _ _ _ _); injection E as _ <-.
  - right. split; [by split|]. unfold tool_keyword in E.
    destruct (step_core q (st_session q) "log_grep" (st_args q)) as [clean asked]. cbn [fst].
    destruct (invoke_keyword _ _ _ _ _ _ _ _) as [[r c] hit]. injection E as <- <-. eauto.
  - left. split; [intros [_ Hs]; congruence|]. by injection E as _ <-.
Qed.

(** one call: what the cache holds after it, and what a search shows *)
Lemma tool_step_spec before cache q value cache' :
  CacheHolds before cache → tool_step cache q = (value, cache') →
  CacheHolds (before ++ [q]) cache' ∧
  ∀ v, is_search q → value = Ok v → ∃ pattern request j q' text reasons,
    st_pattern q = Some (Some pattern) ∧ keyword_request_from_args (st_args q) pattern = Ok request ∧
    (before ++ [q]) !! j = Some q' ∧ Asked q' text reasons ∧ step_key q' = step_key q ∧
    (j = length before ∨ rq_refresh request = false ∧ st_now q - st_at q' <= KEYWORD_INDEX_CACHE_TTL) ∧
    SearchShown q request text reasons v.
Proof.
  intros Hh [[Hn ->]|[Hs (r & hit & Hi & ->)]]%tool_step_cases; [split; [by apply holds_weaker|by intros v ?]|].
  pose proof (invoke_keyword_spec debug_str lens_session_id _ _ _ _ _ _ _ _ _ Hi) as [Hc Hout]. clear Hi.
  assert (Hq : (before ++ [q]) !! length before = Some q) by (by rewrite lookup_app_r, Nat.sub_diag).
  split.
  - destruct Hc as [->|(text & reasons & Ha & ->)]; [by apply holds_weaker|]. destruct (holds_weaker before q cache Hh) as [Ht He].
    split; [done|]. intros key e. unfold LogSource.store. cbn [entries]. destruct (decide (key = step_key q)) as [->|Hk].
    + unfold step_key. rewrite lookup_insert_eq. intros [= <-]. by exists (length before), q, text, reasons.
    + rewrite lookup_insert_ne by done. apply He.
  - intros v _ Hv. open_bind Hv as out Ho. subst r. injection Hv as <-.
    destruct (Hout out eq_refl) as (pattern & request & indexed & Hp & Hr & Hw & Hf).
    assert (Hfrom : ∃ j q' text reasons, (before ++ [q]) !! j = Some q' ∧ Asked q' text reasons ∧ step_key q' = step_key q ∧
      (j = length before ∨ rq_refresh request = false ∧ st_now q - st_at q' <= KEYWORD_INDEX_CACHE_TTL) ∧
      indexed = indexed_window (window_of text reasons)).
    { destruct Hw as [[Hrf Hfr]|(text & reasons & Ha & ->)]; [|exists (length before), q, text, reasons; split_and!; auto].
      destruct Hh as [Ht He]. unfold fresh in Hfr. destruct (entries cache !! _) as [e|] eqn:Ee; [|done].
      destruct (N.leb_spec (st_now q - minted_at e) (ttl cache)) as [Hle|]; [|done]. injection Hfr as <-.
      destruct (He _ _ Ee) as (j & q' & text & reasons & Hj & Ha & Hk & Hm & Hout').
      exists j, q', text, reasons. split_and!; [by apply lookup_app_l_Some|done|done| |done].
      right. split; [done|]. by rewrite <- Hm, <- Ht. }
    destruct Hfrom as (j & q' & text & reasons & Hj & Ha & Hk & Ht & ->).
    exists pattern, request, j, q', text, reasons. split_and!; try done.
    apply request_spec in Hr as (_ & Hmp & Hterms). rewrite <- Hmp in Hterms.
    pose proof (keyword_search_shows_matches (window_of text reasons) request Hterms) as Hshow.
    cbn [index indexed_window window] in Hf. rewrite Hf in Hshow.
    destruct (keyword_level_regex _) as [level_re|] eqn:Hl; [|done]. cbv zeta in Hshow. rewrite window_reasons in Hshow.
    exists level_re. split; [done|]. by injection Hshow as ->.
Qed.

Lemma run_spec before cache qs i value q :
  CacheHolds before cache → tool_run cache qs !! i = Some (Ok value) → qs !! i = Some q → is_search q →
  ∃ pattern request j q' text reasons,
    st_pattern q = Some (Some pattern) ∧ keyword_request_from_args (st_args q) pattern = Ok request ∧
    (before ++ take (S i) qs) !! j = Some q' ∧ Asked q' text reasons ∧ step_key q' = step_key q ∧
    (j = (length before + i)%nat ∨ rq_refresh request = false ∧ st_now q - st_at q' <= KEYWORD_INDEX_CACHE_TTL) ∧
    SearchShown q request text reasons value.
Proof.
  revert before cache i. induction qs as [|q0 qs IH]; intros before cache i Hh Hr Hi Hs; [done|].
  cbn [tool_run] in Hr. destruct (tool_step cache q0) as [v c] eqn:E.
  destruct (tool_step_spec before cache q0 v c Hh E) as [Hc Hv]. destruct i as [|i]; cbn [lookup list_lookup] in Hr, Hi.
  - injection Hi as ->. injection Hr as ->. destruct (Hv value Hs eq_refl) as (p & r & j & q' & t & rs & ? & ? & ? & ? & ? & ? & ?).
    exists p, r, j, q', t, rs. cbn [take]. rewrite Nat.add_0_r. by split_and!.
  - destruct (IH _ _ _ Hc Hr Hi Hs) as (p & r & j & q' & t & rs & ? & ? & Hj & ? & ? & Ht & ?).
    exists p, r, j, q', t, rs. rewrite <- app_assoc in Hj. rewrite length_app in Ht. cbn [length] in Ht.
    split_and!; try done. destruct Ht as [->|?]; [left; lia|by right].
Qed.

(** C6. A keyword search shows what was released.  Whatever calls the tools
    are given, on whatever states of the session, an answered search shows the
    matching lines, the first [limit] of them in order, of one text that the
    session released: for this search, or, unless it asks for a refresh, for an
    earlier search that named the same profile, not longer ago than the index
    is kept.  That text is what the pipeline of the profile of that search
    answers for the output of its source.  Lines of one profile are never shown
    for another, and none that did not go through a pipeline. *)
Theorem searches_show_released qs i q value :
  (∀ q, q ∈ qs → caps_bytes (caps (st_session q)) < USIZE_MAX) →
  tool_run (cache_new KEYWORD_INDEX_CACHE_TTL) qs !! i = Some (Ok value) → qs !! i = Some q → is_search q →
  ∃ pattern request j q' text reasons,
    st_pattern q = Some (Some pattern) ∧ keyword_request_from_args (st_args q) pattern = Ok request ∧
    (j <= i)%nat ∧ qs !! j = Some q' ∧ profile_key_from_args (st_args q') = profile_key_from_args (st_args q) ∧
    (j = i ∨ rq_refresh request = false ∧ st_now q - st_at q' <= KEYWORD_INDEX_CACHE_TTL) ∧
    CoreShown (st_session q') "log_grep" (st_args q') (CleanText text reasons) ∧
    SearchShown q request text reasons value.
Proof.
  intros Hcaps Hr Hi Hs. assert (Hh : CacheHolds [] (cache_new KEYWORD_INDEX_CACHE_TTL)) by (split; [done|by intros ???]).
  destruct (run_spec _ _ _ _ _ _ Hh Hr Hi Hs) as (p & r & j & q' & t & rs & Hp & Hreq & Hj & Ha & Hk & Ht & Hsh).
  cbn [app length Nat.add] in Hj, Ht. apply lookup_take_Some in Hj as [Hj Hle].
  exists p, r, j, q', t, rs. split_and!; try done; [lia|by injection Hk|].
  unfold Asked in Ha. destruct (step_core q' (st_session q') "log_grep" (st_args q')) as [c s1] eqn:Ec. cbn [fst] in Ha. subst c.
  apply core_shows in Ec as [Hcs _]; [done|]. apply Hcaps. by apply list_elem_of_lookup_2 in Hj.
Qed.
End Chokepoint.

(** ** A concrete envelope, and a query through it *)
Module PassRun.
#[local] Instance some_gaze : GazeBuilder := sample_gaze.
#[local] Instance some_json : JsonText := sample_json.
#[local] Instance some_regex : RegexLib := literal_regex.
#[local] Instance some_unicode : Unicode := ascii_unicode.
#[local] Instance some_text : ManifestText := {| args_to_text := Ok; args_of_text := Ok; summary_to_text _ := Ok "{}"%string |}.
#[local] Instance some_discovery : DiscoverySerde := {|
  presented_schema _ := Err "not a schema"%string; presented_tables _ := Ok []; schema_descriptor_text d := Ok (sd_table d);
  tables_descriptor_text d := Ok (td_profile d); sha256_hex s := s |}.
#[local] Instance some_floats : FloatText := {| f64_to_value _ := JNull; f64_of_text _ := None |}.

(** the pipeline hides an address in a text and every text in a row *)
Definition gaze (_ : unit) : GazeSession := {|
  gz_redact := sample_redact; gz_redact_fields := gz_redact_fields (GazeSession := sample_session);
  gz_tokenize _ _ := Ok "<Name_1>"%string; gz_fake _ _ := Ok "Jane"%string; lens_to_value _ := Ok JNull |}.
Definition ask (source tool : string) (args : json) : result LensError SourceOutput := Ok (OutRows [sample_row "Ada"; sample_row "Bob"]).
Definition files : Nodes := {["/" := DirNode 493; "/m" := DirNode 448]}.
Definition disk : Disk.World Db := Disk.mkWorld files (mkDb 3 (Some []) (Some (mkCallTable CALL_COLUMNS []))) [].
Abbreviation Sess := (Session unit string string).
Definition tool_of (tool : string) : option CoreTool := List.find (fun t => String.eqb (tool_name t) tool) core_tools.

(** redacts the arguments, begins, runs the tool, redacts its answer, finishes *)
Definition conduct (s : Sess) (pl : unit) (tool : string) (args : json) (pattern : option string)
  : option (json * Sess * Disk.World Db) :=
  t ← tool_of tool;
  match redact_json_value sample_redact args with
  | Err _ => None
  | Ok args1 =>
    match adapter_begin (adapter "/m/manifest.sqlite" "/m" "L" s) (mkToolCall "C1" tool) args1 (Some 5) disk with
    | (Some (Ok tt), w1) =>
      match tool_invoke (fun s => s) Ok (core gaze Ok ask Met false "C1") "L" t s "C1" args1 (Some pattern) (cache_new 0) 0 0 with
      | (Ok value, s1, _, _) =>
        match redact_json_value sample_redact value with
        | Err _ => None
        | Ok payload =>
          match adapter_finish (adapter "/m/manifest.sqlite" "/m" "L" s1) "x" "C1" true true (Ok ["k"%char]) 0 (Some 8) w1 with
          | (Some (Ok (Ok tt, a)), w') => Some (payload, with_core_summaries s1 (ad_summaries a), w')
          | _ => None
          end
        end
      | _ => None
      end
    | _ => None
    end
  end.
Definition envelope (s : Sess) (pl : unit) (tool : string) (args : json) (pattern : option string) : result DispatchError json * Sess :=
  match conduct s pl tool args pattern with Some (payload, s', _) => (Ok payload, s') | None => (Err DispatchOther, s) end.
Definition after (s : Sess) (pl : unit) (tool : string) (args : json) (pattern : option string) : Disk.World Db :=
  match conduct s pl tool args pattern with Some (_, _, w') => w' | None => disk end.
Definition session : Sess :=
  register_source_for_profile (from_parts (MultiPipeline {["crm"%string := tt]}) (MultiActions ∅) default_caps) Database "crm" "db".
Definition args : json := JObject [("profile"%string, JString "crm"); ("where"%string, JString "alice@example.com")].
Definition the_answer :=
  to_call_tool_result (fun _ => "no clean output"%string) (fun s => s) (Ok tt) envelope (fun _ => Ok) "/m" "L" 0 5
    (with_session session (Some Idle)) "query" (Ok args).

Lemma envelope_passes : EnvelopePasses gaze Ok ask (fun s => s) Ok "/m/manifest.sqlite" "/m" "L" disk envelope after.
Proof.
  intros s pl tool args pattern payload s'. unfold envelope, after.
  destruct (conduct s pl tool args pattern) as [[[p sx] w']|] eqn:E; [|done]. intros [= -> ->]. unfold conduct in E.
  destruct (tool_of tool) as [t|] eqn:Et; [|done]. cbn [mbind option_bind] in E.
  destruct (redact_json_value sample_redact args) as [args1|] eqn:Ea; [|done]. apply redact_json_spec in Ea as [Ha Hs].
  destruct (adapter_begin _ _ _ _ _) as [[[[]|]|] w1] eqn:Eb; try done.
  destruct (tool_invoke _ _ _ _ _ _ _ _ _ _ _ _) as [[[[value|] s1] cache'] warnings] eqn:Ei; try done.
  destruct (redact_json_value sample_redact value) as [v|] eqn:Ev; [|done]. apply redact_json_spec in Ev as [Hv Hvs].
  destruct (adapter_finish _ _ _ _ _ _ _ _ w1) as [[[[[[]|] a]|]|] wx] eqn:Ef; try done. injection E as <- <- <-.
  eapply passes with (t := t) (w2 := w1); [|split; [exact Hs|exact Ha]|exact Eb|exact Ei|auto|exact Ef|].
  - apply List.find_some in Et as [_ Et]. by apply String.eqb_eq.
  - split; [exact Hvs|]. eapply Forall2_impl; [exact Hv|]. by right.
Qed.

Lemma answer_is_redacted_and_recorded_witness :
  ∃ reply f', the_answer = Some (Ok reply, f') ∧
  ∃ args0 args1 path row,
    Recorded gaze "L" disk tt "query" args0 args1 path row (after session tt "query" args0 (json_get args0 "pattern" ≫= as_str)) ∧
    ∃ clean, ShownFrom gaze Ok ask Ok session "query" args1 clean ∧ row_summary row = Some "{}"%string.
Proof.
  assert (Hr : ∃ reply f', the_answer = Some (Ok reply, f')) by (eexists _, _; vm_compute; reflexivity).
  destruct Hr as (reply & f' & Hr). exists reply, f'. split; [exact Hr|].
  assert (Hkeyed : ∀ source tool args output, ask source tool args = Ok output → Keyed output)
    by (intros ???? [= <-]; cbn [Keyed]; apply (bool_decide_unpack _); vm_compute; exact I).
  destruct (answer_is_redacted_and_recorded gaze Ok ask (fun _ => "no clean output"%string) (fun s => s) (Ok tt) (fun _ => Ok) Ok
    "/m/manifest.sqlite" "/m" "L" disk envelope after (fun _ => sample_keeps) Hkeyed
    0 5 _ _ _ _ _ envelope_passes Hr) as (s & routed & [] & args0 & args1 & r & v & row & Hat & _ & _ & _ & _ & _ & Hrec & Hsh).
  injection Hat as <-. exists args0, args1, (tr_snapshot r), row. split; [exact Hrec|].
  destruct Hsh as (clean & ts & Hs & _ & [= <-] & Hrow); [reflexivity|by left|]. exists clean. split; [exact Hs|exact Hrow].
Defined.
End PassRun.

(** ** Two searches, the second in the window of the first *)
Module SearchRun.
Import PassRun.
#[local] Existing Instances some_gaze some_json some_regex some_unicode some_text some_discovery some_floats.
Definition log (source tool : string) (args : json) : result LensError SourceOutput :=
  Ok (OutText (String.concat newline ["login alice@example.com"; "logout bob"; "login bob"]%string)).
Definition log_session : Sess :=
  register_source_for_profile (from_parts (MultiPipeline {["crm"%string := tt]}) (MultiActions ∅) default_caps) Log "crm" "app".
Definition search_args : json :=
  JObject [("mode"%string, JString "keyword"); ("pattern"%string, JString "x"); ("profile"%string, JString "crm")].
Definition search_for (id pattern : string) (now_ at_ : N) : Step (Pl := unit) (Src := string) (B := string) :=
  mkStep LogGrepTool id log_session search_args (Some (Some pattern)) Met false now_ at_.
Definition searches := [search_for "C1" "login" 0 (1 * NANOS); search_for "C2" "bob" (3 * NANOS) (4 * NANOS)].
Definition answers := tool_run gaze Ok log (fun s => s) Ok "L" (cache_new KEYWORD_INDEX_CACHE_TTL) searches.

(** the second shows the line of its own pattern, of the text the first got *)
Lemma searches_show_released_witness :
  ∃ value, answers !! 1%nat = Some (Ok value) ∧
    json_texts value = [String.concat newline ["{}"; "logout bob"; "login bob"]%string] ∧
  ∃ j q' text reasons, (j <= 1)%nat ∧ searches !! j = Some q' ∧
    CoreShown gaze Ok log (st_session q') "log_grep" (st_args q') (CleanText text reasons).
Proof.
  assert (Hr : ∃ value, answers !! 1%nat = Some (Ok value) ∧
    json_texts value = [String.concat newline ["{}"; "logout bob"; "login bob"]%string])
    by (eexists; split; vm_compute; reflexivity).
  destruct Hr as (value & Hr & Ht). exists value. split; [exact Hr|]. split; [exact Ht|].
  assert (Hkeyed : ∀ source tool args output, log source tool args = Ok output → Keyed output) by (by intros ???? [= <-]).
  destruct (searches_show_released gaze Ok log (fun s => s) Ok "L" (fun _ => sample_keeps) Hkeyed searches 1 (search_for "C2" "bob" (3 * NANOS) (4 * NANOS)) value)
    as (p & r & j & q' & text & reasons & _ & _ & Hj & Hq & _ & _ & Hc & _).
  - intros q Hq. repeat (apply elem_of_cons in Hq as [->|Hq]; [vm_compute; reflexivity|]). by apply not_elem_of_nil in Hq.
  - exact Hr.
  - reflexivity.
  - split; vm_compute; reflexivity.
  - exists j, q', text, reasons. split; [exact Hj|]. split; [exact Hq|exact Hc].
Defined.
End SearchRun.
